(** * LitSync: response-completion watcher and streaming-content shortener

    A shallow embedding of the two state machines of the extension's content
    scripts:

    - [Watcher]: [watcherTick] of content.js, the polling state machine that
      decides when a generation has finished;
    - [Shortener]: responseShortener.js ([processShorteningForContainer], its
      finalize callback, [initializeShorteningForContainer],
      [cleanupShorteningForContainer], [throttle]) together with the parts of
      content.js that drive it ([scanAndProcessMessages], [initialize],
      [dismantle] and the [chrome.storage.onChanged] listener).

    and, beside them, the other logic of the same files:

    - [KeepActive]: keep_active.js (the animation-frame loop, the DOM ping
      interval, the toggle message);
    - [WatcherInterval]: [initializeWatcherSystem] and
      [dismantleWatcherSystem];
    - [Filters], [FilterStats]: the universal filter configuration
      ([getFilterConfig], [saveFilterConfig]) and the extension counters
      ([incrementFilterStat], [updateFilterStatsOnSessionEnd], the frequent
      extensions);
    - [Selection]: the check boxes of the file tree ([renderTree], the
      [change] listener, [handleExtensionFilterClick],
      [handleUniversalFilterClick]).

    JavaScript strings are modelled by [string]; all markers the code searches
    for are ASCII, and [indexOf]/[substring] are only ever composed on the same
    string, so the unit in which positions are counted does not matter.  Where
    the code takes the [length] of a text (the watcher), the text is kept as
    the list of its UTF-16 code units.

    What belongs to the browser and not to the extension is kept apart from
    it: the HTML parser behind [innerHTML] is a parameter of the shortener
    ([Shortener.Browser]); names that the HTML parser, and extensions that
    the CSS parser, would not take as they are written lie outside the model
    of [renderTree] and of [handleExtensionFilterClick]; counters are the
    integers a Number holds exactly. *)

From Stdlib Require Import ZArith QArith Ascii.
From stdpp Require Import gmap strings list fin_maps sorting.

Local Open Scope Z_scope.

(** ** JavaScript string primitives used by the two modules *)

Module JsString.

(** [s.startsWith(p)] *)
Fixpoint startsWith (s p : string) {struct p} : bool :=
  match p with
  | EmptyString => true
  | String a p' =>
      match s with
      | EmptyString => false
      | String b s' => if Ascii.eqb a b then startsWith s' p' else false
      end
  end.

(** Scan for the first position at which [pat] starts; [i] is the index of
    the head of [s] in the original string.  [-1] when there is none. *)
Fixpoint indexOfFrom (s pat : string) (i : Z) : Z :=
  if startsWith s pat then i
  else match s with
       | EmptyString => -1
       | String _ s' => indexOfFrom s' pat (i + 1)
       end.

(** [s.indexOf(pat)] *)
Definition indexOf (s pat : string) : Z := indexOfFrom s pat 0.

(** [s.includes(pat)] *)
Definition includes (s pat : string) : bool := negb (indexOf s pat =? -1).

Fixpoint take (n : nat) (s : string) : string :=
  match n, s with
  | S n', String a s' => String a (take n' s')
  | _, _ => EmptyString
  end.

Fixpoint drop (n : nat) (s : string) : string :=
  match n, s with
  | S n', String _ s' => drop n' s'
  | _, _ => s
  end.

(** Index arguments of [substring] are clamped to [0 .. length]. *)
Definition clamp (s : string) (i : Z) : nat :=
  Z.to_nat (Z.min (Z.max i 0) (Z.of_nat (String.length s))).

(** [s.substring(a, b)]: the arguments are clamped and swapped if needed. *)
Definition substring (s : string) (a b : Z) : string :=
  let a' := clamp s a in
  let b' := clamp s b in
  take (Nat.max a' b' - Nat.min a' b') (drop (Nat.min a' b') s).

(** [s.substring(a)] *)
Definition substringFrom (s : string) (a : Z) : string :=
  substring s a (Z.of_nat (String.length s)).

(** [pat] occurs in [s], after [pre] and before [post]. *)
Definition occursAt (pat s pre post : string) : Prop :=
  s = pre +:+ pat +:+ post.

Definition occurs (pat s : string) : Prop :=
  exists pre post, occursAt pat s pre post.

(** The occurrence after [pre] is the leftmost one. *)
Definition firstOccurrence (pat s pre post : string) : Prop :=
  occursAt pat s pre post /\
  forall pre' post', occursAt pat s pre' post' ->
    (String.length pre <= String.length pre')%nat.

(** JavaScript truthiness of a string-valued attribute that may be absent. *)
Definition truthyStr (o : option string) : bool :=
  match o with
  | Some EmptyString | None => false
  | Some _ => true
  end.

End JsString.

(** ** Response completion watcher (content.js, [watcherTick]) *)

Module Watcher.
Import JsString.

Definition RESPONSE_DEBOUNCE_MS : Z := 1200.
Definition WATCHER_TICK_INTERVAL_MS : Z := 300.

Inductive Status := IDLE | GENERATING.

Definition Status_eqb (a b : Status) : bool :=
  match a, b with
  | IDLE, IDLE | GENERATING, GENERATING => true
  | _, _ => false
  end.

Record SoundSettings := {
  enabled : bool;
  sound : string;
  volume : Q
}.

(** The global [watcherSystem] object.  [intervalId] is left out: the model
    covers the time during which the tick interval is installed, and
    [dismantleWatcherSystem] touches no other field. *)
Record WatcherSystem := {
  status : Status;
  lastContentLength : Z;
  stableSince : option Z;               (* null, or a [Date.now()] reading *)
  soundSettings : option SoundSettings  (* null until first loaded *)
}.

Definition initialWatcherSystem : WatcherSystem :=
  {| status := IDLE; lastContentLength := -1;
     stableSince := None; soundSettings := None |}.

(** What one tick can see of the page: the [textContent] of the run button
    ([.run-button]) if there is one, and, for every message container
    ([.chat-turn-container.model.render]) in document order, the
    [textContent] of its content area ([ms-cmark-node]) if it has one.
    The tick takes the [length] of the latter, which counts UTF-16 code
    units, so that text is kept as the list of its code units; of the
    label the tick only asks whether it contains the ASCII word "Stop". *)
Record Page := {
  runButton : option string;
  responseContainers : list (option (list N))
}.

(** A tick reads the page and the clock.  [Date.now()] is called when the
    stability timer is started ([nowSample]) and again in the completion
    test ([nowCheck]); a further reading is only used for a log line. *)
Record TickInput := {
  page : Page;
  nowSample : Z;
  nowCheck : Z
}.

Inductive Effect :=
| PlayCompletionSound (settings : SoundSettings).

(** [chrome.storage.sync.get({soundSettings: {...}})]: the stored value when
    the key is present, the default passed to [get] otherwise. *)
Definition defaultSoundSettings : SoundSettings :=
  {| enabled := false; sound := "complete1"; volume := 1 # 2 |}.

Definition storageGetSoundSettings (stored : option SoundSettings) : SoundSettings :=
  match stored with
  | Some v => v
  | None => defaultSoundSettings
  end.

(** A tick either runs to its end, or is suspended at the [await] of the
    storage read (after its synchronous writes). *)
Inductive TickResult :=
| Completed (s : WatcherSystem) (fx : list Effect)
| AwaitStorage (s : WatcherSystem).

(** Truthiness of [watcherSystem.stableSince]: null and 0 are falsy. *)
Definition truthyTime (o : option Z) : bool :=
  match o with
  | Some t => negb (t =? 0)
  | None => false
  end.

(** The observed content length of the most recent message container:
    [None] when the page has no message container at all. *)
Definition observedLength (p : Page) : option Z :=
  match last (responseContainers p) with
  | Some latestContainer =>
      Some (match latestContainer with
            | Some textContent => Z.of_nat (length textContent)
            | None => 0
            end)
  | None => None
  end.

(** The block "Обновляем состояние стабильности текста". *)
Definition updateStability (i : TickInput) (s : WatcherSystem) : WatcherSystem :=
  match observedLength (page i) with
  | Some currentLength =>
      if lastContentLength s <? currentLength then
        {| status := status s; lastContentLength := currentLength;
           stableSince := None; soundSettings := soundSettings s |}
      else
        match stableSince s with
        | None =>
            {| status := status s; lastContentLength := lastContentLength s;
               stableSince := Some (nowSample i); soundSettings := soundSettings s |}
        | Some _ => s
        end
  | None => s
  end.

Definition completionSound (s : WatcherSystem) : list Effect :=
  match soundSettings s with
  | Some settings => if enabled settings then [PlayCompletionSound settings] else []
  | None => []
  end.

Definition completionDue (isCurrentlyGenerating : bool) (i : TickInput)
    (s : WatcherSystem) : bool :=
  negb isCurrentlyGenerating
  && truthyTime (stableSince s)
  && match stableSince s with
     | Some t => RESPONSE_DEBOUNCE_MS <=? nowCheck i - t
     | None => false
     end.

Definition watcherTick (i : TickInput) (s : WatcherSystem) : TickResult :=
  match runButton (page i) with
  | None => Completed s []
  | Some label =>
      let isCurrentlyGenerating := includes label "Stop" in
      if Status_eqb (status s) IDLE && isCurrentlyGenerating then
        AwaitStorage {| status := GENERATING; lastContentLength := -1;
                        stableSince := None; soundSettings := soundSettings s |}
      else if Status_eqb (status s) GENERATING then
        let s1 := updateStability i s in
        if completionDue isCurrentlyGenerating i s1 then
          Completed {| status := IDLE; lastContentLength := lastContentLength s1;
                       stableSince := stableSince s1;
                       soundSettings := soundSettings s1 |}
                    (completionSound s1)
        else Completed s1 []
      else Completed s []
  end.

(** The rest of the tick after the [await]: it writes to the global object
    as it is when the read resolves. *)
Definition resumeTick (stored : option SoundSettings) (s : WatcherSystem)
    : WatcherSystem :=
  {| status := status s; lastContentLength := lastContentLength s;
     stableSince := stableSince s;
     soundSettings := Some (storageGetSoundSettings stored) |}.

(** *** The watcher as an event system

    The interval timer starts ticks; a suspended tick is resumed when its
    storage read resolves, possibly after later ticks have run.  [played]
    and [completions] are not program state: they record what has been
    observed of the run so far. *)
Record System := {
  ws : WatcherSystem;
  pendingReads : nat;       (* ticks suspended at the storage read *)
  played : list Effect;     (* side effects so far, oldest first *)
  completions : nat         (* GENERATING->IDLE transitions so far *)
}.

Inductive Event :=
| Tick (i : TickInput)
| SettingsLoaded (stored : option SoundSettings).

Definition initialSystem : System :=
  {| ws := initialWatcherSystem; pendingReads := 0; played := []; completions := 0 |}.

Definition isCompletion (before after : WatcherSystem) : bool :=
  Status_eqb (status before) GENERATING && Status_eqb (status after) IDLE.

Definition step (sys : System) (e : Event) : System :=
  match e with
  | Tick i =>
      match watcherTick i (ws sys) with
      | Completed s fx =>
          {| ws := s; pendingReads := pendingReads sys; played := played sys ++ fx;
             completions := if isCompletion (ws sys) s then S (completions sys)
                            else completions sys |}
      | AwaitStorage s =>
          {| ws := s; pendingReads := S (pendingReads sys); played := played sys;
             completions := completions sys |}
      end
  | SettingsLoaded stored =>
      match pendingReads sys with
      | O => sys
      | S n => {| ws := resumeTick stored (ws sys); pendingReads := n;
                  played := played sys; completions := completions sys |}
      end
  end.

Definition run (evs : list Event) (sys : System) : System :=
  foldl step sys evs.

Definition reachable (sys : System) : Prop :=
  exists evs, sys = run evs initialSystem.

(** The label shown by the run control does not announce a generation in
    progress (or the control is missing). *)
Definition quietTick (e : Event) : Prop :=
  match e with
  | Tick i =>
      match runButton (page i) with
      | Some label => includes label "Stop" = false
      | None => True
      end
  | SettingsLoaded _ => True
  end.

(** *** Sample states and inputs, used to exercise the statements *)

Definition sampleSettled : WatcherSystem :=
  {| status := GENERATING; lastContentLength := 5;
     stableSince := Some 1762000000000;
     soundSettings := Some {| enabled := true; sound := "complete1"; volume := 1 # 2 |} |}.

Definition sampleIdle : WatcherSystem :=
  {| status := IDLE; lastContentLength := 5;
     stableSince := Some 1762000000000;
     soundSettings := Some {| enabled := true; sound := "complete2"; volume := 1 |} |}.

(** The code units of a text of ASCII characters: one unit each. *)
Fixpoint asciiUnits (s : string) : list N :=
  match s with
  | EmptyString => []
  | String a r => N_of_ascii a :: asciiUnits r
  end.

Definition samplePage (label text : string) : Page :=
  {| runButton := Some label;
     responseContainers := [None; Some (asciiUnits text)] |}.

Definition sampleTick (label text : string) (now : Z) : TickInput :=
  {| page := samplePage label text; nowSample := now; nowCheck := now |}.

(** A whole generation: the label turns to "Stop", the answer grows to
    five characters, stays there, and the label turns back to "Run". *)
Definition completedGeneration : list Event :=
  [ Tick (sampleTick "Stop" "" 1762000000000);
    SettingsLoaded None;
    Tick (sampleTick "Stop" "Hello" 1762000000300);
    Tick (sampleTick "Stop" "Hello" 1762000000600);
    Tick (sampleTick "Run" "Hello" 1762000001800) ].

(** A generation in which the answer gets shorter: five characters, then
    three. *)
Definition shrinkingGeneration : list Event :=
  [ Tick (sampleTick "Stop" "" 1762000000000);
    SettingsLoaded None;
    Tick (sampleTick "Stop" "Hello" 1762000000300);
    Tick (sampleTick "Stop" "Hel" 1762000000600) ].

End Watcher.

(** ** Stream shortener and periodic scanner
    (responseShortener.js; content.js: scanner, life cycle, storage listener) *)

Module Shortener.
Import JsString.

Definition START_TAG_ESCAPED : string := "&lt;files&gt;".
Definition END_TAG_ESCAPED : string := "&lt;/files&gt;".
Definition SHORTENED_CONTENT_CLASS : string := "litsync-shortened-content".
Definition SHORTEN_PROCESS_THROTTLE_MS : Z := 100.
Definition SHORTEN_FINALIZE_DEBOUNCE_MS : Z := 250.
Definition SCAN_INTERVAL_MS : Z := 250.

Definition dquote : string := String (Ascii.ascii_of_nat 34) EmptyString.

(** [createShortenedPlaceholder().outerHTML]: a [div] of class
    [SHORTENED_CONTENT_CLASS] holding the spinner [div] and the label. *)
Definition placeholderOuterHTML : string :=
  "<div class=" +:+ dquote +:+ SHORTENED_CONTENT_CLASS +:+ dquote +:+ ">"
  +:+ "<div class=" +:+ dquote +:+ "litsync-spinner" +:+ dquote +:+ "></div>"
  +:+ "Код файлов проекта сокращен для удобства."
  +:+ "</div>".

(** *** The browser's HTML parser

    [element.innerHTML = s] parses [s] as a fragment and puts the nodes it
    gets in place of the children of the element; reading [innerHTML]
    serialises the children.  What is read back after an assignment is
    therefore the serialisation of the parsed fragment.  It is [s] itself
    only if [s] is in serialised form already: an element that [s] leaves
    open before the placeholder, for one, is read back closed.  The parser
    is the browser's, not the extension's: [reparse s] stands for the markup
    that is read back once [s] has been assigned, and nothing is assumed
    of it. *)
Class Browser := { reparse : string -> string }.

(** *** The document *)

(** The content area ([ms-cmark-node]) of a message: its markup as
    [innerHTML] reads it, and the two data attributes that hold the state
    machine ([STATE_ATTR], [PREFIX_ATTR]). *)
Record ContentArea := {
  innerHTML : string;
  litsyncShortened : option string;     (* absent | 'streaming' | 'final' *)
  litsyncHtmlBefore : option string
}.

Inductive Position := Static | Relative | OtherPosition.

(** A message container ([.chat-turn-container.model.render]).  A container
    has at most one content area, which stays the same element. *)
Record MessageContainer := {
  processedMarker : bool;               (* class PROCESSED_MARKER *)
  position : Position;
  syncButtons : nat;                    (* children of class SYNC_BUTTON_CLASS *)
  litsyncShortenInit : option string;   (* data-litsync-shorten-init *)
  contentArea : option ContentArea
}.

Inductive PromptChild := HostChild | CraftButton.

#[global] Instance PromptChild_eq_dec : EqDecision PromptChild.
Proof. solve_decision. Defined.

Record PromptWrapper := {
  wrapperProcessed : bool;
  wrapperChildren : list PromptChild
}.

(** A connected [MutationObserver]; [pendingRecords] tells whether mutation
    records are queued for delivery at the end of the running task. *)
Record MutationObserver := { pendingRecords : bool }.

Inductive TimerCallback :=
| ThrottleCallback (c : nat)     (* the arrow function inside [throttle] *)
| FinalizeCallback (c : nat).    (* the arrow function armed by the streaming branch *)

Record Storage := {
  storedIsEnabled : bool;
  storedIsShortenEnabled : bool
}.

(** What the extension does to a content area, in program order. *)
Inductive Action :=
| ReadMarkup (c : nat)
| WriteMarkup (c : nat) (html : string)
| SetPhase (c : nat) (phase : string)
| StorePrefix (c : nat) (html : string)
| RemovePrefix (c : nat)
| Observe (c : nat)
| Disconnect (c : nat)
| SetTimeout (t : positive) (cb : TimerCallback)
| ClearTimeout (t : positive).

(** Message containers are identified by their position in document order
    (containers are only ever appended); the content area of container [c]
    is identified by [c] as well.  The two [WeakMap]s of responseShortener.js
    are keyed by these identities.  [trace] is not program state: it records
    the actions of the extension, oldest first. *)
Record World := {
  messageContainers : list MessageContainer;
  promptWrappers : list PromptWrapper;
  (* content.js globals *)
  domScannerInterval : bool;
  isShortenEnabled : bool;
  (* responseShortener.js module state *)
  shortenObserverMap : gmap nat MutationObserver;
  debounceTimerMap : gmap nat positive;
  throttleTimeoutId : gmap nat positive;  (* [timeoutId] of each throttle closure; absent = null *)
  (* browser *)
  timers : gmap positive TimerCallback;   (* timers set and not yet fired or cleared *)
  nextTimerId : positive;
  storage : Storage;
  trace : list Action
}.

Definition setContainers (l : list MessageContainer) (w : World) : World :=
  {| messageContainers := l; promptWrappers := promptWrappers w;
     domScannerInterval := domScannerInterval w; isShortenEnabled := isShortenEnabled w;
     shortenObserverMap := shortenObserverMap w; debounceTimerMap := debounceTimerMap w;
     throttleTimeoutId := throttleTimeoutId w; timers := timers w;
     nextTimerId := nextTimerId w; storage := storage w; trace := trace w |}.

Definition setWrappers (l : list PromptWrapper) (w : World) : World :=
  {| messageContainers := messageContainers w; promptWrappers := l;
     domScannerInterval := domScannerInterval w; isShortenEnabled := isShortenEnabled w;
     shortenObserverMap := shortenObserverMap w; debounceTimerMap := debounceTimerMap w;
     throttleTimeoutId := throttleTimeoutId w; timers := timers w;
     nextTimerId := nextTimerId w; storage := storage w; trace := trace w |}.

Definition setScannerInterval (b : bool) (w : World) : World :=
  {| messageContainers := messageContainers w; promptWrappers := promptWrappers w;
     domScannerInterval := b; isShortenEnabled := isShortenEnabled w;
     shortenObserverMap := shortenObserverMap w; debounceTimerMap := debounceTimerMap w;
     throttleTimeoutId := throttleTimeoutId w; timers := timers w;
     nextTimerId := nextTimerId w; storage := storage w; trace := trace w |}.

Definition setShortenEnabled (b : bool) (w : World) : World :=
  {| messageContainers := messageContainers w; promptWrappers := promptWrappers w;
     domScannerInterval := domScannerInterval w; isShortenEnabled := b;
     shortenObserverMap := shortenObserverMap w; debounceTimerMap := debounceTimerMap w;
     throttleTimeoutId := throttleTimeoutId w; timers := timers w;
     nextTimerId := nextTimerId w; storage := storage w; trace := trace w |}.

Definition setObserverMap (m : gmap nat MutationObserver) (w : World) : World :=
  {| messageContainers := messageContainers w; promptWrappers := promptWrappers w;
     domScannerInterval := domScannerInterval w; isShortenEnabled := isShortenEnabled w;
     shortenObserverMap := m; debounceTimerMap := debounceTimerMap w;
     throttleTimeoutId := throttleTimeoutId w; timers := timers w;
     nextTimerId := nextTimerId w; storage := storage w; trace := trace w |}.

Definition setDebounceMap (m : gmap nat positive) (w : World) : World :=
  {| messageContainers := messageContainers w; promptWrappers := promptWrappers w;
     domScannerInterval := domScannerInterval w; isShortenEnabled := isShortenEnabled w;
     shortenObserverMap := shortenObserverMap w; debounceTimerMap := m;
     throttleTimeoutId := throttleTimeoutId w; timers := timers w;
     nextTimerId := nextTimerId w; storage := storage w; trace := trace w |}.

Definition setThrottleMap (m : gmap nat positive) (w : World) : World :=
  {| messageContainers := messageContainers w; promptWrappers := promptWrappers w;
     domScannerInterval := domScannerInterval w; isShortenEnabled := isShortenEnabled w;
     shortenObserverMap := shortenObserverMap w; debounceTimerMap := debounceTimerMap w;
     throttleTimeoutId := m; timers := timers w;
     nextTimerId := nextTimerId w; storage := storage w; trace := trace w |}.

Definition setTimers (m : gmap positive TimerCallback) (n : positive) (w : World) : World :=
  {| messageContainers := messageContainers w; promptWrappers := promptWrappers w;
     domScannerInterval := domScannerInterval w; isShortenEnabled := isShortenEnabled w;
     shortenObserverMap := shortenObserverMap w; debounceTimerMap := debounceTimerMap w;
     throttleTimeoutId := throttleTimeoutId w; timers := m;
     nextTimerId := n; storage := storage w; trace := trace w |}.

Definition setStorage (st : Storage) (w : World) : World :=
  {| messageContainers := messageContainers w; promptWrappers := promptWrappers w;
     domScannerInterval := domScannerInterval w; isShortenEnabled := isShortenEnabled w;
     shortenObserverMap := shortenObserverMap w; debounceTimerMap := debounceTimerMap w;
     throttleTimeoutId := throttleTimeoutId w; timers := timers w;
     nextTimerId := nextTimerId w; storage := st; trace := trace w |}.

Definition emit (a : Action) (w : World) : World :=
  {| messageContainers := messageContainers w; promptWrappers := promptWrappers w;
     domScannerInterval := domScannerInterval w; isShortenEnabled := isShortenEnabled w;
     shortenObserverMap := shortenObserverMap w; debounceTimerMap := debounceTimerMap w;
     throttleTimeoutId := throttleTimeoutId w; timers := timers w;
     nextTimerId := nextTimerId w; storage := storage w; trace := trace w ++ [a] |}.

(** *** Browser primitives *)

Definition getContentArea (c : nat) (w : World) : option ContentArea :=
  match messageContainers w !! c with
  | Some mc => contentArea mc
  | None => None
  end.

Definition withContentArea (f : ContentArea -> ContentArea) (mc : MessageContainer)
    : MessageContainer :=
  {| processedMarker := processedMarker mc; position := position mc;
     syncButtons := syncButtons mc; litsyncShortenInit := litsyncShortenInit mc;
     contentArea := f <$> contentArea mc |}.

Definition updateContentArea (c : nat) (f : ContentArea -> ContentArea) (w : World)
    : World :=
  match messageContainers w !! c with
  | Some mc => setContainers (<[c := withContentArea f mc]> (messageContainers w)) w
  | None => w
  end.

(** A change below content area [c] queues a record for the observer that
    watches it ([childList], [subtree], [characterData]), if there is one. *)
Definition queueRecord (c : nat) (w : World) : World :=
  match shortenObserverMap w !! c with
  | Some _ => setObserverMap (<[c := {| pendingRecords := true |}]> (shortenObserverMap w)) w
  | None => w
  end.

Definition writeMarkup (c : nat) (html : string) (w : World) : World :=
  queueRecord c
    (updateContentArea c
       (fun ca => {| innerHTML := html; litsyncShortened := litsyncShortened ca;
                     litsyncHtmlBefore := litsyncHtmlBefore ca |}) w).

Section WithBrowser.
Context {browser : Browser}.

(** [contentArea.innerHTML = html] executed by the extension: [html] is the
    string assigned, [reparse html] the markup the content area then has. *)
Definition setInnerHTML (c : nat) (html : string) (w : World) : World :=
  writeMarkup c (reparse html) (emit (WriteMarkup c html) w).

(** Attribute writes are not observed (the observer has no [attributes] option). *)
Definition setPhase (c : nat) (phase : string) (w : World) : World :=
  updateContentArea c
    (fun ca => {| innerHTML := innerHTML ca; litsyncShortened := Some phase;
                  litsyncHtmlBefore := litsyncHtmlBefore ca |})
    (emit (SetPhase c phase) w).

Definition setPrefix (c : nat) (html : string) (w : World) : World :=
  updateContentArea c
    (fun ca => {| innerHTML := innerHTML ca; litsyncShortened := litsyncShortened ca;
                  litsyncHtmlBefore := Some html |})
    (emit (StorePrefix c html) w).

Definition removePrefix (c : nat) (w : World) : World :=
  updateContentArea c
    (fun ca => {| innerHTML := innerHTML ca; litsyncShortened := litsyncShortened ca;
                  litsyncHtmlBefore := None |})
    (emit (RemovePrefix c) w).

(** [setTimeout(cb, delay)]: a fresh positive identifier. *)
Definition setTimeout (cb : TimerCallback) (w : World) : positive * World :=
  let t := nextTimerId w in
  (t, emit (SetTimeout t cb) (setTimers (<[t := cb]> (timers w)) (Pos.succ t) w)).

Definition clearTimeout (t : positive) (w : World) : World :=
  emit (ClearTimeout t) (setTimers (delete t (timers w)) (nextTimerId w) w).

(** *** responseShortener.js *)

(** The function returned by [throttle]: arm the timer unless one is armed. *)
Definition throttledProcess (c : nat) (w : World) : World :=
  match throttleTimeoutId w !! c with
  | Some _ => w
  | None =>
      let (t, w1) := setTimeout (ThrottleCallback c) w in
      setThrottleMap (<[c := t]> (throttleTimeoutId w1)) w1
  end.

(** [cleanupShorteningForContainer(container)] *)
Definition cleanupShorteningForContainer (c : nat) (w : World) : World :=
  let w1 :=
    match shortenObserverMap w !! c with
    | Some _ =>
        let w' := emit (Disconnect c) w in
        setObserverMap (delete c (shortenObserverMap w')) w'
    | None => w
    end in
  match getContentArea c w1 with
  | Some _ =>
      match debounceTimerMap w1 !! c with
      | Some timer =>
          let w2 := clearTimeout timer w1 in
          setDebounceMap (delete c (debounceTimerMap w2)) w2
      | None => w1
      end
  | None => w1
  end.

(** The callback armed by the streaming branch, run when the debounce
    timer fires.  [contentArea.closest(...)] is the container [c] itself. *)
Definition finalizeCallback (c : nat) (w : World) : World :=
  match getContentArea c w with
  | None => w
  | Some ca =>
      let w0 := emit (ReadMarkup c) w in
      let finalHtmlContent := innerHTML ca in
      let finalEndIndex := indexOf finalHtmlContent END_TAG_ESCAPED in
      if finalEndIndex =? -1 then w0
      else
        let w1 := cleanupShorteningForContainer c w0 in
        let htmlBefore :=
          match litsyncHtmlBefore ca with
          | Some h => h
          | None => ""
          end in
        let htmlAfter :=
          substringFrom finalHtmlContent
            (finalEndIndex + Z.of_nat (String.length END_TAG_ESCAPED)) in
        let w2 := setInnerHTML c (htmlBefore +:+ placeholderOuterHTML +:+ htmlAfter) w1 in
        let w3 := setPhase c "final" w2 in
        let w4 := removePrefix c w3 in
        setDebounceMap (delete c (debounceTimerMap w4)) w4
  end.

(** [processShorteningForContainer(contentArea)] *)
Definition processShorteningForContainer (c : nat) (w : World) : World :=
  match getContentArea c w with
  | None => w
  | Some ca =>
      let currentState := litsyncShortened ca in
      if bool_decide (currentState = Some "final") then w
      else
        let w0 := emit (ReadMarkup c) w in
        let fullHtml := innerHTML ca in
        if bool_decide (currentState = Some "streaming") then
          if includes fullHtml END_TAG_ESCAPED then
            let w1 :=
              match debounceTimerMap w0 !! c with
              | Some existingTimer => clearTimeout existingTimer w0
              | None => w0
              end in
            let (newTimer, w2) := setTimeout (FinalizeCallback c) w1 in
            setDebounceMap (<[c := newTimer]> (debounceTimerMap w2)) w2
          else w0
        else
          let startIndex := indexOf fullHtml START_TAG_ESCAPED in
          if -1 <? startIndex then
            let htmlBefore := substring fullHtml 0 startIndex in
            let w1 := setPrefix c htmlBefore w0 in
            let w2 := setInnerHTML c (htmlBefore +:+ placeholderOuterHTML) w1 in
            setPhase c "streaming" w2
          else w0
  end.

Definition setShortenInit (c : nat) (w : World) : World :=
  match messageContainers w !! c with
  | Some mc =>
      setContainers
        (<[c := {| processedMarker := processedMarker mc; position := position mc;
                   syncButtons := syncButtons mc; litsyncShortenInit := Some "true";
                   contentArea := contentArea mc |}]> (messageContainers w)) w
  | None => w
  end.

(** [initializeShorteningForContainer(container, contentArea)], called with
    the content area of [c].  The throttle closure is created here, once per
    container, with [timeoutId = null]. *)
Definition initializeShorteningForContainer (c : nat) (w : World) : World :=
  match messageContainers w !! c with
  | Some mc =>
      match contentArea mc with
      | Some _ =>
          if truthyStr (litsyncShortenInit mc) then w
          else
            let w1 := setShortenInit c w in
            let w2 := emit (Observe c) w1 in
            let w3 := setObserverMap
                        (<[c := {| pendingRecords := false |}]> (shortenObserverMap w2)) w2 in
            throttledProcess c w3
      | None => w
      end
  | None => w
  end.

(** *** content.js *)

Definition markMessageProcessed (mc : MessageContainer) : MessageContainer :=
  {| processedMarker := true;
     position := match position mc with Static => Relative | p => p end;
     syncButtons := S (syncButtons mc);
     litsyncShortenInit := litsyncShortenInit mc;
     contentArea := contentArea mc |}.

(** Body of the first [forEach] of [scanAndProcessMessages]; the selector
    [:not(.PROCESSED_MARKER)] is the test on [processedMarker]. *)
Definition scanMessageContainer (w : World) (c : nat) : World :=
  match messageContainers w !! c with
  | Some mc =>
      if processedMarker mc then w
      else
        let w1 := setContainers (<[c := markMessageProcessed mc]> (messageContainers w)) w in
        if isShortenEnabled w1 then
          match contentArea mc with
          | Some _ => initializeShorteningForContainer c w1
          | None => w1
          end
        else w1
  | None => w
  end.

(** [container.insertBefore(craftButton, container.children[2])], or
    [appendChild] when there is no third child. *)
Definition insertCraftButton (children : list PromptChild) : list PromptChild :=
  match children !! 2%nat with
  | Some _ => firstn 2 children ++ CraftButton :: skipn 2 children
  | None => children ++ [CraftButton]
  end.

Definition scanPromptWrapper (pw : PromptWrapper) : PromptWrapper :=
  if wrapperProcessed pw then pw
  else {| wrapperProcessed := true;
          wrapperChildren := insertCraftButton (wrapperChildren pw) |}.

Definition scanAndProcessMessages (w : World) : World :=
  let w1 := foldl scanMessageContainer w (seq 0 (length (messageContainers w))) in
  setWrappers (scanPromptWrapper <$> promptWrappers w1) w1.

(** [initialize()]; the storage callback is taken to run at once. *)
Definition initialize (w : World) : World :=
  if domScannerInterval w then w
  else setScannerInterval true
         (setShortenEnabled (storedIsShortenEnabled (storage w)) w).

Definition cleanupAll (w : World) : World :=
  foldl (fun w c => cleanupShorteningForContainer c w) w
        (seq 0 (length (messageContainers w))).

Definition removeButtonsAndMarker (mc : MessageContainer) : MessageContainer :=
  {| processedMarker := false; position := position mc; syncButtons := 0;
     litsyncShortenInit := litsyncShortenInit mc; contentArea := contentArea mc |}.

Definition removeCraftAndMarker (pw : PromptWrapper) : PromptWrapper :=
  {| wrapperProcessed := false;
     wrapperChildren :=
       filter (fun ch => ch <> CraftButton) (wrapperChildren pw) |}.

(** [dismantle()], as far as the scanner and the shortener are concerned. *)
Definition dismantle (w : World) : World :=
  let w1 := setScannerInterval false w in
  let w2 := cleanupAll w1 in
  let w3 := setContainers (removeButtonsAndMarker <$> messageContainers w2) w2 in
  setWrappers (removeCraftAndMarker <$> promptWrappers w3) w3.

(** The [chrome.storage.onChanged] listener, for a change in the [sync]
    area; a component is [Some v] when the key changed to [v]. *)
Definition onStorageChanged (newIsEnabled newIsShortenEnabled : option bool)
    (w : World) : World :=
  let w1 :=
    match newIsEnabled with
    | Some true => initialize w
    | Some false => dismantle w
    | None => w
    end in
  match newIsShortenEnabled with
  | Some v =>
      let w2 := setShortenEnabled v w1 in
      if v then w2 else cleanupAll w2
  | None => w1
  end.

(** *** The event loop *)

(** Delivery of queued mutation records to the observer callback
    ([throttledProcess]) at the end of a task. *)
Definition deliverRecords (w : World) (c : nat) : World :=
  match shortenObserverMap w !! c with
  | Some {| pendingRecords := true |} =>
      throttledProcess c
        (setObserverMap (<[c := {| pendingRecords := false |}]> (shortenObserverMap w)) w)
  | _ => w
  end.

Definition microtaskCheckpoint (w : World) : World :=
  foldl deliverRecords w (seq 0 (length (messageContainers w))).

Definition runTimer (cb : TimerCallback) (w : World) : World :=
  match cb with
  | ThrottleCallback c =>
      let w1 := processShorteningForContainer c w in
      setThrottleMap (delete c (throttleTimeoutId w1)) w1
  | FinalizeCallback c => finalizeCallback c w
  end.

Inductive Event :=
| HostAppendMessage (content : option string)
| HostAppendPromptWrapper (children : nat)
| HostSetMarkup (c : nat) (html : string)
| ScannerTick
| TimerFires (t : positive)
| StorageChanged (newIsEnabled newIsShortenEnabled : option bool).

Definition newMessageContainer (content : option string) : MessageContainer :=
  {| processedMarker := false; position := Static; syncButtons := 0;
     litsyncShortenInit := None;
     contentArea :=
       (fun html => {| innerHTML := html; litsyncShortened := None;
                       litsyncHtmlBefore := None |}) <$> content |}.

Definition applyStorageChange (newIsEnabled newIsShortenEnabled : option bool)
    (st : Storage) : Storage :=
  {| storedIsEnabled := default (storedIsEnabled st) newIsEnabled;
     storedIsShortenEnabled := default (storedIsShortenEnabled st) newIsShortenEnabled |}.

Definition task (e : Event) (w : World) : World :=
  match e with
  | HostAppendMessage content =>
      setContainers (messageContainers w ++ [newMessageContainer content]) w
  | HostAppendPromptWrapper n =>
      setWrappers (promptWrappers w ++
                   [{| wrapperProcessed := false;
                       wrapperChildren := replicate n HostChild |}]) w
  | HostSetMarkup c html => writeMarkup c html w
  | ScannerTick => if domScannerInterval w then scanAndProcessMessages w else w
  | TimerFires t =>
      match timers w !! t with
      | Some cb => runTimer cb (setTimers (delete t (timers w)) (nextTimerId w) w)
      | None => w
      end
  | StorageChanged e s =>
      onStorageChanged e s (setStorage (applyStorageChange e s (storage w)) w)
  end.

Definition step (w : World) (e : Event) : World :=
  microtaskCheckpoint (task e w).

Definition run (evs : list Event) (w : World) : World := foldl step w evs.

(** The world when the content script has been loaded into an empty page:
    [chrome.storage.sync.get({isEnabled: true}, ...)] calls [initialize]
    when the extension is enabled. *)
Definition emptyWorld (st : Storage) : World :=
  {| messageContainers := []; promptWrappers := [];
     domScannerInterval := false; isShortenEnabled := false;
     shortenObserverMap := ∅; debounceTimerMap := ∅; throttleTimeoutId := ∅;
     timers := ∅; nextTimerId := 1%positive; storage := st; trace := [] |}.

Definition boot (st : Storage) : World :=
  if storedIsEnabled st then initialize (emptyWorld st) else emptyWorld st.

Definition reachable (w : World) : Prop :=
  exists st evs, w = run evs (boot st).

End WithBrowser.

(** *** Observations used in the statements *)

Definition phase (c : nat) (w : World) : option string :=
  match getContentArea c w with
  | Some ca => litsyncShortened ca
  | None => None
  end.

Definition markup (c : nat) (w : World) : option string :=
  innerHTML <$> getContentArea c w.

Definition storedPrefix (c : nat) (w : World) : option string :=
  match getContentArea c w with
  | Some ca => litsyncHtmlBefore ca
  | None => None
  end.

Definition isFinalTransition (c : nat) (a : Action) : bool :=
  match a with
  | SetPhase c' p => (c' =? c)%nat && bool_decide (p = "final")
  | _ => false
  end.

(** Number of STREAMING->FINAL transitions of container [c] so far. *)
Definition finalTransitions (c : nat) (w : World) : nat :=
  length (filter (fun a => isFinalTransition c a = true) (trace w)).

(** A finalize timer of container [c] is outstanding under identifier [t]. *)
Definition finalizePending (c : nat) (t : positive) (w : World) : Prop :=
  timers w !! t = Some (FinalizeCallback c).

(** A shortener instance is attached to container [c]. *)
Definition wired (c : nat) (w : World) : Prop :=
  is_Some (shortenObserverMap w !! c).

(** Actions on the content area of container [c] itself. *)
Definition touches (c : nat) (a : Action) : bool :=
  match a with
  | ReadMarkup c' | WriteMarkup c' _ | SetPhase c' _
  | StorePrefix c' _ | RemovePrefix c' => bool_decide (c' = c)
  | _ => false
  end.

Definition contentActions (c : nat) (w : World) : list Action :=
  filter (fun a => touches c a = true) (trace w).

(** Timer identifiers are handed out in increasing order, and every
    outstanding finalize timer is the one recorded in [debounceTimerMap]. *)
Definition timersFresh (w : World) : Prop :=
  forall t cb, timers w !! t = Some cb -> (t < nextTimerId w)%positive.

Definition finalizeTracked (w : World) : Prop :=
  forall t c, finalizePending c t w -> debounceTimerMap w !! c = Some t.

Definition timersConsistent (w : World) : Prop :=
  timersFresh w /\ finalizeTracked w.

(** Two worlds with the same timers and the same [debounceTimerMap]. *)
Definition sameSchedule (w' w : World) : Prop :=
  timers w' = timers w
  /\ nextTimerId w' = nextTimerId w
  /\ debounceTimerMap w' = debounceTimerMap w.

(** Container [c] has reached FINAL and no finalize timer is left for it. *)
Definition settled (c : nat) (w : World) : Prop :=
  phase c w = Some "final" /\ forall t, ~ finalizePending c t w.

(** From [w] to [w'] the extension has left the content area of [c] alone:
    same phase, no action on it, no new finalize timer for it. *)
Definition quiet (c : nat) (w w' : World) : Prop :=
  phase c w' = phase c w
  /\ contentActions c w' = contentActions c w
  /\ forall t, finalizePending c t w' -> finalizePending c t w.

Definition isProcessed (c : nat) (w : World) : Prop :=
  exists mc, messageContainers w !! c = Some mc /\ processedMarker mc = true.

(** From [w] to [w'] container [c] keeps its processed marker and gets no
    shortener. *)
Definition keeps (c : nat) (w w' : World) : Prop :=
  (isProcessed c w -> isProcessed c w')
  /\ (wired c w' -> wired c w).

(** Container [c] carries the processed marker and has no shortener. *)
Definition processedUnwired (c : nat) (w : World) : Prop :=
  isProcessed c w /\ ~ wired c w.

(** *** Sample worlds, used to exercise the statements *)

(** Two strings that leave a paragraph open before the placeholder, and
    what an HTML parser makes of them: the [div] closes the paragraph, and
    an end tag left over opens and closes an empty one. *)
Definition openPrefix : string := "<p>A " +:+ placeholderOuterHTML.

Definition openPrefixParsed : string := "<p>A </p>" +:+ placeholderOuterHTML.

Definition openParagraph : string :=
  "<p>A " +:+ placeholderOuterHTML +:+ " tail</p>".

Definition openParagraphParsed : string :=
  "<p>A </p>" +:+ placeholderOuterHTML +:+ " tail<p></p>".

(** The browser of the sample worlds: it reads [openPrefix] and
    [openParagraph] back as parsed, and the other strings that are assigned
    in the samples, which are in serialised form, as they are. *)
Definition sampleBrowser : Browser :=
  {| reparse s :=
       if String.eqb s openPrefix then openPrefixParsed
       else if String.eqb s openParagraph then openParagraphParsed
       else s |}.

Definition sampleStorage : Storage :=
  {| storedIsEnabled := true; storedIsShortenEnabled := true |}.

Definition sampleInput : string :=
  "<p>A</p>&lt;files&gt;BIGBLOB&lt;/files&gt;<p>Z</p>".

(** A message holding [sampleInput] has been found by the scanner and wired,
    but not processed yet. *)
Definition freshlyWired : World :=
  run (browser := sampleBrowser)
    [HostAppendMessage (Some sampleInput); ScannerTick] (boot sampleStorage).

(** The first processing step has put the placeholder in; the page has
    delivered [sampleInput] again; the next processing step has seen the end
    marker and armed the finalize timer (timer 3). *)
Definition endMarkerSeen : World :=
  run (browser := sampleBrowser)
    [TimerFires 1; HostSetMarkup 0 sampleInput; TimerFires 2] freshlyWired.

(** As [endMarkerSeen], but the page has since replaced the markup by one
    without end marker. *)
Definition endMarkerGone : World :=
  run (browser := sampleBrowser)
    [HostSetMarkup 0 "<p>A</p>&lt;files&gt;BIGB"] endMarkerSeen.

(** An answer whose paragraph is still open where the start marker stands,
    found by the scanner and wired. *)
Definition openWired : World :=
  run (browser := sampleBrowser)
    [HostAppendMessage (Some "<p>A &lt;files&gt;BIG</p>"); ScannerTick]
    (boot sampleStorage).

(** The first processing step has put the placeholder in; the page has
    delivered the whole answer; the next processing step has seen the end
    marker and armed the finalize timer (timer 3). *)
Definition openEndMarkerSeen : World :=
  run (browser := sampleBrowser)
    [TimerFires 1;
     HostSetMarkup 0 "<p>A &lt;files&gt;BIG&lt;/files&gt; tail</p>";
     TimerFires 2] openWired.

Definition shortenOffStorage : Storage :=
  {| storedIsEnabled := true; storedIsShortenEnabled := false |}.

(** A message is on the page, shortening is switched off, the scanner has
    not run yet. *)
Definition beforeFirstScan : World :=
  run (browser := sampleBrowser)
    [HostAppendMessage (Some sampleInput)] (boot shortenOffStorage).

(** Shortening is switched on, then the whole extension off and on again. *)
Definition offAndOnAgain : list Event :=
  [ StorageChanged None (Some true);
    StorageChanged (Some false) None;
    StorageChanged (Some true) None;
    ScannerTick ].

(** The event does not switch the whole extension off. *)
Definition keepsExtensionOn (e : Event) : Prop :=
  match e with
  | StorageChanged (Some false) _ => False
  | _ => True
  end.

End Shortener.

(** ** Further observations on the shortener's world *)

Module Wiring.
Import JsString Shortener.

(** Container [c] carries a truthy [data-litsync-shorten-init]. *)
Definition initFlagged (c : nat) (w : World) : Prop :=
  exists mc, messageContainers w !! c = Some mc
             /\ truthyStr (litsyncShortenInit mc) = true.

(** What [scanAndProcessMessages] leaves of a message container: the
    marker, one more button unless it was marked already, the position
    adjusted, the content area as it was. *)
Definition scannedFrom (mc mc' : MessageContainer) : Prop :=
  processedMarker mc' = true
  /\ syncButtons mc' =
       (if processedMarker mc then syncButtons mc else S (syncButtons mc))
  /\ position mc' =
       (if processedMarker mc then position mc
        else match position mc with Static => Relative | p => p end)
  /\ contentArea mc' = contentArea mc.

(** From [w] to [w'] the scanner's own state, the store and the prompt
    windows are the same, and so is the number of message containers. *)
Definition sameShell (w w' : World) : Prop :=
  promptWrappers w' = promptWrappers w
  /\ domScannerInterval w' = domScannerInterval w
  /\ isShortenEnabled w' = isShortenEnabled w
  /\ storage w' = storage w
  /\ length (messageContainers w') = length (messageContainers w).

(** A prompt window that the page created with [n] children: the craft
    button is its third child (or its last, with fewer than two) when the
    window carries the marker, and absent otherwise. *)
Definition craftedFrom (n : nat) (pw : PromptWrapper) : Prop :=
  wrapperChildren pw =
    if wrapperProcessed pw
    then firstn 2 (replicate n HostChild) ++ CraftButton :: skipn 2 (replicate n HostChild)
    else replicate n HostChild.

Definition wrappersCrafted (w : World) : Prop :=
  Forall (fun pw => exists n, craftedFrom n pw) (promptWrappers w).

(** The scanner's interval runs exactly when the store says the extension
    is enabled, and while it runs the shortening flag is the stored one. *)
Definition followsStorage (w : World) : Prop :=
  domScannerInterval w = storedIsEnabled (storage w)
  /\ (domScannerInterval w = true ->
      isShortenEnabled w = storedIsShortenEnabled (storage w)).

(** The finalize timer of [endMarkerSeen] has fired: the answer is
    shortened and its shortener torn down. *)
Definition tornDown : World :=
  run (browser := sampleBrowser) [TimerFires 3] endMarkerSeen.

(** A prompt window with three children, found by the scanner. *)
Definition promptOpened : World :=
  run (browser := sampleBrowser)
    [HostAppendPromptWrapper 3; ScannerTick] (boot sampleStorage).

End Wiring.

(** ** Runs of the watcher, for statements about whole generations *)

Module WatcherRuns.
Import JsString Watcher.

(** No storage read of the run delivers sound settings with [enabled] set;
    a missing key gives the default, which is disabled. *)
Definition soundOff (e : Event) : Prop :=
  match e with
  | SettingsLoaded stored => enabled (storageGetSoundSettings stored) = false
  | Tick _ => True
  end.

(** The loaded sound settings, if any, are disabled. *)
Definition muted (s : WatcherSystem) : Prop :=
  match soundSettings s with
  | Some settings => enabled settings = false
  | None => True
  end.

(** The page shows no message container on any tick of the run. *)
Definition noContainers (e : Event) : Prop :=
  match e with
  | Tick i => responseContainers (page i) = []
  | SettingsLoaded _ => True
  end.

(** A generation on a page that never shows a message container: the label
    turns to "Stop" and back to "Run", and a long time passes. *)
Definition generationWithoutContainers : list Event :=
  [ Tick {| page := {| runButton := Some "Run"; responseContainers := [] |};
            nowSample := 1762000000300; nowCheck := 1762000000300 |};
    SettingsLoaded None;
    Tick {| page := {| runButton := Some "Run"; responseContainers := [] |};
            nowSample := 1762000090000; nowCheck := 1762000090000 |} ].

Definition startedGenerating : System :=
  run [Tick (sampleTick "Stop" "" 1762000000000)] initialSystem.

End WatcherRuns.

(** ** keep_active.js: keeping the tab awake *)

Module KeepActive.

Definition RAF_INTERVAL_MS : Q := 1000.
Definition DOM_PING_INTERVAL_MS : Z := 5000.

(** The module's variables together with what the browser holds for it: the
    animation-frame callbacks that have been requested and not yet run or
    cancelled, and the intervals that have been set and not cleared.
    Handles are positive numbers, so a handle is truthy.  [domPings] counts
    the calls of [performLightDomPing]; it is not program state. *)
Record World := {
  isActive : bool;
  rafId : option positive;
  domPingIntervalId : option positive;
  lastRafTime : Q;
  frameRequests : gset positive;
  intervals : gset positive;
  nextFrameHandle : positive;
  nextIntervalHandle : positive;
  domPings : nat
}.

Definition initialWorld : World :=
  {| isActive := false; rafId := None; domPingIntervalId := None; lastRafTime := 0;
     frameRequests := ∅; intervals := ∅;
     nextFrameHandle := 1; nextIntervalHandle := 1; domPings := 0 |}.

Definition setActive (b : bool) (w : World) : World :=
  {| isActive := b; rafId := rafId w; domPingIntervalId := domPingIntervalId w;
     lastRafTime := lastRafTime w; frameRequests := frameRequests w;
     intervals := intervals w; nextFrameHandle := nextFrameHandle w;
     nextIntervalHandle := nextIntervalHandle w; domPings := domPings w |}.

Definition setRafId (r : option positive) (w : World) : World :=
  {| isActive := isActive w; rafId := r; domPingIntervalId := domPingIntervalId w;
     lastRafTime := lastRafTime w; frameRequests := frameRequests w;
     intervals := intervals w; nextFrameHandle := nextFrameHandle w;
     nextIntervalHandle := nextIntervalHandle w; domPings := domPings w |}.

Definition setDomPingIntervalId (r : option positive) (w : World) : World :=
  {| isActive := isActive w; rafId := rafId w; domPingIntervalId := r;
     lastRafTime := lastRafTime w; frameRequests := frameRequests w;
     intervals := intervals w; nextFrameHandle := nextFrameHandle w;
     nextIntervalHandle := nextIntervalHandle w; domPings := domPings w |}.

Definition setLastRafTime (t : Q) (w : World) : World :=
  {| isActive := isActive w; rafId := rafId w; domPingIntervalId := domPingIntervalId w;
     lastRafTime := t; frameRequests := frameRequests w;
     intervals := intervals w; nextFrameHandle := nextFrameHandle w;
     nextIntervalHandle := nextIntervalHandle w; domPings := domPings w |}.

(** [requestAnimationFrame(rafLoop)] *)
Definition requestAnimationFrame (w : World) : positive * World :=
  let h := nextFrameHandle w in
  (h, {| isActive := isActive w; rafId := rafId w;
         domPingIntervalId := domPingIntervalId w; lastRafTime := lastRafTime w;
         frameRequests := {[ h ]} ∪ frameRequests w; intervals := intervals w;
         nextFrameHandle := Pos.succ h;
         nextIntervalHandle := nextIntervalHandle w; domPings := domPings w |}).

Definition cancelAnimationFrame (h : positive) (w : World) : World :=
  {| isActive := isActive w; rafId := rafId w;
     domPingIntervalId := domPingIntervalId w; lastRafTime := lastRafTime w;
     frameRequests := frameRequests w ∖ {[ h ]}; intervals := intervals w;
     nextFrameHandle := nextFrameHandle w;
     nextIntervalHandle := nextIntervalHandle w; domPings := domPings w |}.

(** [setInterval(performLightDomPing, DOM_PING_INTERVAL_MS)] *)
Definition setInterval (w : World) : positive * World :=
  let h := nextIntervalHandle w in
  (h, {| isActive := isActive w; rafId := rafId w;
         domPingIntervalId := domPingIntervalId w; lastRafTime := lastRafTime w;
         frameRequests := frameRequests w; intervals := {[ h ]} ∪ intervals w;
         nextFrameHandle := nextFrameHandle w;
         nextIntervalHandle := Pos.succ h; domPings := domPings w |}).

Definition clearInterval (h : positive) (w : World) : World :=
  {| isActive := isActive w; rafId := rafId w;
     domPingIntervalId := domPingIntervalId w; lastRafTime := lastRafTime w;
     frameRequests := frameRequests w; intervals := intervals w ∖ {[ h ]};
     nextFrameHandle := nextFrameHandle w;
     nextIntervalHandle := nextIntervalHandle w; domPings := domPings w |}.

(** [performLightDomPing()]: two reads of the body's size, inside
    [try]/[catch]; nothing is written. *)
Definition performLightDomPing (w : World) : World :=
  {| isActive := isActive w; rafId := rafId w;
     domPingIntervalId := domPingIntervalId w; lastRafTime := lastRafTime w;
     frameRequests := frameRequests w; intervals := intervals w;
     nextFrameHandle := nextFrameHandle w;
     nextIntervalHandle := nextIntervalHandle w; domPings := S (domPings w) |}.

(** [rafLoop(timestamp)] *)
Definition rafLoop (timestamp : Q) (w : World) : World :=
  if negb (isActive w) then setRafId None w
  else
    let w1 :=
      if Qle_bool RAF_INTERVAL_MS (timestamp - lastRafTime w)
      then setLastRafTime timestamp w
      else w in
    let (h, w2) := requestAnimationFrame w1 in
    setRafId (Some h) w2.

(** [startKeepingActive()]; [now] is the reading of [performance.now()]. *)
Definition startKeepingActive (now : Q) (w : World) : World :=
  if isActive w then w
  else
    let w1 := setActive true w in
    let w2 :=
      match rafId w1 with
      | None =>
          let (h, w') := requestAnimationFrame (setLastRafTime now w1) in
          setRafId (Some h) w'
      | Some _ => w1
      end in
    match domPingIntervalId w2 with
    | None =>
        let (h, w') := setInterval w2 in
        setDomPingIntervalId (Some h) w'
    | Some _ => w2
    end.

(** [stopKeepingActive()] *)
Definition stopKeepingActive (w : World) : World :=
  if negb (isActive w) then w
  else
    let w1 := setActive false w in
    let w2 :=
      match rafId w1 with
      | Some h => setRafId None (cancelAnimationFrame h w1)
      | None => w1
      end in
    match domPingIntervalId w2 with
    | Some h => setDomPingIntervalId None (clearInterval h w2)
    | None => w2
    end.

(** What can happen to the module.  [now] is what [performance.now()]
    would return during the event. *)
Inductive Event :=
| StorageRead (keepActiveEnabled : bool) (now : Q)
    (* the callback of [chrome.storage.sync.get('keepActiveEnabled', ...)] *)
| Message (toggle : option bool) (now : Q)
    (* [Some b]: a TOGGLE_KEEP_ACTIVE message with [payload.enabled] truthy
       or not; [None]: a message of another type *)
| ApiStart (now : Q)      (* [exports.keepActive.start()] *)
| ApiStop                 (* [exports.keepActive.stop()], as [dismantle] calls it *)
| FrameFires (h : positive) (timestamp : Q)
| IntervalFires (h : positive).

Definition step (w : World) (e : Event) : World :=
  match e with
  | StorageRead keepActiveEnabled now =>
      if keepActiveEnabled then startKeepingActive now w else w
  | Message (Some enabled) now =>
      if enabled then startKeepingActive now w else stopKeepingActive w
  | Message None _ => w
  | ApiStart now => startKeepingActive now w
  | ApiStop => stopKeepingActive w
  | FrameFires h timestamp =>
      (* a requested callback runs once, then its request is gone *)
      if decide (h ∈ frameRequests w)
      then rafLoop timestamp (cancelAnimationFrame h w)
      else w
  | IntervalFires h =>
      if decide (h ∈ intervals w) then performLightDomPing w else w
  end.

Definition run (evs : list Event) (w : World) : World := foldl step w evs.

Definition reachable (w : World) : Prop := exists evs, w = run evs initialWorld.

(** The browser holds exactly the callbacks the module has a handle for,
    and the module has its handles exactly while it is active. *)
Definition balanced (w : World) : Prop :=
  frameRequests w = match rafId w with Some h => {[ h ]} | None => ∅ end
  /\ intervals w = match domPingIntervalId w with Some h => {[ h ]} | None => ∅ end
  /\ (is_Some (rafId w) <-> isActive w = true)
  /\ (is_Some (domPingIntervalId w) <-> isActive w = true).

Definition sampleSession : list Event :=
  [ StorageRead true 10; FrameFires 1 (33 # 2); IntervalFires 1;
    FrameFires 2 1200; Message (Some false) 1300; Message (Some true) 2000 ].

End KeepActive.
(** ** content.js: the universal filters and the filter statistics *)

Module Filters.
Import JsString.

(** A promise of [chrome.storage.local.get]: resolved with a value, or
    rejected. *)
Inductive StorageResult (A : Type) :=
| Resolved (v : A)
| Rejected.
Arguments Resolved {A} v.
Arguments Rejected {A}.

(** An entry of the filter configuration; a member the entry does not have
    ([undefined]) is [None]. *)
Record FilterEntry := {
  label : string;
  isModifiable : bool;
  requires : option (list string);
  exclude : option (list string);
  extensions : option (list string)
}.

Definition defaultAll : FilterEntry :=
  {| label := "Все"; isModifiable := false; requires := None;
     exclude := Some ["min.js"; "min.css"; "lock"; "log"; "svg"; "png"; "jpg"; "jpeg";
                      "gif"; "webp"; "ico"; "eot"; "ttf"; "woff"; "woff2"; "db";
                      "sqlite"; "sqlite3"; "DS_Store"; "pyc"; "pyd"; "egg-info";
                      "dist"; "build"; "venv"; ".env"; "exe"; "dll"; "so"; "bin";
                      "dmg"; "iso"];
     extensions := None |}.

Definition defaultBackend : FilterEntry :=
  {| label := "Backend"; isModifiable := true; requires := Some ["py"];
     exclude := None;
     extensions := Some ["py"; "json"; "txt"; "md"; "sh"; "yml"; "yaml"; "toml";
                         "ini"; "cfg"; "sql"; "dockerfile"; "conf"] |}.

Definition defaultFrontend : FilterEntry :=
  {| label := "Frontend"; isModifiable := true;
     requires := Some ["html"; "js"; "jsx"; "ts"; "tsx"]; exclude := None;
     extensions := Some ["html"; "css"; "js"; "jsx"; "ts"; "tsx"; "scss"; "less";
                         "vue"; "svelte"; "json"] |}.

Definition DEFAULT_FILTER_CONFIG : gmap string FilterEntry :=
  <["all" := defaultAll]> (<["backend" := defaultBackend]>
    (<["frontend" := defaultFrontend]> ∅)).

(** What is stored under a key of the saved configuration: [null], or a
    value whose [extensions] member is read ([None]: it has none). *)
Inductive SavedEntry :=
| SavedNull
| SavedObject (savedExtensions : option (list string)).

Definition withExtensions (exts : option (list string)) (e : FilterEntry) : FilterEntry :=
  {| label := label e; isModifiable := isModifiable e; requires := requires e;
     exclude := exclude e; extensions := exts |}.

(** The body of the [for (const key in savedConfig)] loop of
    [getFilterConfig]; the accumulator is [None] once
    [savedConfig[key].extensions] has thrown. *)
Definition mergeSavedKey (key : string) (sv : SavedEntry) (acc : option (gmap string FilterEntry))
    : option (gmap string FilterEntry) :=
  match acc with
  | None => None
  | Some mergedConfig =>
      match mergedConfig !! key with
      | Some entry =>
          if isModifiable entry then
            match sv with
            | SavedNull => None
            | SavedObject exts => Some (<[key := withExtensions exts entry]> mergedConfig)
            end
          else Some mergedConfig
      | None => Some mergedConfig
      end
  end.

(** [getFilterConfig()], given the outcome of the storage read. *)
Definition getFilterConfig (read : StorageResult (option (gmap string SavedEntry))) : gmap string FilterEntry :=
  match read with
  | Resolved (Some savedConfig) =>
      match map_fold mergeSavedKey (Some DEFAULT_FILTER_CONFIG) savedConfig with
      | Some mergedConfig => mergedConfig
      | None => DEFAULT_FILTER_CONFIG
      end
  | Resolved None => DEFAULT_FILTER_CONFIG
  | Rejected => DEFAULT_FILTER_CONFIG
  end.

(** [chrome.storage.local], as far as these functions use it. *)
Record LocalStorage := {
  filterConfig : option (gmap string SavedEntry);
  filterStats : option (gmap string Z)
}.

Inductive Notification :=
| NotifySuccess (message : string)
| NotifyError (message : string).

(** The loop of [saveFilterConfig]. *)
Definition configToSave (newConfig : gmap string FilterEntry) : gmap string SavedEntry :=
  map_fold (fun key entry acc =>
              if isModifiable entry
              then <[key := SavedObject (extensions entry)]> acc
              else acc)
           ∅ newConfig.

(** [saveFilterConfig(newConfig)]; [writeOk] tells whether
    [chrome.storage.local.set] resolves. *)
Definition saveFilterConfig (writeOk : bool) (newConfig : gmap string FilterEntry)
    (st : LocalStorage) : LocalStorage * Notification :=
  if writeOk
  then ({| filterConfig := Some (configToSave newConfig);
           filterStats := filterStats st |},
        NotifySuccess "Настройки фильтров сохранены.")
  else (st, NotifyError "Не удалось сохранить настройки.").

(** *** Observations used in the statements *)

(** What [getFilterConfig] makes of a default entry under [key]. *)
Definition mergedEntry (saved : gmap string SavedEntry) (key : string) (d : FilterEntry)
    : FilterEntry :=
  if isModifiable d then
    match saved !! key with
    | Some (SavedObject exts) => withExtensions exts d
    | _ => d
    end
  else d.

(** The saved configuration holds [null] under a modifiable key. *)
Definition throwsOn (saved : gmap string SavedEntry) : Prop :=
  exists key d, DEFAULT_FILTER_CONFIG !! key = Some d
                /\ isModifiable d = true
                /\ saved !! key = Some SavedNull.

(** A configuration with the keys of the default one, differing from it at
    most in the [extensions] of modifiable entries; this is what the
    settings dialog passes to [saveFilterConfig]. *)
Definition derived (cfg : gmap string FilterEntry) : Prop :=
  forall key,
    match DEFAULT_FILTER_CONFIG !! key with
    | Some d =>
        exists e, cfg !! key = Some e
                  /\ e = (if isModifiable d then withExtensions (extensions e) d else d)
    | None => cfg !! key = None
    end.

Definition sampleSaved : gmap string SavedEntry :=
  <["backend" := SavedObject (Some ["py"; "rs"])]>
    (<["all" := SavedObject (Some ["everything"])]>
      (<["legacy" := SavedNull]> ∅)).

End Filters.
(** ** content.js: the filter statistics of the prompt crafter *)

Module FilterStats.
Import JsString Filters.

(** [s.split(sep)] for a separator of one character. *)
Fixpoint split (sep : ascii) (s : string) : list string :=
  match s with
  | EmptyString => [EmptyString]
  | String c r =>
      if Ascii.eqb c sep then EmptyString :: split sep r
      else match split sep r with
           | h :: t => String c h :: t
           | [] => [String c EmptyString]
           end
  end.

(** [s.split(sep).pop()] *)
Definition lastSegment (sep : ascii) (s : string) : string :=
  default EmptyString (last (split sep s)).

(** The extension [updateFilterStatsOnSessionEnd] takes a selected path to
    use, and the [data-ext] that [renderTree] gives the tree item of a file
    with that path. *)
Definition usedExtension (path : string) : string := lastSegment "." path.

Definition itemExtension (path : string) : string :=
  lastSegment "." (lastSegment "/" path).

Fixpoint hasChar (a : ascii) (s : string) : bool :=
  match s with
  | EmptyString => false
  | String c r => Ascii.eqb c a || hasChar a r
  end.

(** Names every object inherits from [Object.prototype]: [stats[ext]] is
    not a counter for them unless [stats] has such a key of its own. *)
Definition objectPrototypeNames : list string :=
  ["constructor"; "__proto__"; "hasOwnProperty"; "isPrototypeOf";
   "propertyIsEnumerable"; "toLocaleString"; "toString"; "valueOf";
   "__defineGetter__"; "__defineSetter__"; "__lookupGetter__"; "__lookupSetter__"].

(** [getFilterStats()], given the outcome of the storage read. *)
Definition getFilterStats (read : StorageResult (option (gmap string Z)))
    : gmap string Z :=
  match read with
  | Resolved (Some stats) => stats
  | Resolved None => ∅
  | Rejected => ∅
  end.

Definition readStats (readOk : bool) (st : LocalStorage)
    : StorageResult (option (gmap string Z)) :=
  if readOk then Resolved (filterStats st) else Rejected.

Definition writeStats (writeOk : bool) (stats : gmap string Z) (st : LocalStorage)
    : LocalStorage :=
  if writeOk then {| filterConfig := filterConfig st; filterStats := Some stats |}
  else st.

(** [x + 1] on a Number that holds the integer [x].  Numbers are doubles:
    the sum is exact as long as it is a safe integer, that is for
    [-2^53 <= x < 2^53]; [2^53 + 1] is not a double, and the sum is rounded
    back to [2^53].  The result is [None] for the integers beyond, where
    the model does not follow the arithmetic of doubles. *)
Definition addOne (x : Z) : option Z :=
  if (- 2 ^ 53 <=? x) && (x <? 2 ^ 53) then Some (x + 1)
  else if x =? 2 ^ 53 then Some x
  else None.

(** [incrementFilterStat(ext)]; [readOk] and [writeOk] tell whether the
    storage calls resolve.  The stored counters are integers, as the
    extension writes them.  The result is [None] where the model does not
    follow the code: for an [ext] that names an inherited property, where
    [stats[ext]] is not a number, and for a counter beyond [2^53]. *)
Definition incrementFilterStat (readOk writeOk : bool) (ext : string)
    (st : LocalStorage) : option LocalStorage :=
  if bool_decide (ext ∈ objectPrototypeNames) then None
  else
    let stats := getFilterStats (readStats readOk st) in
    let current :=
      match stats !! ext with
      | Some v => if v =? 0 then 0 else v     (* stats[ext] || 0 *)
      | None => 0
      end in
    match addOne current with
    | Some next => Some (writeStats writeOk (<[ext := next]> stats) st)
    | None => None
    end.

(** The body of the loop over [unusedFrequentExtensions]; the second
    component is [statsChanged].  [v - 1] is exact for a positive counter up
    to [2^53], which is as far as [incrementFilterStat] takes one. *)
Definition penalize (acc : gmap string Z * bool) (ext : string)
    : gmap string Z * bool :=
  match acc.1 !! ext with
  | Some v => if 0 <? v then (<[ext := v - 1]> acc.1, true) else acc
  | None => acc
  end.

(** [updateFilterStatsOnSessionEnd()]; [None] stands for a null
    [selectedFiles] or [initialFrequentExtensions]. *)
Definition updateFilterStatsOnSessionEnd (readOk writeOk : bool)
    (selectedFiles : option (gset string)) (initialFrequent : option (list string))
    (st : LocalStorage) : LocalStorage :=
  match selectedFiles, initialFrequent with
  | Some selected, Some frequent =>
      if (size selected =? 0)%nat || (length frequent =? 0)%nat then st
      else
        let usedExtensions : gset string := set_map usedExtension selected in
        let unusedFrequentExtensions :=
          filter (fun ext => ext ∉ usedExtensions) frequent in
        if (0 <? length unusedFrequentExtensions)%nat then
          let stats := getFilterStats (readStats readOk st) in
          let result := foldl penalize (stats, false) unusedFrequentExtensions in
          if result.2 then writeStats writeOk result.1 st else st
        else st
  | _, _ => st
  end.

(** *** Observations used in the statements *)

Definition statsOf (st : LocalStorage) : gmap string Z :=
  getFilterStats (Resolved (filterStats st)).

Definition nonNegative (stats : gmap string Z) : Prop :=
  forall ext v, stats !! ext = Some v -> 0 <= v.

(** How often [ext] is listed in [l]. *)
Definition listed (ext : string) (l : list string) : Z :=
  Z.of_nat (length (filter (fun x => x = ext) l)).

(** The operations on the statistics, with the outcome of their storage
    calls. *)
Inductive StatsOp :=
| Increment (readOk writeOk : bool) (ext : string)
| SessionEnd (readOk writeOk : bool) (selectedFiles : option (gset string))
    (initialFrequent : option (list string)).

Definition applyOp (st : option LocalStorage) (op : StatsOp) : option LocalStorage :=
  match st with
  | None => None
  | Some st =>
      match op with
      | Increment r w ext => incrementFilterStat r w ext st
      | SessionEnd r w sel freq => Some (updateFilterStatsOnSessionEnd r w sel freq st)
      end
  end.

Definition sampleStats : LocalStorage :=
  {| filterConfig := None;
     filterStats := Some (<["py" := 3]> (<["md" := 1]> (<["js" := 0]> ∅))) |}.

Definition TOP_N_FREQUENT : nat := 3.

(** [entries.sort(([, a], [, b]) => b - a)]: the sort is stable, so the
    result is that of insertion from the right, an entry going before the
    first one whose count is not larger. *)
Fixpoint insertSorted (x : string * Z) (l : list (string * Z)) : list (string * Z) :=
  match l with
  | [] => [x]
  | y :: l' => if x.2 <? y.2 then y :: insertSorted x l' else x :: l
  end.

Definition sortDescending (entries : list (string * Z)) : list (string * Z) :=
  foldr insertSorted [] entries.

(** The [frequentExtensions] of [renderFileTreeUI], from
    [Object.entries(stats)]. *)
Definition frequentExtensions (entries : list (string * Z)) : list string :=
  (firstn TOP_N_FREQUENT (sortDescending entries)).*1.

Definition sampleOps : list StatsOp :=
  [ Increment true true "py";
    SessionEnd true true (Some {[ "docs/README.md" ]}) (Some ["py"; "md"; "js"]);
    Increment false false "ts" ].

Definition sampleOutcome : LocalStorage :=
  default sampleStats (foldl applyOp (Some sampleStats) sampleOps).

End FilterStats.
(** ** content.js: the check boxes of the file tree and the filter buttons *)

Module Selection.
Import JsString Filters FilterStats.

(** A check box of the rendered file tree, in document order: its
    [data-path]; the [data-ext] of its [li.is-file] ([None] in a directory
    item); its state; and the number of check boxes inside its
    [li.file-tree-item], itself included, which follow it in document
    order. *)
Record Checkbox := {
  dataPath : string;
  dataExt : option string;
  checked : bool;
  span : nat
}.

(** The object that [buildTree] returns: the names in a directory with
    the objects below them, listed in the order in which [renderTree]
    sorts them (directories first, then by [localeCompare]). *)
#[local] Unset Elimination Schemes.
Inductive Tree :=
| Node (entries : list (string * Tree)).
#[local] Set Elimination Schemes.

Definition entriesOf (node : Tree) : list (string * Tree) :=
  match node with Node entries => entries end.

(** [Object.keys(node[key]).length > 0] *)
Definition isDirNode (node : Tree) : bool :=
  (0 <? length (entriesOf node))%nat.

Fixpoint anyChar (p : ascii -> bool) (s : string) : bool :=
  match s with
  | EmptyString => false
  | String a r => p a || anyChar p r
  end.

(** The characters that the HTML parser does not take as they are in a
    double-quoted attribute value or in text: NUL, carriage return,
    quotation mark, ampersand and less-than sign. *)
Definition htmlSpecial (a : ascii) : bool :=
  bool_decide (N_of_ascii a ∈ [0; 13; 34; 38; 60]%N).

Definition markupPlain (s : string) : bool := negb (anyChar htmlSpecial s).

(** [renderTree(node, path)], as the check boxes of the list it builds, in
    document order.  The item of [key] is filled through [li.innerHTML]
    with a template that holds [currentPath] as the value of [data-path]
    and [key] as the text of the label, neither of them escaped; [data-ext]
    is set through [dataset].  So the item holds one check box, with
    [currentPath] as its [data-path], when [currentPath] (which ends with
    [key]) is free of the characters of [htmlSpecial]; for other names the
    model does not follow the parser, and the result is [None]. *)
Fixpoint renderTree (node : Tree) (path : string) : option (list Checkbox) :=
  match node with
  | Node entries =>
      (fix items (es : list (string * Tree)) : option (list Checkbox) :=
         match es with
         | [] => Some []
         | (key, sub) :: rest =>
             let currentPath :=
               match path with
               | EmptyString => key
               | _ => path +:+ "/" +:+ key
               end in
             let isDir := isDirNode sub in
             if markupPlain currentPath then
               match (if isDir then renderTree sub currentPath else Some []),
                     items rest with
               | Some below, Some others =>
                   Some ({| dataPath := currentPath;
                            dataExt := if isDir then None
                                       else Some (lastSegment "." key);
                            checked := false;
                            span := S (length below) |} :: below ++ others)
               | _, _ => None
               end
             else None
         end) entries
  end.

(** The check boxes and [promptCrafterState.selectedFiles]. *)
Record Crafter := {
  boxes : list Checkbox;
  selectedFiles : gset string
}.

Definition withChecked (v : bool) (cb : Checkbox) : Checkbox :=
  {| dataPath := dataPath cb; dataExt := dataExt cb; checked := v; span := span cb |}.

(** The body of [childrenCheckboxes.forEach] in the [change] listener. *)
Definition updateChild (isChecked : bool) (s : Crafter) (j : nat) : Crafter :=
  match boxes s !! j with
  | Some child =>
      {| boxes :=
           if bool_decide (checked child <> isChecked)
           then <[j := withChecked isChecked child]> (boxes s)
           else boxes s;
         selectedFiles :=
           if bool_decide (dataPath child <> EmptyString)
           then (if isChecked then {[ dataPath child ]} ∪ selectedFiles s
                 else selectedFiles s ∖ {[ dataPath child ]})
           else selectedFiles s |}
  | None => s
  end.

(** The [change] listener of the file selector, for an event whose target
    is check box [i]. *)
Definition onChange (i : nat) (s : Crafter) : Crafter :=
  match boxes s !! i with
  | Some checkbox => foldl (updateChild (checked checkbox)) s (seq i (span checkbox))
  | None => s
  end.

(** The user clicks check box [i]: the browser flips it and dispatches
    [change]. *)
Definition userClick (i : nat) (s : Crafter) : Crafter :=
  match boxes s !! i with
  | Some cb =>
      onChange i {| boxes := <[i := withChecked (negb (checked cb)) cb]> (boxes s);
                    selectedFiles := selectedFiles s |}
  | None => s
  end.

Definition isUnchecked (bs : list Checkbox) (j : nat) : bool :=
  match bs !! j with
  | Some cb => negb (checked cb)
  | None => false
  end.

(** The body of the [forEach] both filter handlers run over their target
    check boxes. *)
Definition toggleStep (isAnyUnchecked : bool) (s : Crafter) (j : nat) : Crafter :=
  match boxes s !! j with
  | Some cb =>
      if bool_decide (checked cb <> isAnyUnchecked)
      then onChange j {| boxes := <[j := withChecked isAnyUnchecked cb]> (boxes s);
                         selectedFiles := selectedFiles s |}
      else s
  | None => s
  end.

Definition toggleTargets (targets : list nat) (s : Crafter) : Crafter :=
  let isAnyUnchecked := existsb (isUnchecked (boxes s)) targets in
  foldl (toggleStep isAnyUnchecked) s targets.

(** The check boxes of file items that satisfy [p], in document order. *)
Definition isFileWith (p : Checkbox -> bool) (bs : list Checkbox) (j : nat) : bool :=
  match bs !! j with
  | Some cb => match dataExt cb with Some _ => p cb | None => false end
  | None => false
  end.

Definition fileIndices (p : Checkbox -> bool) (bs : list Checkbox) : list nat :=
  filter (fun j => isFileWith p bs j = true) (seq 0 (length bs)).

(** The characters that end or escape a CSS string, or that the CSS parser
    replaces before it reads one: NUL, line feed, form feed, carriage
    return, quotation mark and backslash. *)
Definition cssStringSpecial (a : ascii) : bool :=
  bool_decide (N_of_ascii a ∈ [0; 10; 12; 13; 34; 92]%N).

Definition selectorPlain (ext : string) : bool := negb (anyChar cssStringSpecial ext).

(** [handleExtensionFilterClick(container, ext)]: the statistics first,
    then the check boxes of the files with that extension.  The first
    component is [None] where [incrementFilterStat] is not modelled.  The
    file items are found by a selector into which [ext] is put as it is,
    between quotation marks: for an [ext] free of the characters of
    [cssStringSpecial] it selects the file items whose [data-ext] is [ext];
    for another [ext] the text denotes another selector, or none (and
    [querySelectorAll] throws), and the model does not follow the code: the
    second component is [None]. *)
Definition handleExtensionFilterClick (readOk writeOk : bool) (ext : string)
    (st : LocalStorage) (s : Crafter) : option LocalStorage * option Crafter :=
  (incrementFilterStat readOk writeOk ext st,
   if selectorPlain ext then
     Some (toggleTargets
             (fileIndices (fun cb => bool_decide (dataExt cb = Some ext)) (boxes s)) s)
   else None).

(** [s.endsWith(suffix)] *)
Definition endsWith (s suffix : string) : bool :=
  (String.length suffix <=? String.length s)%nat
  && String.eqb (drop (String.length s - String.length suffix) s) suffix.

(** The target check boxes of [handleUniversalFilterClick]; [None] when
    the member of [config] that the branch reads is missing, so that the
    handler throws before it changes anything.  [toLowerCase] stands for
    [String.prototype.toLowerCase]. *)
Definition universalTargets (toLowerCase : string -> string) (key : string)
    (config : FilterEntry) (bs : list Checkbox) : option (list nat) :=
  if bool_decide (key = "all") then
    match exclude config with
    | Some excluded =>
        Some (fileIndices
                (fun cb =>
                   let fileName := lastSegment "/" (dataPath cb) in
                   negb (existsb (fun ex => endsWith fileName ex
                                            || endsWith (toLowerCase fileName) ("." +:+ ex))
                                 excluded))
                bs)
    | None => None
    end
  else
    match extensions config with
    | Some exts =>
        Some (fileIndices
                (fun cb => match dataExt cb with
                           | Some e => bool_decide (e ∈ exts)
                           | None => false
                           end)
                bs)
    | None => None
    end.

(** [handleUniversalFilterClick(container, key, config)] *)
Definition handleUniversalFilterClick (toLowerCase : string -> string) (key : string)
    (config : FilterEntry) (s : Crafter) : Crafter :=
  match universalTargets toLowerCase key config (boxes s) with
  | Some targetCheckboxes =>
      if (0 <? length targetCheckboxes)%nat then toggleTargets targetCheckboxes s else s
  | None => s
  end.

(** What the user can do in the file selector. *)
Inductive Event :=
| UserClick (i : nat)
| ExtensionClick (ext : string)
| UniversalClick (key : string) (config : FilterEntry).

Definition step (toLowerCase : string -> string) (s : Crafter) (e : Event) : Crafter :=
  match e with
  | UserClick i => userClick i s
  | ExtensionClick ext =>
      toggleTargets (fileIndices (fun cb => bool_decide (dataExt cb = Some ext)) (boxes s)) s
  | UniversalClick key config => handleUniversalFilterClick toLowerCase key config s
  end.

(** The file selector as [renderFileTreeUI] leaves it: every box
    unchecked, and the empty [selectedFiles] of [openPromptCrafter]. *)
Definition rendered (bs : list Checkbox) : Crafter :=
  {| boxes := withChecked false <$> bs; selectedFiles := ∅ |}.

(** *** Observations used in the statements *)

(** The check boxes without their states. *)
Definition layout (bs : list Checkbox) : list Checkbox := withChecked false <$> bs.

Definition spanPositive (bs : list Checkbox) : Prop :=
  forall j cb, bs !! j = Some cb -> (1 <= span cb)%nat.

Definition filesAreLeaves (bs : list Checkbox) : Prop :=
  forall j cb, bs !! j = Some cb -> is_Some (dataExt cb) -> span cb = 1%nat.

Definition pathsDistinct (bs : list Checkbox) : Prop :=
  forall i j a b, bs !! i = Some a -> bs !! j = Some b ->
                  dataPath a = dataPath b -> dataPath a <> EmptyString -> i = j.

(** At check box [j], membership of its path in [selectedFiles] is its
    state. *)
Definition consistentAt (s : Crafter) (j : nat) : Prop :=
  forall cb, boxes s !! j = Some cb -> dataPath cb <> EmptyString ->
             (dataPath cb ∈ selectedFiles s <-> checked cb = true).

(** Every selected path is the non-empty path of a check box. *)
Definition accounted (s : Crafter) : Prop :=
  forall p, p ∈ selectedFiles s ->
            exists j cb, boxes s !! j = Some cb /\ dataPath cb = p /\ p <> EmptyString.

(** [selectedFiles] is the set of the non-empty paths of the checked
    boxes. *)
Definition selectionExact (s : Crafter) : Prop :=
  (forall j, consistentAt s j) /\ accounted s.

(** The state in which [onChange] finds the file selector when check box
    [i] has just been given the state [v]. *)
Definition withBox (i : nat) (v : bool) (cb : Checkbox) (s : Crafter) : Crafter :=
  {| boxes := <[i := withChecked v cb]> (boxes s); selectedFiles := selectedFiles s |}.

(** The names from the root down to each check box, in document order. *)
Fixpoint keyPaths (node : Tree) : list (list string) :=
  match node with
  | Node entries =>
      (fix items (es : list (string * Tree)) : list (list string) :=
         match es with
         | [] => []
         | (key, sub) :: rest =>
             [key] :: (cons key <$> keyPaths sub) ++ items rest
         end) entries
  end.

(** The path [renderTree] builds for the names [keys] below [path]. *)
Definition joinPath (path : string) (keys : list string) : string :=
  foldl (fun acc key => match acc with
                        | EmptyString => key
                        | _ => acc +:+ "/" +:+ key
                        end) path keys.

(** Every name in the tree is free of the characters of [htmlSpecial]. *)
Fixpoint plainNames (node : Tree) : Prop :=
  match node with
  | Node entries =>
      (fix items (es : list (string * Tree)) : Prop :=
         match es with
         | [] => True
         | (key, sub) :: rest =>
             markupPlain key = true /\ plainNames sub /\ items rest
         end) entries
  end.

(** Names are not empty and contain no slash, and the names in one
    directory are distinct: what [buildTree] makes of paths without empty
    segments. *)
Fixpoint wellKeyed (node : Tree) : Prop :=
  match node with
  | Node entries =>
      (fix items (es : list (string * Tree)) : Prop :=
         match es with
         | [] => True
         | (key, sub) :: rest =>
             key <> EmptyString /\ hasChar "/" key = false /\ (key ∉ rest.*1)
             /\ wellKeyed sub /\ items rest
         end) entries
  end.

(** Every tree item's span stays inside the list. *)
Definition covered (bs : list Checkbox) : Prop :=
  forall j cb, bs !! j = Some cb -> (j + span cb <= length bs)%nat.

Definition sampleTree : Tree :=
  Node [ ("src", Node [ ("a.py", Node []); ("b.js", Node []) ]);
         ("c.py", Node []) ].

(** A small tree: directory [src] with two files, and a file beside it. *)
Definition sampleBoxes : list Checkbox :=
  [ {| dataPath := "src"; dataExt := None; checked := false; span := 3 |};
    {| dataPath := "src/a.py"; dataExt := Some "py"; checked := false; span := 1 |};
    {| dataPath := "src/b.js"; dataExt := Some "js"; checked := false; span := 1 |};
    {| dataPath := "c.py"; dataExt := Some "py"; checked := false; span := 1 |} ].

Definition sampleClicks : list Event :=
  [ UserClick 0; ExtensionClick "py"; UniversalClick "backend" defaultBackend;
    UserClick 2 ].

End Selection.
(** ** The throttle of the shortener and its timers *)

Module Throttling.
Import JsString Shortener.

(** Every armed throttle, except possibly that of container [x], has its
    timer outstanding. *)
Definition throttleTrackedBut (x : option nat) (w : World) : Prop :=
  forall c t, Some c <> x -> throttleTimeoutId w !! c = Some t ->
              timers w !! t = Some (ThrottleCallback c).

(** An identifier recorded in [debounceTimerMap] has been handed out, and
    is not that of a throttle timer. *)
Definition debounceSafe (w : World) : Prop :=
  forall c t, debounceTimerMap w !! c = Some t ->
              (t < nextTimerId w)%positive
              /\ forall c', timers w !! t <> Some (ThrottleCallback c').

Definition scheduleSound (x : option nat) (w : World) : Prop :=
  timersFresh w /\ throttleTrackedBut x w /\ debounceSafe w.

(** A processing step of container [c] is scheduled. *)
Definition processingScheduled (c : nat) (w : World) : Prop :=
  exists t, throttleTimeoutId w !! c = Some t
            /\ timers w !! t = Some (ThrottleCallback c).

End Throttling.
(** ** content.js: the interval that drives the watcher *)

Module WatcherInterval.

(** [watcherSystem.intervalId] and the intervals the browser holds for the
    content script's watcher. *)
Record World := {
  intervalId : option positive;
  intervals : gset positive;
  nextHandle : positive
}.

Definition initialWorld : World :=
  {| intervalId := None; intervals := ∅; nextHandle := 1 |}.

Definition clearInterval (h : positive) (w : World) : World :=
  {| intervalId := intervalId w; intervals := intervals w ∖ {[ h ]};
     nextHandle := nextHandle w |}.

(** [setInterval(watcherTick, WATCHER_TICK_INTERVAL_MS)] *)
Definition setInterval (w : World) : positive * World :=
  (nextHandle w,
   {| intervalId := intervalId w; intervals := {[ nextHandle w ]} ∪ intervals w;
      nextHandle := Pos.succ (nextHandle w) |}).

Definition setIntervalId (r : option positive) (w : World) : World :=
  {| intervalId := r; intervals := intervals w; nextHandle := nextHandle w |}.

(** [initializeWatcherSystem()] *)
Definition initializeWatcherSystem (w : World) : World :=
  let w1 :=
    match intervalId w with
    | Some h => clearInterval h w
    | None => w
    end in
  let (h, w2) := setInterval w1 in
  setIntervalId (Some h) w2.

(** [dismantleWatcherSystem()] *)
Definition dismantleWatcherSystem (w : World) : World :=
  match intervalId w with
  | Some h => setIntervalId None (clearInterval h w)
  | None => w
  end.

Inductive Call :=
| Initialize
| Dismantle.

Definition call (w : World) (c : Call) : World :=
  match c with
  | Initialize => initializeWatcherSystem w
  | Dismantle => dismantleWatcherSystem w
  end.

End WatcherInterval.

(** * Properties *)

(** ** Strings: searching and slicing *)

Section JsStringFacts.
Import JsString.

Lemma append_cons (a : ascii) (s t : string) :
  String a s +:+ t = String a (s +:+ t).
Proof. reflexivity. Qed.

Lemma append_nil_l (s : string) : "" +:+ s = s.
Proof. reflexivity. Qed.

Lemma append_nil_r (s : string) : s +:+ "" = s.
Proof.
  induction s as [|a s IH]; [reflexivity|]. rewrite append_cons. now f_equal.
Qed.

Lemma append_assoc (a b c : string) : (a +:+ b) +:+ c = a +:+ b +:+ c.
Proof.
  induction a as [|x a IH]; [reflexivity|]. rewrite !append_cons. now f_equal.
Qed.

Lemma length_append (a b : string) :
  String.length (a +:+ b) = (String.length a + String.length b)%nat.
Proof.
  induction a as [|x a IH]; [reflexivity|].
  rewrite append_cons. simpl. now f_equal.
Qed.

Lemma startsWith_spec (s p : string) :
  startsWith s p = true <-> exists post, s = p +:+ post.
Proof.
  revert s; induction p as [|a p IH]; intros s; simpl.
  - split; [intros _; now exists s | reflexivity].
  - destruct s as [|b s].
    + split; [discriminate | intros [post H]; discriminate].
    + destruct (Ascii.eqb_spec a b) as [->|Hne].
      * rewrite IH. split; intros [post H]; exists post.
        -- now rewrite append_cons, H.
        -- rewrite append_cons in H. congruence.
      * split; [discriminate | intros [post H]].
        rewrite append_cons in H. congruence.
Qed.

Lemma occursAt_cons (pat s pre post : string) (a : ascii) :
  occursAt pat (String a s) (String a pre) post <-> occursAt pat s pre post.
Proof. unfold occursAt. rewrite append_cons. split; congruence. Qed.

Lemma occursAt_head (pat s post : string) :
  occursAt pat s "" post <-> s = pat +:+ post.
Proof. reflexivity. Qed.

(** Nothing is found exactly when the pattern does not occur. *)
Lemma indexOfFrom_none (pat s : string) (i : Z) :
  0 <= i -> (indexOfFrom s pat i = -1 <-> ~ occurs pat s).
Proof.
  revert i; induction s as [|a s IH]; intros i Hi; simpl.
  - destruct (startsWith "" pat) eqn:E.
    + apply startsWith_spec in E as [post E].
      split; [lia | intros H; exfalso; apply H; now exists "", post].
    + split; [intros _ | reflexivity].
      intros ([|x pre] & post & H); [|discriminate].
      apply occursAt_head in H.
      assert (startsWith "" pat = true) by (apply startsWith_spec; eauto).
      congruence.
  - destruct (startsWith (String a s) pat) eqn:E.
    + apply startsWith_spec in E as [post E].
      split; [lia | intros H; exfalso; apply H; now exists "", post].
    + rewrite IH by lia. split; intros H (pre & post & Hocc); apply H.
      * destruct pre as [|x pre].
        -- apply occursAt_head in Hocc.
           assert (startsWith (String a s) pat = true)
             by (apply startsWith_spec; eauto).
           congruence.
        -- injection Hocc as -> Hocc. now exists pre, post.
      * exists (String a pre), post. now apply occursAt_cons.
Qed.

(** The search returns the offset of the leftmost occurrence. *)
Lemma indexOfFrom_first (pat s pre post : string) (i : Z) :
  firstOccurrence pat s pre post ->
  indexOfFrom s pat i = i + Z.of_nat (String.length pre).
Proof.
  revert s i; induction pre as [|a pre IH]; intros s i [Hocc Hmin].
  - apply occursAt_head in Hocc.
    assert (E : startsWith s pat = true) by (apply startsWith_spec; eauto).
    destruct s; simpl in *; rewrite E; lia.
  - destruct s as [|b s]; [discriminate|].
    injection Hocc as -> Hocc.
    simpl. destruct (startsWith (String a s) pat) eqn:E.
    + apply startsWith_spec in E as [post' E].
      specialize (Hmin "" post' E). simpl in Hmin. lia.
    + rewrite (IH s (i + 1)); [simpl; lia|].
      split; [exact Hocc|].
      intros pre' post' H'.
      specialize (Hmin (String a pre') post').
      simpl in Hmin. apply le_S_n, Hmin. now apply occursAt_cons.
Qed.

Lemma indexOf_first (pat s pre post : string) :
  firstOccurrence pat s pre post ->
  indexOf s pat = Z.of_nat (String.length pre).
Proof. intros H. unfold indexOf. now rewrite (indexOfFrom_first _ _ _ _ 0 H). Qed.

Lemma indexOf_absent (pat s : string) : indexOf s pat = -1 <-> ~ occurs pat s.
Proof. apply indexOfFrom_none. lia. Qed.

Lemma indexOfFrom_found (pat s : string) (i : Z) :
  indexOfFrom s pat i <> -1 -> occurs pat s.
Proof.
  revert i; induction s as [|a s IH]; intros i; simpl.
  - destruct (startsWith "" pat) eqn:E; [|congruence].
    apply startsWith_spec in E as [post E]. intros _. now exists "", post.
  - destruct (startsWith (String a s) pat) eqn:E.
    + apply startsWith_spec in E as [post E]. intros _. now exists "", post.
    + intros H. destruct (IH _ H) as (pre & post & Hocc).
      exists (String a pre), post. now apply occursAt_cons.
Qed.

Lemma includes_spec (pat s : string) : includes s pat = true <-> occurs pat s.
Proof.
  unfold includes. destruct (Z.eqb_spec (indexOf s pat) (-1)) as [E|E]; simpl.
  - apply indexOf_absent in E. split; [discriminate | intros; contradiction].
  - split; [intros _ | reflexivity]. now apply (indexOfFrom_found pat s 0).
Qed.

Lemma includes_false (pat s : string) : includes s pat = false <-> ~ occurs pat s.
Proof.
  rewrite <- includes_spec. destruct (includes s pat); split; congruence.
Qed.

(** The search either fails or stops at a leftmost occurrence. *)
Lemma indexOfFrom_cases (pat s : string) (i : Z) :
  indexOfFrom s pat i = -1
  \/ exists pre post, firstOccurrence pat s pre post
                      /\ indexOfFrom s pat i = i + Z.of_nat (String.length pre).
Proof.
  revert i; induction s as [|a s IH]; intros i; simpl.
  - destruct (startsWith "" pat) eqn:E; [right | now left].
    apply startsWith_spec in E as [post E]. exists "", post.
    split; [split; [exact E | intros; simpl; lia] | simpl; lia].
  - destruct (startsWith (String a s) pat) eqn:E.
    + right. apply startsWith_spec in E as [post E]. exists "", post.
      split; [split; [exact E | intros; simpl; lia] | simpl; lia].
    + destruct (IH (i + 1)) as [H|(pre & post & [Hocc Hmin] & H)]; [now left|].
      right. exists (String a pre), post. split; [split|].
      * now apply occursAt_cons.
      * intros pre' post' H'. destruct pre' as [|b pre'].
        -- apply occursAt_head in H'.
           assert (startsWith (String a s) pat = true)
             by (apply startsWith_spec; eauto).
           congruence.
        -- unfold occursAt in H'. rewrite append_cons in H'.
           injection H' as <- H'. simpl. apply le_n_S. now apply (Hmin pre' post').
      * rewrite H. simpl String.length. lia.
Qed.

Lemma occurs_first (pat s : string) :
  occurs pat s -> exists pre post, firstOccurrence pat s pre post.
Proof.
  intros Hocc. destruct (indexOfFrom_cases pat s 0) as [H|(pre & post & H & _)].
  - apply (indexOfFrom_none pat s 0) in H; [contradiction | lia].
  - eauto.
Qed.

(** A way to exhibit a leftmost occurrence: the search finds it. *)
Lemma firstOccurrence_at (pat s pre post : string) :
  occursAt pat s pre post ->
  indexOf s pat = Z.of_nat (String.length pre) ->
  firstOccurrence pat s pre post.
Proof.
  intros Hocc Hidx. split; [exact Hocc|].
  unfold indexOf in Hidx.
  destruct (indexOfFrom_cases pat s 0) as [H|(pre0 & post0 & [_ Hmin] & H)]; [lia|].
  intros pre' post' H'. specialize (Hmin pre' post' H'). lia.
Qed.

Lemma take_append (pre x : string) : take (String.length pre) (pre +:+ x) = pre.
Proof.
  induction pre as [|a pre IH]; [now destruct x|].
  rewrite append_cons. simpl. now f_equal.
Qed.

Lemma drop_append (pre x : string) : drop (String.length pre) (pre +:+ x) = x.
Proof.
  induction pre as [|a pre IH]; [now destruct x|].
  rewrite append_cons. simpl. exact IH.
Qed.

Lemma take_all (s : string) (n : nat) : (String.length s <= n)%nat -> take n s = s.
Proof.
  revert n; induction s as [|a s IH]; intros n Hn; [now destruct n|].
  destruct n as [|n]; simpl in *; [lia|]. f_equal. apply IH. lia.
Qed.

Lemma clamp_inside (s : string) (n : nat) :
  (n <= String.length s)%nat -> clamp s (Z.of_nat n) = n.
Proof. intros H. unfold clamp. lia. Qed.

(** [s.substring(0, |pre|)] is [pre] when [s] begins with [pre]. *)
Lemma substring_prefix (pre x : string) :
  substring (pre +:+ x) 0 (Z.of_nat (String.length pre)) = pre.
Proof.
  unfold substring.
  rewrite (clamp_inside _ (String.length pre)) by (rewrite length_append; lia).
  change 0 with (Z.of_nat 0). rewrite clamp_inside by lia.
  rewrite Nat.max_0_l, Nat.min_0_l, Nat.sub_0_r. simpl drop.
  apply take_append.
Qed.

(** [s.substring(|pre|)] is what follows [pre]. *)
Lemma substringFrom_suffix (pre x : string) :
  substringFrom (pre +:+ x) (Z.of_nat (String.length pre)) = x.
Proof.
  unfold substringFrom, substring.
  rewrite (clamp_inside _ (String.length pre)) by (rewrite length_append; lia).
  rewrite clamp_inside by lia.
  rewrite length_append.
  rewrite Nat.min_l, Nat.max_r by lia.
  rewrite drop_append. apply take_all. lia.
Qed.

End JsStringFacts.

(** ** The generation watcher *)

Section WatcherFacts.
Import JsString Watcher.

Lemma Status_eqb_eq (a b : Status) : Status_eqb a b = true <-> a = b.
Proof. destruct a, b; simpl; split; congruence. Qed.

Lemma run_snoc (evs : list Event) (e : Event) (sys : System) :
  run (evs ++ [e]) sys = step (run evs sys) e.
Proof. unfold run. apply foldl_snoc. Qed.

Lemma reachable_ind (P : System -> Prop) :
  P initialSystem ->
  (forall sys e, reachable sys -> P sys -> P (step sys e)) ->
  forall sys, reachable sys -> P sys.
Proof.
  intros H0 Hstep sys [evs ->].
  induction evs as [|e evs IH] using rev_ind; [exact H0|].
  rewrite run_snoc. apply Hstep; [now exists evs | exact IH].
Qed.

Lemma updateStability_status (i : TickInput) (s : WatcherSystem) :
  status (updateStability i s) = status s.
Proof.
  unfold updateStability.
  destruct (observedLength (page i)); [|reflexivity].
  destruct (lastContentLength s <? z); [reflexivity|].
  now destruct (stableSince s).
Qed.

Lemma updateStability_settings (i : TickInput) (s : WatcherSystem) :
  soundSettings (updateStability i s) = soundSettings s.
Proof.
  unfold updateStability.
  destruct (observedLength (page i)); [|reflexivity].
  destruct (lastContentLength s <? z); [reflexivity|].
  now destruct (stableSince s).
Qed.

(** A tick taken in GENERATING with the run control on the page runs to its
    end: it samples, then tests for completion. *)
Lemma watcherTick_generating (i : TickInput) (s : WatcherSystem) (label : string) :
  status s = GENERATING ->
  runButton (page i) = Some label ->
  watcherTick i s =
    let s1 := updateStability i s in
    if completionDue (includes label "Stop") i s1 then
      Completed {| status := IDLE; lastContentLength := lastContentLength s1;
                   stableSince := stableSince s1; soundSettings := soundSettings s1 |}
                (completionSound s1)
    else Completed s1 [].
Proof.
  intros Hs Hb. unfold watcherTick. rewrite Hb, Hs. simpl.
  reflexivity.
Qed.

(** A tick on which the label does not announce a generation leaves an
    IDLE watcher alone and plays nothing. *)
Lemma watcherTick_idle_quiet (i : TickInput) (s : WatcherSystem) :
  status s = IDLE ->
  quietTick (Tick i) ->
  watcherTick i s = Completed s [].
Proof.
  intros Hs Hq. unfold watcherTick. simpl in Hq.
  destruct (runButton (page i)) as [label|]; [|reflexivity].
  rewrite Hq, Hs. reflexivity.
Qed.

Lemma step_idle_quiet (sys : System) (e : Event) :
  status (ws sys) = IDLE ->
  quietTick e ->
  status (ws (step sys e)) = IDLE
  /\ played (step sys e) = played sys
  /\ completions (step sys e) = completions sys.
Proof.
  intros Hs Hq. destruct e as [i|stored]; simpl.
  - rewrite (watcherTick_idle_quiet i _ Hs Hq). simpl.
    rewrite app_nil_r. unfold isCompletion. rewrite Hs. simpl. auto.
  - destruct (pendingReads sys); simpl; auto.
Qed.

Lemma run_idle_quiet (evs : list Event) (sys : System) :
  status (ws sys) = IDLE ->
  Forall quietTick evs ->
  status (ws (run evs sys)) = IDLE
  /\ played (run evs sys) = played sys
  /\ completions (run evs sys) = completions sys.
Proof.
  intros Hs Hq. induction evs as [|e evs IH] using rev_ind; [auto|].
  apply Forall_app in Hq as [Hq He]. inversion_clear He as [|? ? He' _].
  destruct (IH Hq) as (IH1 & IH2 & IH3).
  rewrite run_snoc.
  destruct (step_idle_quiet (run evs sys) e IH1 He') as (S1 & S2 & S3).
  repeat split; congruence.
Qed.

Lemma completionDue_spec (g : bool) (i : TickInput) (s : WatcherSystem) :
  (forall t, stableSince s = Some t -> 0 < t) ->
  completionDue g i s = true <->
  g = false /\ exists t, stableSince s = Some t /\ nowCheck i - t >= RESPONSE_DEBOUNCE_MS.
Proof.
  intros Hpos. unfold completionDue, truthyTime.
  destruct (stableSince s) as [t|].
  - specialize (Hpos t eq_refl).
    rewrite !andb_true_iff, !negb_true_iff, Z.eqb_neq, Z.leb_le.
    split.
    + intros [[Hg _] Ht]. split; [exact Hg|]. exists t. split; [reflexivity | lia].
    + intros [Hg (t' & [= <-] & Ht)]. repeat split; [exact Hg | lia | lia].
  - rewrite andb_false_r. split; [discriminate|].
    intros [_ (t & Ht & _)]. discriminate.
Qed.

Lemma observedLength_nonneg (p : Page) (n : Z) :
  observedLength p = Some n -> 0 <= n.
Proof.
  unfold observedLength. destruct (last (responseContainers p)) as [[t|]|];
    intros [= <-]; lia.
Qed.

Lemma updateStability_positive (i : TickInput) (s : WatcherSystem) :
  0 < nowSample i ->
  (forall t, stableSince s = Some t -> 0 < t) ->
  forall t, stableSince (updateStability i s) = Some t -> 0 < t.
Proof.
  intros Hnow Hs t. unfold updateStability.
  destruct (observedLength (page i)); [|apply Hs].
  destruct (lastContentLength s <? z); [discriminate|].
  destruct (stableSince s) eqn:E; simpl.
  - rewrite E. apply Hs.
  - intros [= <-]. exact Hnow.
Qed.

(** What a tick does to the event system, by cases: nothing; entry into
    GENERATING; completion; or sampling only. *)
Lemma step_tick_cases (sys : System) (i : TickInput) :
  (step sys (Tick i) = sys /\ True)
  \/ (status (ws sys) = IDLE /\ True /\
      step sys (Tick i) =
        {| ws := {| status := GENERATING; lastContentLength := -1;
                    stableSince := None;
                    soundSettings := soundSettings (ws sys) |};
           pendingReads := S (pendingReads sys);
           played := played sys; completions := completions sys |})
  \/ (status (ws sys) = GENERATING /\
      (exists label, runButton (page i) = Some label /\
         completionDue (includes label "Stop") i (updateStability i (ws sys)) = true) /\
      step sys (Tick i) =
        {| ws := {| status := IDLE;
                    lastContentLength := lastContentLength (updateStability i (ws sys));
                    stableSince := stableSince (updateStability i (ws sys));
                    soundSettings := soundSettings (updateStability i (ws sys)) |};
           pendingReads := pendingReads sys;
           played := played sys ++ completionSound (updateStability i (ws sys));
           completions := S (completions sys) |})
  \/ (status (ws sys) = GENERATING /\
      (exists label, runButton (page i) = Some label /\
         completionDue (includes label "Stop") i (updateStability i (ws sys)) = false) /\
      step sys (Tick i) =
        {| ws := updateStability i (ws sys);
           pendingReads := pendingReads sys;
           played := played sys;
           completions := completions sys |}).
Proof.
  destruct sys as [s reads pl n]. simpl. unfold watcherTick.
  destruct (runButton (page i)) as [label|]; simpl.
  2:{ left. rewrite app_nil_r. unfold isCompletion.
      destruct (status s); simpl; auto. }
  destruct (status s) eqn:Hs; simpl.
  - destruct (includes label "Stop"); simpl.
    + right; left. auto.
    + left. rewrite app_nil_r. unfold isCompletion. rewrite Hs. simpl. auto.
  - destruct (completionDue (includes label "Stop") i (updateStability i s)) eqn:Hdue.
    + right; right; left. unfold isCompletion. rewrite Hs. simpl. eauto.
    + right; right; right. rewrite app_nil_r. unfold isCompletion.
      rewrite updateStability_status, Hs. simpl. eauto.
Qed.

(** After sampling, a set stability timer means that a length has been
    recorded. *)
Lemma updateStability_recorded (i : TickInput) (s : WatcherSystem) (b : Prop) :
  (stableSince s <> None -> 0 <= lastContentLength s /\ b) ->
  stableSince (updateStability i s) <> None ->
  0 <= lastContentLength (updateStability i s).
Proof.
  intros IH. unfold updateStability.
  pose proof (observedLength_nonneg (page i)) as Hn.
  destruct (observedLength (page i)) as [n|]; [|apply IH].
  specialize (Hn n eq_refl).
  destruct (Z.ltb_spec (lastContentLength s) n); simpl; [congruence|].
  destruct (stableSince s); simpl; intros _; lia.
Qed.

(** Sampling starts the stability timer only on a length that has not grown. *)
Lemma updateStability_started (i : TickInput) (s : WatcherSystem) :
  stableSince s = None ->
  stableSince (updateStability i s) <> None ->
  exists n, observedLength (page i) = Some n /\ n <= lastContentLength s.
Proof.
  unfold updateStability.
  destruct (observedLength (page i)) as [n|]; [|congruence].
  destruct (Z.ltb_spec (lastContentLength s) n); simpl; [congruence|].
  intros _ _. exists n. split; [reflexivity | lia].
Qed.

Lemma completionSound_length (s : WatcherSystem) :
  (length (completionSound s) <= 1)%nat.
Proof.
  unfold completionSound. destruct (soundSettings s) as [st|]; [|simpl; lia].
  destruct (enabled st); simpl; lia.
Qed.

(** Over a whole run, there are never more sounds than completed
    generations. *)
Lemma played_le_completions (sys : System) :
  reachable sys -> (length (played sys) <= completions sys)%nat.
Proof.
  revert sys. apply reachable_ind; [simpl; lia|].
  intros sys e _ IH. destruct e as [i|stored].
  - destruct (step_tick_cases sys i)
      as [(-> & _)|[(_ & _ & ->)|[(_ & _ & ->)|(_ & _ & ->)]]]; simpl; try exact IH.
    rewrite length_app. pose proof (completionSound_length (updateStability i (ws sys))).
    lia.
  - simpl. destruct (pendingReads sys); simpl; exact IH.
Qed.

End WatcherFacts.

(** ** Claims about the generation watcher *)

Section WatcherClaims.
Import JsString Watcher.

(** C1. While the watcher is GENERATING (and the run control is on the page),
    a tick performs the GENERATING->IDLE transition exactly when the label
    does not contain "Stop", [stableSince] is non-null and the clock read in
    the completion test is at least 1200 ms past it.  A tick plays at most one
    sound, and only when it performs the transition; once it has, no sequence
    of later ticks on which the label still lacks "Stop" plays a sound,
    counts a further completion or leaves IDLE; and over any run from the
    initial state there are never more sounds than completed generations.
    Clock readings are taken to be after the epoch. *)
Theorem C1_completion_edge_triggered
    (s : WatcherSystem) (i : TickInput) (label : string) :
  status s = GENERATING ->
  runButton (page i) = Some label ->
  0 < nowSample i ->
  (forall t, stableSince s = Some t -> 0 < t) ->
  exists s' fx,
    watcherTick i s = Completed s' fx
    /\ (status s' = IDLE <->
        includes label "Stop" = false
        /\ exists t, stableSince s' = Some t /\ nowCheck i - t >= 1200)
    /\ (length fx <= 1)%nat
    /\ (status s' <> IDLE -> fx = [])
    /\ (status s' = IDLE ->
        forall (evs : list Event) (reads n : nat) (before : list Effect),
          Forall quietTick evs ->
          let sys := {| ws := s'; pendingReads := reads;
                        played := before ++ fx; completions := n |} in
          status (ws (run evs sys)) = IDLE
          /\ played (run evs sys) = before ++ fx
          /\ completions (run evs sys) = n)
    /\ (forall sys, reachable sys ->
          (length (played sys) <= completions sys)%nat).
Proof.
  intros Hs Hb Hnow Hpos.
  rewrite (watcherTick_generating i s label Hs Hb). cbv zeta.
  pose proof (updateStability_positive i s Hnow Hpos) as Hpos1.
  pose proof (completionDue_spec (includes label "Stop") i _ Hpos1) as Hdue.
  pose proof (updateStability_status i s) as Hst.
  destruct (completionDue (includes label "Stop") i (updateStability i s)) eqn:E.
  - eexists _, _. split; [reflexivity|]. simpl.
    split; [|split; [|split; [|split]]].
    + split; [intros _; now apply Hdue | reflexivity].
    + apply completionSound_length.
    + congruence.
    + intros _ evs reads n before Hq. now apply run_idle_quiet.
    + apply played_le_completions.
  - eexists _, _. split; [reflexivity|]. simpl.
    split; [|split; [|split; [|split]]].
    + split.
      * intros H. rewrite Hst, Hs in H. discriminate.
      * intros H. apply Hdue in H. discriminate.
    + lia.
    + reflexivity.
    + intros H. rewrite Hst, Hs in H. discriminate.
    + apply played_le_completions.
Qed.

Lemma C1_completion_edge_triggered_witness :
  status sampleSettled = GENERATING
  /\ runButton (page (sampleTick "Run" "Hello" 1762000001800)) = Some "Run"
  /\ 0 < nowSample (sampleTick "Run" "Hello" 1762000001800)
  /\ (forall t, stableSince sampleSettled = Some t -> 0 < t)
  /\ exists s' fx,
      watcherTick (sampleTick "Run" "Hello" 1762000001800) sampleSettled
        = Completed s' fx
      /\ (status s' = IDLE <->
          includes "Run" "Stop" = false
          /\ exists t, stableSince s' = Some t
                       /\ nowCheck (sampleTick "Run" "Hello" 1762000001800) - t >= 1200).
Proof.
  assert (H4 : forall t, stableSince sampleSettled = Some t -> 0 < t)
    by (intros t [= <-]; reflexivity).
  split; [reflexivity|]. split; [reflexivity|]. split; [reflexivity|].
  split; [exact H4|].
  destruct (C1_completion_edge_triggered sampleSettled
              (sampleTick "Run" "Hello" 1762000001800) "Run"
              eq_refl eq_refl eq_refl H4) as (s' & fx & H1 & H2 & _).
  exists s', fx. split; [exact H1 | exact H2].
Defined.

(** C4, as stated, fails on a page without message container: the sampling
    block is guarded by [if (latestContainer)], so such a tick neither
    records the length 0 (first tick below: [lastContentLength] stays -1)
    nor starts the stability timer (second tick: [stableSince] stays
    null), whereas counting the missing region as length 0 would do the one
    or the other.  It also fails when the run control is missing: the tick
    returns at once, whatever the page shows (third tick). *)
Lemma C4_sampling_counterexample :
  let i := {| page := {| runButton := Some "Stop"; responseContainers := [] |};
              nowSample := 1762000000300; nowCheck := 1762000000300 |} in
  let j := {| page := {| runButton := None;
                         responseContainers := [Some (asciiUnits "Hello")] |};
              nowSample := 1762000000300; nowCheck := 1762000000300 |} in
  let fresh := {| status := GENERATING; lastContentLength := -1;
                  stableSince := None; soundSettings := None |} in
  let grown := {| status := GENERATING; lastContentLength := 5;
                  stableSince := None; soundSettings := None |} in
  watcherTick i fresh = Completed fresh []
  /\ watcherTick i grown = Completed grown []
  /\ watcherTick j fresh = Completed fresh []
  /\ ~ (forall (s : WatcherSystem) (i : TickInput),
          status s = GENERATING ->
          let n := match last (responseContainers (page i)) with
                   | Some (Some textContent) => Z.of_nat (length textContent)
                   | _ => 0
                   end in
          exists s' fx,
            watcherTick i s = Completed s' fx
            /\ (lastContentLength s < n ->
                stableSince s' = None /\ lastContentLength s' = n)
            /\ (n <= lastContentLength s -> stableSince s = None ->
                stableSince s' = Some (nowSample i))).
Proof.
  cbv zeta. split; [reflexivity|]. split; [reflexivity|]. split; [reflexivity|].
  intros H.
  destruct (H {| status := GENERATING; lastContentLength := -1;
                 stableSince := None; soundSettings := None |}
              {| page := {| runButton := Some "Stop"; responseContainers := [] |};
                 nowSample := 1762000000300; nowCheck := 1762000000300 |}
              eq_refl) as (s' & fx & Htick & Hgrow & _).
  injection Htick as <- _. simpl in Hgrow.
  destruct Hgrow as [_ Hlen]; [lia | discriminate Hlen].
Qed.

(** C4, amended.  On every tick taken in GENERATING.  Without the run
    control on the page the tick does nothing.  With it, but without any
    message container, the sampling is skipped: [lastContentLength] and
    [stableSince] stay as they are.  With a message container, the observed
    length is 0 if the most recent one has no content region and the number
    of UTF-16 code units of the region's text otherwise; a length strictly
    greater than [lastContentLength] clears [stableSince] and becomes the
    new [lastContentLength]; otherwise [lastContentLength] stays, a null
    [stableSince] is set to the clock reading and a non-null one is left
    as it is. *)
Theorem C4_stability_sampling (s : WatcherSystem) (i : TickInput) :
  status s = GENERATING ->
  exists s' fx,
    watcherTick i s = Completed s' fx
    /\ match runButton (page i), last (responseContainers (page i)) with
       | None, _ => s' = s /\ fx = []
       | Some _, None =>
           lastContentLength s' = lastContentLength s
           /\ stableSince s' = stableSince s
       | Some _, Some contentArea =>
           let n := match contentArea with
                    | Some textContent => Z.of_nat (length textContent)
                    | None => 0
                    end in
           (lastContentLength s < n ->
            stableSince s' = None /\ lastContentLength s' = n)
           /\ (n <= lastContentLength s ->
               lastContentLength s' = lastContentLength s
               /\ match stableSince s with
                  | None => stableSince s' = Some (nowSample i)
                  | Some t => stableSince s' = Some t
                  end)
       end.
Proof.
  intros Hs.
  destruct (runButton (page i)) as [label|] eqn:Hb.
  2:{ exists s, []. unfold watcherTick. rewrite Hb. auto. }
  rewrite (watcherTick_generating i s label Hs Hb). cbv zeta.
  assert (Hu : match last (responseContainers (page i)) with
               | None =>
                   lastContentLength (updateStability i s) = lastContentLength s
                   /\ stableSince (updateStability i s) = stableSince s
               | Some contentArea =>
                   let n := match contentArea with
                            | Some textContent => Z.of_nat (length textContent)
                            | None => 0
                            end in
                   (lastContentLength s < n ->
                    stableSince (updateStability i s) = None
                    /\ lastContentLength (updateStability i s) = n)
                   /\ (n <= lastContentLength s ->
                       lastContentLength (updateStability i s) = lastContentLength s
                       /\ match stableSince s with
                          | None => stableSince (updateStability i s) = Some (nowSample i)
                          | Some t => stableSince (updateStability i s) = Some t
                          end)
               end).
  { unfold updateStability, observedLength.
    destruct (last (responseContainers (page i))) as [contentArea|]; [|auto].
    cbv zeta.
    set (n := match contentArea with
              | Some textContent => Z.of_nat (length textContent)
              | None => 0
              end).
    destruct (Z.ltb_spec (lastContentLength s) n) as [Hlt|Hge]; simpl.
    - split; [auto | lia].
    - split; [lia|]. intros _.
      destruct (stableSince s) eqn:E; simpl; [rewrite E|]; auto. }
  destruct (completionDue (includes label "Stop") i (updateStability i s));
    eexists _, _; (split; [reflexivity | exact Hu]).
Qed.

Lemma C4_stability_sampling_witness :
  status sampleSettled = GENERATING
  /\ exists s' fx,
      watcherTick (sampleTick "Stop" "Hello, world" 1762000000900) sampleSettled
        = Completed s' fx
      /\ (lastContentLength sampleSettled < 12 ->
          stableSince s' = None /\ lastContentLength s' = 12).
Proof.
  split; [reflexivity|].
  destruct (C4_stability_sampling sampleSettled
              (sampleTick "Stop" "Hello, world" 1762000000900) eq_refl)
    as (s' & fx & H1 & H2 & _).
  exists s', fx. split; [exact H1 | exact H2].
Defined.

(** C9. A tick taken in IDLE while the label contains "Stop" does the
    IDLE->GENERATING transition and nothing else: whatever the page content
    and the clock, it sets GENERATING, [lastContentLength = -1] and a null
    [stableSince], plays nothing, counts no completion, and is suspended at
    the storage read; when the read resolves, [soundSettings] is the stored
    value, or [{enabled: false, sound: 'complete1', volume: 0.5}] when none is
    stored. *)
Theorem C9_idle_to_generating
    (s : WatcherSystem) (i : TickInput) (label : string)
    (stored : option SoundSettings) :
  status s = IDLE ->
  runButton (page i) = Some label ->
  includes label "Stop" = true ->
  watcherTick i s =
    AwaitStorage {| status := GENERATING; lastContentLength := -1;
                    stableSince := None; soundSettings := soundSettings s |}
  /\ (forall sys, ws sys = s ->
        step (step sys (Tick i)) (SettingsLoaded stored) =
          {| ws := {| status := GENERATING; lastContentLength := -1;
                      stableSince := None;
                      soundSettings :=
                        Some (match stored with
                              | Some v => v
                              | None => {| enabled := false; sound := "complete1";
                                           volume := 1 # 2 |}
                              end) |};
             pendingReads := pendingReads sys;
             played := played sys;
             completions := completions sys |}).
Proof.
  intros Hs Hb Hg.
  assert (E : watcherTick i s =
              AwaitStorage {| status := GENERATING; lastContentLength := -1;
                              stableSince := None; soundSettings := soundSettings s |}).
  { unfold watcherTick. rewrite Hb, Hs, Hg. reflexivity. }
  split; [exact E|].
  intros sys <-. simpl. rewrite E. simpl.
  unfold resumeTick, storageGetSoundSettings. simpl.
  now destruct stored.
Qed.

Lemma C9_idle_to_generating_witness :
  status sampleIdle = IDLE
  /\ runButton (page (sampleTick "Stop" "" 1762000005000)) = Some "Stop"
  /\ includes "Stop" "Stop" = true
  /\ watcherTick (sampleTick "Stop" "" 1762000005000) sampleIdle =
       AwaitStorage {| status := GENERATING; lastContentLength := -1;
                       stableSince := None;
                       soundSettings := soundSettings sampleIdle |}.
Proof.
  split; [reflexivity|]. split; [reflexivity|]. split; [reflexivity|].
  exact (proj1 (C9_idle_to_generating sampleIdle
                  (sampleTick "Stop" "" 1762000005000) "Stop" None
                  eq_refl eq_refl eq_refl)).
Defined.

(** C3, as stated, fails: after a completed generation the watcher is IDLE
    with [stableSince] still set (the transition only resets [status]); and
    [stableSince] is also set when the latest sample is smaller than the
    previous one. *)
Lemma C3_stableSince_counterexample :
  reachable (run completedGeneration initialSystem)
  /\ status (ws (run completedGeneration initialSystem)) = IDLE
  /\ stableSince (ws (run completedGeneration initialSystem)) = Some 1762000000600
  /\ reachable (run shrinkingGeneration initialSystem)
  /\ stableSince (ws (run shrinkingGeneration initialSystem)) = Some 1762000000600
  /\ ~ (forall sys, reachable sys ->
          stableSince (ws sys) <> None -> status (ws sys) = GENERATING).
Proof.
  split; [now exists completedGeneration|].
  split; [reflexivity|]. split; [reflexivity|].
  split; [now exists shrinkingGeneration|].
  split; [reflexivity|].
  intros H.
  specialize (H (run completedGeneration initialSystem)
                (ex_intro _ completedGeneration eq_refl)).
  discriminate H. discriminate.
Qed.

(** C3, amended.  In every reachable state, [stableSince] is non-null only if
    a length has been recorded since GENERATING was last entered
    ([lastContentLength >= 0]) and the watcher either is GENERATING or has
    completed a generation before.  It turns non-null only on a tick taken in
    GENERATING whose observed length does not exceed [lastContentLength].
    The GENERATING->IDLE transition leaves it non-null; while the watcher
    stays IDLE no event changes it; it is the IDLE->GENERATING transition
    that clears it.  So in IDLE, [stableSince] is null exactly as long as no
    generation has completed. *)
Theorem C3_stableSince_invariant (sys : System) :
  reachable sys ->
  (stableSince (ws sys) <> None ->
     0 <= lastContentLength (ws sys)
     /\ (status (ws sys) = GENERATING \/ (0 < completions sys)%nat))
  /\ (status (ws sys) = IDLE ->
      (stableSince (ws sys) = None <-> completions sys = 0%nat))
  /\ forall e : Event,
      (stableSince (ws sys) = None ->
       stableSince (ws (step sys e)) <> None ->
         status (ws sys) = GENERATING
         /\ exists i n, e = Tick i /\ observedLength (page i) = Some n
                        /\ n <= lastContentLength (ws sys))
      /\ (status (ws sys) = GENERATING ->
          status (ws (step sys e)) = IDLE ->
          stableSince (ws (step sys e)) <> None)
      /\ (status (ws sys) = IDLE ->
          status (ws (step sys e)) = GENERATING ->
          stableSince (ws (step sys e)) = None)
      /\ (status (ws sys) = IDLE ->
          status (ws (step sys e)) = IDLE ->
          stableSince (ws (step sys e)) = stableSince (ws sys)
          /\ completions (step sys e) = completions sys).
Proof.
  intros Hr. split; [|split].
  - revert sys Hr. apply (reachable_ind (fun sys =>
      stableSince (ws sys) <> None ->
      0 <= lastContentLength (ws sys)
      /\ (status (ws sys) = GENERATING \/ (0 < completions sys)%nat))).
    + simpl. congruence.
    + intros sys e _ IH. destruct e as [i|stored].
      * destruct (step_tick_cases sys i)
          as [(-> & _)|[(_ & _ & ->)|[(Hs & Hdue & ->)|(Hs & Hdue & ->)]]];
          simpl.
        -- exact IH.
        -- congruence.
        -- intros H. split; [|right; lia].
           exact (updateStability_recorded _ _ _ IH H).
        -- intros H. split; [|left; now rewrite updateStability_status].
           exact (updateStability_recorded _ _ _ IH H).
      * simpl. destruct (pendingReads sys); simpl; exact IH.
  - revert sys Hr. apply (reachable_ind (fun sys =>
      status (ws sys) = IDLE ->
      (stableSince (ws sys) = None <-> completions sys = 0%nat))).
    + simpl. tauto.
    + intros sys e _ IH. destruct e as [i|stored].
      * destruct (step_tick_cases sys i)
          as [(-> & _)|[(_ & _ & ->)|[(Hs & (label & _ & Hdue) & ->)|(Hs & _ & ->)]]];
          simpl.
        -- exact IH.
        -- discriminate.
        -- intros _. unfold completionDue, truthyTime in Hdue.
           destruct (stableSince (updateStability i (ws sys)));
             [split; [discriminate | lia]|].
           rewrite andb_false_r in Hdue. discriminate.
        -- rewrite updateStability_status, Hs. discriminate.
      * simpl. destruct (pendingReads sys); simpl; exact IH.
  - intros e. destruct e as [i|stored].
    + destruct (step_tick_cases sys i)
        as [(-> & _)|[(Hs & _ & ->)|[(Hs & (label & _ & Hdue) & ->)|(Hs & _ & ->)]]];
        simpl.
      * repeat split; congruence.
      * repeat split; congruence.
      * split; [|split; [|split; congruence]].
        -- intros H1 H2. split; [exact Hs|].
           destruct (updateStability_started i (ws sys) H1 H2) as (n & H3 & H4).
           now exists i, n.
        -- intros _ _. unfold completionDue, truthyTime in Hdue.
           destruct (stableSince (updateStability i (ws sys))); [congruence|].
           rewrite andb_false_r in Hdue. discriminate.
      * rewrite updateStability_status.
        split; [|split; [|split]; congruence].
        intros H1 H2. split; [exact Hs|].
        destruct (updateStability_started i (ws sys) H1 H2) as (n & H3 & H4).
        now exists i, n.
    + simpl. destruct (pendingReads sys); simpl; repeat split; congruence.
Qed.

Lemma C3_stableSince_invariant_witness :
  reachable (run completedGeneration initialSystem)
  /\ (stableSince (ws (run completedGeneration initialSystem)) <> None ->
      0 <= lastContentLength (ws (run completedGeneration initialSystem))
      /\ (status (ws (run completedGeneration initialSystem)) = GENERATING
          \/ (0 < completions (run completedGeneration initialSystem))%nat))
  /\ (status (ws (run completedGeneration initialSystem)) = IDLE ->
      (stableSince (ws (run completedGeneration initialSystem)) = None
       <-> completions (run completedGeneration initialSystem) = 0%nat)).
Proof.
  split; [now exists completedGeneration|].
  destruct (C3_stableSince_invariant
              (run completedGeneration initialSystem)
              (ex_intro _ completedGeneration eq_refl)) as (A & B & _).
  split; [exact A | exact B].
Defined.

End WatcherClaims.

(** ** The shortener: timers *)

Section ShortenerTimers.
Import JsString Shortener.
Context {browser : Browser}.

Lemma shortener_run_snoc (evs : list Shortener.Event) (e : Shortener.Event) (w : World) :
  Shortener.run (evs ++ [e]) w = Shortener.step (Shortener.run evs w) e.
Proof. unfold Shortener.run. apply foldl_snoc. Qed.

Lemma foldl_preserves {A B : Type} (P : A -> Prop) (f : A -> B -> A) (l : list B) :
  (forall a b, P a -> P (f a b)) -> forall a, P a -> P (foldl f a l).
Proof.
  intros Hf. induction l as [|b l IH]; intros a Ha; simpl; [exact Ha|].
  apply IH, Hf, Ha.
Qed.

Lemma sameSchedule_refl (w : World) : sameSchedule w w.
Proof. repeat split. Qed.

Lemma sameSchedule_trans (w1 w2 w3 : World) :
  sameSchedule w1 w2 -> sameSchedule w2 w3 -> sameSchedule w1 w3.
Proof. intros (?&?&?) (?&?&?). repeat split; congruence. Qed.

Lemma sameSchedule_updateContentArea c f w :
  sameSchedule (updateContentArea c f w) w.
Proof. unfold updateContentArea. case_match; repeat split. Qed.

Lemma sameSchedule_queueRecord c w : sameSchedule (queueRecord c w) w.
Proof. unfold queueRecord. case_match; repeat split. Qed.

Lemma sameSchedule_writeMarkup c html w : sameSchedule (writeMarkup c html w) w.
Proof.
  unfold writeMarkup.
  eapply sameSchedule_trans; [apply sameSchedule_queueRecord|].
  apply sameSchedule_updateContentArea.
Qed.

Lemma sameSchedule_setInnerHTML c html w : sameSchedule (setInnerHTML c html w) w.
Proof.
  unfold setInnerHTML.
  eapply sameSchedule_trans; [apply sameSchedule_writeMarkup | repeat split].
Qed.

Lemma sameSchedule_setPhase c p w : sameSchedule (setPhase c p w) w.
Proof.
  unfold setPhase.
  eapply sameSchedule_trans; [apply sameSchedule_updateContentArea | repeat split].
Qed.

Lemma sameSchedule_setPrefix c h w : sameSchedule (setPrefix c h w) w.
Proof.
  unfold setPrefix.
  eapply sameSchedule_trans; [apply sameSchedule_updateContentArea | repeat split].
Qed.

Lemma sameSchedule_removePrefix c w : sameSchedule (removePrefix c w) w.
Proof.
  unfold removePrefix.
  eapply sameSchedule_trans; [apply sameSchedule_updateContentArea | repeat split].
Qed.

Lemma sameSchedule_setShortenInit c w : sameSchedule (setShortenInit c w) w.
Proof. unfold setShortenInit. case_match; repeat split. Qed.

Lemma consistent_same (w' w : World) :
  sameSchedule w' w -> timersConsistent w -> timersConsistent w'.
Proof.
  intros (Ht & Hn & Hd) [HA HB]. split.
  - intros t cb. rewrite Ht, Hn. apply HA.
  - intros t c. unfold finalizePending. rewrite Ht, Hd. apply HB.
Qed.

(** Arming a throttle timer under a fresh identifier. *)
Lemma consistent_throttle (c : nat) (w w' : World) :
  timersConsistent w ->
  timers w' = <[nextTimerId w := ThrottleCallback c]> (timers w) ->
  nextTimerId w' = Pos.succ (nextTimerId w) ->
  debounceTimerMap w' = debounceTimerMap w ->
  timersConsistent w'.
Proof.
  intros [HA HB] Ht Hn Hd. split.
  - intros t cb. rewrite Ht, Hn, lookup_insert. case_decide.
    + intros _. subst. lia.
    + intros H'. apply HA in H'. lia.
  - intros t c'. unfold finalizePending. rewrite Ht, Hd, lookup_insert.
    case_decide; [discriminate | apply HB].
Qed.

(** Cancelling a timer. *)
Lemma consistent_clear (t0 : positive) (w w' : World) :
  timersConsistent w ->
  timers w' = delete t0 (timers w) ->
  nextTimerId w' = nextTimerId w ->
  debounceTimerMap w' = debounceTimerMap w ->
  timersConsistent w'.
Proof.
  intros [HA HB] Ht Hn Hd. split.
  - intros t cb. rewrite Ht, Hn, lookup_delete. case_decide; [discriminate | apply HA].
  - intros t c'. unfold finalizePending. rewrite Ht, Hd, lookup_delete.
    case_decide; [discriminate | apply HB].
Qed.

(** Arming the finalize timer of [c] when none is outstanding. *)
Lemma consistent_arm (c : nat) (w w' : World) :
  timersConsistent w ->
  (forall t, ~ finalizePending c t w) ->
  timers w' = <[nextTimerId w := FinalizeCallback c]> (timers w) ->
  nextTimerId w' = Pos.succ (nextTimerId w) ->
  debounceTimerMap w' = <[c := nextTimerId w]> (debounceTimerMap w) ->
  timersConsistent w'.
Proof.
  intros [HA HB] Hnone Ht Hn Hd. split.
  - intros t cb. rewrite Ht, Hn, lookup_insert. case_decide.
    + intros _. subst. lia.
    + intros H'. apply HA in H'. lia.
  - intros t c'. unfold finalizePending. rewrite Ht, Hd, !lookup_insert.
    case_decide as E1.
    + intros [= <-]. subst t. now rewrite decide_True.
    + intros H'. case_decide as E2; [subst c'; now apply Hnone in H'|].
      now apply HB.
Qed.

(** Dropping the [debounceTimerMap] entry of [c] when no finalize timer of
    [c] is outstanding. *)
Lemma consistent_forget (c : nat) (w w' : World) :
  timersConsistent w ->
  (forall t, ~ finalizePending c t w) ->
  timers w' = timers w ->
  nextTimerId w' = nextTimerId w ->
  debounceTimerMap w' = delete c (debounceTimerMap w) ->
  timersConsistent w'.
Proof.
  intros [HA HB] Hnone Ht Hn Hd. split.
  - intros t cb. rewrite Ht, Hn. apply HA.
  - intros t c'. unfold finalizePending. rewrite Ht, Hd, lookup_delete.
    intros H'. case_decide as E; [subst c'; now apply Hnone in H'|].
    now apply HB.
Qed.

(** Once the recorded timer of [c] is cancelled, none is outstanding. *)
Lemma cancelled_none (c : nat) (w w' : World) :
  timersConsistent w ->
  timers w' = match debounceTimerMap w !! c with
              | Some t0 => delete t0 (timers w)
              | None => timers w
              end ->
  forall t, ~ finalizePending c t w'.
Proof.
  intros [_ HB] Ht t. unfold finalizePending. rewrite Ht.
  destruct (debounceTimerMap w !! c) as [t0|] eqn:E.
  - rewrite lookup_delete. case_decide; [discriminate|].
    intros H'. apply HB in H'. congruence.
  - intros H'. apply HB in H'. congruence.
Qed.

Lemma nopending_same (c : nat) (w' w : World) :
  sameSchedule w' w ->
  (forall t, ~ finalizePending c t w) -> forall t, ~ finalizePending c t w'.
Proof. intros (Ht & _ & _) H t. unfold finalizePending. rewrite Ht. apply H. Qed.

Lemma nopending_setDebounceMap (c : nat) m (w : World) :
  (forall t, ~ finalizePending c t w) ->
  forall t, ~ finalizePending c t (setDebounceMap m w).
Proof. intros H t. exact (H t). Qed.

Lemma consistent_dropDebounce (c : nat) (w : World) :
  timersConsistent w ->
  (forall t, ~ finalizePending c t w) ->
  timersConsistent (setDebounceMap (delete c (debounceTimerMap w)) w).
Proof.
  intros H Hnone. eapply (consistent_forget c w); [exact H | exact Hnone | reflexivity..].
Qed.

Lemma consistent_throttledProcess c w :
  timersConsistent w -> timersConsistent (throttledProcess c w).
Proof.
  intros H. unfold throttledProcess. case_match; [exact H|]. simpl.
  eapply consistent_throttle; [exact H | reflexivity..].
Qed.

Lemma consistent_clearTimeout t w :
  timersConsistent w -> timersConsistent (clearTimeout t w).
Proof. intros H. eapply consistent_clear; [exact H | reflexivity..]. Qed.

(** The first half of [cleanupShorteningForContainer] only touches the
    observer. *)
Lemma cleanup_observer_same c w :
  sameSchedule
    (match shortenObserverMap w !! c with
     | Some _ => setObserverMap (delete c (shortenObserverMap (emit (Disconnect c) w)))
                   (emit (Disconnect c) w)
     | None => w
     end) w.
Proof. case_match; repeat split. Qed.

Lemma consistent_cleanup c w :
  timersConsistent w -> timersConsistent (cleanupShorteningForContainer c w).
Proof.
  intros H. unfold cleanupShorteningForContainer.
  pose proof (cleanup_observer_same c w) as Hsame.
  set (w1 := match shortenObserverMap w !! c with Some _ => _ | None => w end) in *.
  cbv zeta. fold w1.
  pose proof (consistent_same _ _ Hsame H) as H1.
  destruct (getContentArea c w1); [|exact H1].
  destruct (debounceTimerMap w1 !! c) as [timer|] eqn:E; [|exact H1].
  eapply (consistent_forget c (clearTimeout timer w1)); [| |reflexivity..].
  - now apply consistent_clearTimeout.
  - apply (cancelled_none c w1); [exact H1|]. now rewrite E.
Qed.

(** After the cleanup of a container that has a content area, no finalize
    timer of that container is outstanding. *)
Lemma cleanup_none c w :
  timersConsistent w ->
  is_Some (getContentArea c w) ->
  forall t, ~ finalizePending c t (cleanupShorteningForContainer c w).
Proof.
  intros H Hca. unfold cleanupShorteningForContainer.
  pose proof (cleanup_observer_same c w) as Hsame.
  set (w1 := match shortenObserverMap w !! c with Some _ => _ | None => w end) in *.
  cbv zeta. fold w1.
  pose proof (consistent_same _ _ Hsame H) as H1.
  assert (Hca1 : getContentArea c w1 = getContentArea c w).
  { subst w1. now destruct (shortenObserverMap w !! c). }
  rewrite Hca1. destruct Hca as [ca ->].
  destruct (debounceTimerMap w1 !! c) as [timer|] eqn:E.
  - apply (cancelled_none c w1); [exact H1|]. now rewrite E.
  - apply (cancelled_none c w1); [exact H1|]. now rewrite E.
Qed.

Lemma cleanup_debounce_gone c w :
  is_Some (getContentArea c w) ->
  debounceTimerMap (cleanupShorteningForContainer c w) !! c = None.
Proof.
  intros Hca. unfold cleanupShorteningForContainer.
  set (w1 := match shortenObserverMap w !! c with Some _ => _ | None => w end) in *.
  cbv zeta. fold w1.
  assert (Hca1 : getContentArea c w1 = getContentArea c w).
  { subst w1. now destruct (shortenObserverMap w !! c). }
  rewrite Hca1. destruct Hca as [ca ->].
  destruct (debounceTimerMap w1 !! c) as [timer|] eqn:E; [|exact E].
  simpl. apply lookup_delete_eq.
Qed.

Lemma consistent_process c w :
  timersConsistent w -> timersConsistent (processShorteningForContainer c w).
Proof.
  intros H. unfold processShorteningForContainer.
  destruct (getContentArea c w) as [ca|]; [|exact H].
  case_bool_decide as Efin; [exact H|].
  cbv zeta.
  assert (H0 : timersConsistent (emit (ReadMarkup c) w))
    by (eapply consistent_same; [|exact H]; repeat split).
  case_bool_decide as Estr.
  - destruct (includes (innerHTML ca) END_TAG_ESCAPED); [|exact H0].
    set (w1 := match debounceTimerMap (emit (ReadMarkup c) w) !! c with
               | Some existingTimer => clearTimeout existingTimer (emit (ReadMarkup c) w)
               | None => emit (ReadMarkup c) w
               end).
    assert (H1 : timersConsistent w1).
    { subst w1. case_match; [now apply consistent_clearTimeout | exact H0]. }
    assert (Hnone : forall t, ~ finalizePending c t w1).
    { apply (cancelled_none c (emit (ReadMarkup c) w)); [exact H0|].
      subst w1. now case_match. }
    simpl. eapply (consistent_arm c w1); [exact H1 | exact Hnone | reflexivity..].
  - case_match; [|exact H0].
    eapply consistent_same; [|exact H0].
    eapply sameSchedule_trans; [apply sameSchedule_setPhase|].
    eapply sameSchedule_trans; [apply sameSchedule_setInnerHTML|].
    apply sameSchedule_setPrefix.
Qed.

Lemma finalize_tail_same c html w :
  sameSchedule (removePrefix c (setPhase c "final" (setInnerHTML c html w))) w.
Proof.
  eapply sameSchedule_trans; [apply sameSchedule_removePrefix|].
  eapply sameSchedule_trans; [apply sameSchedule_setPhase|].
  apply sameSchedule_setInnerHTML.
Qed.

Lemma consistent_finalize c w :
  timersConsistent w -> timersConsistent (finalizeCallback c w).
Proof.
  intros H. unfold finalizeCallback.
  destruct (getContentArea c w) as [ca|] eqn:Hca; [|exact H].
  cbv zeta.
  assert (H0 : timersConsistent (emit (ReadMarkup c) w))
    by (eapply consistent_same; [|exact H]; repeat split).
  destruct (_ =? _) eqn:Eidx; [exact H0|].
  set (w1 := cleanupShorteningForContainer c (emit (ReadMarkup c) w)).
  assert (H1 : timersConsistent w1) by now apply consistent_cleanup.
  assert (Hnone : forall t, ~ finalizePending c t w1).
  { apply cleanup_none; [exact H0|]. simpl. unfold getContentArea in *. simpl. eauto. }
  apply consistent_dropDebounce.
  - eapply consistent_same; [apply finalize_tail_same | exact H1].
  - eapply nopending_same; [apply finalize_tail_same | exact Hnone].
Qed.

(** When the finalize callback has run to its end, no finalize timer of the
    container is outstanding. *)
Lemma finalize_none c w :
  timersConsistent w ->
  (forall t, ~ finalizePending c t w) ->
  forall t, ~ finalizePending c t (finalizeCallback c w).
Proof.
  intros H Hnone. unfold finalizeCallback.
  destruct (getContentArea c w) as [ca|] eqn:Hca; [|exact Hnone].
  cbv zeta. destruct (_ =? _) eqn:Eidx; [exact Hnone|].
  set (w1 := cleanupShorteningForContainer c (emit (ReadMarkup c) w)).
  assert (Hnone1 : forall t, ~ finalizePending c t w1).
  { apply cleanup_none.
    - eapply consistent_same; [|exact H]. repeat split.
    - unfold getContentArea in *. simpl. eauto. }
  apply nopending_setDebounceMap.
  eapply nopending_same; [apply finalize_tail_same | exact Hnone1].
Qed.

Lemma consistent_initialize c w :
  timersConsistent w -> timersConsistent (initializeShorteningForContainer c w).
Proof.
  intros H. unfold initializeShorteningForContainer.
  repeat case_match; try exact H.
  cbv zeta. apply consistent_throttledProcess.
  eapply consistent_same; [|exact H].
  eapply sameSchedule_trans; [|apply (sameSchedule_setShortenInit c)].
  repeat split.
Qed.

Lemma consistent_scanMessageContainer w c :
  timersConsistent w -> timersConsistent (scanMessageContainer w c).
Proof.
  intros H. unfold scanMessageContainer.
  repeat case_match; try exact H; cbv zeta;
    try apply consistent_initialize;
    (eapply consistent_same; [|exact H]; repeat split).
Qed.

Lemma consistent_scan w :
  timersConsistent w -> timersConsistent (scanAndProcessMessages w).
Proof.
  intros H. unfold scanAndProcessMessages.
  set (w1 := foldl scanMessageContainer w _). cbv zeta.
  apply (consistent_same _ w1); [repeat split|]. subst w1.
  apply foldl_preserves; [|exact H].
  intros a b. apply consistent_scanMessageContainer.
Qed.

Lemma consistent_cleanupAll w :
  timersConsistent w -> timersConsistent (cleanupAll w).
Proof.
  intros H. unfold cleanupAll.
  apply foldl_preserves; [|exact H].
  intros a b. apply consistent_cleanup.
Qed.

Lemma consistent_onStorageChanged e s w :
  timersConsistent w -> timersConsistent (onStorageChanged e s w).
Proof.
  intros H. unfold onStorageChanged.
  set (w1 := match e with Some true => initialize w | Some false => dismantle w
                        | None => w end).
  assert (H1 : timersConsistent w1).
  { subst w1. destruct e as [[|]|]; [| |exact H].
    - unfold initialize. case_match; [exact H|].
      eapply consistent_same; [|exact H]. repeat split.
    - unfold dismantle.
      set (w2 := cleanupAll _). cbv zeta.
      apply (consistent_same _ w2); [repeat split|]. subst w2.
      apply consistent_cleanupAll.
      eapply consistent_same; [|exact H]. repeat split. }
  cbv zeta. destruct s as [[|]|]; [| |exact H1].
  - eapply consistent_same; [|exact H1]. repeat split.
  - apply consistent_cleanupAll. eapply consistent_same; [|exact H1]. repeat split.
Qed.

Lemma consistent_deliverRecords w c :
  timersConsistent w -> timersConsistent (deliverRecords w c).
Proof.
  intros H. unfold deliverRecords. repeat case_match; try exact H.
  apply consistent_throttledProcess.
  eapply consistent_same; [|exact H]. repeat split.
Qed.

Lemma consistent_microtaskCheckpoint w :
  timersConsistent w -> timersConsistent (microtaskCheckpoint w).
Proof.
  intros H. unfold microtaskCheckpoint.
  apply foldl_preserves; [|exact H].
  intros a b. apply consistent_deliverRecords.
Qed.

Lemma consistent_runTimer cb w :
  timersConsistent w -> timersConsistent (runTimer cb w).
Proof.
  intros H. destruct cb as [c|c]; simpl.
  - eapply consistent_same; [|apply (consistent_process c), H]. repeat split.
  - now apply consistent_finalize.
Qed.

Lemma consistent_task e w :
  timersConsistent w -> timersConsistent (task e w).
Proof.
  intros H. destruct e; simpl.
  - eapply consistent_same; [|exact H]. repeat split.
  - eapply consistent_same; [|exact H]. repeat split.
  - eapply consistent_same; [apply sameSchedule_writeMarkup | exact H].
  - case_match; [now apply consistent_scan | exact H].
  - case_match; [|exact H].
    apply consistent_runTimer.
    eapply consistent_clear; [exact H | reflexivity..].
  - apply consistent_onStorageChanged.
    eapply consistent_same; [|exact H]. repeat split.
Qed.

Lemma consistent_step w e :
  timersConsistent w -> timersConsistent (Shortener.step w e).
Proof.
  intros H. unfold Shortener.step.
  now apply consistent_microtaskCheckpoint, consistent_task.
Qed.

Lemma consistent_boot st : timersConsistent (boot st).
Proof.
  assert (H : timersConsistent (emptyWorld st)).
  { split; intros t cb; unfold finalizePending; simpl;
      rewrite ?lookup_empty; discriminate. }
  unfold boot. case_match; [|exact H].
  unfold initialize. simpl. eapply consistent_same; [|exact H]. repeat split.
Qed.

Lemma consistent_run evs w :
  timersConsistent w -> timersConsistent (Shortener.run evs w).
Proof.
  intros H. unfold Shortener.run.
  apply foldl_preserves; [|exact H].
  intros a b. apply consistent_step.
Qed.

Lemma reachable_boot st : Shortener.reachable (boot st).
Proof. now exists st, []. Qed.

Lemma reachable_run evs w :
  Shortener.reachable w -> Shortener.reachable (Shortener.run evs w).
Proof.
  intros (st & evs0 & ->). exists st, (evs0 ++ evs).
  unfold Shortener.run. now rewrite foldl_app.
Qed.

Lemma reachable_consistent w : Shortener.reachable w -> timersConsistent w.
Proof. intros (st & evs & ->). apply consistent_run, consistent_boot. Qed.

End ShortenerTimers.

(** ** The shortener: what the operations do to a content area *)

Section ShortenerContent.
Import JsString Shortener.
Context {browser : Browser}.

Lemma getContentArea_update c c' f w :
  getContentArea c' (updateContentArea c f w) =
    if decide (c = c') then f <$> getContentArea c' w else getContentArea c' w.
Proof.
  unfold getContentArea, updateContentArea.
  destruct (messageContainers w !! c) as [mc|] eqn:E; simpl.
  - case_decide as Hc.
    + subst c'. rewrite list_lookup_insert_eq by (eapply lookup_lt_Some, E).
      rewrite E. reflexivity.
    + now rewrite list_lookup_insert_ne.
  - case_decide as Hc; [subst c'; now rewrite E | reflexivity].
Qed.

Lemma getContentArea_update_eq c f w :
  getContentArea c (updateContentArea c f w) = f <$> getContentArea c w.
Proof. rewrite getContentArea_update. now rewrite decide_True. Qed.

Lemma getContentArea_update_ne c c' f w :
  c <> c' -> getContentArea c' (updateContentArea c f w) = getContentArea c' w.
Proof. intros H. rewrite getContentArea_update. now rewrite decide_False. Qed.

Lemma getContentArea_same (c : nat) (w w' : World) :
  messageContainers w' = messageContainers w ->
  getContentArea c w' = getContentArea c w.
Proof. unfold getContentArea. now intros ->. Qed.

Lemma getContentArea_emit c a w : getContentArea c (emit a w) = getContentArea c w.
Proof. reflexivity. Qed.

Lemma getContentArea_setObserverMap c m w :
  getContentArea c (setObserverMap m w) = getContentArea c w.
Proof. reflexivity. Qed.

Lemma getContentArea_setDebounceMap c m w :
  getContentArea c (setDebounceMap m w) = getContentArea c w.
Proof. reflexivity. Qed.

Lemma containers_queueRecord c w :
  messageContainers (queueRecord c w) = messageContainers w.
Proof. unfold queueRecord. now case_match. Qed.

Lemma containers_throttledProcess c w :
  messageContainers (throttledProcess c w) = messageContainers w.
Proof. unfold throttledProcess. now case_match. Qed.

Lemma containers_cleanup c w :
  messageContainers (cleanupShorteningForContainer c w) = messageContainers w.
Proof.
  unfold cleanupShorteningForContainer. cbv zeta.
  repeat case_match; reflexivity.
Qed.

Lemma containers_deliverRecords w c :
  messageContainers (deliverRecords w c) = messageContainers w.
Proof.
  unfold deliverRecords. repeat case_match; try reflexivity.
  now rewrite containers_throttledProcess.
Qed.

Lemma containers_microtaskCheckpoint w :
  messageContainers (microtaskCheckpoint w) = messageContainers w.
Proof.
  unfold microtaskCheckpoint.
  generalize (seq 0 (length (messageContainers w))). intros l.
  revert w. induction l as [|c l IH]; intros w; simpl; [reflexivity|].
  now rewrite IH, containers_deliverRecords.
Qed.

Lemma getContentArea_writeMarkup c html w :
  getContentArea c (writeMarkup c html w) =
    (fun ca => {| innerHTML := html; litsyncShortened := litsyncShortened ca;
                  litsyncHtmlBefore := litsyncHtmlBefore ca |}) <$> getContentArea c w.
Proof.
  unfold writeMarkup.
  rewrite (getContentArea_same c _ _ (containers_queueRecord c _)).
  apply getContentArea_update_eq.
Qed.

(** The content area left by the finalize callback when the end marker is
    there. *)
Lemma finalize_content c w ca pre post :
  getContentArea c w = Some ca ->
  firstOccurrence END_TAG_ESCAPED (innerHTML ca) pre post ->
  getContentArea c (finalizeCallback c w) =
    Some {| innerHTML := reparse (default "" (litsyncHtmlBefore ca)
                                  +:+ placeholderOuterHTML +:+ post);
            litsyncShortened := Some "final";
            litsyncHtmlBefore := None |}.
Proof.
  intros Hca Hocc. unfold finalizeCallback. rewrite Hca. cbv zeta.
  rewrite (indexOf_first _ _ _ _ Hocc).
  destruct (Z.eqb_spec (Z.of_nat (String.length pre)) (-1)) as [E|_]; [lia|].
  assert (Hafter : substringFrom (innerHTML ca)
                     (Z.of_nat (String.length pre)
                      + Z.of_nat (String.length END_TAG_ESCAPED)) = post).
  { destruct Hocc as [Hocc _]. unfold occursAt in Hocc. rewrite Hocc.
    rewrite <- append_assoc, <- Nat2Z.inj_add, <- length_append.
    apply substringFrom_suffix. }
  rewrite Hafter.
  unfold removePrefix, setPhase, setInnerHTML.
  rewrite getContentArea_setDebounceMap.
  rewrite getContentArea_update_eq, getContentArea_emit.
  rewrite getContentArea_update_eq, getContentArea_emit.
  rewrite getContentArea_writeMarkup, getContentArea_emit.
  rewrite (getContentArea_same c _ _ (containers_cleanup c _)).
  rewrite getContentArea_emit, Hca. simpl. destruct (litsyncHtmlBefore ca); reflexivity.
Qed.

(** Without the end marker, the finalize callback only reads. *)
Lemma finalize_absent c w ca :
  getContentArea c w = Some ca ->
  ~ occurs END_TAG_ESCAPED (innerHTML ca) ->
  finalizeCallback c w = emit (ReadMarkup c) w.
Proof.
  intros Hca Hno. unfold finalizeCallback. rewrite Hca. cbv zeta.
  apply indexOf_absent in Hno. now rewrite Hno.
Qed.

(** The INITIAL branch of the processing step. *)
Lemma process_initial c w ca :
  getContentArea c w = Some ca ->
  litsyncShortened ca <> Some "final" ->
  litsyncShortened ca <> Some "streaming" ->
  processShorteningForContainer c w =
    let w0 := emit (ReadMarkup c) w in
    let startIndex := indexOf (innerHTML ca) START_TAG_ESCAPED in
    if -1 <? startIndex then
      let htmlBefore := substring (innerHTML ca) 0 startIndex in
      setPhase c "streaming"
        (setInnerHTML c (htmlBefore +:+ placeholderOuterHTML)
           (setPrefix c htmlBefore w0))
    else w0.
Proof.
  intros Hca Hf Hs. unfold processShorteningForContainer. rewrite Hca.
  cbv zeta. rewrite !bool_decide_eq_false_2 by assumption. reflexivity.
Qed.

(** The STREAMING branch of the processing step. *)
Lemma process_streaming c w ca :
  getContentArea c w = Some ca ->
  litsyncShortened ca = Some "streaming" ->
  processShorteningForContainer c w =
    let w0 := emit (ReadMarkup c) w in
    if includes (innerHTML ca) END_TAG_ESCAPED then
      let w1 := match debounceTimerMap w0 !! c with
                | Some existingTimer => clearTimeout existingTimer w0
                | None => w0
                end in
      setDebounceMap (<[c := nextTimerId w1]> (debounceTimerMap w1))
        (emit (SetTimeout (nextTimerId w1) (FinalizeCallback c))
           (setTimers (<[nextTimerId w1 := FinalizeCallback c]> (timers w1))
                      (Pos.succ (nextTimerId w1)) w1))
    else w0.
Proof.
  intros Hca Hs. unfold processShorteningForContainer. rewrite Hca.
  cbv zeta. rewrite Hs.
  rewrite bool_decide_eq_false_2 by discriminate.
  rewrite bool_decide_eq_true_2 by reflexivity. reflexivity.
Qed.

(** In FINAL the processing step returns at once. *)
Lemma process_final c w :
  phase c w = Some "final" -> processShorteningForContainer c w = w.
Proof.
  unfold phase, processShorteningForContainer.
  destruct (getContentArea c w) as [ca|]; [|reflexivity].
  intros ->. now rewrite bool_decide_eq_true_2.
Qed.

End ShortenerContent.

(** ** The shortener: operations that leave a content area alone *)

Section ShortenerQuiet.
Import JsString Shortener.
Context {browser : Browser}.

Lemma quiet_refl c w : quiet c w w.
Proof. repeat split; auto. Qed.

Lemma quiet_trans c w1 w2 w3 : quiet c w1 w2 -> quiet c w2 w3 -> quiet c w1 w3.
Proof.
  intros (A1 & B1 & C1) (A2 & B2 & C2). repeat split; [congruence..|].
  intros t H. now apply C1, C2.
Qed.

Lemma foldl_quiet {B : Type} c (f : World -> B -> World) (l : list B) :
  (forall a b, quiet c a (f a b)) -> forall w, quiet c w (foldl f w l).
Proof.
  intros Hf. induction l as [|b l IH]; intros w; simpl; [apply quiet_refl|].
  eapply quiet_trans; [apply Hf | apply IH].
Qed.

(** Changes outside the document, the trace and the timers. *)
Lemma quiet_frame c w w' :
  messageContainers w' = messageContainers w ->
  trace w' = trace w ->
  timers w' = timers w ->
  quiet c w w'.
Proof.
  intros Hd Ht Hm. unfold quiet, phase, getContentArea, contentActions, finalizePending.
  rewrite Hd, Ht, Hm. auto.
Qed.

Lemma quiet_setDebounceMap c m w : quiet c w (setDebounceMap m w).
Proof. now apply quiet_frame. Qed.

Lemma quiet_setObserverMap c m w : quiet c w (setObserverMap m w).
Proof. now apply quiet_frame. Qed.

Lemma quiet_setThrottleMap c m w : quiet c w (setThrottleMap m w).
Proof. now apply quiet_frame. Qed.

Lemma quiet_emit c a w : touches c a = false -> quiet c w (emit a w).
Proof.
  intros Ha. split; [reflexivity|]. split; [|auto].
  unfold contentActions. simpl. rewrite filter_app.
  rewrite (filter_cons_False _ a []) by congruence.
  rewrite filter_nil. apply app_nil_r.
Qed.

Lemma quiet_document c w w' :
  getContentArea c w' = getContentArea c w \/ phase c w' = phase c w ->
  trace w' = trace w ->
  timers w' = timers w ->
  quiet c w w'.
Proof.
  intros Hd Ht Hm. unfold quiet, contentActions, finalizePending.
  rewrite Ht, Hm. split; [|auto].
  destruct Hd as [Hd|Hd]; [|exact Hd]. unfold phase. now rewrite Hd.
Qed.

Lemma update_trace c f w : trace (updateContentArea c f w) = trace w.
Proof. unfold updateContentArea. now case_match. Qed.

Lemma update_timers c f w : timers (updateContentArea c f w) = timers w.
Proof. unfold updateContentArea. now case_match. Qed.

Lemma quiet_update_other c c' f w :
  c' <> c -> quiet c w (updateContentArea c' f w).
Proof.
  intros Hne. apply quiet_document; [left| |].
  - now apply getContentArea_update_ne.
  - apply update_trace.
  - apply update_timers.
Qed.

(** A change to a content area that keeps its state attribute. *)
Lemma quiet_update_keep c c' f w :
  (forall ca, litsyncShortened (f ca) = litsyncShortened ca) ->
  quiet c w (updateContentArea c' f w).
Proof.
  intros Hf. apply quiet_document; [right| |].
  - unfold phase. rewrite getContentArea_update. case_decide; [|reflexivity].
    destruct (getContentArea c w); simpl; [apply Hf | reflexivity].
  - apply update_trace.
  - apply update_timers.
Qed.

Lemma quiet_queueRecord c c' w : quiet c w (queueRecord c' w).
Proof. unfold queueRecord. case_match; [now apply quiet_frame | apply quiet_refl]. Qed.

(** A write to the markup by the page itself. *)
Lemma quiet_writeMarkup c c' html w : quiet c w (writeMarkup c' html w).
Proof.
  unfold writeMarkup.
  eapply quiet_trans; [|apply quiet_queueRecord].
  now apply quiet_update_keep.
Qed.

Lemma quiet_setInnerHTML c c' html w :
  c' <> c -> quiet c w (setInnerHTML c' html w).
Proof.
  intros Hne. unfold setInnerHTML.
  eapply quiet_trans; [|apply quiet_writeMarkup].
  apply quiet_emit. simpl. now apply bool_decide_eq_false_2.
Qed.

Lemma quiet_setPhase c c' p w : c' <> c -> quiet c w (setPhase c' p w).
Proof.
  intros Hne. unfold setPhase.
  eapply quiet_trans; [|now apply quiet_update_other].
  apply quiet_emit. simpl. now apply bool_decide_eq_false_2.
Qed.

Lemma quiet_setPrefix c c' h w : c' <> c -> quiet c w (setPrefix c' h w).
Proof.
  intros Hne. unfold setPrefix.
  eapply quiet_trans; [|now apply quiet_update_other].
  apply quiet_emit. simpl. now apply bool_decide_eq_false_2.
Qed.

Lemma quiet_removePrefix c c' w : c' <> c -> quiet c w (removePrefix c' w).
Proof.
  intros Hne. unfold removePrefix.
  eapply quiet_trans; [|now apply quiet_update_other].
  apply quiet_emit. simpl. now apply bool_decide_eq_false_2.
Qed.

Lemma quiet_clearTimeout c t w : quiet c w (clearTimeout t w).
Proof.
  split; [reflexivity|]. split.
  - unfold contentActions. simpl. rewrite filter_app.
    rewrite (filter_cons_False _ _ []) by (simpl; congruence).
    rewrite filter_nil. apply app_nil_r.
  - intros t'. unfold finalizePending. simpl. rewrite lookup_delete.
    case_decide; [discriminate | auto].
Qed.

(** Arming a timer whose callback is not the finalize callback of [c]. *)
Lemma quiet_setTimeout c cb w :
  cb <> FinalizeCallback c -> quiet c w (setTimeout cb w).2.
Proof.
  intros Hcb. split; [reflexivity|]. split.
  - unfold contentActions. simpl. rewrite filter_app.
    rewrite (filter_cons_False _ _ []) by (simpl; congruence).
    rewrite filter_nil. apply app_nil_r.
  - intros t'. unfold finalizePending. simpl. rewrite lookup_insert.
    case_decide; [congruence | auto].
Qed.

Lemma quiet_throttledProcess c c' w : quiet c w (throttledProcess c' w).
Proof.
  unfold throttledProcess.
  destruct (throttleTimeoutId w !! c'); [apply quiet_refl|].
  pose proof (quiet_setTimeout c (ThrottleCallback c') w) as Hq.
  destruct (setTimeout (ThrottleCallback c') w) as [t w1] eqn:E. simpl in Hq.
  eapply quiet_trans; [apply Hq; discriminate|].
  now apply quiet_frame.
Qed.

Lemma quiet_cleanup c c' w : quiet c w (cleanupShorteningForContainer c' w).
Proof.
  unfold cleanupShorteningForContainer.
  set (w1 := match shortenObserverMap w !! c' with Some _ => _ | None => w end).
  assert (H1 : quiet c w w1).
  { subst w1. case_match; [|apply quiet_refl].
    eapply quiet_trans; [apply (quiet_emit c (Disconnect c')); reflexivity|].
    now apply quiet_frame. }
  cbv zeta. fold w1.
  destruct (getContentArea c' w1); [|exact H1].
  destruct (debounceTimerMap w1 !! c') as [timer|]; [|exact H1].
  eapply quiet_trans; [exact H1|].
  eapply quiet_trans; [apply (quiet_clearTimeout c timer)|].
  now apply quiet_frame.
Qed.

Lemma touches_other (c c' : nat) : c' <> c -> bool_decide (c' = c) = false.
Proof. apply bool_decide_eq_false_2. Qed.

Lemma quiet_process_other c c' w :
  c' <> c -> quiet c w (processShorteningForContainer c' w).
Proof.
  intros Hne. unfold processShorteningForContainer.
  destruct (getContentArea c' w) as [ca|]; [|apply quiet_refl].
  cbv zeta. case_bool_decide as Efin; [apply quiet_refl|].
  assert (H0 : quiet c w (emit (ReadMarkup c') w))
    by (apply quiet_emit; simpl; now apply touches_other).
  case_bool_decide as Estr.
  - destruct (includes (innerHTML ca) END_TAG_ESCAPED); [|exact H0].
    set (w1 := match debounceTimerMap (emit (ReadMarkup c') w) !! c' with
               | Some existingTimer => clearTimeout existingTimer (emit (ReadMarkup c') w)
               | None => emit (ReadMarkup c') w
               end).
    assert (H1 : quiet c w w1).
    { subst w1. case_match; [|exact H0].
      eapply quiet_trans; [exact H0 | apply quiet_clearTimeout]. }
    pose proof (quiet_setTimeout c (FinalizeCallback c') w1) as Hq.
    destruct (setTimeout (FinalizeCallback c') w1) as [t w2] eqn:E. simpl in Hq.
    eapply quiet_trans; [exact H1|].
    eapply quiet_trans; [apply Hq; congruence|].
    now apply quiet_frame.
  - destruct (-1 <? _); [|exact H0].
    eapply quiet_trans; [|now apply quiet_setPhase].
    eapply quiet_trans; [|now apply quiet_setInnerHTML].
    eapply quiet_trans; [|now apply quiet_setPrefix].
    exact H0.
Qed.

(** Once [c] is in FINAL, no processing step touches it, its own included. *)
Lemma quiet_process_final c c' w :
  phase c w = Some "final" -> quiet c w (processShorteningForContainer c' w).
Proof.
  intros Hfin. destruct (decide (c' = c)) as [->|Hne].
  - rewrite process_final by exact Hfin. apply quiet_refl.
  - now apply quiet_process_other.
Qed.

Lemma quiet_finalize_other c c' w :
  c' <> c -> quiet c w (finalizeCallback c' w).
Proof.
  intros Hne. unfold finalizeCallback.
  destruct (getContentArea c' w) as [ca|]; [|apply quiet_refl].
  cbv zeta.
  assert (H0 : quiet c w (emit (ReadMarkup c') w))
    by (apply quiet_emit; simpl; now apply touches_other).
  destruct (_ =? _); [exact H0|].
  eapply quiet_trans; [|apply quiet_setDebounceMap].
  eapply quiet_trans; [|now apply quiet_removePrefix].
  eapply quiet_trans; [|now apply quiet_setPhase].
  eapply quiet_trans; [|now apply quiet_setInnerHTML].
  eapply quiet_trans; [|apply quiet_cleanup].
  exact H0.
Qed.

Lemma getContentArea_insert_same c c' mc mc' (w : World) :
  messageContainers w !! c' = Some mc ->
  contentArea mc' = contentArea mc ->
  getContentArea c (setContainers (<[c' := mc']> (messageContainers w)) w)
    = getContentArea c w.
Proof.
  intros Hl Hca. unfold getContentArea. simpl.
  destruct (decide (c' = c)) as [->|Hne].
  - rewrite list_lookup_insert_eq by (eapply lookup_lt_Some, Hl).
    now rewrite Hl, Hca.
  - now rewrite list_lookup_insert_ne.
Qed.

Lemma getContentArea_fmap c (f : MessageContainer -> MessageContainer) (w : World) :
  (forall mc, contentArea (f mc) = contentArea mc) ->
  getContentArea c (setContainers (f <$> messageContainers w) w) = getContentArea c w.
Proof.
  intros Hf. unfold getContentArea. simpl. rewrite list_lookup_fmap.
  destruct (messageContainers w !! c); simpl; [apply Hf | reflexivity].
Qed.

Lemma quiet_setShortenInit c c' w : quiet c w (setShortenInit c' w).
Proof.
  unfold setShortenInit.
  destruct (messageContainers w !! c') as [mc|] eqn:E; [|apply quiet_refl].
  apply quiet_document; [left| |]; try reflexivity.
  now apply (getContentArea_insert_same c c' mc).
Qed.

Lemma quiet_initialize c c' w :
  quiet c w (initializeShorteningForContainer c' w).
Proof.
  unfold initializeShorteningForContainer.
  repeat case_match; try apply quiet_refl. cbv zeta.
  eapply quiet_trans; [|apply quiet_throttledProcess].
  eapply quiet_trans; [|now apply quiet_frame].
  eapply quiet_trans; [|apply (quiet_emit c (Observe c')); reflexivity].
  apply quiet_setShortenInit.
Qed.

Lemma quiet_scanMessageContainer c w c' : quiet c w (scanMessageContainer w c').
Proof.
  unfold scanMessageContainer.
  destruct (messageContainers w !! c') as [mc|] eqn:E; [|apply quiet_refl].
  destruct (processedMarker mc); [apply quiet_refl|]. cbv zeta.
  assert (H1 : quiet c w
            (setContainers (<[c' := markMessageProcessed mc]> (messageContainers w)) w)).
  { apply quiet_document; [left| |]; try reflexivity.
    now apply (getContentArea_insert_same c c' mc). }
  repeat case_match; try exact H1.
  eapply quiet_trans; [exact H1 | apply quiet_initialize].
Qed.

Lemma quiet_scan c w : quiet c w (scanAndProcessMessages w).
Proof.
  unfold scanAndProcessMessages. cbv zeta.
  eapply quiet_trans; [|now apply quiet_frame].
  apply foldl_quiet. intros a b. apply quiet_scanMessageContainer.
Qed.

Lemma quiet_cleanupAll c w : quiet c w (cleanupAll w).
Proof.
  unfold cleanupAll. apply foldl_quiet. intros a b. apply quiet_cleanup.
Qed.

Lemma quiet_onStorageChanged c e s w : quiet c w (onStorageChanged e s w).
Proof.
  unfold onStorageChanged.
  set (w1 := match e with Some true => initialize w | Some false => dismantle w
                        | None => w end).
  assert (H1 : quiet c w w1).
  { subst w1. destruct e as [[|]|]; [| |apply quiet_refl].
    - unfold initialize. case_match; [apply quiet_refl | now apply quiet_frame].
    - unfold dismantle. cbv zeta.
      eapply quiet_trans; [|now apply quiet_frame].
      eapply quiet_trans;
        [|apply quiet_document; [left; now apply getContentArea_fmap| |];
          reflexivity].
      eapply quiet_trans; [|apply quiet_cleanupAll].
      now apply quiet_frame. }
  cbv zeta. destruct s as [[|]|]; [| |exact H1].
  - eapply quiet_trans; [exact H1 | now apply quiet_frame].
  - eapply quiet_trans; [exact H1|].
    eapply quiet_trans; [|apply quiet_cleanupAll]. now apply quiet_frame.
Qed.

Lemma quiet_deliverRecords c w c' : quiet c w (deliverRecords w c').
Proof.
  unfold deliverRecords. repeat case_match; try apply quiet_refl.
  eapply quiet_trans; [|apply quiet_throttledProcess]. now apply quiet_frame.
Qed.

Lemma quiet_microtaskCheckpoint c w : quiet c w (microtaskCheckpoint w).
Proof.
  unfold microtaskCheckpoint. apply foldl_quiet.
  intros a b. apply quiet_deliverRecords.
Qed.

Lemma phase_append c w content :
  phase c (setContainers (messageContainers w ++ [newMessageContainer content]) w)
    = phase c w.
Proof.
  unfold phase, getContentArea. simpl.
  destruct (lt_eq_lt_dec c (length (messageContainers w))) as [[Hlt|Heq]|Hgt].
  - now rewrite lookup_app_l.
  - subst c. rewrite list_lookup_middle by reflexivity.
    rewrite (lookup_ge_None_2 (messageContainers w)) by lia.
    simpl. now destruct content.
  - rewrite !lookup_ge_None_2; [reflexivity | lia |].
    rewrite length_app. simpl. lia.
Qed.

(** A task leaves a settled container alone. *)
Lemma quiet_task c e w : settled c w -> quiet c w (task e w).
Proof.
  intros [Hfin Hnone]. destruct e; simpl.
  - apply quiet_document; [right| |]; try reflexivity. apply phase_append.
  - now apply quiet_frame.
  - apply quiet_writeMarkup.
  - case_match; [apply quiet_scan | apply quiet_refl].
  - destruct (timers w !! t) as [cb|] eqn:E; [|apply quiet_refl].
    set (w0 := setTimers (delete t (timers w)) (nextTimerId w) w).
    assert (H0 : quiet c w w0).
    { split; [reflexivity|]. split; [reflexivity|].
      intros t'. unfold finalizePending. simpl. rewrite lookup_delete.
      case_decide; [discriminate | auto]. }
    eapply quiet_trans; [exact H0|].
    destruct cb as [c'|c']; simpl.
    + eapply quiet_trans; [apply quiet_process_final|now apply quiet_frame].
      exact Hfin.
    + apply quiet_finalize_other. intros ->. now apply (Hnone t).
  - eapply quiet_trans; [|apply quiet_onStorageChanged]. now apply quiet_frame.
Qed.

Lemma quiet_step c e w : settled c w -> quiet c w (Shortener.step w e).
Proof.
  intros H. unfold Shortener.step.
  eapply quiet_trans; [now apply quiet_task | apply quiet_microtaskCheckpoint].
Qed.

Lemma settled_quiet c w w' : settled c w -> quiet c w w' -> settled c w'.
Proof.
  intros [Hfin Hnone] (Hp & _ & Ht). split; [congruence|].
  intros t H. apply (Hnone t), Ht, H.
Qed.

Lemma quiet_run c evs w : settled c w -> quiet c w (Shortener.run evs w).
Proof.
  intros H. induction evs as [|e evs IH] using rev_ind; [apply quiet_refl|].
  rewrite shortener_run_snoc.
  eapply quiet_trans; [exact IH|].
  apply quiet_step. now apply (settled_quiet c w).
Qed.

Lemma filter_final_touches c (l : list Action) :
  filter (fun a => isFinalTransition c a = true)
         (filter (fun a => touches c a = true) l)
  = filter (fun a => isFinalTransition c a = true) l.
Proof.
  induction l as [|a l IH]; [reflexivity|].
  rewrite !filter_cons.
  destruct (decide (touches c a = true)) as [Ht|Ht].
  - rewrite filter_cons. rewrite IH. reflexivity.
  - rewrite IH. rewrite decide_False; [reflexivity|].
    intros Hf. apply Ht. destruct a; simpl in *; try discriminate.
    apply andb_true_iff in Hf as [Hf _]. apply Nat.eqb_eq in Hf.
    now apply bool_decide_eq_true_2.
Qed.

Lemma quiet_finalTransitions c w w' :
  quiet c w w' -> finalTransitions c w' = finalTransitions c w.
Proof.
  intros (_ & Hc & _). unfold finalTransitions.
  rewrite <- (filter_final_touches c (trace w')), <- (filter_final_touches c (trace w)).
  unfold contentActions in Hc. now rewrite Hc.
Qed.

End ShortenerQuiet.

(** ** The shortener: processed markers and wiring *)

Section ShortenerWiring.
Import JsString Shortener.
Context {browser : Browser}.

Lemma keeps_refl c w : keeps c w w.
Proof. split; auto. Qed.

Lemma keeps_trans c w1 w2 w3 : keeps c w1 w2 -> keeps c w2 w3 -> keeps c w1 w3.
Proof. intros [A1 B1] [A2 B2]. split; auto. Qed.

Lemma foldl_keeps {B : Type} c (f : World -> B -> World) (l : list B) :
  (forall a b, keeps c a (f a b)) -> forall w, keeps c w (foldl f w l).
Proof.
  intros Hf. induction l as [|b l IH]; intros w; simpl; [apply keeps_refl|].
  eapply keeps_trans; [apply Hf | apply IH].
Qed.

Lemma keeps_frame c w w' :
  messageContainers w' = messageContainers w ->
  shortenObserverMap w' = shortenObserverMap w ->
  keeps c w w'.
Proof. intros Hd Ho. unfold keeps, isProcessed, wired. rewrite Hd, Ho. auto. Qed.

Lemma keeps_emit c a w : keeps c w (emit a w).
Proof. now apply keeps_frame. Qed.

Lemma keeps_setDebounceMap c m w : keeps c w (setDebounceMap m w).
Proof. now apply keeps_frame. Qed.

Lemma keeps_setThrottleMap c m w : keeps c w (setThrottleMap m w).
Proof. now apply keeps_frame. Qed.

Lemma keeps_setTimers c m n w : keeps c w (setTimers m n w).
Proof. now apply keeps_frame. Qed.

(** A change to one container that keeps its processed marker. *)
Lemma keeps_insert c c' mc mc' (w : World) :
  messageContainers w !! c' = Some mc ->
  (processedMarker mc = true -> processedMarker mc' = true) ->
  keeps c w (setContainers (<[c' := mc']> (messageContainers w)) w).
Proof.
  intros Hl Hp. split; [|auto].
  intros (m & Hm & Ht). unfold isProcessed. simpl.
  destruct (decide (c' = c)) as [->|Hne].
  - rewrite list_lookup_insert_eq by (eapply lookup_lt_Some, Hl).
    exists mc'. split; [reflexivity|]. apply Hp. congruence.
  - rewrite list_lookup_insert_ne by exact Hne. eauto.
Qed.

Lemma keeps_update c c' f w : keeps c w (updateContentArea c' f w).
Proof.
  unfold updateContentArea.
  destruct (messageContainers w !! c') as [mc|] eqn:E; [|apply keeps_refl].
  now apply (keeps_insert c c' mc).
Qed.

Lemma keeps_queueRecord c c' w : keeps c w (queueRecord c' w).
Proof.
  unfold queueRecord.
  destruct (shortenObserverMap w !! c') as [o|] eqn:E; [|apply keeps_refl].
  split; [auto|]. unfold wired. simpl. rewrite lookup_insert.
  case_decide; [subst; rewrite E; eauto | auto].
Qed.

Lemma keeps_writeMarkup c c' html w : keeps c w (writeMarkup c' html w).
Proof.
  unfold writeMarkup.
  eapply keeps_trans; [apply keeps_update | apply keeps_queueRecord].
Qed.

Lemma keeps_setInnerHTML c c' html w : keeps c w (setInnerHTML c' html w).
Proof.
  unfold setInnerHTML.
  eapply keeps_trans; [|apply keeps_writeMarkup]. now apply keeps_frame.
Qed.

Lemma keeps_setPhase c c' p w : keeps c w (setPhase c' p w).
Proof.
  unfold setPhase.
  eapply keeps_trans; [|apply keeps_update]. now apply keeps_frame.
Qed.

Lemma keeps_setPrefix c c' h w : keeps c w (setPrefix c' h w).
Proof.
  unfold setPrefix.
  eapply keeps_trans; [|apply keeps_update]. now apply keeps_frame.
Qed.

Lemma keeps_removePrefix c c' w : keeps c w (removePrefix c' w).
Proof.
  unfold removePrefix.
  eapply keeps_trans; [|apply keeps_update]. now apply keeps_frame.
Qed.

Lemma keeps_throttledProcess c c' w : keeps c w (throttledProcess c' w).
Proof. unfold throttledProcess. case_match; [apply keeps_refl | now apply keeps_frame]. Qed.

Lemma keeps_cleanup c c' w : keeps c w (cleanupShorteningForContainer c' w).
Proof.
  unfold cleanupShorteningForContainer.
  set (w1 := match shortenObserverMap w !! c' with Some _ => _ | None => w end).
  assert (H1 : keeps c w w1).
  { subst w1. case_match; [|apply keeps_refl].
    split; [auto|]. unfold wired. simpl. rewrite lookup_delete.
    case_decide; [intros [? ?]; discriminate | auto]. }
  cbv zeta. fold w1.
  destruct (getContentArea c' w1); [|exact H1].
  destruct (debounceTimerMap w1 !! c') as [timer|]; [|exact H1].
  eapply keeps_trans; [exact H1 | now apply keeps_frame].
Qed.

Lemma keeps_process c c' w : keeps c w (processShorteningForContainer c' w).
Proof.
  unfold processShorteningForContainer.
  destruct (getContentArea c' w) as [ca|]; [|apply keeps_refl].
  cbv zeta. case_bool_decide as Efin; [apply keeps_refl|].
  case_bool_decide as Estr.
  - destruct (includes _ _); [|now apply keeps_frame].
    simpl. destruct (debounceTimerMap w !! c'); now apply keeps_frame.
  - destruct (-1 <? _); [|now apply keeps_frame].
    eapply keeps_trans; [|apply keeps_setPhase].
    eapply keeps_trans; [|apply keeps_setInnerHTML].
    eapply keeps_trans; [|apply keeps_setPrefix].
    now apply keeps_frame.
Qed.

Lemma keeps_finalize c c' w : keeps c w (finalizeCallback c' w).
Proof.
  unfold finalizeCallback.
  destruct (getContentArea c' w) as [ca|]; [|apply keeps_refl].
  cbv zeta. destruct (_ =? _); [apply keeps_emit|].
  eapply keeps_trans; [|apply keeps_setDebounceMap].
  eapply keeps_trans; [|apply keeps_removePrefix].
  eapply keeps_trans; [|apply keeps_setPhase].
  eapply keeps_trans; [|apply keeps_setInnerHTML].
  eapply keeps_trans; [|apply keeps_cleanup].
  apply keeps_emit.
Qed.

Lemma keeps_setShortenInit c c' w : keeps c w (setShortenInit c' w).
Proof.
  unfold setShortenInit.
  destruct (messageContainers w !! c') as [mc|] eqn:E; [|apply keeps_refl].
  now apply (keeps_insert c c' mc).
Qed.

(** Wiring another container. *)
Lemma keeps_initialize_other c c' w :
  c' <> c -> keeps c w (initializeShorteningForContainer c' w).
Proof.
  intros Hne. unfold initializeShorteningForContainer.
  repeat case_match; try apply keeps_refl. cbv zeta.
  eapply keeps_trans; [|apply keeps_throttledProcess].
  eapply keeps_trans; [apply (keeps_setShortenInit c c')|].
  split; [auto|]. unfold wired. simpl. now rewrite lookup_insert_ne.
Qed.

(** The scanner passes over a container that carries the marker. *)
Lemma keeps_scanMessageContainer c w c' :
  isProcessed c w -> keeps c w (scanMessageContainer w c').
Proof.
  intros (m & Hm & Ht). unfold scanMessageContainer.
  destruct (messageContainers w !! c') as [mc|] eqn:E; [|apply keeps_refl].
  destruct (processedMarker mc) eqn:Ep; [apply keeps_refl|].
  assert (Hne : c' <> c) by (intros ->; congruence).
  cbv zeta.
  assert (H1 : keeps c w
            (setContainers (<[c' := markMessageProcessed mc]> (messageContainers w)) w))
    by now apply (keeps_insert c c' mc).
  repeat case_match; try exact H1.
  eapply keeps_trans; [exact H1 | now apply keeps_initialize_other].
Qed.

Lemma keeps_scan c w : isProcessed c w -> keeps c w (scanAndProcessMessages w).
Proof.
  intros Hp. unfold scanAndProcessMessages.
  set (l := seq 0 _). cbv zeta.
  apply (keeps_trans c w (foldl scanMessageContainer w l)); [|now apply keeps_frame].
  clearbody l. revert w Hp. induction l as [|c' l IH]; intros w Hp; simpl; [apply keeps_refl|].
  pose proof (keeps_scanMessageContainer c w c' Hp) as Hk.
  eapply keeps_trans; [exact Hk|]. apply IH. now apply Hk.
Qed.

Lemma keeps_cleanupAll c w : keeps c w (cleanupAll w).
Proof. unfold cleanupAll. apply foldl_keeps. intros a b. apply keeps_cleanup. Qed.

Lemma keeps_deliverRecords c w c' : keeps c w (deliverRecords w c').
Proof.
  unfold deliverRecords.
  destruct (shortenObserverMap w !! c') as [[[|]]|] eqn:E; try apply keeps_refl.
  eapply keeps_trans; [|apply keeps_throttledProcess].
  split; [auto|]. unfold wired. simpl. rewrite lookup_insert.
  case_decide; [subst; rewrite E; eauto | auto].
Qed.

Lemma keeps_microtaskCheckpoint c w : keeps c w (microtaskCheckpoint w).
Proof.
  unfold microtaskCheckpoint. apply foldl_keeps.
  intros a b. apply keeps_deliverRecords.
Qed.

Lemma keeps_append c w content :
  keeps c w (setContainers (messageContainers w ++ [newMessageContainer content]) w).
Proof.
  split; [|auto]. intros (m & Hm & Ht). exists m. split; [|exact Ht].
  simpl. rewrite lookup_app_l; [exact Hm | eapply lookup_lt_Some, Hm].
Qed.

Lemma keeps_initializeExtension c w : keeps c w (initialize w).
Proof. unfold initialize. case_match; [apply keeps_refl | now apply keeps_frame]. Qed.

(** The storage listener attaches no shortener, whatever changed. *)
Lemma onStorageChanged_nowire c e s w :
  wired c (onStorageChanged e s w) -> wired c w.
Proof.
  unfold onStorageChanged.
  set (w1 := match e with Some true => initialize w | Some false => dismantle w
                        | None => w end).
  assert (H1 : wired c w1 -> wired c w).
  { subst w1. destruct e as [[|]|]; [apply keeps_initializeExtension| |auto].
    unfold dismantle, wired. simpl.
    intros H. now apply (keeps_cleanupAll c (setScannerInterval false w)) in H. }
  cbv zeta. destruct s as [[|]|]; [exact H1| |exact H1].
  intros H. apply H1. now apply (keeps_cleanupAll c (setShortenEnabled false w1)) in H.
Qed.

Lemma keeps_onStorageChanged c e s w :
  e <> Some false -> keeps c w (onStorageChanged e s w).
Proof.
  intros He. unfold onStorageChanged.
  set (w1 := match e with Some true => initialize w | Some false => dismantle w
                        | None => w end).
  assert (H1 : keeps c w w1).
  { subst w1. destruct e as [[|]|];
      [apply keeps_initializeExtension | congruence | apply keeps_refl]. }
  cbv zeta. destruct s as [[|]|]; [| |exact H1].
  - eapply keeps_trans; [exact H1 | now apply keeps_frame].
  - eapply keeps_trans; [exact H1|].
    eapply keeps_trans; [|apply keeps_cleanupAll]. now apply keeps_frame.
Qed.

End ShortenerWiring.

(** ** The shortener: the STREAMING->FINAL transition *)

Section ShortenerFinal.
Import JsString Shortener.
Context {browser : Browser}.

Lemma trace_setDebounceMap m w : trace (setDebounceMap m w) = trace w.
Proof. reflexivity. Qed.

Lemma trace_emit a w : trace (emit a w) = trace w ++ [a].
Proof. reflexivity. Qed.

Lemma observers_setDebounceMap m w :
  shortenObserverMap (setDebounceMap m w) = shortenObserverMap w.
Proof. reflexivity. Qed.

Lemma observers_emit a w : shortenObserverMap (emit a w) = shortenObserverMap w.
Proof. reflexivity. Qed.

Lemma debounce_emit a w : debounceTimerMap (emit a w) = debounceTimerMap w.
Proof. reflexivity. Qed.

Lemma trace_queueRecord c w : trace (queueRecord c w) = trace w.
Proof. unfold queueRecord. now case_match. Qed.

Lemma trace_setInnerHTML c html w :
  trace (setInnerHTML c html w) = trace w ++ [WriteMarkup c html].
Proof.
  unfold setInnerHTML, writeMarkup. now rewrite trace_queueRecord, update_trace.
Qed.

Lemma trace_setPhase c p w : trace (setPhase c p w) = trace w ++ [SetPhase c p].
Proof. unfold setPhase. now rewrite update_trace. Qed.

Lemma trace_removePrefix c w : trace (removePrefix c w) = trace w ++ [RemovePrefix c].
Proof. unfold removePrefix. now rewrite update_trace. Qed.

Lemma trace_setPrefix c h w : trace (setPrefix c h w) = trace w ++ [StorePrefix c h].
Proof. unfold setPrefix. now rewrite update_trace. Qed.

(** What [cleanupShorteningForContainer] records for a container that has
    a content area: the disconnection if an observer is registered, then
    the cancellation if a timer is recorded. *)
Lemma trace_cleanup c w :
  is_Some (getContentArea c w) ->
  trace (cleanupShorteningForContainer c w) =
    trace w
    ++ match shortenObserverMap w !! c with
       | Some _ => [Disconnect c]
       | None => []
       end
    ++ match debounceTimerMap w !! c with
       | Some t0 => [ClearTimeout t0]
       | None => []
       end.
Proof.
  intros [ca Hca]. unfold cleanupShorteningForContainer.
  destruct (shortenObserverMap w !! c) as [o|]; cbv zeta.
  - rewrite getContentArea_setObserverMap, getContentArea_emit, Hca. simpl.
    destruct (debounceTimerMap w !! c); simpl; now rewrite <- ?app_assoc.
  - rewrite Hca. destruct (debounceTimerMap w !! c); simpl;
      now rewrite ?app_nil_r.
Qed.

Lemma observers_cleanup c w :
  shortenObserverMap (cleanupShorteningForContainer c w) !! c = None.
Proof.
  unfold cleanupShorteningForContainer.
  destruct (shortenObserverMap w !! c) as [o|] eqn:E; cbv zeta.
  - repeat case_match; simpl; apply lookup_delete_eq.
  - repeat case_match; simpl; exact E.
Qed.

Lemma observers_update c f w :
  shortenObserverMap (updateContentArea c f w) = shortenObserverMap w.
Proof. unfold updateContentArea. now case_match. Qed.

(** A write to the markup of a container without observer queues nothing. *)
Lemma observers_setInnerHTML_unwired c html w :
  shortenObserverMap w !! c = None ->
  shortenObserverMap (setInnerHTML c html w) = shortenObserverMap w.
Proof.
  intros H. unfold setInnerHTML, writeMarkup, queueRecord.
  rewrite observers_update. simpl. rewrite H. now rewrite observers_update.
Qed.

(** The finalize callback with the end marker present: the full record of
    its actions, with the string it assigns. *)
Lemma finalize_trace c w ca pre post :
  getContentArea c w = Some ca ->
  firstOccurrence END_TAG_ESCAPED (innerHTML ca) pre post ->
  trace (finalizeCallback c w) =
    trace w ++ [ReadMarkup c]
    ++ match shortenObserverMap w !! c with
       | Some _ => [Disconnect c]
       | None => []
       end
    ++ match debounceTimerMap w !! c with
       | Some t0 => [ClearTimeout t0]
       | None => []
       end
    ++ [WriteMarkup c (default "" (litsyncHtmlBefore ca)
                       +:+ placeholderOuterHTML +:+ post);
        SetPhase c "final"; RemovePrefix c].
Proof.
  intros Hca Hfirst.
  assert (Hafter : substringFrom (innerHTML ca)
                     (Z.of_nat (String.length pre)
                      + Z.of_nat (String.length END_TAG_ESCAPED)) = post).
  { destruct Hfirst as [Ho _]. unfold occursAt in Ho. rewrite Ho.
    rewrite <- append_assoc, <- Nat2Z.inj_add, <- length_append.
    apply substringFrom_suffix. }
  unfold finalizeCallback. rewrite Hca. cbv zeta.
  rewrite (indexOf_first _ _ _ _ Hfirst), Hafter.
  destruct (Z.eqb_spec (Z.of_nat (String.length pre)) (-1)) as [E|_]; [lia|].
  rewrite trace_setDebounceMap.
  rewrite trace_removePrefix, trace_setPhase, trace_setInnerHTML.
  rewrite trace_cleanup by (rewrite getContentArea_emit, Hca; eauto).
  rewrite trace_emit, observers_emit, debounce_emit.
  rewrite <- !app_assoc.
  destruct (litsyncHtmlBefore ca); reflexivity.
Qed.

(** The finalize callback with the end marker present: the full record of
    its actions, and the state it leaves. *)
Lemma finalize_present c w ca :
  getContentArea c w = Some ca ->
  occurs END_TAG_ESCAPED (innerHTML ca) ->
  exists html,
    trace (finalizeCallback c w) =
      trace w ++ [ReadMarkup c]
      ++ match shortenObserverMap w !! c with
         | Some _ => [Disconnect c]
         | None => []
         end
      ++ match debounceTimerMap w !! c with
         | Some t0 => [ClearTimeout t0]
         | None => []
         end
      ++ [WriteMarkup c html; SetPhase c "final"; RemovePrefix c]
    /\ markup c (finalizeCallback c w) = Some (reparse html)
    /\ phase c (finalizeCallback c w) = Some "final"
    /\ shortenObserverMap (finalizeCallback c w) !! c = None.
Proof.
  intros Hca Hocc.
  destruct (occurs_first _ _ Hocc) as (pre & post & Hfirst).
  pose proof (finalize_content c w ca pre post Hca Hfirst) as Hcontent.
  assert (Hafter : substringFrom (innerHTML ca)
                     (Z.of_nat (String.length pre)
                      + Z.of_nat (String.length END_TAG_ESCAPED)) = post).
  { destruct Hfirst as [Ho _]. unfold occursAt in Ho. rewrite Ho.
    rewrite <- append_assoc, <- Nat2Z.inj_add, <- length_append.
    apply substringFrom_suffix. }
  exists (default "" (litsyncHtmlBefore ca) +:+ placeholderOuterHTML +:+ post).
  split; [|split; [|split]].
  - unfold finalizeCallback. rewrite Hca. cbv zeta.
    rewrite (indexOf_first _ _ _ _ Hfirst), Hafter.
    destruct (Z.eqb_spec (Z.of_nat (String.length pre)) (-1)) as [E|_]; [lia|].
    rewrite trace_setDebounceMap.
    rewrite trace_removePrefix, trace_setPhase, trace_setInnerHTML.
    rewrite trace_cleanup by (rewrite getContentArea_emit, Hca; eauto).
    rewrite trace_emit, observers_emit, debounce_emit.
    rewrite <- !app_assoc. reflexivity.
  - unfold markup. now rewrite Hcontent.
  - unfold phase. now rewrite Hcontent.
  - unfold finalizeCallback. rewrite Hca. cbv zeta.
    rewrite (indexOf_first _ _ _ _ Hfirst).
    destruct (Z.eqb_spec (Z.of_nat (String.length pre)) (-1)) as [E|_]; [lia|].
    rewrite observers_setDebounceMap.
    unfold removePrefix, setPhase.
    rewrite observers_update, observers_emit.
    rewrite observers_update, observers_emit.
    rewrite observers_setInnerHTML_unwired; apply observers_cleanup.
Qed.

(** Firing an outstanding finalize timer runs the finalize callback. *)
Lemma task_finalize c t w :
  finalizePending c t w ->
  task (TimerFires t) w =
    finalizeCallback c (setTimers (delete t (timers w)) (nextTimerId w) w).
Proof. unfold finalizePending. intros H. simpl. now rewrite H. Qed.

(** With consistent timers, the fired finalize timer was the only one. *)
Lemma fired_none c t w :
  timersConsistent w ->
  finalizePending c t w ->
  forall t', ~ finalizePending c t' (setTimers (delete t (timers w)) (nextTimerId w) w).
Proof.
  intros [_ HB] Hp t'. unfold finalizePending. simpl. rewrite lookup_delete.
  case_decide as E; [discriminate|].
  intros H'. apply HB in H'. apply HB in Hp. congruence.
Qed.

Lemma finalTransitions_app c w (l : list Action) (w' : World) :
  trace w' = trace w ++ l ->
  finalTransitions c w' =
    (finalTransitions c w
     + length (filter (fun a => isFinalTransition c a = true) l))%nat.
Proof.
  intros H. unfold finalTransitions. now rewrite H, filter_app, length_app.
Qed.

End ShortenerFinal.

(** ** Claims about the processing step and the finalize callback *)

Section ShortenerStepClaims.
Import JsString Shortener.
Context {browser : Browser}.

Lemma wired_microtaskCheckpoint c w : wired c w -> wired c (microtaskCheckpoint w).
Proof.
  unfold microtaskCheckpoint. apply foldl_preserves. clear w.
  intros w c' Hw. unfold deliverRecords.
  destruct (shortenObserverMap w !! c') as [[[|]]|] eqn:E; try exact Hw.
  unfold throttledProcess, wired in *.
  destruct (throttleTimeoutId _ !! c'); simpl;
    (rewrite lookup_insert; case_decide; [eauto | exact Hw]).
Qed.

(** C2, amended.  When the finalize timer of a container fires and the markup
    read at that moment contains the end marker, the callback assigns to the
    content area's markup exactly the string [captured prefix + placeholder
    + what follows the (leftmost) end marker]; this is its only write to
    the content area, which it leaves in state 'final' and without the
    stored-prefix attribute.  The markup the content area then has is what
    the browser's parser makes of the assigned string; it is the assigned
    string itself whenever that is read back as it was assigned, which
    is so for markup in serialised form. *)
Theorem C2_finalize_markup
    (w : World) (c : nat) (t : positive) (ca : ContentArea)
    (captured pre post : string) :
  finalizePending c t w ->
  getContentArea c w = Some ca ->
  litsyncHtmlBefore ca = Some captured ->
  firstOccurrence END_TAG_ESCAPED (innerHTML ca) pre post ->
  let assigned := captured +:+ placeholderOuterHTML +:+ post in
  let w' := Shortener.step w (TimerFires t) in
  contentActions c w' =
    contentActions c w
    ++ [ReadMarkup c; WriteMarkup c assigned; SetPhase c "final"; RemovePrefix c]
  /\ getContentArea c w' =
       Some {| innerHTML := reparse assigned;
               litsyncShortened := Some "final";
               litsyncHtmlBefore := None |}
  /\ (reparse assigned = assigned ->
      getContentArea c w' =
        Some {| innerHTML := assigned;
                litsyncShortened := Some "final";
                litsyncHtmlBefore := None |}).
Proof.
  intros Hp Hca Hpre Hfirst. cbv zeta. unfold Shortener.step.
  assert (Hstate : getContentArea c (microtaskCheckpoint (task (TimerFires t) w)) =
                   Some {| innerHTML := reparse (captured +:+ placeholderOuterHTML +:+ post);
                           litsyncShortened := Some "final";
                           litsyncHtmlBefore := None |}).
  { rewrite (getContentArea_same c _ _ (containers_microtaskCheckpoint _)).
    rewrite (task_finalize c t w Hp).
    rewrite (finalize_content c _ ca pre post); [now rewrite Hpre | exact Hca | exact Hfirst]. }
  split; [|split; [exact Hstate|intros Hfix; now rewrite Hstate, Hfix]].
  destruct (quiet_microtaskCheckpoint c (task (TimerFires t) w)) as (_ & -> & _).
  rewrite (task_finalize c t w Hp). unfold contentActions.
  rewrite (finalize_trace c _ ca pre post) by assumption.
  rewrite Hpre. simpl trace. simpl default.
  rewrite !filter_app. f_equal.
  assert (Hc : bool_decide (c = c) = true) by now apply bool_decide_eq_true.
  destruct (shortenObserverMap _ !! c), (debounceTimerMap _ !! c);
    cbn [filter list_filter app touches]; rewrite ?Hc;
    repeat (rewrite decide_True by reflexivity
            || (rewrite decide_False by discriminate));
    reflexivity.
Qed.

(** C7. When the finalize timer fires and the markup read no longer contains
    the end marker, nothing in the document changes (state 'streaming',
    markup and stored prefix as they were), no FINAL transition is counted,
    the observer stays connected, and a later processing step that sees the
    end marker again arms a finalize timer again. *)
Theorem C7_marker_vanished
    (w : World) (c : nat) (t : positive) (ca : ContentArea) :
  finalizePending c t w ->
  getContentArea c w = Some ca ->
  litsyncShortened ca = Some "streaming" ->
  ~ occurs END_TAG_ESCAPED (innerHTML ca) ->
  messageContainers (Shortener.step w (TimerFires t)) = messageContainers w
  /\ phase c (Shortener.step w (TimerFires t)) = Some "streaming"
  /\ markup c (Shortener.step w (TimerFires t)) = Some (innerHTML ca)
  /\ storedPrefix c (Shortener.step w (TimerFires t)) = litsyncHtmlBefore ca
  /\ finalTransitions c (Shortener.step w (TimerFires t)) = finalTransitions c w
  /\ (wired c w -> wired c (Shortener.step w (TimerFires t)))
  /\ (forall html, occurs END_TAG_ESCAPED html ->
        exists t',
          finalizePending c t'
            (processShorteningForContainer c
               (writeMarkup c html (Shortener.step w (TimerFires t))))).
Proof.
  intros Hp Hca Hstr Hno.
  assert (Hstep : Shortener.step w (TimerFires t) =
                  microtaskCheckpoint
                    (emit (ReadMarkup c)
                       (setTimers (delete t (timers w)) (nextTimerId w) w))).
  { unfold Shortener.step. rewrite (task_finalize c t w Hp).
    now rewrite (finalize_absent c
                   (setTimers (delete t (timers w)) (nextTimerId w) w) ca Hca Hno). }
  assert (Hdoc : messageContainers (Shortener.step w (TimerFires t)) = messageContainers w)
    by (rewrite Hstep; now rewrite containers_microtaskCheckpoint).
  assert (Hca' : getContentArea c (Shortener.step w (TimerFires t)) = Some ca)
    by (rewrite (getContentArea_same c _ _ Hdoc); exact Hca).
  split; [exact Hdoc|].
  split; [unfold phase; now rewrite Hca'|].
  split; [unfold markup; now rewrite Hca'|].
  split; [unfold storedPrefix; now rewrite Hca'|].
  split; [|split].
  - rewrite Hstep.
    rewrite (quiet_finalTransitions c _ _ (quiet_microtaskCheckpoint c _)).
    rewrite (finalTransitions_app c w [ReadMarkup c]) by reflexivity.
    simpl. lia.
  - intros Hw. rewrite Hstep. now apply wired_microtaskCheckpoint.
  - intros html Hocc.
    set (w1 := writeMarkup c html (Shortener.step w (TimerFires t))).
    assert (Hca1 : getContentArea c w1 =
                   Some {| innerHTML := html; litsyncShortened := litsyncShortened ca;
                           litsyncHtmlBefore := litsyncHtmlBefore ca |}).
    { subst w1. now rewrite getContentArea_writeMarkup, Hca'. }
    rewrite (process_streaming c w1 _ Hca1 Hstr). cbv zeta. simpl innerHTML.
    apply includes_spec in Hocc. rewrite Hocc.
    eexists. unfold finalizePending. simpl. apply lookup_insert_eq.
Qed.

(** C8. One processing step on a container in the INITIAL phase (state
    attribute neither 'streaming' nor 'final').  If its markup contains the
    start marker, with [pre] the markup before the leftmost occurrence: the
    prefix attribute becomes [pre], the string [pre + placeholder] is
    assigned to the markup in place of all of it, the state becomes
    'streaming'; these are the only actions, in this order, no timer is
    touched and no other container changes.  The markup the content area
    then has is what the browser's parser makes of [pre + placeholder]: that
    string itself whenever it is read back as it was assigned.  If the
    markup does not contain the start marker, the step only reads: document,
    timers and registries are as before. *)
Theorem C8_initial_to_streaming (w : World) (c : nat) (ca : ContentArea) :
  getContentArea c w = Some ca ->
  litsyncShortened ca <> Some "final" ->
  litsyncShortened ca <> Some "streaming" ->
  (forall pre post,
     firstOccurrence START_TAG_ESCAPED (innerHTML ca) pre post ->
     getContentArea c (processShorteningForContainer c w) =
       Some {| innerHTML := reparse (pre +:+ placeholderOuterHTML);
               litsyncShortened := Some "streaming";
               litsyncHtmlBefore := Some pre |}
     /\ trace (processShorteningForContainer c w) =
          trace w ++ [ReadMarkup c; StorePrefix c pre;
                      WriteMarkup c (pre +:+ placeholderOuterHTML);
                      SetPhase c "streaming"]
     /\ (reparse (pre +:+ placeholderOuterHTML) = pre +:+ placeholderOuterHTML ->
         getContentArea c (processShorteningForContainer c w) =
           Some {| innerHTML := pre +:+ placeholderOuterHTML;
                   litsyncShortened := Some "streaming";
                   litsyncHtmlBefore := Some pre |})
     /\ sameSchedule (processShorteningForContainer c w) w
     /\ forall c', c' <> c ->
          getContentArea c' (processShorteningForContainer c w) = getContentArea c' w)
  /\ (~ occurs START_TAG_ESCAPED (innerHTML ca) ->
      processShorteningForContainer c w = emit (ReadMarkup c) w).
Proof.
  intros Hca Hfin Hstr.
  rewrite (process_initial c w ca Hca Hfin Hstr). cbv zeta. split.
  - intros pre post Hfirst.
    rewrite (indexOf_first _ _ _ _ Hfirst).
    destruct (Z.ltb_spec (-1) (Z.of_nat (String.length pre))) as [_|E]; [|lia].
    assert (Hpre : substring (innerHTML ca) 0 (Z.of_nat (String.length pre)) = pre).
    { destruct Hfirst as [Ho _]. unfold occursAt in Ho. rewrite Ho.
      apply substring_prefix. }
    rewrite Hpre.
    assert (Hstate : getContentArea c
                       (setPhase c "streaming"
                          (setInnerHTML c (pre +:+ placeholderOuterHTML)
                             (setPrefix c pre (emit (ReadMarkup c) w)))) =
                     Some {| innerHTML := reparse (pre +:+ placeholderOuterHTML);
                             litsyncShortened := Some "streaming";
                             litsyncHtmlBefore := Some pre |}).
    { unfold setPhase, setInnerHTML, setPrefix.
      rewrite getContentArea_update_eq, getContentArea_emit.
      rewrite getContentArea_writeMarkup, getContentArea_emit.
      rewrite getContentArea_update_eq, !getContentArea_emit, Hca.
      reflexivity. }
    split; [exact Hstate|]. split; [|split; [|split]].
    + rewrite trace_setPhase, trace_setInnerHTML, trace_setPrefix. simpl.
      rewrite <- !app_assoc. reflexivity.
    + intros Hfix. now rewrite Hstate, Hfix.
    + eapply sameSchedule_trans; [apply sameSchedule_setPhase|].
      eapply sameSchedule_trans; [apply sameSchedule_setInnerHTML|].
      eapply sameSchedule_trans; [apply sameSchedule_setPrefix|].
      repeat split.
    + intros c' Hne. unfold setPhase, setInnerHTML, setPrefix, writeMarkup.
      rewrite getContentArea_update_ne, getContentArea_emit by congruence.
      rewrite (getContentArea_same c' _ _ (containers_queueRecord c _)).
      rewrite getContentArea_update_ne, getContentArea_emit by congruence.
      rewrite getContentArea_update_ne, !getContentArea_emit by congruence.
      reflexivity.
  - intros Hno. apply indexOf_absent in Hno. now rewrite Hno.
Qed.

End ShortenerStepClaims.

(** *** The statements above at the sample worlds *)

Section ShortenerStepClaimsExamples.
Import JsString Shortener.
#[local] Existing Instance sampleBrowser.

(** C2, as stated, fails: the markup that results is what the browser's
    parser makes of the string assigned, and an HTML parser does not read
    every string back as it was assigned.  Here the captured prefix leaves a
    paragraph open, as the markup before a start marker inside a paragraph
    does: the parser closes the paragraph before the placeholder, leaves the
    rest outside it, and makes an empty paragraph of the end tag left
    over. *)
Lemma C2_finalize_counterexample :
  finalizePending 0 3 openEndMarkerSeen
  /\ getContentArea 0 openEndMarkerSeen =
       Some {| innerHTML := "<p>A &lt;files&gt;BIG&lt;/files&gt; tail</p>";
               litsyncShortened := Some "streaming";
               litsyncHtmlBefore := Some "<p>A " |}
  /\ firstOccurrence END_TAG_ESCAPED "<p>A &lt;files&gt;BIG&lt;/files&gt; tail</p>"
       "<p>A &lt;files&gt;BIG" " tail</p>"
  /\ markup 0 (Shortener.step openEndMarkerSeen (TimerFires 3))
     = Some ("<p>A </p>" +:+ placeholderOuterHTML +:+ " tail<p></p>")
  /\ markup 0 (Shortener.step openEndMarkerSeen (TimerFires 3))
     <> Some ("<p>A " +:+ placeholderOuterHTML +:+ " tail</p>")
  /\ ~ (forall (browser : Browser) (w : World) (c : nat) (t : positive)
               (ca : ContentArea) (captured pre post : string),
          finalizePending c t w ->
          getContentArea c w = Some ca ->
          litsyncHtmlBefore ca = Some captured ->
          firstOccurrence END_TAG_ESCAPED (innerHTML ca) pre post ->
          markup c (Shortener.step w (TimerFires t))
          = Some (captured +:+ placeholderOuterHTML +:+ post)).
Proof.
  assert (H1 : finalizePending 0 3 openEndMarkerSeen) by reflexivity.
  assert (H2 : getContentArea 0 openEndMarkerSeen =
               Some {| innerHTML := "<p>A &lt;files&gt;BIG&lt;/files&gt; tail</p>";
                       litsyncShortened := Some "streaming";
                       litsyncHtmlBefore := Some "<p>A " |}) by reflexivity.
  assert (H3 : firstOccurrence END_TAG_ESCAPED
                 "<p>A &lt;files&gt;BIG&lt;/files&gt; tail</p>"
                 "<p>A &lt;files&gt;BIG" " tail</p>")
    by (apply firstOccurrence_at; reflexivity).
  assert (H4 : markup 0 (Shortener.step openEndMarkerSeen (TimerFires 3))
               = Some ("<p>A </p>" +:+ placeholderOuterHTML +:+ " tail<p></p>"))
    by (vm_compute; reflexivity).
  assert (H5 : markup 0 (Shortener.step openEndMarkerSeen (TimerFires 3))
               <> Some ("<p>A " +:+ placeholderOuterHTML +:+ " tail</p>"))
    by (rewrite H4; vm_compute; discriminate).
  split; [exact H1|]. split; [exact H2|]. split; [exact H3|].
  split; [exact H4|]. split; [exact H5|].
  intros H. apply H5.
  exact (H sampleBrowser openEndMarkerSeen 0%nat 3%positive _ _ _ _ H1 H2 eq_refl H3).
Qed.

(** The example of the claim: the markup read when the timer fires is
  "<p>A</p>&lt;files&gt;BIGBLOB&lt;/files&gt;<p>Z</p>", the captured prefix
  is "<p>A</p>"; the string assigned is read back as it is. *)
Lemma C2_finalize_markup_witness :
  finalizePending 0 3 endMarkerSeen
  /\ getContentArea 0 endMarkerSeen =
       Some {| innerHTML := sampleInput; litsyncShortened := Some "streaming";
               litsyncHtmlBefore := Some "<p>A</p>" |}
  /\ firstOccurrence END_TAG_ESCAPED sampleInput
       "<p>A</p>&lt;files&gt;BIGBLOB" "<p>Z</p>"
  /\ reparse ("<p>A</p>" +:+ placeholderOuterHTML +:+ "<p>Z</p>")
     = "<p>A</p>" +:+ placeholderOuterHTML +:+ "<p>Z</p>"
  /\ getContentArea 0 (Shortener.step endMarkerSeen (TimerFires 3)) =
       Some {| innerHTML := "<p>A</p>" +:+ placeholderOuterHTML +:+ "<p>Z</p>";
               litsyncShortened := Some "final";
               litsyncHtmlBefore := None |}.
Proof.
  assert (H1 : finalizePending 0 3 endMarkerSeen) by reflexivity.
  assert (H2 : getContentArea 0 endMarkerSeen =
               Some {| innerHTML := sampleInput; litsyncShortened := Some "streaming";
                       litsyncHtmlBefore := Some "<p>A</p>" |}) by reflexivity.
  assert (H3 : firstOccurrence END_TAG_ESCAPED sampleInput
                 "<p>A</p>&lt;files&gt;BIGBLOB" "<p>Z</p>")
    by (apply firstOccurrence_at; reflexivity).
  assert (H4 : reparse ("<p>A</p>" +:+ placeholderOuterHTML +:+ "<p>Z</p>")
               = "<p>A</p>" +:+ placeholderOuterHTML +:+ "<p>Z</p>")
    by (vm_compute; reflexivity).
  split; [exact H1|]. split; [exact H2|]. split; [exact H3|]. split; [exact H4|].
  exact (proj2 (proj2 (C2_finalize_markup endMarkerSeen 0 3 _ "<p>A</p>" _ _
                         H1 H2 eq_refl H3)) H4).
Defined.

Lemma C7_marker_vanished_witness :
  finalizePending 0 3 endMarkerGone
  /\ getContentArea 0 endMarkerGone =
       Some {| innerHTML := "<p>A</p>&lt;files&gt;BIGB";
               litsyncShortened := Some "streaming";
               litsyncHtmlBefore := Some "<p>A</p>" |}
  /\ ~ occurs END_TAG_ESCAPED "<p>A</p>&lt;files&gt;BIGB"
  /\ messageContainers (Shortener.step endMarkerGone (TimerFires 3))
       = messageContainers endMarkerGone
  /\ phase 0 (Shortener.step endMarkerGone (TimerFires 3)) = Some "streaming".
Proof.
  assert (H1 : finalizePending 0 3 endMarkerGone) by reflexivity.
  assert (H2 : getContentArea 0 endMarkerGone =
               Some {| innerHTML := "<p>A</p>&lt;files&gt;BIGB";
                       litsyncShortened := Some "streaming";
                       litsyncHtmlBefore := Some "<p>A</p>" |}) by reflexivity.
  assert (H3 : ~ occurs END_TAG_ESCAPED "<p>A</p>&lt;files&gt;BIGB")
    by (apply includes_false; reflexivity).
  split; [exact H1|]. split; [exact H2|]. split; [exact H3|].
  destruct (C7_marker_vanished endMarkerGone 0 3 _ H1 H2 eq_refl H3)
    as (A & B & _).
  split; [exact A | exact B].
Defined.

Lemma C8_initial_to_streaming_witness :
  getContentArea 0 freshlyWired =
    Some {| innerHTML := sampleInput; litsyncShortened := None;
            litsyncHtmlBefore := None |}
  /\ firstOccurrence START_TAG_ESCAPED sampleInput
       "<p>A</p>" "BIGBLOB&lt;/files&gt;<p>Z</p>"
  /\ reparse ("<p>A</p>" +:+ placeholderOuterHTML)
     = "<p>A</p>" +:+ placeholderOuterHTML
  /\ getContentArea 0 (processShorteningForContainer 0 freshlyWired) =
       Some {| innerHTML := "<p>A</p>" +:+ placeholderOuterHTML;
               litsyncShortened := Some "streaming";
               litsyncHtmlBefore := Some "<p>A</p>" |}.
Proof.
  assert (H1 : getContentArea 0 freshlyWired =
               Some {| innerHTML := sampleInput; litsyncShortened := None;
                       litsyncHtmlBefore := None |}) by reflexivity.
  assert (H2 : firstOccurrence START_TAG_ESCAPED sampleInput
                 "<p>A</p>" "BIGBLOB&lt;/files&gt;<p>Z</p>")
    by (apply firstOccurrence_at; reflexivity).
  assert (H3 : reparse ("<p>A</p>" +:+ placeholderOuterHTML)
               = "<p>A</p>" +:+ placeholderOuterHTML)
    by (vm_compute; reflexivity).
  split; [exact H1|]. split; [exact H2|]. split; [exact H3|].
  assert (Hf : @None string <> Some "final") by discriminate.
  assert (Hs : @None string <> Some "streaming") by discriminate.
  exact (proj1 (proj2 (proj2
           (proj1 (C8_initial_to_streaming freshlyWired 0 _ H1 Hf Hs) _ _ H2))) H3).
Defined.

(** With a paragraph left open before the start marker, the markup that
    is read back after the first processing step is not the string it
    assigned: the parser closes the paragraph before the placeholder. *)
Lemma open_paragraph_read_back :
  storedPrefix 0 (Shortener.step openWired (TimerFires 1)) = Some "<p>A "
  /\ contentActions 0 (Shortener.step openWired (TimerFires 1)) =
       [ReadMarkup 0; StorePrefix 0 "<p>A ";
        WriteMarkup 0 ("<p>A " +:+ placeholderOuterHTML);
        SetPhase 0 "streaming"]
  /\ markup 0 (Shortener.step openWired (TimerFires 1))
     = Some ("<p>A </p>" +:+ placeholderOuterHTML).
Proof. vm_compute. repeat split; reflexivity. Qed.

End ShortenerStepClaimsExamples.

(** ** Claims about the life of a shortener instance *)

Section ShortenerLifeClaims.
Import JsString Shortener.
Context {browser : Browser}.

Lemma final_write_counted c html :
  length (filter (fun a => isFinalTransition c a = true)
            [WriteMarkup c html; SetPhase c "final"; RemovePrefix c]) = 1%nat.
Proof.
  rewrite filter_cons_False by (simpl; congruence).
  rewrite filter_cons_True
    by (simpl; now rewrite Nat.eqb_refl).
  rewrite filter_cons_False by (simpl; congruence).
  reflexivity.
Qed.

(** The STREAMING->FINAL transition, as one task: what it records, and what
    holds when it is over. *)
Lemma task_finalize_present c t w ca :
  timersConsistent w ->
  finalizePending c t w ->
  getContentArea c w = Some ca ->
  occurs END_TAG_ESCAPED (innerHTML ca) ->
  (exists html,
     trace (task (TimerFires t) w) =
       trace w ++ [ReadMarkup c]
       ++ match shortenObserverMap w !! c with
          | Some _ => [Disconnect c]
          | None => []
          end
       ++ [ClearTimeout t; WriteMarkup c html; SetPhase c "final"; RemovePrefix c])
  /\ ~ wired c (task (TimerFires t) w)
  /\ settled c (task (TimerFires t) w)
  /\ finalTransitions c (task (TimerFires t) w) = S (finalTransitions c w).
Proof.
  intros Hcons Hp Hca Hocc.
  set (w0 := setTimers (delete t (timers w)) (nextTimerId w) w).
  assert (Hd : debounceTimerMap w !! c = Some t) by (now apply Hcons).
  destruct (finalize_present c w0 ca Hca Hocc) as (html & Htr & _ & Hph & Hobs).
  change (trace w0) with (trace w) in Htr.
  change (shortenObserverMap w0) with (shortenObserverMap w) in Htr.
  change (debounceTimerMap w0) with (debounceTimerMap w) in Htr.
  rewrite Hd in Htr.
  rewrite (task_finalize c t w Hp). fold w0.
  split; [|split; [|split]].
  - exists html. rewrite Htr. reflexivity.
  - unfold wired. rewrite Hobs. intros [? ?]; discriminate.
  - split; [exact Hph|].
    apply finalize_none.
    + eapply consistent_clear; [exact Hcons | reflexivity..].
    + now apply fired_none.
  - rewrite (finalTransitions_app c w _ _ Htr).
    rewrite !filter_app, !length_app.
    rewrite (filter_cons_False _ (ReadMarkup c) []) by (simpl; congruence).
    rewrite (filter_cons_False _ (ClearTimeout t)) by (simpl; congruence).
    rewrite final_write_counted.
    destruct (shortenObserverMap w !! c); simpl; lia.
Qed.

Lemma step_finalize_present c t w ca :
  timersConsistent w ->
  finalizePending c t w ->
  getContentArea c w = Some ca ->
  occurs END_TAG_ESCAPED (innerHTML ca) ->
  settled c (Shortener.step w (TimerFires t))
  /\ finalTransitions c (Shortener.step w (TimerFires t)) = S (finalTransitions c w).
Proof.
  intros Hcons Hp Hca Hocc.
  destruct (task_finalize_present c t w ca Hcons Hp Hca Hocc) as (_ & _ & Hs & Hn).
  pose proof (quiet_microtaskCheckpoint c (task (TimerFires t) w)) as Hq.
  unfold Shortener.step. split.
  - now apply (settled_quiet c (task (TimerFires t) w)).
  - now rewrite (quiet_finalTransitions c _ _ Hq).
Qed.

(** C5. In the STREAMING->FINAL transition the observer of the container (if
    one is connected) is disconnected before the markup is written, and none
    is connected when the write happens; from then on, whatever events
    follow, the container stays in FINAL, no further FINAL transition is
    counted and the extension performs no action on its content area; and a
    processing step on a container in FINAL returns the world as it is. *)
Theorem C5_final_absorbing
    (w : World) (c : nat) (t : positive) (ca : ContentArea) :
  Shortener.reachable w ->
  finalizePending c t w ->
  getContentArea c w = Some ca ->
  occurs END_TAG_ESCAPED (innerHTML ca) ->
  (exists html,
     trace (task (TimerFires t) w) =
       trace w ++ [ReadMarkup c]
       ++ match shortenObserverMap w !! c with
          | Some _ => [Disconnect c]
          | None => []
          end
       ++ [ClearTimeout t; WriteMarkup c html; SetPhase c "final"; RemovePrefix c])
  /\ ~ wired c (task (TimerFires t) w)
  /\ (forall evs : list Shortener.Event,
        phase c (Shortener.run evs (Shortener.step w (TimerFires t))) = Some "final"
        /\ finalTransitions c (Shortener.run evs (Shortener.step w (TimerFires t)))
           = S (finalTransitions c w)
        /\ contentActions c (Shortener.run evs (Shortener.step w (TimerFires t)))
           = contentActions c (Shortener.step w (TimerFires t)))
  /\ (forall w0, phase c w0 = Some "final" -> processShorteningForContainer c w0 = w0).
Proof.
  intros Hr Hp Hca Hocc.
  pose proof (reachable_consistent w Hr) as Hcons.
  destruct (task_finalize_present c t w ca Hcons Hp Hca Hocc) as (Htr & Hw & _ & _).
  destruct (step_finalize_present c t w ca Hcons Hp Hca Hocc) as (Hs & Hn).
  split; [exact Htr|]. split; [exact Hw|]. split.
  - intros evs.
    pose proof (quiet_run c evs _ Hs) as Hq.
    split; [|split].
    + destruct Hq as (Hph & _). rewrite Hph. apply Hs.
    + now rewrite (quiet_finalTransitions c _ _ Hq).
    + apply Hq.
  - intros w0. apply process_final.
Qed.

Lemma getContentArea_setTimers c m n w :
  getContentArea c (setTimers m n w) = getContentArea c w.
Proof. reflexivity. Qed.

Lemma getContentArea_clearTimeout c t w :
  getContentArea c (clearTimeout t w) = getContentArea c w.
Proof. reflexivity. Qed.

(** A processing step in STREAMING that sees the end marker: the finalize
    timer it arms gets the next identifier; the document is left alone. *)
Lemma process_streaming_arms c w ca :
  timersConsistent w ->
  getContentArea c w = Some ca ->
  litsyncShortened ca = Some "streaming" ->
  occurs END_TAG_ESCAPED (innerHTML ca) ->
  timersConsistent (processShorteningForContainer c w)
  /\ getContentArea c (processShorteningForContainer c w) = Some ca
  /\ finalizePending c (nextTimerId w) (processShorteningForContainer c w)
  /\ finalTransitions c (processShorteningForContainer c w) = finalTransitions c w
  /\ (nextTimerId w < nextTimerId (processShorteningForContainer c w))%positive.
Proof.
  intros Hcons Hca Hstr Hocc.
  split; [now apply consistent_process|].
  rewrite (process_streaming c w ca Hca Hstr). cbv zeta.
  apply includes_spec in Hocc. rewrite Hocc.
  rewrite debounce_emit.
  destruct (debounceTimerMap w !! c) as [t0|].
  - split; [|split; [|split]].
    + now rewrite getContentArea_setDebounceMap, getContentArea_emit,
        getContentArea_setTimers, getContentArea_clearTimeout, getContentArea_emit.
    + unfold finalizePending. simpl. apply lookup_insert_eq.
    + rewrite (finalTransitions_app c w
                 [ReadMarkup c; ClearTimeout t0;
                  SetTimeout (nextTimerId w) (FinalizeCallback c)]).
      * rewrite !filter_cons_False by (simpl; congruence). simpl. lia.
      * simpl. now rewrite <- !app_assoc.
    + simpl. lia.
  - split; [|split; [|split]].
    + now rewrite getContentArea_setDebounceMap, getContentArea_emit,
        getContentArea_setTimers, getContentArea_emit.
    + unfold finalizePending. simpl. apply lookup_insert_eq.
    + rewrite (finalTransitions_app c w
                 [ReadMarkup c; SetTimeout (nextTimerId w) (FinalizeCallback c)]).
      * rewrite !filter_cons_False by (simpl; congruence). simpl. lia.
      * simpl. now rewrite <- !app_assoc.
    + simpl. lia.
Qed.

(** The record of such a step when a timer is already recorded: the old
    timer is cancelled first, then the new one is armed. *)
Lemma process_streaming_trace c w ca t0 :
  getContentArea c w = Some ca ->
  litsyncShortened ca = Some "streaming" ->
  occurs END_TAG_ESCAPED (innerHTML ca) ->
  debounceTimerMap w !! c = Some t0 ->
  trace (processShorteningForContainer c w) =
    trace w ++ [ReadMarkup c; ClearTimeout t0;
                SetTimeout (nextTimerId w) (FinalizeCallback c)].
Proof.
  intros Hca Hstr Hocc Hd.
  rewrite (process_streaming c w ca Hca Hstr). cbv zeta.
  apply includes_spec in Hocc. rewrite Hocc, debounce_emit, Hd.
  simpl. now rewrite <- !app_assoc.
Qed.

(** The same, for any number of such steps in a row. *)
Lemma process_streaming_repeated c w ca (n : nat) :
  timersConsistent w ->
  getContentArea c w = Some ca ->
  litsyncShortened ca = Some "streaming" ->
  occurs END_TAG_ESCAPED (innerHTML ca) ->
  timersConsistent (Nat.iter n (processShorteningForContainer c) w)
  /\ getContentArea c (Nat.iter n (processShorteningForContainer c) w) = Some ca
  /\ finalTransitions c (Nat.iter n (processShorteningForContainer c) w)
     = finalTransitions c w
  /\ (nextTimerId w <= nextTimerId (Nat.iter n (processShorteningForContainer c) w))%positive.
Proof.
  intros Hcons Hca Hstr Hocc. induction n as [|n (IH1 & IH2 & IH3 & IH4)]; simpl.
  - split; [exact Hcons|]. split; [exact Hca|]. split; [reflexivity | lia].
  - destruct (process_streaming_arms c _ ca IH1 IH2 Hstr Hocc)
      as (A & B & _ & D & E).
    split; [exact A|]. split; [exact B|]. split; [congruence | lia].
Qed.

(** C6. In every reachable world a container has at most one outstanding
    finalize timer.  For a container in STREAMING whose markup contains the
    end marker, any number [n + 1] of processing steps in a row leaves exactly
    one finalize timer outstanding, the one armed last (every timer that was
    outstanding before is cancelled; a step first cancels the recorded
    timer, then arms the new one), and counts no FINAL transition; when
    that timer fires, exactly one FINAL transition is counted, and whatever
    events follow, the count stays there and no finalize timer of the
    container is outstanding again. *)
Theorem C6_single_finalize_timer
    (w : World) (c : nat) (ca : ContentArea) (n : nat) :
  Shortener.reachable w ->
  getContentArea c w = Some ca ->
  litsyncShortened ca = Some "streaming" ->
  occurs END_TAG_ESCAPED (innerHTML ca) ->
  (forall t1 t2, finalizePending c t1 w -> finalizePending c t2 w -> t1 = t2)
  /\ (forall t0, finalizePending c t0 w ->
        trace (processShorteningForContainer c w) =
          trace w ++ [ReadMarkup c; ClearTimeout t0;
                      SetTimeout (nextTimerId w) (FinalizeCallback c)])
  /\ exists t,
      finalizePending c t (Nat.iter (S n) (processShorteningForContainer c) w)
      /\ (forall t', finalizePending c t'
                       (Nat.iter (S n) (processShorteningForContainer c) w) -> t' = t)
      /\ (forall t', finalizePending c t' w ->
                     ~ finalizePending c t'
                         (Nat.iter (S n) (processShorteningForContainer c) w))
      /\ finalTransitions c (Nat.iter (S n) (processShorteningForContainer c) w)
         = finalTransitions c w
      /\ forall evs : list Shortener.Event,
          phase c (Shortener.run evs
                     (Shortener.step
                        (Nat.iter (S n) (processShorteningForContainer c) w)
                        (TimerFires t))) = Some "final"
          /\ finalTransitions c
               (Shortener.run evs
                  (Shortener.step
                     (Nat.iter (S n) (processShorteningForContainer c) w)
                     (TimerFires t))) = S (finalTransitions c w)
          /\ forall t', ~ finalizePending c t'
               (Shortener.run evs
                  (Shortener.step
                     (Nat.iter (S n) (processShorteningForContainer c) w)
                     (TimerFires t))).
Proof.
  intros Hr Hca Hstr Hocc.
  pose proof (reachable_consistent w Hr) as Hcons.
  split.
  { intros t1 t2 H1 H2. apply Hcons in H1, H2. congruence. }
  split.
  { intros t0 H0. apply Hcons in H0.
    now apply (process_streaming_trace c w ca t0). }
  destruct (process_streaming_repeated c w ca n Hcons Hca Hstr Hocc)
    as (Hc & Hg & Hf & Hle).
  destruct (process_streaming_arms c _ ca Hc Hg Hstr Hocc)
    as (Hc' & Hg' & Hp' & Hf' & _).
  change (processShorteningForContainer c (Nat.iter n (processShorteningForContainer c) w))
    with (Nat.iter (S n) (processShorteningForContainer c) w) in *.
  set (w' := Nat.iter (S n) (processShorteningForContainer c) w) in *.
  exists (nextTimerId (Nat.iter n (processShorteningForContainer c) w)).
  split; [exact Hp'|]. split; [|split; [|split]].
  - intros t' H'. apply Hc' in H', Hp'. congruence.
  - intros t' Hold Hnew.
    pose proof (proj1 Hcons t' _ Hold) as Hlt.
    apply Hc' in Hnew, Hp'. assert (t' = nextTimerId (Nat.iter n (processShorteningForContainer c) w))
      by congruence.
    lia.
  - congruence.
  - intros evs.
    destruct (step_finalize_present c _ w' ca Hc' Hp' Hg' Hocc) as (Hs & Hn).
    pose proof (quiet_run c evs _ Hs) as Hq.
    pose proof (settled_quiet c _ _ Hs Hq) as Hs'.
    split; [apply Hs'|]. split; [|apply Hs'].
    rewrite (quiet_finalTransitions c _ _ Hq). congruence.
Qed.

End ShortenerLifeClaims.

(** *** The statements above at the sample worlds *)

Section ShortenerLifeClaimsExamples.
Import JsString Shortener.
#[local] Existing Instance sampleBrowser.

Lemma C5_final_absorbing_witness :
  Shortener.reachable endMarkerSeen
  /\ finalizePending 0 3 endMarkerSeen
  /\ occurs END_TAG_ESCAPED sampleInput
  /\ ~ wired 0 (task (TimerFires 3) endMarkerSeen)
  /\ (forall evs : list Shortener.Event,
        phase 0 (Shortener.run evs (Shortener.step endMarkerSeen (TimerFires 3)))
          = Some "final"
        /\ finalTransitions 0 (Shortener.run evs (Shortener.step endMarkerSeen (TimerFires 3)))
           = S (finalTransitions 0 endMarkerSeen)
        /\ contentActions 0 (Shortener.run evs (Shortener.step endMarkerSeen (TimerFires 3)))
           = contentActions 0 (Shortener.step endMarkerSeen (TimerFires 3))).
Proof.
  assert (H1 : Shortener.reachable endMarkerSeen)
    by (apply reachable_run, reachable_run, reachable_boot).
  assert (H2 : finalizePending 0 3 endMarkerSeen) by reflexivity.
  assert (H3 : occurs END_TAG_ESCAPED sampleInput)
    by (apply includes_spec; reflexivity).
  split; [exact H1|]. split; [exact H2|]. split; [exact H3|].
  destruct (C5_final_absorbing endMarkerSeen 0 3 _ H1 H2 eq_refl H3)
    as (_ & A & B & _).
  split; [exact A | exact B].
Defined.

Lemma C6_single_finalize_timer_witness :
  Shortener.reachable endMarkerSeen
  /\ occurs END_TAG_ESCAPED sampleInput
  /\ (forall t1 t2, finalizePending 0 t1 endMarkerSeen ->
                    finalizePending 0 t2 endMarkerSeen -> t1 = t2)
  /\ exists t,
      finalizePending 0 t (Nat.iter 3 (processShorteningForContainer 0) endMarkerSeen)
      /\ (forall t', finalizePending 0 t'
                       (Nat.iter 3 (processShorteningForContainer 0) endMarkerSeen) ->
                     t' = t).
Proof.
  assert (H1 : Shortener.reachable endMarkerSeen)
    by (apply reachable_run, reachable_run, reachable_boot).
  assert (H3 : occurs END_TAG_ESCAPED sampleInput)
    by (apply includes_spec; reflexivity).
  split; [exact H1|]. split; [exact H3|].
  destruct (C6_single_finalize_timer endMarkerSeen 0 _ 2 H1 eq_refl eq_refl H3)
    as (A & _ & t & B & C & _).
  split; [exact A|]. exists t. split; [exact B | exact C].
Defined.

End ShortenerLifeClaimsExamples.

(** ** Claims about the scanner *)

Section ScannerClaims.
Import JsString Shortener.
Context {browser : Browser}.

Lemma keeps_setStorage c st w : keeps c w (setStorage st w).
Proof. now apply keeps_frame. Qed.

Lemma keeps_setWrappers c l w : keeps c w (setWrappers l w).
Proof. now apply keeps_frame. Qed.

Lemma keeps_runTimer c cb w : keeps c w (runTimer cb w).
Proof.
  destruct cb as [c'|c']; simpl.
  - eapply keeps_trans; [apply keeps_process | apply keeps_setThrottleMap].
  - apply keeps_finalize.
Qed.

(** Away from a switch-off of the extension, a task keeps the marker of a
    marked container and gives it no shortener. *)
Lemma keeps_task c e w :
  isProcessed c w -> keepsExtensionOn e -> keeps c w (task e w).
Proof.
  intros Hp He. destruct e as [content|n|c' html| |t|e s]; simpl.
  - apply keeps_append.
  - apply keeps_setWrappers.
  - apply keeps_writeMarkup.
  - destruct (domScannerInterval w); [now apply keeps_scan | apply keeps_refl].
  - destruct (timers w !! t) as [cb|]; [|apply keeps_refl].
    eapply keeps_trans; [apply keeps_setTimers | apply keeps_runTimer].
  - eapply keeps_trans; [apply keeps_setStorage|].
    apply keeps_onStorageChanged. intros ->. exact He.
Qed.

Lemma keeps_step c e w :
  isProcessed c w -> keepsExtensionOn e -> keeps c w (Shortener.step w e).
Proof.
  intros Hp He. unfold Shortener.step.
  apply (keeps_trans c w (task e w));
    [now apply keeps_task | apply keeps_microtaskCheckpoint].
Qed.

Lemma processedUnwired_keeps c w w' :
  processedUnwired c w -> keeps c w w' -> processedUnwired c w'.
Proof. intros [Hp Hw] [K1 K2]. split; [now apply K1 | intros H; now apply Hw, K2]. Qed.

Lemma processedUnwired_run c evs w :
  processedUnwired c w ->
  Forall keepsExtensionOn evs ->
  processedUnwired c (Shortener.run evs w).
Proof.
  intros Hpu Hevs. induction evs as [|e evs IH] using rev_ind; [exact Hpu|].
  apply Forall_app in Hevs as [Hevs He]. inversion_clear He as [|? ? He' _].
  rewrite shortener_run_snoc. specialize (IH Hevs).
  apply (processedUnwired_keeps c _ _ IH). apply keeps_step; [apply IH | exact He'].
Qed.

Lemma length_initialize c w :
  length (messageContainers (initializeShorteningForContainer c w))
  = length (messageContainers w).
Proof.
  unfold initializeShorteningForContainer.
  destruct (messageContainers w !! c) as [mc|] eqn:E; [|reflexivity].
  destruct (contentArea mc); [|reflexivity].
  destruct (truthyStr _); [reflexivity|]. cbv zeta.
  rewrite containers_throttledProcess. unfold setShortenInit. rewrite E. simpl.
  apply length_insert.
Qed.

Lemma length_scanMessageContainer w c :
  length (messageContainers (scanMessageContainer w c))
  = length (messageContainers w).
Proof.
  unfold scanMessageContainer.
  destruct (messageContainers w !! c) as [mc|] eqn:E; [|reflexivity].
  destruct (processedMarker mc); [reflexivity|]. cbv zeta.
  destruct (isShortenEnabled _); [|simpl; apply length_insert].
  destruct (contentArea mc); [|simpl; apply length_insert].
  rewrite length_initialize. simpl. apply length_insert.
Qed.

Lemma keeps_setObserverMap_marker c m w :
  isProcessed c w -> isProcessed c (setObserverMap m w).
Proof. intros H. exact H. Qed.

Lemma processed_initialize c c' w :
  isProcessed c w -> isProcessed c (initializeShorteningForContainer c' w).
Proof.
  intros Hp. unfold initializeShorteningForContainer.
  destruct (messageContainers w !! c') as [mc|]; [|exact Hp].
  destruct (contentArea mc); [|exact Hp].
  destruct (truthyStr _); [exact Hp|]. cbv zeta.
  apply keeps_throttledProcess.
  apply (keeps_setObserverMap_marker c). apply keeps_emit.
  now apply keeps_setShortenInit.
Qed.

Lemma processed_scanMessageContainer c w c' :
  isProcessed c w -> isProcessed c (scanMessageContainer w c').
Proof. intros Hp. now apply (keeps_scanMessageContainer c w c' Hp). Qed.

(** The scanner marks the container it visits. *)
Lemma marked_scanMessageContainer c w :
  is_Some (messageContainers w !! c) -> isProcessed c (scanMessageContainer w c).
Proof.
  intros [mc Hmc]. unfold scanMessageContainer. rewrite Hmc.
  destruct (processedMarker mc) eqn:Ep; [now exists mc|]. cbv zeta.
  assert (H1 : isProcessed c
            (setContainers (<[c := markMessageProcessed mc]> (messageContainers w)) w)).
  { exists (markMessageProcessed mc). split; [|reflexivity].
    simpl. apply list_lookup_insert_eq. eapply lookup_lt_Some, Hmc. }
  destruct (isShortenEnabled _); [|exact H1].
  destruct (contentArea mc); [|exact H1].
  now apply processed_initialize.
Qed.

Lemma marked_foldl c (l : list nat) w :
  c ∈ l ->
  is_Some (messageContainers w !! c) ->
  isProcessed c (foldl scanMessageContainer w l).
Proof.
  revert w. induction l as [|c' l IH]; intros w Hin Hc; [now apply elem_of_nil in Hin|].
  simpl. destruct (decide (c' = c)) as [->|Hne].
  - apply (foldl_preserves (isProcessed c)).
    + intros a b. apply processed_scanMessageContainer.
    + now apply marked_scanMessageContainer.
  - apply IH.
    + apply elem_of_cons in Hin as [->|Hin]; [congruence | exact Hin].
    + apply lookup_lt_is_Some. rewrite length_scanMessageContainer.
      now apply lookup_lt_is_Some.
Qed.

Lemma marked_scan c w :
  is_Some (messageContainers w !! c) -> isProcessed c (scanAndProcessMessages w).
Proof.
  intros Hc. unfold scanAndProcessMessages. cbv zeta.
  apply keeps_setWrappers. apply marked_foldl; [|exact Hc].
  apply elem_of_seq. apply lookup_lt_is_Some in Hc. lia.
Qed.

(** With the shortening flag off, a scanner run registers no observer. *)
Lemma scan_disabled w :
  isShortenEnabled w = false ->
  shortenObserverMap (scanAndProcessMessages w) = shortenObserverMap w.
Proof.
  intros Hoff. unfold scanAndProcessMessages. cbv zeta.
  change (shortenObserverMap (setWrappers ?l ?x)) with (shortenObserverMap x).
  generalize (seq 0 (length (messageContainers w))). intros l.
  assert (H : isShortenEnabled (foldl scanMessageContainer w l) = false
              /\ shortenObserverMap (foldl scanMessageContainer w l)
                 = shortenObserverMap w); [|apply H].
  apply (foldl_preserves
           (fun a => isShortenEnabled a = false
                     /\ shortenObserverMap a = shortenObserverMap w));
    [|now split].
  intros a c [Ha Ho]. unfold scanMessageContainer.
  destruct (messageContainers a !! c) as [mc|]; [|now split].
  destruct (processedMarker mc); [now split|]. cbv zeta.
  change (isShortenEnabled (setContainers ?l ?x)) with (isShortenEnabled x).
  rewrite Ha. now split.
Qed.

(** A container gets a shortener only from a scanner run, with the flag on,
    and only if it does not carry the processed marker. *)
Lemma wired_step_inv c e w :
  ~ wired c w ->
  wired c (Shortener.step w e) ->
  e = ScannerTick
  /\ domScannerInterval w = true
  /\ isShortenEnabled w = true
  /\ ~ isProcessed c w.
Proof.
  intros Hnw Hw. unfold Shortener.step in Hw.
  apply keeps_microtaskCheckpoint in Hw.
  destruct e as [content|n|c' html| |t|e s]; simpl in Hw.
  - now apply keeps_append in Hw.
  - now apply keeps_setWrappers in Hw.
  - now apply keeps_writeMarkup in Hw.
  - destruct (domScannerInterval w) eqn:Hscan; [|contradiction].
    split; [reflexivity|]. split; [reflexivity|]. split.
    + destruct (isShortenEnabled w) eqn:Hen; [reflexivity|].
      unfold wired in Hw. rewrite (scan_disabled w Hen) in Hw. contradiction.
    + intros Hp. now apply (keeps_scan c w Hp) in Hw.
  - destruct (timers w !! t) as [cb|]; [|contradiction].
    apply keeps_runTimer, keeps_setTimers in Hw. contradiction.
  - apply onStorageChanged_nowire, keeps_setStorage in Hw. contradiction.
Qed.

(** C10, amended.  A scanner run while shortening is off marks every
    unprocessed message container as processed without attaching a shortener,
    and through any later events that do not switch the whole extension off
    (switching shortening on included) the container keeps the marker and
    gets no shortener.  In general, an event attaches a shortener to a
    container only if it is a scanner run, with shortening on, over a
    container that does not carry the processed marker. *)
Theorem C10_processed_never_wired
    (w : World) (c : nat) (evs : list Shortener.Event) :
  domScannerInterval w = true ->
  isShortenEnabled w = false ->
  is_Some (messageContainers w !! c) ->
  ~ wired c w ->
  Forall keepsExtensionOn evs ->
  processedUnwired c (Shortener.step w ScannerTick)
  /\ processedUnwired c (Shortener.run evs (Shortener.step w ScannerTick))
  /\ (forall (w0 : World) (e : Shortener.Event) (c0 : nat),
        ~ wired c0 w0 ->
        wired c0 (Shortener.step w0 e) ->
        e = ScannerTick
        /\ domScannerInterval w0 = true
        /\ isShortenEnabled w0 = true
        /\ ~ isProcessed c0 w0).
Proof.
  intros Hscan Hoff Hc Hnw Hevs.
  assert (H1 : processedUnwired c (Shortener.step w ScannerTick)).
  { unfold Shortener.step. simpl. rewrite Hscan. split.
    - apply keeps_microtaskCheckpoint. now apply marked_scan.
    - intros Hw. apply keeps_microtaskCheckpoint in Hw.
      unfold wired in Hw. rewrite (scan_disabled w Hoff) in Hw. contradiction. }
  split; [exact H1|]. split.
  - now apply processedUnwired_run.
  - intros w0 e c0. apply wired_step_inv.
Qed.

End ScannerClaims.

(** *** The statements above at the sample worlds *)

Section ScannerClaimsExamples.
Import JsString Shortener.
#[local] Existing Instance sampleBrowser.

(** C10, as stated, fails: a container scanned while shortening is off does
    get a shortener later, when shortening has been switched on and the
    extension is switched off and on again ([dismantle] removes the processed
    markers, and the scanner then treats the container as new).  No markup
    is assigned in this run, so the browser's parser plays no part in it. *)
Lemma C10_processed_counterexample :
  domScannerInterval beforeFirstScan = true
  /\ isShortenEnabled beforeFirstScan = false
  /\ processedUnwired 0 (Shortener.step beforeFirstScan ScannerTick)
  /\ wired 0 (Shortener.run offAndOnAgain (Shortener.step beforeFirstScan ScannerTick)).
Proof.
  split; [reflexivity|]. split; [reflexivity|]. split; [split|].
  - eexists. split; reflexivity.
  - intros [o Ho]. vm_compute in Ho. discriminate.
  - eexists. vm_compute. reflexivity.
Qed.

Lemma C10_processed_never_wired_witness :
  domScannerInterval beforeFirstScan = true
  /\ isShortenEnabled beforeFirstScan = false
  /\ is_Some (messageContainers beforeFirstScan !! 0%nat)
  /\ ~ wired 0 beforeFirstScan
  /\ Forall keepsExtensionOn
       [StorageChanged None (Some true); ScannerTick; TimerFires 1]
  /\ processedUnwired 0
       (Shortener.run [StorageChanged None (Some true); ScannerTick; TimerFires 1]
          (Shortener.step beforeFirstScan ScannerTick)).
Proof.
  assert (H3 : is_Some (messageContainers beforeFirstScan !! 0%nat))
    by (eexists; reflexivity).
  assert (H4 : ~ wired 0 beforeFirstScan)
    by (intros [o Ho]; vm_compute in Ho; discriminate).
  assert (H5 : Forall keepsExtensionOn
                 [StorageChanged None (Some true); ScannerTick; TimerFires 1])
    by (repeat constructor).
  split; [reflexivity|]. split; [reflexivity|]. split; [exact H3|].
  split; [exact H4|]. split; [exact H5|].
  exact (proj1 (proj2 (C10_processed_never_wired beforeFirstScan 0 _
                         eq_refl eq_refl H3 H4 H5))).
Defined.

End ScannerClaimsExamples.

(** * Further properties of the code *)

(** ** responseShortener.js: throttle, teardown, wiring *)

Section ShortenerOperations.
Import JsString Shortener Wiring.
Context {browser : Browser}.

Lemma throttledProcess_armed c w :
  is_Some (throttleTimeoutId w !! c) -> throttledProcess c w = w.
Proof. intros [t Ht]. unfold throttledProcess. now rewrite Ht. Qed.

Lemma throttledProcess_twice c w :
  throttledProcess c (throttledProcess c w) = throttledProcess c w.
Proof.
  apply throttledProcess_armed. unfold throttledProcess.
  destruct (throttleTimeoutId w !! c) as [t|] eqn:E; [rewrite E; eauto|].
  simpl. rewrite lookup_insert_eq. eauto.
Qed.

Lemma throttledProcess_iter c w (n : nat) :
  Nat.iter (S n) (throttledProcess c) w = throttledProcess c w.
Proof.
  induction n as [|n IH]; [reflexivity|].
  change (Nat.iter (S (S n)) (throttledProcess c) w)
    with (throttledProcess c (Nat.iter (S n) (throttledProcess c) w)).
  rewrite IH. apply throttledProcess_twice.
Qed.

(** X1. The throttle coalesces a burst: with no timer armed for the
    container, any number of calls of the throttled function arms one timer
    (the same world as a single call), and when that timer's callback has
    run, the throttle is free again. *)
Theorem X1_throttle_coalesces (w : World) (c : nat) (n : nat) :
  throttleTimeoutId w !! c = None ->
  Nat.iter (S n) (throttledProcess c) w = throttledProcess c w
  /\ trace (throttledProcess c w)
     = trace w ++ [SetTimeout (nextTimerId w) (ThrottleCallback c)]
  /\ timers (throttledProcess c w)
     = <[nextTimerId w := ThrottleCallback c]> (timers w)
  /\ throttleTimeoutId
       (runTimer (ThrottleCallback c) (Nat.iter (S n) (throttledProcess c) w)) !! c
     = None.
Proof.
  intros Hfree. split; [apply throttledProcess_iter|].
  unfold throttledProcess at 1 2. rewrite Hfree. simpl.
  split; [reflexivity|]. split; [reflexivity|].
  apply lookup_delete_eq.
Qed.

(** Without observer and without work to do on the debounce timer, the
    teardown changes nothing. *)
Lemma cleanup_nothing c w :
  shortenObserverMap w !! c = None ->
  getContentArea c w = None \/ debounceTimerMap w !! c = None ->
  cleanupShorteningForContainer c w = w.
Proof.
  intros Ho Hd. unfold cleanupShorteningForContainer. rewrite Ho. cbv zeta.
  destruct (getContentArea c w); [|reflexivity].
  destruct Hd as [Hd|Hd]; [discriminate|]. now rewrite Hd.
Qed.

Lemma getContentArea_cleanup c c' w :
  getContentArea c' (cleanupShorteningForContainer c w) = getContentArea c' w.
Proof. apply getContentArea_same, containers_cleanup. Qed.

Lemma debounce_cleanup_kept c w :
  getContentArea c w = None ->
  debounceTimerMap (cleanupShorteningForContainer c w) = debounceTimerMap w.
Proof.
  intros Hca. unfold cleanupShorteningForContainer.
  destruct (shortenObserverMap w !! c); cbv zeta.
  - now rewrite getContentArea_setObserverMap, getContentArea_emit, Hca.
  - now rewrite Hca.
Qed.

(** X2. The teardown of a container is idempotent and harmless: a second
    call changes nothing; the document is left as it is; afterwards no
    observer is registered for the container and (if it has a content area)
    no debounce timer is recorded; on a container without observer and
    recorded timer it is the identity; and a later change of the container's
    markup is not delivered to the processing step. *)
Theorem X2_cleanup_idempotent (w : World) (c : nat) :
  cleanupShorteningForContainer c (cleanupShorteningForContainer c w)
    = cleanupShorteningForContainer c w
  /\ messageContainers (cleanupShorteningForContainer c w) = messageContainers w
  /\ ~ wired c (cleanupShorteningForContainer c w)
  /\ (is_Some (getContentArea c w) ->
      debounceTimerMap (cleanupShorteningForContainer c w) !! c = None)
  /\ (~ wired c w -> debounceTimerMap w !! c = None ->
      cleanupShorteningForContainer c w = w)
  /\ (forall html,
        deliverRecords (writeMarkup c html (cleanupShorteningForContainer c w)) c
        = writeMarkup c html (cleanupShorteningForContainer c w)).
Proof.
  pose proof (observers_cleanup c w) as Hobs.
  split; [|split; [|split; [|split; [|split]]]].
  - apply cleanup_nothing; [exact Hobs|].
    destruct (getContentArea c w) as [ca|] eqn:Hca.
    + right. apply cleanup_debounce_gone. eauto.
    + left. now rewrite getContentArea_cleanup.
  - apply containers_cleanup.
  - unfold wired. rewrite Hobs. intros [? ?]; discriminate.
  - apply cleanup_debounce_gone.
  - intros Hw Hd. apply cleanup_nothing; [|now right].
    unfold wired in Hw. destruct (shortenObserverMap w !! c); [|reflexivity].
    exfalso. apply Hw. eauto.
  - intros html. unfold deliverRecords, writeMarkup, queueRecord.
    rewrite observers_update, Hobs. now rewrite observers_update, Hobs.
Qed.

(** *** The wiring flag *)

Lemma throttledProcess_isSome c w :
  is_Some (throttleTimeoutId (throttledProcess c w) !! c).
Proof.
  unfold throttledProcess.
  destruct (throttleTimeoutId w !! c) as [t|] eqn:E; [rewrite E; eauto|].
  simpl. rewrite lookup_insert_eq. eauto.
Qed.

Lemma trace_throttledProcess_ext c w :
  exists l, trace (throttledProcess c w) = trace w ++ l.
Proof.
  unfold throttledProcess. destruct (throttleTimeoutId w !! c).
  - exists []. now rewrite app_nil_r.
  - eexists. reflexivity.
Qed.

Lemma keeps_throttledProcess_wired c c' w :
  wired c w -> wired c (throttledProcess c' w).
Proof. unfold throttledProcess. now destruct (throttleTimeoutId w !! c'). Qed.

Lemma flagged_frame c w w' :
  messageContainers w' = messageContainers w -> initFlagged c w -> initFlagged c w'.
Proof. unfold initFlagged. now intros ->. Qed.

Lemma flagged_insert c c' mc mc' (w : World) :
  messageContainers w !! c' = Some mc ->
  (truthyStr (litsyncShortenInit mc) = true ->
   truthyStr (litsyncShortenInit mc') = true) ->
  initFlagged c w ->
  initFlagged c (setContainers (<[c' := mc']> (messageContainers w)) w).
Proof.
  intros Hl Hf (m & Hm & Ht). unfold initFlagged. simpl.
  destruct (decide (c' = c)) as [->|Hne].
  - rewrite list_lookup_insert_eq by (eapply lookup_lt_Some, Hl).
    exists mc'. split; [reflexivity|]. apply Hf. congruence.
  - rewrite list_lookup_insert_ne by exact Hne. eauto.
Qed.

Lemma flagged_update c c' f w :
  initFlagged c w -> initFlagged c (updateContentArea c' f w).
Proof.
  intros H. unfold updateContentArea.
  destruct (messageContainers w !! c') as [mc|] eqn:E; [|exact H].
  now apply (flagged_insert c c' mc).
Qed.

Lemma flagged_writeMarkup c c' html w :
  initFlagged c w -> initFlagged c (writeMarkup c' html w).
Proof.
  intros H. unfold writeMarkup.
  apply (flagged_frame c _ _ (containers_queueRecord c' _)).
  now apply flagged_update.
Qed.

Lemma flagged_emit c a w : initFlagged c w -> initFlagged c (emit a w).
Proof. intros H. exact H. Qed.

Lemma flagged_setInnerHTML c c' html w :
  initFlagged c w -> initFlagged c (setInnerHTML c' html w).
Proof. intros H. unfold setInnerHTML. now apply flagged_writeMarkup, flagged_emit. Qed.

Lemma flagged_setPhase c c' p w :
  initFlagged c w -> initFlagged c (setPhase c' p w).
Proof. intros H. unfold setPhase. now apply flagged_update, flagged_emit. Qed.

Lemma flagged_setPrefix c c' h w :
  initFlagged c w -> initFlagged c (setPrefix c' h w).
Proof. intros H. unfold setPrefix. now apply flagged_update, flagged_emit. Qed.

Lemma flagged_removePrefix c c' w :
  initFlagged c w -> initFlagged c (removePrefix c' w).
Proof. intros H. unfold removePrefix. now apply flagged_update, flagged_emit. Qed.

Lemma flagged_setDebounceMap c m w :
  initFlagged c w -> initFlagged c (setDebounceMap m w).
Proof. intros H. exact H. Qed.

Lemma flagged_setThrottleMap c m w :
  initFlagged c w -> initFlagged c (setThrottleMap m w).
Proof. intros H. exact H. Qed.

Lemma flagged_setTimers c m n w :
  initFlagged c w -> initFlagged c (setTimers m n w).
Proof. intros H. exact H. Qed.

Lemma flagged_setObserverMap c m w :
  initFlagged c w -> initFlagged c (setObserverMap m w).
Proof. intros H. exact H. Qed.

Lemma flagged_setWrappers c l w :
  initFlagged c w -> initFlagged c (setWrappers l w).
Proof. intros H. exact H. Qed.

Lemma flagged_setStorage c st w :
  initFlagged c w -> initFlagged c (setStorage st w).
Proof. intros H. exact H. Qed.

Lemma flagged_setShortenEnabled c b w :
  initFlagged c w -> initFlagged c (setShortenEnabled b w).
Proof. intros H. exact H. Qed.

Lemma flagged_setScannerInterval c b w :
  initFlagged c w -> initFlagged c (setScannerInterval b w).
Proof. intros H. exact H. Qed.

Lemma flagged_cleanup c c' w :
  initFlagged c w -> initFlagged c (cleanupShorteningForContainer c' w).
Proof. apply flagged_frame, containers_cleanup. Qed.

Lemma flagged_throttledProcess c c' w :
  initFlagged c w -> initFlagged c (throttledProcess c' w).
Proof. apply flagged_frame, containers_throttledProcess. Qed.

Lemma flagged_process c c' w :
  initFlagged c w -> initFlagged c (processShorteningForContainer c' w).
Proof.
  intros H. unfold processShorteningForContainer.
  destruct (getContentArea c' w) as [ca|] eqn:Hca; [|exact H].
  cbv zeta. case_bool_decide as Efin; [exact H|].
  case_bool_decide as Estr.
  - destruct (includes _ _); [|exact H].
    apply (flagged_frame c w); [|exact H].
    rewrite debounce_emit. now destruct (debounceTimerMap w !! c').
  - destruct (-1 <? _); [|exact H].
    now apply flagged_setPhase, flagged_setInnerHTML, flagged_setPrefix, flagged_emit.
Qed.

Lemma flagged_finalize c c' w :
  initFlagged c w -> initFlagged c (finalizeCallback c' w).
Proof.
  intros H. unfold finalizeCallback.
  destruct (getContentArea c' w) as [ca|]; [|exact H].
  cbv zeta. destruct (_ =? _); [exact H|].
  apply flagged_setDebounceMap, flagged_removePrefix, flagged_setPhase,
    flagged_setInnerHTML, flagged_cleanup, flagged_emit, H.
Qed.

Lemma flagged_setShortenInit c c' w :
  initFlagged c w -> initFlagged c (setShortenInit c' w).
Proof.
  intros H. unfold setShortenInit.
  destruct (messageContainers w !! c') as [mc|] eqn:E; [|exact H].
  now apply (flagged_insert c c' mc).
Qed.

Lemma flagged_initialize c c' w :
  initFlagged c w -> initFlagged c (initializeShorteningForContainer c' w).
Proof.
  intros H. unfold initializeShorteningForContainer.
  destruct (messageContainers w !! c') as [mc|]; [|exact H].
  destruct (contentArea mc); [|exact H].
  destruct (truthyStr _); [exact H|]. cbv zeta.
  apply flagged_throttledProcess, flagged_setObserverMap, flagged_emit,
    flagged_setShortenInit, H.
Qed.

(** On a container that carries the flag, the wiring function returns at
    once. *)
Lemma initialize_flagged c w :
  initFlagged c w -> initializeShorteningForContainer c w = w.
Proof.
  intros (mc & Hm & Ht). unfold initializeShorteningForContainer.
  rewrite Hm. destruct (contentArea mc); [|reflexivity]. now rewrite Ht.
Qed.

Lemma flagged_scanMessageContainer c w c' :
  initFlagged c w -> initFlagged c (scanMessageContainer w c').
Proof.
  intros H. unfold scanMessageContainer.
  destruct (messageContainers w !! c') as [mc|] eqn:E; [|exact H].
  destruct (processedMarker mc); [exact H|]. cbv zeta.
  assert (H1 : initFlagged c
            (setContainers (<[c' := markMessageProcessed mc]> (messageContainers w)) w))
    by now apply (flagged_insert c c' mc).
  destruct (isShortenEnabled _); [|exact H1].
  destruct (contentArea mc); [|exact H1].
  now apply flagged_initialize.
Qed.

(** The scanner does not wire a container that carries the flag. *)
Lemma nowire_scanMessageContainer_flagged c w c' :
  initFlagged c w -> wired c (scanMessageContainer w c') -> wired c w.
Proof.
  intros H. unfold scanMessageContainer.
  destruct (messageContainers w !! c') as [mc|] eqn:E; [|auto].
  destruct (processedMarker mc); [auto|]. cbv zeta.
  set (w1 := setContainers (<[c' := markMessageProcessed mc]> (messageContainers w)) w).
  assert (H1 : initFlagged c w1) by now apply (flagged_insert c c' mc).
  destruct (isShortenEnabled w1); [|auto].
  destruct (contentArea mc); [|auto].
  destruct (decide (c' = c)) as [->|Hne].
  - now rewrite (initialize_flagged c w1 H1).
  - intros Hw. now apply (proj2 (keeps_initialize_other c c' w1 Hne)) in Hw.
Qed.

Lemma flagged_scan_fold c (l : list nat) w :
  initFlagged c w ->
  initFlagged c (foldl scanMessageContainer w l)
  /\ (wired c (foldl scanMessageContainer w l) -> wired c w).
Proof.
  revert w. induction l as [|c' l IH]; intros w H; simpl; [auto|].
  destruct (IH (scanMessageContainer w c') (flagged_scanMessageContainer c w c' H))
    as [A B].
  split; [exact A|]. intros Hw.
  now apply (nowire_scanMessageContainer_flagged c w c' H), B.
Qed.

Lemma flagged_cleanupAll c w : initFlagged c w -> initFlagged c (cleanupAll w).
Proof.
  unfold cleanupAll. apply (foldl_preserves (initFlagged c)).
  intros a b. apply flagged_cleanup.
Qed.

Lemma flagged_fmap c (f : MessageContainer -> MessageContainer) (w : World) :
  (forall mc, litsyncShortenInit (f mc) = litsyncShortenInit mc) ->
  initFlagged c w ->
  initFlagged c (setContainers (f <$> messageContainers w) w).
Proof.
  intros Hf (mc & Hm & Ht). exists (f mc). simpl.
  rewrite list_lookup_fmap, Hm. split; [reflexivity|]. now rewrite Hf.
Qed.

Lemma flagged_dismantle c w : initFlagged c w -> initFlagged c (dismantle w).
Proof.
  intros H. unfold dismantle. cbv zeta.
  apply flagged_setWrappers, flagged_fmap; [reflexivity|].
  now apply flagged_cleanupAll, flagged_setScannerInterval.
Qed.

Lemma flagged_onStorageChanged c e s w :
  initFlagged c w -> initFlagged c (onStorageChanged e s w).
Proof.
  intros H. unfold onStorageChanged.
  set (w1 := match e with Some true => initialize w | Some false => dismantle w
                        | None => w end).
  assert (H1 : initFlagged c w1).
  { subst w1. destruct e as [[|]|]; [|now apply flagged_dismantle|exact H].
    unfold initialize. destruct (domScannerInterval w); [exact H|].
    now apply flagged_setScannerInterval, flagged_setShortenEnabled. }
  cbv zeta. destruct s as [[|]|]; [| |exact H1].
  - now apply flagged_setShortenEnabled.
  - now apply flagged_cleanupAll, flagged_setShortenEnabled.
Qed.

Lemma flagged_append c w content :
  initFlagged c w ->
  initFlagged c (setContainers (messageContainers w ++ [newMessageContainer content]) w).
Proof.
  intros (m & Hm & Ht). exists m. split; [|exact Ht].
  simpl. rewrite lookup_app_l; [exact Hm | eapply lookup_lt_Some, Hm].
Qed.

(** A container that carries the flag and has no shortener stays so through
    every event. *)
Lemma flagged_unwired_step c e w :
  initFlagged c w -> ~ wired c w ->
  initFlagged c (Shortener.step w e) /\ ~ wired c (Shortener.step w e).
Proof.
  intros Hf Hnw. unfold Shortener.step.
  assert (Ht : initFlagged c (task e w) /\ (wired c (task e w) -> wired c w)).
  { destruct e as [content|n|c' html| |t|e s]; simpl.
    - split; [now apply flagged_append | apply (keeps_append c)].
    - split; [exact Hf | apply (keeps_setWrappers c)].
    - split; [now apply flagged_writeMarkup | apply (keeps_writeMarkup c)].
    - destruct (domScannerInterval w); [|auto].
      unfold scanAndProcessMessages. cbv zeta.
      destruct (flagged_scan_fold c (seq 0 (length (messageContainers w))) w Hf)
        as [A B].
      split; [exact A | exact B].
    - destruct (timers w !! t) as [cb|]; [|auto]. split.
      + destruct cb as [c'|c']; simpl.
        * now apply flagged_setThrottleMap, flagged_process, flagged_setTimers.
        * now apply flagged_finalize, flagged_setTimers.
      + intros Hw. now apply (keeps_runTimer c), (keeps_setTimers c) in Hw.
    - split; [now apply flagged_onStorageChanged, flagged_setStorage|].
      intros Hw. now apply onStorageChanged_nowire, (keeps_setStorage c) in Hw. }
  destruct Ht as [A B]. split.
  - now apply (flagged_frame c _ _ (containers_microtaskCheckpoint _)).
  - intros Hw. apply (keeps_microtaskCheckpoint c) in Hw. auto.
Qed.

(** X3. Wiring happens once per container.  On a container with a content
    area and without the flag, the wiring function registers the observer,
    sets the flag and arms the throttle for the first processing step; a
    second call changes nothing; on a container that carries the flag it
    changes nothing; and after a teardown it changes nothing either, since
    the teardown leaves the flag. *)
Theorem X3_initialize_once (w : World) (c : nat) :
  initializeShorteningForContainer c (initializeShorteningForContainer c w)
    = initializeShorteningForContainer c w
  /\ (initFlagged c w -> initializeShorteningForContainer c w = w)
  /\ initializeShorteningForContainer c
       (cleanupShorteningForContainer c (initializeShorteningForContainer c w))
     = cleanupShorteningForContainer c (initializeShorteningForContainer c w)
  /\ (forall mc ca,
        messageContainers w !! c = Some mc ->
        contentArea mc = Some ca ->
        truthyStr (litsyncShortenInit mc) = false ->
        wired c (initializeShorteningForContainer c w)
        /\ initFlagged c (initializeShorteningForContainer c w)
        /\ getContentArea c (initializeShorteningForContainer c w) = Some ca
        /\ is_Some (throttleTimeoutId (initializeShorteningForContainer c w) !! c)
        /\ exists l, trace (initializeShorteningForContainer c w)
                      = trace w ++ Observe c :: l).
Proof.
  assert (Hcases : initializeShorteningForContainer c w = w
                   \/ initFlagged c (initializeShorteningForContainer c w)).
  { unfold initializeShorteningForContainer.
    destruct (messageContainers w !! c) as [mc|] eqn:E; [|now left].
    destruct (contentArea mc); [|now left].
    destruct (truthyStr _); [now left|]. right. cbv zeta.
    apply flagged_throttledProcess, flagged_setObserverMap, flagged_emit.
    unfold setShortenInit. rewrite E. eexists. split.
    - simpl. apply list_lookup_insert_eq. eapply lookup_lt_Some, E.
    - reflexivity. }
  split; [|split; [apply initialize_flagged|split]].
  - destruct Hcases as [Hid|Hf]; [now rewrite !Hid | now apply initialize_flagged].
  - destruct Hcases as [Hid|Hf].
    + rewrite Hid. unfold initializeShorteningForContainer in *.
      rewrite containers_cleanup.
      destruct (messageContainers w !! c) as [mc|] eqn:E; [|reflexivity].
      destruct (contentArea mc) eqn:Eca; [|reflexivity].
      destruct (truthyStr _) eqn:Et; [reflexivity|].
      exfalso. cbv zeta in Hid.
      assert (Hl : messageContainers w !! c
                   = Some {| processedMarker := processedMarker mc;
                             position := position mc;
                             syncButtons := syncButtons mc;
                             litsyncShortenInit := Some "true";
                             contentArea := contentArea mc |}).
      { rewrite <- Hid at 1. rewrite containers_throttledProcess.
        unfold setShortenInit. rewrite E. simpl.
        apply list_lookup_insert_eq. eapply lookup_lt_Some, E. }
      rewrite E in Hl. injection Hl as Hl. rewrite Hl in Et. discriminate.
    + apply initialize_flagged. now apply flagged_cleanup.
  - intros mc ca Hm Hca Ht.
    unfold initializeShorteningForContainer. rewrite Hm, Hca, Ht. cbv zeta.
    split; [|split; [|split; [|split]]].
    + apply keeps_throttledProcess_wired. unfold wired. simpl.
      rewrite lookup_insert_eq. eauto.
    + apply flagged_throttledProcess, flagged_setObserverMap, flagged_emit.
      unfold setShortenInit. rewrite Hm. eexists. split.
      * simpl. apply list_lookup_insert_eq. eapply lookup_lt_Some, Hm.
      * reflexivity.
    + rewrite (getContentArea_same c _ _ (containers_throttledProcess c _)).
      rewrite getContentArea_setObserverMap, getContentArea_emit.
      unfold setShortenInit. rewrite Hm.
      erewrite getContentArea_insert_same; [|exact Hm|reflexivity].
      unfold getContentArea. now rewrite Hm.
    + apply throttledProcess_isSome.
    + destruct (trace_throttledProcess_ext c
                  (setObserverMap
                     (<[c := {| pendingRecords := false |}]>
                        (shortenObserverMap (emit (Observe c) (setShortenInit c w))))
                     (emit (Observe c) (setShortenInit c w)))) as [l Hl].
      exists l. rewrite Hl. simpl. unfold setShortenInit. rewrite Hm. simpl.
      now rewrite <- app_assoc.
Qed.

(** X4. A container whose shortener has been torn down never gets one
    again: if it carries the wiring flag and has no observer, then after any
    sequence of events (scanner runs, switching shortening or the whole
    extension off and on, timers, changes of the page) it still carries the
    flag and has no observer. *)
Theorem X4_torn_down_never_rewired
    (w : World) (c : nat) (evs : list Shortener.Event) :
  initFlagged c w ->
  ~ wired c w ->
  initFlagged c (Shortener.run evs w) /\ ~ wired c (Shortener.run evs w).
Proof.
  intros Hf Hnw. induction evs as [|e evs IH] using rev_ind; [auto|].
  rewrite shortener_run_snoc. destruct IH as [A B].
  now apply flagged_unwired_step.
Qed.

End ShortenerOperations.

(** *** The statements above at the sample worlds *)

Section ShortenerOperationsExamples.
Import JsString Shortener Wiring.
#[local] Existing Instance sampleBrowser.

Lemma X1_throttle_coalesces_witness :
  throttleTimeoutId endMarkerSeen !! 0%nat = None
  /\ Nat.iter 5 (throttledProcess 0) endMarkerSeen = throttledProcess 0 endMarkerSeen.
Proof.
  assert (H : throttleTimeoutId endMarkerSeen !! 0%nat = None) by reflexivity.
  split; [exact H|].
  exact (proj1 (X1_throttle_coalesces endMarkerSeen 0 4 H)).
Defined.

Lemma X3_initialize_once_witness :
  wired 0 (initializeShorteningForContainer 0 beforeFirstScan)
  /\ initFlagged 0 (initializeShorteningForContainer 0 beforeFirstScan).
Proof.
  destruct (X3_initialize_once beforeFirstScan 0) as (_ & _ & _ & H).
  destruct (H _ _ eq_refl eq_refl eq_refl) as (A & B & _).
  exact (conj A B).
Defined.

Lemma X4_torn_down_never_rewired_witness :
  initFlagged 0 tornDown
  /\ ~ wired 0 tornDown
  /\ ~ wired 0 (Shortener.run (offAndOnAgain ++ [HostSetMarkup 0 sampleInput]) tornDown).
Proof.
  assert (Hf : initFlagged 0 tornDown)
    by (unfold initFlagged; vm_compute; eexists; split; reflexivity).
  assert (Hw : ~ wired 0 tornDown)
    by (intros [o Ho]; vm_compute in Ho; discriminate Ho).
  split; [exact Hf|]. split; [exact Hw|].
  exact (proj2 (X4_torn_down_never_rewired tornDown 0 _ Hf Hw)).
Defined.

End ShortenerOperationsExamples.

(** ** The scanner, the prompt windows and the teardown of the extension *)

Section ScannerOperations.
Import JsString Shortener Wiring.
Context {browser : Browser}.

Lemma foldl_establishes {A B : Type} (I Q : A -> Prop) (f : A -> B -> A)
    (c : B) (l : list B) :
  (forall a b, I a -> I (f a b)) ->
  (forall a, I a -> Q (f a c)) ->
  (forall a b, I a -> Q a -> Q (f a b)) ->
  c ∈ l -> forall a, I a -> Q (foldl f a l).
Proof.
  intros HI Hc HQ Hin.
  assert (H : forall a, I a -> Q a \/ c ∈ l -> Q (foldl f a l)).
  { clear Hin. induction l as [|b l IH]; intros a Ia Hor; simpl.
    - destruct Hor as [Hq|Hin]; [exact Hq | now apply elem_of_nil in Hin].
    - apply IH; [now apply HI|].
      destruct Hor as [Hq|Hin]; [left; now apply HQ|].
      apply elem_of_cons in Hin as [->|Hin]; [left; now apply Hc | now right]. }
  intros a Ia. apply H; [exact Ia | now right].
Qed.

(** *** What the shortener leaves alone *)

Lemma shell_refl w : sameShell w w.
Proof. repeat split. Qed.

Lemma shell_trans w1 w2 w3 : sameShell w1 w2 -> sameShell w2 w3 -> sameShell w1 w3.
Proof.
  intros (A1 & B1 & C1 & D1 & E1) (A2 & B2 & C2 & D2 & E2).
  repeat split; congruence.
Qed.

Lemma foldl_shell {B : Type} (f : World -> B -> World) (l : list B) :
  (forall a b, sameShell a (f a b)) -> forall w, sameShell w (foldl f w l).
Proof.
  intros Hf. induction l as [|b l IH]; intros w; simpl; [apply shell_refl|].
  eapply shell_trans; [apply Hf | apply IH].
Qed.

Lemma shell_emit a w : sameShell w (emit a w).
Proof. repeat split. Qed.

Lemma shell_setObserverMap m w : sameShell w (setObserverMap m w).
Proof. repeat split. Qed.

Lemma shell_setDebounceMap m w : sameShell w (setDebounceMap m w).
Proof. repeat split. Qed.

Lemma shell_setThrottleMap m w : sameShell w (setThrottleMap m w).
Proof. repeat split. Qed.

Lemma shell_setTimers m n w : sameShell w (setTimers m n w).
Proof. repeat split. Qed.

Lemma shell_insert c mc (w : World) :
  sameShell w (setContainers (<[c := mc]> (messageContainers w)) w).
Proof. repeat split. simpl. apply length_insert. Qed.

Lemma shell_update c f w : sameShell w (updateContentArea c f w).
Proof.
  unfold updateContentArea.
  destruct (messageContainers w !! c); [apply shell_insert | apply shell_refl].
Qed.

Lemma shell_queueRecord c w : sameShell w (queueRecord c w).
Proof.
  unfold queueRecord.
  destruct (shortenObserverMap w !! c); [apply shell_setObserverMap | apply shell_refl].
Qed.

Lemma shell_writeMarkup c html w : sameShell w (writeMarkup c html w).
Proof.
  unfold writeMarkup.
  eapply shell_trans; [apply shell_update | apply shell_queueRecord].
Qed.

Lemma shell_setInnerHTML c html w : sameShell w (setInnerHTML c html w).
Proof.
  unfold setInnerHTML.
  eapply shell_trans; [apply shell_emit | apply shell_writeMarkup].
Qed.

Lemma shell_setPhase c p w : sameShell w (setPhase c p w).
Proof.
  unfold setPhase. eapply shell_trans; [apply shell_emit | apply shell_update].
Qed.

Lemma shell_setPrefix c h w : sameShell w (setPrefix c h w).
Proof.
  unfold setPrefix. eapply shell_trans; [apply shell_emit | apply shell_update].
Qed.

Lemma shell_removePrefix c w : sameShell w (removePrefix c w).
Proof.
  unfold removePrefix. eapply shell_trans; [apply shell_emit | apply shell_update].
Qed.

Lemma shell_clearTimeout t w : sameShell w (clearTimeout t w).
Proof.
  unfold clearTimeout. eapply shell_trans; [apply shell_setTimers | apply shell_emit].
Qed.

Lemma shell_setTimeout cb w : sameShell w (setTimeout cb w).2.
Proof.
  unfold setTimeout. simpl.
  eapply shell_trans; [apply shell_setTimers | apply shell_emit].
Qed.

Lemma shell_throttledProcess c w : sameShell w (throttledProcess c w).
Proof.
  unfold throttledProcess.
  destruct (throttleTimeoutId w !! c); [apply shell_refl|].
  pose proof (shell_setTimeout (ThrottleCallback c) w) as H.
  destruct (setTimeout (ThrottleCallback c) w) as [t w1].
  eapply shell_trans; [exact H | apply shell_setThrottleMap].
Qed.

Lemma shell_cleanup c w : sameShell w (cleanupShorteningForContainer c w).
Proof.
  unfold cleanupShorteningForContainer.
  set (w1 := match shortenObserverMap w !! c with Some _ => _ | None => w end).
  assert (H1 : sameShell w w1).
  { subst w1. destruct (shortenObserverMap w !! c); [|apply shell_refl].
    cbv zeta. eapply shell_trans; [apply shell_emit | apply shell_setObserverMap]. }
  cbv zeta. destruct (getContentArea c w1); [|exact H1].
  destruct (debounceTimerMap w1 !! c); [|exact H1].
  eapply shell_trans; [exact H1|].
  eapply shell_trans; [apply shell_clearTimeout | apply shell_setDebounceMap].
Qed.

Lemma shell_process c w : sameShell w (processShorteningForContainer c w).
Proof.
  unfold processShorteningForContainer.
  destruct (getContentArea c w) as [ca|]; [|apply shell_refl].
  cbv zeta. case_bool_decide as Efin; [apply shell_refl|].
  case_bool_decide as Estr.
  - destruct (includes _ _); [|apply shell_emit].
    set (w1 := match debounceTimerMap (emit (ReadMarkup c) w) !! c with
               | Some t => _ | None => _ end).
    assert (H1 : sameShell w w1).
    { subst w1. destruct (debounceTimerMap _ !! c).
      - eapply shell_trans; [apply shell_emit | apply shell_clearTimeout].
      - apply shell_emit. }
    pose proof (shell_setTimeout (FinalizeCallback c) w1) as H2.
    destruct (setTimeout (FinalizeCallback c) w1) as [t w2].
    eapply shell_trans; [exact H1|].
    eapply shell_trans; [exact H2 | apply shell_setDebounceMap].
  - destruct (-1 <? _); [|apply shell_emit].
    eapply shell_trans; [apply shell_emit|].
    eapply shell_trans; [apply shell_setPrefix|].
    eapply shell_trans; [apply shell_setInnerHTML | apply shell_setPhase].
Qed.

Lemma shell_finalize c w : sameShell w (finalizeCallback c w).
Proof.
  unfold finalizeCallback.
  destruct (getContentArea c w) as [ca|]; [|apply shell_refl].
  cbv zeta. destruct (_ =? _); [apply shell_emit|].
  eapply shell_trans; [apply shell_emit|].
  eapply shell_trans; [apply shell_cleanup|].
  eapply shell_trans; [apply shell_setInnerHTML|].
  eapply shell_trans; [apply shell_setPhase|].
  eapply shell_trans; [apply shell_removePrefix | apply shell_setDebounceMap].
Qed.

Lemma shell_runTimer cb w : sameShell w (runTimer cb w).
Proof.
  destruct cb as [c|c]; simpl.
  - eapply shell_trans; [apply shell_process | apply shell_setThrottleMap].
  - apply shell_finalize.
Qed.

Lemma shell_setShortenInit c w : sameShell w (setShortenInit c w).
Proof.
  unfold setShortenInit.
  destruct (messageContainers w !! c); [apply shell_insert | apply shell_refl].
Qed.

Lemma shell_initialize c w : sameShell w (initializeShorteningForContainer c w).
Proof.
  unfold initializeShorteningForContainer.
  destruct (messageContainers w !! c) as [mc|]; [|apply shell_refl].
  destruct (contentArea mc); [|apply shell_refl].
  destruct (truthyStr _); [apply shell_refl|]. cbv zeta.
  eapply shell_trans; [apply shell_setShortenInit|].
  eapply shell_trans; [apply shell_emit|].
  eapply shell_trans; [apply shell_setObserverMap | apply shell_throttledProcess].
Qed.

Lemma shell_scanMessageContainer w c : sameShell w (scanMessageContainer w c).
Proof.
  unfold scanMessageContainer.
  destruct (messageContainers w !! c) as [mc|]; [|apply shell_refl].
  destruct (processedMarker mc); [apply shell_refl|]. cbv zeta.
  destruct (isShortenEnabled _); [|apply shell_insert].
  destruct (contentArea mc); [|apply shell_insert].
  eapply shell_trans; [apply shell_insert | apply shell_initialize].
Qed.

Lemma shell_cleanupAll w : sameShell w (cleanupAll w).
Proof. unfold cleanupAll. apply foldl_shell. intros a b. apply shell_cleanup. Qed.

Lemma shell_deliverRecords w c : sameShell w (deliverRecords w c).
Proof.
  unfold deliverRecords.
  destruct (shortenObserverMap w !! c) as [[[|]]|]; try apply shell_refl.
  eapply shell_trans; [apply shell_setObserverMap | apply shell_throttledProcess].
Qed.

Lemma shell_microtaskCheckpoint w : sameShell w (microtaskCheckpoint w).
Proof.
  unfold microtaskCheckpoint. apply foldl_shell. intros a b. apply shell_deliverRecords.
Qed.

(** *** The craft button *)

Lemma insertCraftButton_third (l : list PromptChild) :
  insertCraftButton l = firstn 2 l ++ CraftButton :: skipn 2 l.
Proof.
  unfold insertCraftButton. destruct (l !! 2%nat) eqn:E; [reflexivity|].
  apply lookup_ge_None in E.
  rewrite firstn_all2 by lia. rewrite skipn_all2 by lia. reflexivity.
Qed.

Lemma filter_insertCraftButton (l : list PromptChild) :
  filter (fun ch => ch <> CraftButton) (insertCraftButton l)
  = filter (fun ch => ch <> CraftButton) l.
Proof.
  rewrite insertCraftButton_third, filter_app.
  rewrite filter_cons_False by (intros H; now apply H).
  rewrite <- filter_app. now rewrite firstn_skipn.
Qed.

Lemma filter_hostChildren (n : nat) :
  filter (fun ch => ch <> CraftButton) (replicate n HostChild) = replicate n HostChild.
Proof.
  induction n as [|n IH]; [reflexivity|]. simpl.
  rewrite filter_cons_True by discriminate. now rewrite IH.
Qed.

Lemma crafted_scan n pw : craftedFrom n pw -> craftedFrom n (scanPromptWrapper pw).
Proof.
  unfold craftedFrom, scanPromptWrapper. intros H.
  destruct (wrapperProcessed pw) eqn:E; [now rewrite E|].
  simpl. rewrite H. apply insertCraftButton_third.
Qed.

Lemma crafted_remove n pw :
  craftedFrom n pw -> craftedFrom n (removeCraftAndMarker pw).
Proof.
  unfold craftedFrom, removeCraftAndMarker. intros H. simpl. rewrite H.
  destruct (wrapperProcessed pw).
  - rewrite <- insertCraftButton_third, filter_insertCraftButton.
    apply filter_hostChildren.
  - apply filter_hostChildren.
Qed.

Lemma crafted_shell w w' : sameShell w w' -> wrappersCrafted w -> wrappersCrafted w'.
Proof. unfold wrappersCrafted. now intros (-> & _). Qed.

Lemma crafted_fmap (f : PromptWrapper -> PromptWrapper) (w w' : World) :
  (forall n pw, craftedFrom n pw -> craftedFrom n (f pw)) ->
  promptWrappers w' = f <$> promptWrappers w ->
  wrappersCrafted w -> wrappersCrafted w'.
Proof.
  unfold wrappersCrafted. intros Hf -> H. apply Forall_fmap.
  eapply Forall_impl; [exact H|]. intros pw [n Hn]. exists n. now apply Hf.
Qed.

Lemma crafted_scanAll w : wrappersCrafted w -> wrappersCrafted (scanAndProcessMessages w).
Proof.
  intros H. unfold scanAndProcessMessages. cbv zeta.
  set (w1 := foldl scanMessageContainer w _).
  apply (crafted_fmap scanPromptWrapper w1); [apply crafted_scan | reflexivity|].
  apply (crafted_shell w); [|exact H].
  apply foldl_shell. intros a b. apply shell_scanMessageContainer.
Qed.

Lemma wrappers_dismantle w :
  promptWrappers (dismantle w) = removeCraftAndMarker <$> promptWrappers w.
Proof.
  unfold dismantle. cbv zeta. simpl.
  now destruct (shell_cleanupAll (setScannerInterval false w)) as (-> & _).
Qed.

Lemma crafted_dismantle w : wrappersCrafted w -> wrappersCrafted (dismantle w).
Proof.
  apply (crafted_fmap removeCraftAndMarker); [apply crafted_remove|].
  apply wrappers_dismantle.
Qed.

Lemma crafted_onStorageChanged e s w :
  wrappersCrafted w -> wrappersCrafted (onStorageChanged e s w).
Proof.
  intros H. unfold onStorageChanged.
  set (w1 := match e with Some true => initialize w | Some false => dismantle w
                        | None => w end).
  assert (H1 : wrappersCrafted w1).
  { subst w1. destruct e as [[|]|]; [|now apply crafted_dismantle|exact H].
    unfold initialize. now destruct (domScannerInterval w). }
  cbv zeta. destruct s as [[|]|]; [exact H1| |exact H1].
  apply (crafted_shell (setShortenEnabled false w1)); [apply shell_cleanupAll|exact H1].
Qed.

Lemma crafted_step e w : wrappersCrafted w -> wrappersCrafted (Shortener.step w e).
Proof.
  intros H. unfold Shortener.step.
  apply (crafted_shell (task e w)); [apply shell_microtaskCheckpoint|].
  destruct e as [content|n|c html| |t|e s]; simpl.
  - exact H.
  - unfold wrappersCrafted. simpl. apply Forall_app. split; [exact H|].
    apply Forall_singleton. exists n. reflexivity.
  - apply (crafted_shell w); [apply shell_writeMarkup | exact H].
  - destruct (domScannerInterval w); [now apply crafted_scanAll | exact H].
  - destruct (timers w !! t) as [cb|]; [|exact H].
    apply (crafted_shell w); [|exact H].
    eapply shell_trans; [apply shell_setTimers | apply shell_runTimer].
  - now apply crafted_onStorageChanged.
Qed.

Lemma crafted_boot st : wrappersCrafted (boot st).
Proof.
  unfold boot, initialize. destruct (storedIsEnabled st); apply Forall_nil_2.
Qed.

(** X5. At most one craft button per prompt window.  In every world the
    page and the extension can reach, each prompt window holds the children
    the page gave it, in their order; if it carries the processed marker,
    the craft button stands before its third child (after the last one when
    there are fewer than two), and if it does not, there is no craft button
    in it.  Scanner runs, switching the extension off and on again and the
    shortener's timers never duplicate or misplace the button. *)
Theorem X5_one_craft_button (w : World) (i : nat) (pw : PromptWrapper) :
  Shortener.reachable w ->
  promptWrappers w !! i = Some pw ->
  exists n,
    craftedFrom n pw
    /\ filter (fun ch => ch <> CraftButton) (wrapperChildren pw) = replicate n HostChild
    /\ length (filter (fun ch => ch = CraftButton) (wrapperChildren pw))
       = (if wrapperProcessed pw then 1 else 0)%nat.
Proof.
  intros (st & evs & ->) Hpw.
  assert (H : wrappersCrafted (Shortener.run evs (boot st))).
  { clear Hpw. induction evs as [|e evs IH] using rev_ind; [apply crafted_boot|].
    rewrite shortener_run_snoc. now apply crafted_step. }
  unfold wrappersCrafted in H. rewrite Forall_lookup in H.
  destruct (H i pw Hpw) as [n Hn]. exists n. split; [exact Hn|].
  pose proof (crafted_remove n pw Hn) as Hr. unfold craftedFrom in Hr, Hn.
  simpl in Hr. split; [exact Hr|].
  assert (Hz : forall l : list PromptChild,
             Forall (fun ch => ch = HostChild) l ->
             length (filter (fun ch => ch = CraftButton) l) = 0%nat).
  { induction 1 as [|x l Hx _ IH]; [reflexivity|].
    rewrite filter_cons_False by (rewrite Hx; discriminate). exact IH. }
  rewrite Hn. destruct (wrapperProcessed pw).
  - rewrite filter_app, filter_cons_True by reflexivity.
    rewrite length_app. simpl.
    rewrite !Hz; [reflexivity|..].
    + now apply Forall_drop, Forall_replicate.
    + now apply Forall_take, Forall_replicate.
  - now apply Hz, Forall_replicate.
Qed.

(** *** The scanner's state and the store *)

Lemma follows_shell w w' : sameShell w w' -> followsStorage w -> followsStorage w'.
Proof. unfold followsStorage. now intros (_ & -> & -> & -> & _). Qed.

Lemma follows_scan w : followsStorage w -> followsStorage (scanAndProcessMessages w).
Proof.
  unfold scanAndProcessMessages. cbv zeta. intros H.
  set (w1 := foldl scanMessageContainer w _).
  assert (H1 : followsStorage w1); [|exact H1].
  apply (follows_shell w); [|exact H].
  apply foldl_shell. intros a b. apply shell_scanMessageContainer.
Qed.

Lemma shell_dismantle_state w :
  domScannerInterval (dismantle w) = false
  /\ isShortenEnabled (dismantle w) = isShortenEnabled w
  /\ storage (dismantle w) = storage w.
Proof.
  unfold dismantle. cbv zeta. simpl.
  destruct (shell_cleanupAll (setScannerInterval false w)) as (_ & A & B & C & _).
  now rewrite A, B, C.
Qed.

Lemma follows_storageChanged e s w :
  followsStorage w ->
  followsStorage (onStorageChanged e s (setStorage (applyStorageChange e s (storage w)) w)).
Proof.
  intros [Hi Hs]. unfold onStorageChanged.
  set (w0 := setStorage (applyStorageChange e s (storage w)) w).
  set (w1 := match e with Some true => initialize w0 | Some false => dismantle w0
                        | None => w0 end).
  assert (H1 : storage w1 = applyStorageChange e s (storage w)
               /\ domScannerInterval w1 = default (storedIsEnabled (storage w)) e
               /\ (domScannerInterval w1 = true ->
                   isShortenEnabled w1
                   = match e, domScannerInterval w with
                     | Some true, false =>
                         default (storedIsShortenEnabled (storage w)) s
                     | _, _ => storedIsShortenEnabled (storage w)
                     end)).
  { subst w1. destruct e as [[|]|].
    - unfold initialize. subst w0.
      change (domScannerInterval (setStorage ?x w)) with (domScannerInterval w).
      destruct (domScannerInterval w) eqn:E.
      + repeat split; [exact E | intros _; now apply Hs].
      + repeat split.
    - destruct (shell_dismantle_state w0) as (A & B & C).
      rewrite A, C. repeat split. discriminate.
    - subst w0. repeat split; [exact Hi | simpl; exact Hs]. }
  destruct H1 as (Hst & Hint & Hsh). cbv zeta.
  assert (Hgoal : forall w2,
            sameShell (match s with Some v => setShortenEnabled v w1 | None => w1 end) w2 ->
            followsStorage w2).
  { intros w2 Hsh2. apply (follows_shell _ _ Hsh2).
    unfold followsStorage. destruct s as [v|]; simpl.
    - rewrite Hst, Hint. split; [now destruct e|]. intros _. reflexivity.
    - rewrite Hst, Hint. split; [now destruct e|]. intros Ht.
      rewrite Hint in Hsh. rewrite (Hsh Ht).
      destruct e as [[|]|]; simpl in *; try reflexivity.
      now destruct (domScannerInterval w). }
  destruct s as [[|]|]; [apply Hgoal, shell_refl | | apply Hgoal, shell_refl].
  apply Hgoal, shell_cleanupAll.
Qed.

Lemma follows_step e w : followsStorage w -> followsStorage (Shortener.step w e).
Proof.
  intros H. unfold Shortener.step.
  apply (follows_shell (task e w)); [apply shell_microtaskCheckpoint|].
  destruct e as [content|n|c html| |t|e s]; simpl.
  - exact H.
  - exact H.
  - apply (follows_shell w); [apply shell_writeMarkup | exact H].
  - destruct (domScannerInterval w) eqn:E; [now apply follows_scan | exact H].
  - destruct (timers w !! t) as [cb|]; [|exact H].
    apply (follows_shell w); [|exact H].
    eapply shell_trans; [apply shell_setTimers | apply shell_runTimer].
  - now apply follows_storageChanged.
Qed.

Lemma follows_boot st : followsStorage (boot st).
Proof.
  unfold boot, initialize, followsStorage.
  destruct (storedIsEnabled st) eqn:E; simpl; rewrite E; split; auto; discriminate.
Qed.

(** X6. The scanner follows the store.  With the storage callback of
    [initialize] taken to run before the next event, as [initialize] is
    modelled: in every reachable world the scanner's interval is running
    exactly when the stored [isEnabled] is true, and while it is running
    the in-memory shortening flag equals the stored [isShortenEnabled]; so
    when the extension is switched off, a scanner run neither marks nor
    wires anything. *)
Theorem X6_scanner_follows_storage (w : World) :
  Shortener.reachable w ->
  domScannerInterval w = storedIsEnabled (storage w)
  /\ (domScannerInterval w = true ->
      isShortenEnabled w = storedIsShortenEnabled (storage w))
  /\ (storedIsEnabled (storage w) = false -> task ScannerTick w = w).
Proof.
  intros (st & evs & ->).
  assert (H : followsStorage (Shortener.run evs (boot st))).
  { induction evs as [|e evs IH] using rev_ind; [apply follows_boot|].
    rewrite shortener_run_snoc. now apply follows_step. }
  destruct H as [A B]. split; [exact A|]. split; [exact B|].
  intros Hoff. simpl. rewrite A, Hoff. reflexivity.
Qed.

(** *** What a scanner run does to the message containers *)

Lemma lookup_initialize_ne c c' w :
  c <> c' ->
  messageContainers (initializeShorteningForContainer c' w) !! c
  = messageContainers w !! c.
Proof.
  intros Hne. unfold initializeShorteningForContainer.
  destruct (messageContainers w !! c') as [mc|] eqn:E; [|reflexivity].
  destruct (contentArea mc); [|reflexivity].
  destruct (truthyStr _); [reflexivity|]. cbv zeta.
  rewrite containers_throttledProcess. unfold setShortenInit. rewrite E. simpl.
  apply list_lookup_insert_ne. congruence.
Qed.

Lemma lookup_scanMessageContainer_ne c c' w :
  c <> c' ->
  messageContainers (scanMessageContainer w c') !! c = messageContainers w !! c.
Proof.
  intros Hne. unfold scanMessageContainer.
  destruct (messageContainers w !! c') as [mc|] eqn:E; [|reflexivity].
  destruct (processedMarker mc); [reflexivity|]. cbv zeta.
  assert (H1 : messageContainers
                 (setContainers (<[c' := markMessageProcessed mc]> (messageContainers w)) w)
               !! c = messageContainers w !! c)
    by (simpl; apply list_lookup_insert_ne; congruence).
  destruct (isShortenEnabled _); [|exact H1].
  destruct (contentArea mc); [|exact H1].
  now rewrite lookup_initialize_ne.
Qed.

Lemma scan_processed_noop c w :
  isProcessed c w -> scanMessageContainer w c = w.
Proof. intros (mc & Hm & Hp). unfold scanMessageContainer. now rewrite Hm, Hp. Qed.

Lemma scannedFrom_initialize c w mc mc1 :
  messageContainers w !! c = Some mc1 ->
  scannedFrom mc mc1 ->
  exists mc', messageContainers (initializeShorteningForContainer c w) !! c = Some mc'
              /\ scannedFrom mc mc'.
Proof.
  intros Hm Hs. unfold initializeShorteningForContainer. rewrite Hm.
  destruct (contentArea mc1); [|eauto].
  destruct (truthyStr _); [eauto|]. cbv zeta.
  rewrite containers_throttledProcess. unfold setShortenInit. rewrite Hm. simpl.
  rewrite list_lookup_insert_eq by (eapply lookup_lt_Some, Hm).
  eexists. split; [reflexivity|]. exact Hs.
Qed.

Lemma scan_visit c w mc :
  messageContainers w !! c = Some mc ->
  exists mc', messageContainers (scanMessageContainer w c) !! c = Some mc'
              /\ scannedFrom mc mc'.
Proof.
  intros Hm. unfold scanMessageContainer. rewrite Hm.
  destruct (processedMarker mc) eqn:Ep.
  { exists mc. split; [exact Hm|]. unfold scannedFrom. now rewrite Ep. }
  cbv zeta.
  set (w1 := setContainers (<[c := markMessageProcessed mc]> (messageContainers w)) w).
  assert (H1 : messageContainers w1 !! c = Some (markMessageProcessed mc))
    by (simpl; apply list_lookup_insert_eq; eapply lookup_lt_Some, Hm).
  assert (Hs : scannedFrom mc (markMessageProcessed mc))
    by (unfold scannedFrom; now rewrite Ep).
  destruct (isShortenEnabled w1); [|eauto].
  destruct (contentArea mc); [|eauto].
  now apply (scannedFrom_initialize c w1 mc (markMessageProcessed mc)).
Qed.

Lemma scannedFrom_again mc mc1 mc2 :
  scannedFrom mc mc1 -> scannedFrom mc1 mc2 -> scannedFrom mc mc2.
Proof.
  unfold scannedFrom. intros (A1 & B1 & C1 & D1) (A2 & B2 & C2 & D2).
  rewrite A1 in B2, C2. repeat split; congruence.
Qed.

Lemma scan_fold_effect c (l : list nat) w mc :
  c ∈ l ->
  messageContainers w !! c = Some mc ->
  exists mc', messageContainers (foldl scanMessageContainer w l) !! c = Some mc'
              /\ scannedFrom mc mc'.
Proof.
  intros Hin Hm.
  apply (foldl_establishes
           (fun a => messageContainers a !! c = Some mc
                     \/ exists mc', messageContainers a !! c = Some mc'
                                    /\ scannedFrom mc mc')
           (fun a => exists mc', messageContainers a !! c = Some mc'
                                 /\ scannedFrom mc mc')
           scanMessageContainer c l); [| | |exact Hin|now left].
  - intros a b [Ha|(mc1 & Ha & Hs)].
    + destruct (decide (c = b)) as [<-|Hne].
      * right. now apply scan_visit.
      * left. now rewrite lookup_scanMessageContainer_ne.
    + right. destruct (decide (c = b)) as [<-|Hne].
      * destruct (scan_visit c a mc1 Ha) as (mc2 & H2 & Hs2).
        exists mc2. split; [exact H2|]. now apply (scannedFrom_again mc mc1).
      * exists mc1. now rewrite lookup_scanMessageContainer_ne.
  - intros a [Ha|(mc1 & Ha & Hs)]; [now apply scan_visit|].
    destruct (scan_visit c a mc1 Ha) as (mc2 & H2 & Hs2).
    exists mc2. split; [exact H2|]. now apply (scannedFrom_again mc mc1).
  - intros a b _ (mc1 & Ha & Hs). destruct (decide (c = b)) as [<-|Hne].
    + destruct (scan_visit c a mc1 Ha) as (mc2 & H2 & Hs2).
      exists mc2. split; [exact H2|]. now apply (scannedFrom_again mc mc1).
    + exists mc1. now rewrite lookup_scanMessageContainer_ne.
Qed.

Lemma scan_fold_noop (l : list nat) w :
  (forall c, c ∈ l -> isProcessed c w) -> foldl scanMessageContainer w l = w.
Proof.
  induction l as [|c l IH]; intros H; simpl; [reflexivity|].
  rewrite (scan_processed_noop c w) by (apply H, list_elem_of_here).
  apply IH. intros c' Hc'. now apply H, list_elem_of_further.
Qed.

Lemma scanPromptWrapper_twice pw :
  scanPromptWrapper (scanPromptWrapper pw) = scanPromptWrapper pw.
Proof.
  unfold scanPromptWrapper. destruct (wrapperProcessed pw) eqn:E; [now rewrite E|].
  reflexivity.
Qed.

Lemma setWrappers_same w : setWrappers (promptWrappers w) w = w.
Proof. now destruct w. Qed.

(** X7. What one scanner run does to a message container: it carries the
    processed marker afterwards; it has one more sync button if it did not
    carry the marker before and the same number if it did; a [static]
    position has become [relative] in the first case; its content area
    (markup, phase and stored prefix) is the same.  The number of message
    containers is the same. *)
Theorem X7_scan_marks_once (w : World) (c : nat) (mc : MessageContainer) :
  messageContainers w !! c = Some mc ->
  length (messageContainers (scanAndProcessMessages w)) = length (messageContainers w)
  /\ exists mc',
       messageContainers (scanAndProcessMessages w) !! c = Some mc'
       /\ processedMarker mc' = true
       /\ syncButtons mc'
          = (if processedMarker mc then syncButtons mc else S (syncButtons mc))
       /\ position mc'
          = (if processedMarker mc then position mc
             else match position mc with Static => Relative | p => p end)
       /\ contentArea mc' = contentArea mc.
Proof.
  intros Hm. unfold scanAndProcessMessages. cbv zeta. simpl. split.
  - generalize (seq 0 (length (messageContainers w))). intros l.
    apply (foldl_preserves
             (fun a => length (messageContainers a) = length (messageContainers w)));
      [|reflexivity].
    intros a b Ha. now rewrite length_scanMessageContainer.
  - destruct (scan_fold_effect c (seq 0 (length (messageContainers w))) w mc)
      as (mc' & H' & Hs); [|exact Hm|].
    + apply elem_of_seq. apply lookup_lt_Some in Hm. lia.
    + exists mc'. split; [exact H'|]. exact Hs.
Qed.

(** X8. A second scanner run right after the first changes nothing: no
    second sync button, no second craft button, no second shortener, no
    further action on any content area. *)
Theorem X8_scan_idempotent (w : World) :
  scanAndProcessMessages (scanAndProcessMessages w) = scanAndProcessMessages w.
Proof.
  assert (Hlen : length (messageContainers (scanAndProcessMessages w))
                 = length (messageContainers w)).
  { unfold scanAndProcessMessages. cbv zeta. simpl.
    generalize (seq 0 (length (messageContainers w))). intros l.
    apply (foldl_preserves
             (fun a => length (messageContainers a) = length (messageContainers w)));
      [|reflexivity].
    intros a b Ha. now rewrite length_scanMessageContainer. }
  assert (Hall : forall c, c ∈ seq 0 (length (messageContainers (scanAndProcessMessages w))) ->
                           isProcessed c (scanAndProcessMessages w)).
  { intros c Hc. apply elem_of_seq in Hc. apply marked_scan.
    apply lookup_lt_is_Some. lia. }
  unfold scanAndProcessMessages at 1. cbv zeta.
  rewrite (scan_fold_noop _ _ Hall).
  assert (Hw : scanPromptWrapper <$> promptWrappers (scanAndProcessMessages w)
               = promptWrappers (scanAndProcessMessages w)).
  { unfold scanAndProcessMessages. cbv zeta. simpl.
    rewrite <- list_fmap_compose. apply list_fmap_ext.
    intros i x _. apply scanPromptWrapper_twice. }
  rewrite Hw. apply setWrappers_same.
Qed.

(** *** The teardown of the extension *)

Lemma unwired_cleanupAll c w :
  (c < length (messageContainers w))%nat -> ~ wired c (cleanupAll w).
Proof.
  intros Hc. unfold cleanupAll.
  apply (foldl_establishes (fun _ => True) (fun a => ~ wired c a)
           (fun a b => cleanupShorteningForContainer b a) c); auto.
  - intros a _. unfold wired. rewrite observers_cleanup. intros [? ?]; discriminate.
  - intros a b _ Hn Hw. now apply (keeps_cleanup c b a) in Hw.
  - apply elem_of_seq. lia.
Qed.

Lemma containers_cleanupAll w : messageContainers (cleanupAll w) = messageContainers w.
Proof.
  unfold cleanupAll.
  apply (foldl_preserves (fun a => messageContainers a = messageContainers w));
    [|reflexivity].
  intros a b Ha. now rewrite containers_cleanup.
Qed.

Lemma nofinalize_cleanupAll c w :
  timersConsistent w ->
  is_Some (getContentArea c w) ->
  forall t, ~ finalizePending c t (cleanupAll w).
Proof.
  intros Hcons Hca. unfold cleanupAll.
  assert (Hc : (c < length (messageContainers w))%nat).
  { destruct Hca as [ca Hca]. unfold getContentArea in Hca.
    destruct (messageContainers w !! c) eqn:E; [|discriminate].
    eapply lookup_lt_Some, E. }
  apply (foldl_establishes
           (fun a => timersConsistent a /\ is_Some (getContentArea c a))
           (fun a => forall t, ~ finalizePending c t a)
           (fun a b => cleanupShorteningForContainer b a) c);
    [| | | |now split].
  - intros a b [A B]. split; [now apply consistent_cleanup|].
    now rewrite getContentArea_cleanup.
  - intros a [A B]. now apply cleanup_none.
  - intros a b _ Hn t Ht. apply (Hn t). now apply (quiet_cleanup c b a).
  - apply elem_of_seq. lia.
Qed.

(** X9. Switching the extension off.  [dismantle] stops the scanner; every
    message container loses the processed marker and all sync buttons and
    keeps its position style, its wiring flag and its content area as they
    were (a placeholder already written stays in the markup); no container
    of the page keeps an observer; no finalize timer stays outstanding for
    a container with a content area; every prompt window loses the marker
    and the craft button and keeps the page's own children; and a scanner
    tick that was already queued finds the interval cleared and does
    nothing. *)
Theorem X9_dismantle_removes (w : World) :
  domScannerInterval (dismantle w) = false
  /\ task ScannerTick (dismantle w) = dismantle w
  /\ messageContainers (dismantle w) = removeButtonsAndMarker <$> messageContainers w
  /\ (forall c, getContentArea c (dismantle w) = getContentArea c w)
  /\ (forall c, contentActions c (dismantle w) = contentActions c w)
  /\ (forall c, (c < length (messageContainers w))%nat -> ~ wired c (dismantle w))
  /\ (forall c t, timersConsistent w -> is_Some (getContentArea c w) ->
                  ~ finalizePending c t (dismantle w))
  /\ promptWrappers (dismantle w) = removeCraftAndMarker <$> promptWrappers w
  /\ Forall (fun pw => wrapperProcessed pw = false
                       /\ CraftButton ∉ wrapperChildren pw)
            (promptWrappers (dismantle w)).
Proof.
  destruct (shell_dismantle_state w) as (Hoff & _ & _).
  assert (Hcont : messageContainers (dismantle w)
                  = removeButtonsAndMarker <$> messageContainers w).
  { unfold dismantle. cbv zeta. simpl. now rewrite containers_cleanupAll. }
  split; [exact Hoff|]. split; [unfold task; now rewrite Hoff|]. split; [exact Hcont|].
  split; [|split; [|split; [|split; [|split]]]].
  - intros c. unfold getContentArea. rewrite Hcont, list_lookup_fmap.
    now destruct (messageContainers w !! c).
  - intros c. unfold dismantle. cbv zeta.
    change (contentActions c (setWrappers ?l (setContainers ?m ?x)))
      with (contentActions c x).
    destruct (quiet_cleanupAll c (setScannerInterval false w)) as (_ & -> & _).
    reflexivity.
  - intros c Hc Hw. unfold dismantle in Hw. cbv zeta in Hw.
    change (wired c (setWrappers ?l (setContainers ?m ?x))) with (wired c x) in Hw.
    now apply (unwired_cleanupAll c (setScannerInterval false w)) in Hw.
  - intros c t Hcons Hca Hp. unfold dismantle in Hp. cbv zeta in Hp.
    change (finalizePending c t (setWrappers ?l (setContainers ?m ?x)))
      with (finalizePending c t x) in Hp.
    now apply (nofinalize_cleanupAll c (setScannerInterval false w)) in Hp.
  - apply wrappers_dismantle.
  - rewrite wrappers_dismantle. apply Forall_fmap, Forall_forall.
    intros pw _. simpl. split; [reflexivity|].
    intros Hin. apply list_elem_of_filter in Hin as [Hne _]. now apply Hne.
Qed.

End ScannerOperations.

(** *** The statements above at the sample worlds *)

Section ScannerOperationsExamples.
Import JsString Shortener Wiring.
#[local] Existing Instance sampleBrowser.

Lemma X5_one_craft_button_witness :
  exists n, craftedFrom n
              {| wrapperProcessed := true;
                 wrapperChildren := [HostChild; HostChild; CraftButton; HostChild] |}.
Proof.
  assert (Hr : Shortener.reachable promptOpened)
    by (apply reachable_run, reachable_boot).
  destruct (X5_one_craft_button promptOpened 0 _ Hr eq_refl) as (n & Hn & _).
  exists n. exact Hn.
Defined.

Lemma X6_scanner_follows_storage_witness :
  domScannerInterval (Shortener.run offAndOnAgain beforeFirstScan) = true
  /\ isShortenEnabled (Shortener.run offAndOnAgain beforeFirstScan) = true.
Proof.
  assert (Hr : Shortener.reachable (Shortener.run offAndOnAgain beforeFirstScan))
    by (apply reachable_run, reachable_run, reachable_boot).
  destruct (X6_scanner_follows_storage _ Hr) as (A & B & _).
  split; [rewrite A; reflexivity|]. rewrite B; [reflexivity|].
  rewrite A. reflexivity.
Defined.

Lemma X7_scan_marks_once_witness :
  exists mc',
    messageContainers (scanAndProcessMessages beforeFirstScan) !! 0%nat = Some mc'
    /\ syncButtons mc' = 1%nat.
Proof.
  destruct (X7_scan_marks_once beforeFirstScan 0 _ eq_refl) as (_ & mc' & A & _ & B & _).
  exists mc'. split; [exact A | exact B].
Defined.

End ScannerOperationsExamples.

(** ** The watcher over whole runs *)

Section WatcherRunFacts.
Import JsString Watcher WatcherRuns.

Lemma muted_step (sys : System) (e : Event) :
  soundOff e -> muted (ws sys) ->
  muted (ws (Watcher.step sys e)) /\ played (Watcher.step sys e) = played sys.
Proof.
  intros He Hm. destruct e as [i|stored]; simpl.
  - unfold watcherTick.
    destruct (runButton (page i)) as [label|]; [|simpl; now rewrite app_nil_r].
    cbv zeta.
    destruct (Status_eqb (status (ws sys)) IDLE && includes label "Stop");
      [simpl; split; [exact Hm | reflexivity]|].
    destruct (Status_eqb (status (ws sys)) GENERATING);
      [|simpl; now rewrite app_nil_r].
    assert (Hm1 : muted (updateStability i (ws sys)))
      by (unfold muted; now rewrite updateStability_settings).
    destruct (completionDue _ _ _); simpl; [|now rewrite app_nil_r].
    split; [exact Hm1|].
    unfold completionSound. unfold muted in Hm1.
    destruct (soundSettings (updateStability i (ws sys))) as [st|];
      [rewrite Hm1|]; simpl; now rewrite app_nil_r.
  - destruct (pendingReads sys); [now split|]. simpl. split; [exact He | reflexivity].
Qed.

(** X10. With the completion sound switched off the watcher is silent: if
    the loaded settings, if any, are disabled, and every storage read of
    the run delivers disabled settings (a missing key gives the default,
    which is disabled), then no sound is played during the run, however
    many generations complete. *)
Theorem X10_sound_off_silent (evs : list Event) (sys : System) :
  muted (ws sys) ->
  Forall soundOff evs ->
  played (Watcher.run evs sys) = played sys /\ muted (ws (Watcher.run evs sys)).
Proof.
  intros Hm Hevs. induction evs as [|e evs IH] using rev_ind; [now split|].
  apply Forall_app in Hevs as [Hevs He]. inversion_clear He as [|? ? He' _].
  destruct (IH Hevs) as [Hp Hm']. rewrite run_snoc.
  destruct (muted_step _ e He' Hm') as [A B]. split; [congruence | exact A].
Qed.

Lemma X10_sound_off_silent_witness :
  played (Watcher.run completedGeneration initialSystem) = []
  /\ completions (Watcher.run completedGeneration initialSystem) = 1%nat.
Proof.
  split; [|reflexivity].
  refine (proj1 (X10_sound_off_silent completedGeneration initialSystem I _)).
  repeat constructor.
Defined.

Lemma stuck_step (sys : System) (e : Event) :
  noContainers e ->
  status (ws sys) = GENERATING ->
  truthyTime (stableSince (ws sys)) = false ->
  let sys' := Watcher.step sys e in
  status (ws sys') = GENERATING
  /\ stableSince (ws sys') = stableSince (ws sys)
  /\ lastContentLength (ws sys') = lastContentLength (ws sys)
  /\ completions sys' = completions sys
  /\ played sys' = played sys.
Proof.
  intros He Hg Hs. destruct e as [i|stored]; simpl in *.
  - unfold watcherTick.
    destruct (runButton (page i)) as [label|];
      [|simpl; unfold isCompletion; rewrite app_nil_r, Hg; repeat split; reflexivity].
    cbv zeta. rewrite Hg. simpl.
    assert (Hu : updateStability i (ws sys) = ws sys)
      by (unfold updateStability, observedLength; now rewrite He).
    rewrite Hu. unfold completionDue. rewrite Hs, andb_false_r. simpl.
    unfold isCompletion. rewrite app_nil_r, Hg. repeat split; reflexivity.
  - destruct (pendingReads sys); simpl; repeat split; auto.
Qed.

(** X11. A page without message containers never completes.  In GENERATING
    with the stability timer unset, as the entry into GENERATING leaves it,
    any run of ticks on which the page shows no message container leaves
    the watcher in GENERATING, with the stability timer and the length as
    they were: no completion is counted and no sound is played, whatever
    the label of the run control and however much time passes. *)
Theorem X11_no_container_stuck (evs : list Event) (sys : System) :
  status (ws sys) = GENERATING ->
  truthyTime (stableSince (ws sys)) = false ->
  Forall noContainers evs ->
  status (ws (Watcher.run evs sys)) = GENERATING
  /\ stableSince (ws (Watcher.run evs sys)) = stableSince (ws sys)
  /\ lastContentLength (ws (Watcher.run evs sys)) = lastContentLength (ws sys)
  /\ completions (Watcher.run evs sys) = completions sys
  /\ played (Watcher.run evs sys) = played sys.
Proof.
  intros Hg Hs Hevs. induction evs as [|e evs IH] using rev_ind; [repeat split; auto|].
  apply Forall_app in Hevs as [Hevs He]. inversion_clear He as [|? ? He' _].
  destruct (IH Hevs) as (A & B & C & D & E). rewrite run_snoc.
  destruct (stuck_step (Watcher.run evs sys) e He' A) as (A' & B' & C' & D' & E').
  { now rewrite B. }
  repeat split; congruence.
Qed.

Lemma X11_no_container_stuck_witness :
  status (ws (Watcher.run generationWithoutContainers startedGenerating)) = GENERATING
  /\ completions (Watcher.run generationWithoutContainers startedGenerating) = 0%nat.
Proof.
  assert (H : Forall noContainers generationWithoutContainers)
    by (repeat constructor).
  destruct (X11_no_container_stuck generationWithoutContainers startedGenerating
              eq_refl eq_refl H) as (A & _ & _ & B & _).
  split; [exact A | exact B].
Defined.

End WatcherRunFacts.

(** ** keep_active.js *)

Section KeepActiveFacts.
Import KeepActive.

Lemma keepActive_run_snoc (evs : list Event) (e : Event) (w : World) :
  KeepActive.run (evs ++ [e]) w = KeepActive.step (KeepActive.run evs w) e.
Proof. unfold KeepActive.run. apply foldl_snoc. Qed.

Lemma balanced_inactive w :
  balanced w -> isActive w = false -> rafId w = None /\ domPingIntervalId w = None.
Proof.
  intros (_ & _ & A & B) Hoff. split.
  - destruct (rafId w) eqn:E; [|reflexivity].
    assert (H : isActive w = true) by (apply A; eauto). congruence.
  - destruct (domPingIntervalId w) eqn:E; [|reflexivity].
    assert (H : isActive w = true) by (apply B; eauto). congruence.
Qed.

Lemma balanced_active w :
  balanced w -> isActive w = true ->
  exists r p, rafId w = Some r /\ domPingIntervalId w = Some p.
Proof.
  intros (_ & _ & A & B) Hon.
  destruct (proj2 A Hon) as [r Hr]. destruct (proj2 B Hon) as [p Hp]. eauto.
Qed.

Lemma balanced_start now w : balanced w -> balanced (startKeepingActive now w).
Proof.
  intros Hb. unfold startKeepingActive.
  destruct (isActive w) eqn:Ha; [exact Hb|].
  destruct (balanced_inactive w Hb Ha) as [Hr Hp].
  destruct Hb as (Hf & Hi & _ & _). rewrite Hr in Hf. rewrite Hp in Hi.
  cbv zeta. simpl. rewrite Hr. simpl. rewrite Hp. simpl.
  unfold balanced. simpl. rewrite Hf, Hi, !union_empty_r_L.
  repeat split; eauto.
Qed.

Lemma balanced_stop w : balanced w -> balanced (stopKeepingActive w).
Proof.
  intros Hb. unfold stopKeepingActive.
  destruct (isActive w) eqn:Ha; [|exact Hb]. simpl.
  destruct (balanced_active w Hb Ha) as (r & p & Hr & Hp).
  destruct Hb as (Hf & Hi & _ & _). rewrite Hr in Hf. rewrite Hp in Hi.
  rewrite Hr. simpl. rewrite Hp. simpl.
  unfold balanced. simpl. rewrite Hf, Hi, !difference_diag_L.
  repeat split; try discriminate; intros [? ?]; discriminate.
Qed.

Lemma balanced_frame h timestamp w :
  balanced w -> h ∈ frameRequests w ->
  isActive w = true
  /\ rafId w = Some h
  /\ balanced (rafLoop timestamp (cancelAnimationFrame h w)).
Proof.
  intros (Hf & Hi & A & B) Hin.
  assert (Hr : rafId w = Some h).
  { rewrite Hf in Hin. destruct (rafId w) as [r|].
    - apply elem_of_singleton in Hin. now subst.
    - now apply elem_of_empty in Hin. }
  assert (Ha : isActive w = true) by (apply A; rewrite Hr; eauto).
  split; [exact Ha|]. split; [exact Hr|].
  rewrite Hr in Hf.
  unfold rafLoop. simpl. rewrite Ha. simpl.
  destruct (Qle_bool _ _); unfold balanced; simpl;
    rewrite Hf, difference_diag_L, union_empty_r_L;
    (split; [reflexivity|]); (split; [exact Hi|]); (split; [|exact B]);
    split; eauto.
Qed.

Lemma balanced_step e w : balanced w -> balanced (KeepActive.step w e).
Proof.
  intros Hb. destruct e as [en now|[en|] now|now| |h ts|h]; simpl.
  - destruct en; [now apply balanced_start | exact Hb].
  - destruct en; [now apply balanced_start | now apply balanced_stop].
  - exact Hb.
  - now apply balanced_start.
  - now apply balanced_stop.
  - destruct (decide (h ∈ frameRequests w)) as [Hin|]; [|exact Hb].
    now apply balanced_frame.
  - destruct (decide (h ∈ intervals w)); exact Hb.
Qed.

Lemma balanced_reachable w : KeepActive.reachable w -> balanced w.
Proof.
  intros (evs & ->). induction evs as [|e evs IH] using rev_ind.
  - unfold balanced. simpl. repeat split; try reflexivity;
      try (intros [? ?]; discriminate); discriminate.
  - rewrite keepActive_run_snoc. now apply balanced_step.
Qed.

(** X12. keep_active.js leaks no callback.  In every reachable state the
    browser holds exactly one requested animation frame and exactly one
    interval while the module is active (the ones whose handles are in
    [rafId] and [domPingIntervalId]), and none at all while it is
    inactive; a frame callback therefore only ever runs while the module is
    active (the [!isActive] branch of [rafLoop] is never taken), and after
    it has run one frame is requested again. *)
Theorem X12_keep_active_balanced (w : World) :
  KeepActive.reachable w ->
  (isActive w = true ->
     exists r p, rafId w = Some r /\ domPingIntervalId w = Some p
                 /\ frameRequests w = {[ r ]} /\ intervals w = {[ p ]})
  /\ (isActive w = false ->
        rafId w = None /\ domPingIntervalId w = None
        /\ frameRequests w = ∅ /\ intervals w = ∅)
  /\ (forall h timestamp,
        h ∈ frameRequests w ->
        isActive w = true
        /\ isActive (KeepActive.step w (FrameFires h timestamp)) = true
        /\ exists h', frameRequests (KeepActive.step w (FrameFires h timestamp)) = {[ h' ]}
                      /\ rafId (KeepActive.step w (FrameFires h timestamp)) = Some h').
Proof.
  intros Hr. pose proof (balanced_reachable w Hr) as Hb.
  split; [|split].
  - intros Ha. destruct (balanced_active w Hb Ha) as (r & p & Er & Ep).
    exists r, p. destruct Hb as (Hf & Hi & _). rewrite Er in Hf. rewrite Ep in Hi.
    auto.
  - intros Ha. destruct (balanced_inactive w Hb Ha) as [Er Ep].
    destruct Hb as (Hf & Hi & _). rewrite Er in Hf. rewrite Ep in Hi. auto.
  - intros h ts Hin. destruct (balanced_frame h ts w Hb Hin) as (Ha & Er & Hb').
    split; [exact Ha|]. simpl. rewrite decide_True by exact Hin.
    assert (Ha' : isActive (rafLoop ts (cancelAnimationFrame h w)) = true).
    { unfold rafLoop. simpl. rewrite Ha. simpl. now destruct (Qle_bool _ _). }
    split; [exact Ha'|].
    destruct (balanced_active _ Hb' Ha') as (r & p & Er' & _).
    exists r. destruct Hb' as (Hf & _). rewrite Er' in Hf. auto.
Qed.

Lemma X12_keep_active_balanced_witness :
  exists r p, rafId (KeepActive.run sampleSession initialWorld) = Some r
              /\ domPingIntervalId (KeepActive.run sampleSession initialWorld) = Some p
              /\ frameRequests (KeepActive.run sampleSession initialWorld) = {[ r ]}
              /\ intervals (KeepActive.run sampleSession initialWorld) = {[ p ]}.
Proof.
  assert (Hr : KeepActive.reachable (KeepActive.run sampleSession initialWorld))
    by (eexists; reflexivity).
  exact (proj1 (X12_keep_active_balanced _ Hr) eq_refl).
Defined.

Lemma start_active now w : isActive (startKeepingActive now w) = true.
Proof.
  unfold startKeepingActive. destruct (isActive w) eqn:Ha; [exact Ha|].
  cbv zeta. simpl. destruct (rafId w); simpl; now destruct (domPingIntervalId w).
Qed.

Lemma stop_inactive w : isActive (stopKeepingActive w) = false.
Proof.
  unfold stopKeepingActive. destruct (isActive w) eqn:Ha; [|exact Ha].
  simpl. destruct (rafId w); simpl; now destruct (domPingIntervalId w).
Qed.

(** X13. The toggle message decides the state, and repeating it is
    harmless: after a TOGGLE_KEEP_ACTIVE message the module is active
    exactly if [payload.enabled] was truthy, whatever it was before; the
    same message again changes nothing (no second frame request, no second
    interval); a message of another type changes nothing; and [stop] after
    [start] leaves no frame request and no interval behind. *)
Theorem X13_keep_active_toggle (w : World) (enabled : bool) (now now' : Q) :
  isActive (KeepActive.step w (Message (Some enabled) now)) = enabled
  /\ KeepActive.step (KeepActive.step w (Message (Some enabled) now))
                     (Message (Some enabled) now')
     = KeepActive.step w (Message (Some enabled) now)
  /\ KeepActive.step w (Message None now) = w
  /\ (KeepActive.reachable w ->
      frameRequests (stopKeepingActive (startKeepingActive now w)) = ∅
      /\ intervals (stopKeepingActive (startKeepingActive now w)) = ∅).
Proof.
  split; [|split; [|split]].
  - simpl. destruct enabled; [apply start_active | apply stop_inactive].
  - simpl. destruct enabled.
    + unfold startKeepingActive at 1. now rewrite start_active.
    + unfold stopKeepingActive at 1. now rewrite stop_inactive.
  - reflexivity.
  - intros Hr.
    assert (Hb : balanced (stopKeepingActive (startKeepingActive now w)))
      by (apply balanced_stop, balanced_start, balanced_reachable, Hr).
    destruct (balanced_inactive _ Hb (stop_inactive _)) as [Er Ep].
    destruct Hb as (Hf & Hi & _). rewrite Er in Hf. rewrite Ep in Hi. auto.
Qed.

End KeepActiveFacts.

(** ** The universal filters: configuration *)

Section FilterConfigFacts.
Import JsString Filters.

Lemma withExtensions_same (d : FilterEntry) : withExtensions (extensions d) d = d.
Proof. now destruct d. Qed.

Lemma mergedEntry_absent (saved : gmap string SavedEntry) key d :
  saved !! key = None -> mergedEntry saved key d = d.
Proof. intros H. unfold mergedEntry. rewrite H. now destruct (isModifiable d). Qed.

Lemma mergedEntry_insert_ne (saved : gmap string SavedEntry) i x key d :
  i <> key -> mergedEntry (<[i := x]> saved) key d = mergedEntry saved key d.
Proof. intros H. unfold mergedEntry. now rewrite lookup_insert_ne. Qed.

Lemma throwsOn_insert (saved : gmap string SavedEntry) i x :
  saved !! i = None -> throwsOn saved -> throwsOn (<[i := x]> saved).
Proof.
  intros Hi (key & d & Hd & Hm & Hs). exists key, d. split; [exact Hd|].
  split; [exact Hm|]. rewrite lookup_insert_ne; [exact Hs | congruence].
Qed.

Lemma throwsOn_insert_inv (saved : gmap string SavedEntry) i x :
  throwsOn (<[i := x]> saved) ->
  throwsOn saved
  \/ (x = SavedNull
      /\ exists d, DEFAULT_FILTER_CONFIG !! i = Some d /\ isModifiable d = true).
Proof.
  intros (key & d & Hd & Hm & Hs). destruct (decide (i = key)) as [->|Hne].
  - rewrite lookup_insert_eq in Hs. right. split; [congruence | eauto].
  - rewrite lookup_insert_ne in Hs by exact Hne. left. exists key, d. auto.
Qed.

(** The loop of [getFilterConfig], key by key. *)
Lemma merge_fold (saved : gmap string SavedEntry) :
  match map_fold mergeSavedKey (Some DEFAULT_FILTER_CONFIG) saved with
  | None => throwsOn saved
  | Some merged =>
      ~ throwsOn saved
      /\ forall key, merged !! key = mergedEntry saved key <$> DEFAULT_FILTER_CONFIG !! key
  end.
Proof.
  apply (map_fold_weak_ind
           (fun (acc : option (gmap string FilterEntry)) (m : gmap string SavedEntry) =>
              match acc with
              | None => throwsOn m
              | Some merged =>
                  ~ throwsOn m
                  /\ forall key, merged !! key
                                 = mergedEntry m key <$> DEFAULT_FILTER_CONFIG !! key
              end)).
  - split.
    + intros (key & d & _ & _ & H). now rewrite lookup_empty in H.
    + intros key. destruct (DEFAULT_FILTER_CONFIG !! key) as [d|]; [|reflexivity].
      simpl. now rewrite mergedEntry_absent by apply lookup_empty.
  - intros i x m [merged|] Hi IH; simpl; [|now apply throwsOn_insert].
    destruct IH as [Hno Hl].
    assert (Hi' : merged !! i = DEFAULT_FILTER_CONFIG !! i).
    { rewrite Hl. destruct (DEFAULT_FILTER_CONFIG !! i); [|reflexivity].
      simpl. now rewrite mergedEntry_absent. }
    assert (Hother : forall key, i <> key ->
              merged !! key
              = mergedEntry (<[i := x]> m) key <$> DEFAULT_FILTER_CONFIG !! key).
    { intros key Hne. rewrite Hl.
      destruct (DEFAULT_FILTER_CONFIG !! key); [|reflexivity].
      simpl. now rewrite mergedEntry_insert_ne. }
    rewrite Hi'. destruct (DEFAULT_FILTER_CONFIG !! i) as [d|] eqn:Hd.
    + destruct (isModifiable d) eqn:Hm.
      * destruct x as [|exts].
        -- exists i, d. now rewrite lookup_insert_eq.
        -- split.
           ++ intros Ht. apply throwsOn_insert_inv in Ht as [Ht|[Ht _]];
                [now apply Hno | discriminate].
           ++ intros key. destruct (decide (i = key)) as [<-|Hne].
              ** rewrite lookup_insert_eq, Hd. simpl. unfold mergedEntry.
                 now rewrite Hm, lookup_insert_eq.
              ** rewrite lookup_insert_ne by exact Hne. now apply Hother.
      * split.
        -- intros Ht. apply throwsOn_insert_inv in Ht as [Ht|[_ (d' & Hd' & Hm')]];
             [now apply Hno | congruence].
        -- intros key. destruct (decide (i = key)) as [<-|Hne]; [|now apply Hother].
           rewrite Hi', Hd. simpl. unfold mergedEntry. now rewrite Hm.
    + split.
      * intros Ht. apply throwsOn_insert_inv in Ht as [Ht|[_ (d' & Hd' & Hm')]];
          [now apply Hno | congruence].
      * intros key. destruct (decide (i = key)) as [<-|Hne]; [|now apply Hother].
        now rewrite Hi', Hd.
Qed.

Lemma derived_default : derived DEFAULT_FILTER_CONFIG.
Proof.
  intros key. destruct (DEFAULT_FILTER_CONFIG !! key) as [d|]; [|reflexivity].
  exists d. split; [reflexivity|].
  destruct (isModifiable d); [now rewrite withExtensions_same | reflexivity].
Qed.

Lemma derived_get (read : StorageResult (option (gmap string SavedEntry))) :
  derived (getFilterConfig read).
Proof.
  destruct read as [[saved|]|]; simpl; try apply derived_default.
  pose proof (merge_fold saved) as H.
  destruct (map_fold mergeSavedKey _ saved) as [merged|]; [|apply derived_default].
  destruct H as [_ Hl]. intros key. rewrite Hl.
  destruct (DEFAULT_FILTER_CONFIG !! key) as [d|]; [|reflexivity].
  simpl. eexists. split; [reflexivity|].
  unfold mergedEntry. destruct (isModifiable d) eqn:Hm; [|reflexivity].
  destruct (saved !! key) as [[|exts]|]; try now rewrite withExtensions_same.
  reflexivity.
Qed.

(** X14. What stored data can do to the filter configuration.  Whatever
    the storage read gives, [getFilterConfig] returns a configuration with
    exactly the keys of the default one, in which every entry has the
    default label, [isModifiable], [requires] and [exclude], and the entry
    ["all"] is the default one; a rejected read, an absent value, and a
    saved configuration with [null] under a modifiable key all give the
    default configuration; otherwise a modifiable entry takes the saved
    [extensions] of its key (when the key is saved) and keys unknown to the
    default configuration are ignored. *)
Theorem X14_filter_config_merge (read : StorageResult (option (gmap string SavedEntry))) :
  (forall key,
     match DEFAULT_FILTER_CONFIG !! key with
     | Some d =>
         exists e, getFilterConfig read !! key = Some e
                   /\ label e = label d /\ isModifiable e = isModifiable d
                   /\ requires e = requires d /\ exclude e = exclude d
                   /\ (isModifiable d = false -> e = d)
     | None => getFilterConfig read !! key = None
     end)
  /\ getFilterConfig read !! "all" = Some defaultAll
  /\ getFilterConfig Rejected = DEFAULT_FILTER_CONFIG
  /\ getFilterConfig (Resolved None) = DEFAULT_FILTER_CONFIG
  /\ (forall saved, throwsOn saved ->
        getFilterConfig (Resolved (Some saved)) = DEFAULT_FILTER_CONFIG)
  /\ (forall saved key, ~ throwsOn saved ->
        getFilterConfig (Resolved (Some saved)) !! key
        = mergedEntry saved key <$> DEFAULT_FILTER_CONFIG !! key).
Proof.
  pose proof (derived_get read) as Hd.
  split; [|split; [|split; [|split; [|split]]]]; try reflexivity.
  - intros key. specialize (Hd key).
    destruct (DEFAULT_FILTER_CONFIG !! key) as [d|]; [|exact Hd].
    destruct Hd as (e & He & Heq). exists e. split; [exact He|].
    destruct (isModifiable d) eqn:Hm; rewrite Heq; simpl; repeat split; auto.
    discriminate.
  - specialize (Hd "all"). destruct Hd as (e & He & Heq). now rewrite He, Heq.
  - intros saved Ht. simpl. pose proof (merge_fold saved) as H.
    destruct (map_fold mergeSavedKey _ saved) as [merged|]; [|reflexivity].
    now destruct H.
  - intros saved key Hno. simpl. pose proof (merge_fold saved) as H.
    destruct (map_fold mergeSavedKey _ saved) as [merged|]; [|contradiction].
    now destruct H.
Qed.

Lemma configToSave_lookup (cfg : gmap string FilterEntry) key :
  configToSave cfg !! key
  = cfg !! key ≫= fun e =>
      if isModifiable e then Some (SavedObject (extensions e)) else None.
Proof.
  unfold configToSave. revert key.
  apply (map_fold_weak_ind
           (fun (acc : gmap string SavedEntry) (m : gmap string FilterEntry) =>
              forall key, acc !! key
                          = m !! key ≫= fun e =>
                              if isModifiable e
                              then Some (SavedObject (extensions e)) else None)).
  - intros key. now rewrite !lookup_empty.
  - intros i e m acc Hi IH key. destruct (decide (i = key)) as [<-|Hne].
    + rewrite lookup_insert_eq. simpl. destruct (isModifiable e).
      * now rewrite lookup_insert_eq.
      * now rewrite IH, Hi.
    + rewrite (lookup_insert_ne m) by exact Hne. rewrite <- IH.
      destruct (isModifiable e); [now rewrite lookup_insert_ne | reflexivity].
Qed.

Lemma configToSave_safe (cfg : gmap string FilterEntry) : ~ throwsOn (configToSave cfg).
Proof.
  intros (key & d & _ & _ & H). rewrite configToSave_lookup in H.
  destruct (cfg !! key) as [e|]; [|discriminate]. simpl in H.
  destruct (isModifiable e); discriminate.
Qed.

Lemma roundtrip_lookup (cfg : gmap string FilterEntry) :
  derived cfg ->
  getFilterConfig (Resolved (Some (configToSave cfg))) = cfg.
Proof.
  intros Hd. apply map_eq. intros key. simpl.
  pose proof (merge_fold (configToSave cfg)) as H.
  destruct (map_fold mergeSavedKey _ (configToSave cfg)) as [merged|];
    [|now apply configToSave_safe in H].
  destruct H as [_ Hl]. rewrite Hl. specialize (Hd key).
  destruct (DEFAULT_FILTER_CONFIG !! key) as [d|]; [|now rewrite Hd].
  destruct Hd as (e & He & Heq). rewrite He. simpl. f_equal.
  unfold mergedEntry. rewrite configToSave_lookup, He. simpl.
  destruct (isModifiable d) eqn:Hm.
  - assert (Hme : isModifiable e = true) by (rewrite Heq; exact Hm).
    rewrite Hme. now rewrite <- Heq.
  - now rewrite Heq.
Qed.

(** X15. Saving and loading the filter configuration is a round trip.  For
    a configuration as the settings dialog builds it (the default one with
    other [extensions] in modifiable entries), [saveFilterConfig] followed
    by [getFilterConfig] on the stored value gives the configuration back;
    only modifiable keys are stored; the filter statistics in the store are
    not touched; and when the write is rejected the store is unchanged and
    an error is notified. *)
Theorem X15_filter_config_roundtrip (cfg : gmap string FilterEntry) (st : LocalStorage) :
  derived cfg ->
  getFilterConfig (Resolved (filterConfig (saveFilterConfig true cfg st).1)) = cfg
  /\ (forall key sv,
        filterConfig (saveFilterConfig true cfg st).1 ≫= (fun m => m !! key) = Some sv ->
        exists e, cfg !! key = Some e /\ isModifiable e = true
                  /\ sv = SavedObject (extensions e))
  /\ filterStats (saveFilterConfig true cfg st).1 = filterStats st
  /\ (saveFilterConfig false cfg st).1 = st
  /\ (exists m, (saveFilterConfig false cfg st).2 = NotifyError m).
Proof.
  intros Hd. simpl. split; [now apply roundtrip_lookup|].
  split; [|split; [reflexivity|split; [reflexivity|eauto]]].
  intros key sv H. rewrite configToSave_lookup in H.
  destruct (cfg !! key) as [e|]; [|discriminate]. simpl in H.
  destruct (isModifiable e) eqn:Hm; [|discriminate].
  exists e. split; [reflexivity|]. split; [exact Hm|]. congruence.
Qed.

Lemma X15_filter_config_roundtrip_witness :
  getFilterConfig
    (Resolved (filterConfig
       (saveFilterConfig true (getFilterConfig (Resolved (Some sampleSaved)))
          {| filterConfig := None; filterStats := None |}).1))
  = getFilterConfig (Resolved (Some sampleSaved)).
Proof.
  exact (proj1 (X15_filter_config_roundtrip _ _
                  (derived_get (Resolved (Some sampleSaved))))).
Defined.

End FilterConfigFacts.

(** ** The filter statistics *)

Section FilterStatsFacts.
Import JsString Filters FilterStats.

Lemma listed_cons (ext x : string) (l : list string) :
  listed ext (x :: l) = (if decide (x = ext) then 1 else 0) + listed ext l.
Proof.
  unfold listed. destruct (decide (x = ext)) as [->|Hne].
  - rewrite filter_cons_True by reflexivity. simpl length. lia.
  - rewrite filter_cons_False by exact Hne. lia.
Qed.

Lemma listed_nonneg ext l : 0 <= listed ext l.
Proof. unfold listed. lia. Qed.

Lemma listed_absent ext l : ext ∉ l -> listed ext l = 0.
Proof.
  intros H. unfold listed. induction l as [|x l IH]; [reflexivity|].
  apply not_elem_of_cons in H as [Hne Hl].
  rewrite filter_cons_False by congruence. now apply IH.
Qed.

(** The penalty loop: a positive counter drops by the number of times its
    extension is listed, but not below zero; other counters stay. *)
Lemma penalize_fold (l : list string) (stats : gmap string Z) (changed : bool) :
  (forall ext,
     (foldl penalize (stats, changed) l).1 !! ext
     = (fun v => if 0 <? v then Z.max 0 (v - listed ext l) else v) <$> stats !! ext)
  /\ ((foldl penalize (stats, changed) l).2 = false ->
      (foldl penalize (stats, changed) l).1 = stats).
Proof.
  revert stats changed. induction l as [|x l IH]; intros stats changed; simpl.
  - split; [|reflexivity]. intros ext. destruct (stats !! ext) as [v|]; [|reflexivity].
    simpl. f_equal. unfold listed. simpl. destruct (0 <? v) eqn:E; lia.
  - unfold penalize at 2 4 6. simpl.
    destruct (stats !! x) as [v0|] eqn:Hx.
    + destruct (0 <? v0) eqn:Hpos.
      * destruct (IH (<[x := v0 - 1]> stats) true) as [A B]. split.
        -- intros ext. rewrite A, listed_cons.
           destruct (decide (x = ext)) as [<-|Hne].
           ++ rewrite lookup_insert_eq, Hx. simpl. f_equal.
              rewrite Hpos. pose proof (listed_nonneg x l).
              destruct (0 <? v0 - 1) eqn:E; lia.
           ++ rewrite lookup_insert_ne by exact Hne.
              destruct (stats !! ext) as [v|]; [|reflexivity]. simpl.
              reflexivity.
        -- intros Hch. exfalso. clear -Hch.
           assert (H : forall l s, (foldl penalize (s, true) l).2 = true).
           { clear. induction l as [|y l IH]; intros s; [reflexivity|].
             simpl. unfold penalize at 2. simpl.
             destruct (s !! y) as [v|]; [destruct (0 <? v)|]; apply IH. }
           rewrite H in Hch. discriminate.
      * destruct (IH stats changed) as [A B]. split; [|exact B].
        intros ext. rewrite A, listed_cons.
        destruct (stats !! ext) as [v|] eqn:He; [|reflexivity]. simpl. f_equal.
        destruct (decide (x = ext)) as [<-|Hne].
        -- assert (v = v0) by congruence. subst. now rewrite Hpos.
        -- destruct (0 <? v); [f_equal; lia | reflexivity].
    + destruct (IH stats changed) as [A B]. split; [|exact B].
      intros ext. rewrite A, listed_cons.
      destruct (stats !! ext) as [v|] eqn:He; [|reflexivity]. simpl. f_equal.
      destruct (decide (x = ext)) as [<-|Hne]; [congruence|].
      destruct (0 <? v); [f_equal; lia | reflexivity].
Qed.

Lemma statsOf_writeStats stats st : statsOf (writeStats true stats st) = stats.
Proof. reflexivity. Qed.

Lemma filter_absent_listed (P : string -> Prop) `{forall x, Decision (P x)}
    (ext : string) (l : list string) :
  listed ext (filter P l) = if decide (P ext) then listed ext l else 0.
Proof.
  induction l as [|x l IH]; [now destruct (decide (P ext))|].
  destruct (decide (P x)) as [Hx|Hx].
  - rewrite filter_cons_True by exact Hx. rewrite !listed_cons, IH.
    destruct (decide (x = ext)) as [->|Hne]; destruct (decide (P ext));
      try reflexivity; try contradiction; lia.
  - rewrite filter_cons_False by exact Hx. rewrite IH, listed_cons.
    destruct (decide (x = ext)) as [->|Hne]; destruct (decide (P ext));
      try reflexivity; try contradiction; lia.
Qed.

Lemma penalty_id (c1 c2 : bool) (v n : Z) :
  n = 0 -> (if c1 && (0 <? v) && c2 then Z.max 0 (v - n) else v) = v.
Proof.
  intros ->. destruct (0 <? v) eqn:E; [|now rewrite andb_false_r].
  destruct (c1 && true && c2); lia.
Qed.

Lemma sessionEnd_effect (readOk writeOk : bool)
    (selectedFiles : option (gset string)) (initialFrequent : option (list string))
    (st : LocalStorage) :
  filterConfig (updateFilterStatsOnSessionEnd readOk writeOk selectedFiles initialFrequent st)
    = filterConfig st
  /\ (forall ext,
      statsOf (updateFilterStatsOnSessionEnd readOk writeOk selectedFiles initialFrequent st)
        !! ext
      = (fun v =>
           match selectedFiles, initialFrequent with
           | Some selected, Some frequent =>
               if readOk && writeOk && negb (size selected =? 0)%nat && (0 <? v)
                  && bool_decide (ext ∉ (set_map usedExtension selected : gset string))
               then Z.max 0 (v - listed ext frequent)
               else v
           | _, _ => v
           end) <$> statsOf st !! ext)
  /\ (readOk = false \/ writeOk = false ->
      updateFilterStatsOnSessionEnd readOk writeOk selectedFiles initialFrequent st = st).
Proof.
  assert (Hid : forall (f : Z -> Z) ext, (forall v, f v = v) ->
                  statsOf st !! ext = f <$> statsOf st !! ext).
  { intros f ext Hf. destruct (statsOf st !! ext); simpl; [now rewrite Hf | reflexivity]. }
  unfold updateFilterStatsOnSessionEnd.
  destruct selectedFiles as [selected|];
    [|split; [reflexivity|split; [intros; now apply Hid | reflexivity]]].
  destruct initialFrequent as [frequent|];
    [|split; [reflexivity|split; [intros; now apply Hid | reflexivity]]].
  destruct (size selected =? 0)%nat eqn:Hsel; simpl.
  { split; [reflexivity|]. split; [|reflexivity]. intros ext. apply Hid.
    intros v. now rewrite !andb_false_r. }
  destruct (length frequent =? 0)%nat eqn:Hfreq; simpl.
  { apply Nat.eqb_eq, nil_length_inv in Hfreq. subst frequent.
    split; [reflexivity|]. split; [|reflexivity]. intros ext. apply Hid.
    intros v. now apply penalty_id. }
  set (used := set_map usedExtension selected : gset string).
  set (unused := filter (fun ext => ext ∉ used) frequent).
  assert (Hun : forall ext, listed ext unused
                            = if bool_decide (ext ∉ used) then listed ext frequent else 0).
  { intros ext. subst unused. rewrite filter_absent_listed.
    destruct (decide (ext ∉ used)); [now rewrite bool_decide_true
                                    | now rewrite bool_decide_false]. }
  destruct (0 <? length unused)%nat eqn:Hlen.
  2:{ split; [reflexivity|]. split; [|reflexivity]. intros ext. apply Hid.
      intros v. apply Nat.ltb_ge in Hlen.
      assert (Hnil : unused = []) by (destruct unused; [reflexivity | simpl in Hlen; lia]).
      specialize (Hun ext). rewrite Hnil in Hun. unfold listed at 1 in Hun.
      simpl in Hun. destruct (bool_decide (ext ∉ used));
        rewrite ?andb_false_r; [|reflexivity].
      now apply penalty_id. }
  destruct readOk; unfold readStats.
  2:{ (* the read fails: the statistics read as empty, nothing to penalize *)
      change (getFilterStats Rejected) with (∅ : gmap string Z).
      assert (H : forall l, foldl penalize (∅, false) l = (∅, false)).
      { induction l as [|y l IH]; [reflexivity|]. simpl.
        unfold penalize at 2. simpl. rewrite lookup_empty. exact IH. }
      rewrite H. simpl. split; [reflexivity|]. split; [|reflexivity].
      intros ext. now apply Hid. }
  change (getFilterStats (Resolved (filterStats st))) with (statsOf st).
  destruct (penalize_fold unused (statsOf st) false) as [A B].
  destruct (foldl penalize (statsOf st, false) unused).2 eqn:Hch.
  - destruct writeOk; unfold writeStats.
    + split; [reflexivity|]. split; [|intros [?|?]; discriminate].
      intros ext. change (statsOf {| filterConfig := _; filterStats := Some ?x |}) with x.
      rewrite A.
      destruct (statsOf st !! ext) as [v|]; [|reflexivity]. simpl. f_equal.
      rewrite Hun. simpl. destruct (0 <? v) eqn:Hv; [|reflexivity].
      destruct (bool_decide (ext ∉ used)); simpl; lia.
    + split; [reflexivity|]. split; [|reflexivity]. intros ext. apply Hid.
      intros v. reflexivity.
  - split; [reflexivity|]. split; [|reflexivity].
    intros ext. pose proof (A ext) as Ae. rewrite (B eq_refl), Hun in Ae.
    destruct (statsOf st !! ext) as [v|]; [|reflexivity]. simpl in *. f_equal.
    injection Ae as Ae.
    destruct writeOk, (0 <? v), (bool_decide (ext ∉ used)); simpl in *; lia.
Qed.

Lemma nonNegative_sessionEnd readOk writeOk selectedFiles initialFrequent st :
  nonNegative (statsOf st) ->
  nonNegative
    (statsOf (updateFilterStatsOnSessionEnd readOk writeOk selectedFiles initialFrequent st)).
Proof.
  destruct (sessionEnd_effect readOk writeOk selectedFiles initialFrequent st)
    as (_ & B & _).
  intros Hnn ext v' Hv'. rewrite B in Hv'.
  destruct (statsOf st !! ext) as [v|] eqn:Hv; [|discriminate]. simpl in Hv'.
  specialize (Hnn ext v Hv). injection Hv' as <-.
  destruct selectedFiles; [|exact Hnn]. destruct initialFrequent; [|exact Hnn].
  match goal with |- context [if ?c then _ else _] => destruct c end; lia.
Qed.


Lemma addOne_safe (x : Z) : - 2 ^ 53 <= x < 2 ^ 53 -> addOne x = Some (x + 1).
Proof.
  intros [Hlo Hhi]. unfold addOne.
  destruct (Z.leb_spec (- 2 ^ 53) x); [|lia].
  destruct (Z.ltb_spec x (2 ^ 53)); [reflexivity | lia].
Qed.

Lemma addOne_limit : addOne (2 ^ 53) = Some (2 ^ 53).
Proof. reflexivity. Qed.

Lemma addOne_nonneg (x y : Z) : 0 <= x -> addOne x = Some y -> 0 <= y.
Proof.
  intros Hx. unfold addOne.
  destruct ((- 2 ^ 53 <=? x) && (x <? 2 ^ 53)); [intros [= <-]; lia|].
  destruct (x =? 2 ^ 53); [intros [= <-]; exact Hx | discriminate].
Qed.

(** [stats[ext] || 0] *)
Lemma current_default (stats : gmap string Z) (ext : string) :
  match stats !! ext with
  | Some v => if v =? 0 then 0 else v
  | None => 0
  end = default 0 (stats !! ext).
Proof.
  destruct (stats !! ext) as [v|]; [|reflexivity]. simpl.
  destruct (Z.eqb_spec v 0); congruence.
Qed.

Lemma nonNegative_increment readOk writeOk ext st st' :
  incrementFilterStat readOk writeOk ext st = Some st' ->
  nonNegative (statsOf st) -> nonNegative (statsOf st').
Proof.
  unfold incrementFilterStat. case_bool_decide as Hin; [discriminate|].
  cbv zeta. rewrite current_default.
  destruct (addOne _) as [next|] eqn:Hnext; [|discriminate].
  intros [= <-] Hnn. destruct writeOk; [|exact Hnn].
  rewrite statsOf_writeStats.
  assert (Hread : nonNegative (getFilterStats (readStats readOk st))).
  { destruct readOk; [exact Hnn|]. intros x v H. simpl in H.
    now rewrite lookup_empty in H. }
  intros x v. destruct (decide (ext = x)) as [<-|Hne].
  - rewrite lookup_insert_eq. intros [= <-].
    apply (addOne_nonneg _ _) in Hnext; [exact Hnext|].
    destruct (getFilterStats (readStats readOk st) !! ext) as [v0|] eqn:E;
      simpl; [|lia].
    exact (Hread ext v0 E).
  - rewrite lookup_insert_ne by exact Hne. apply Hread.
Qed.

(** X17. The extension counters.  When both storage calls succeed,
    [incrementFilterStat] raises the counter of its extension by exactly
    one (starting from zero if there was none) and leaves the other
    counters alone, as long as the counter is below [2^53]; a counter that
    has reached [2^53] stays there, since the sum is no longer a double.
    When the read fails and the write succeeds, the stored statistics
    become the single counter [ext = 1]; when the write fails nothing
    changes.  Over any sequence of increments and session ends, with any
    outcomes of the storage calls, counters that start non-negative stay
    non-negative. *)
Theorem X17_counters (ext : string) (st : LocalStorage) (ops : list StatsOp)
    (st' : LocalStorage) :
  ext ∉ objectPrototypeNames ->
  nonNegative (statsOf st) ->
  foldl applyOp (Some st) ops = Some st' ->
  (default 0 (statsOf st !! ext) < 2 ^ 53 ->
   exists st1, incrementFilterStat true true ext st = Some st1
               /\ statsOf st1 !! ext = Some (default 0 (statsOf st !! ext) + 1)
               /\ (forall x, x <> ext -> statsOf st1 !! x = statsOf st !! x)
               /\ filterConfig st1 = filterConfig st)
  /\ (statsOf st !! ext = Some (2 ^ 53) ->
      exists st1, incrementFilterStat true true ext st = Some st1
                  /\ statsOf st1 = statsOf st
                  /\ filterConfig st1 = filterConfig st)
  /\ (exists st2, incrementFilterStat false true ext st = Some st2
                  /\ statsOf st2 = {[ ext := 1 ]})
  /\ (default 0 (statsOf st !! ext) <= 2 ^ 53 ->
      forall readOk, incrementFilterStat readOk false ext st = Some st)
  /\ nonNegative (statsOf st').
Proof.
  intros Hext Hnn Hrun.
  assert (Hdec : bool_decide (ext ∈ objectPrototypeNames) = false)
    by now apply bool_decide_eq_false.
  assert (Hcur : 0 <= default 0 (statsOf st !! ext)).
  { destruct (statsOf st !! ext) as [v|] eqn:E; simpl; [|lia]. exact (Hnn ext v E). }
  split; [|split; [|split; [|split]]].
  - intros Hlt. unfold incrementFilterStat. rewrite Hdec. cbv zeta.
    rewrite current_default. unfold readStats.
    change (getFilterStats (Resolved (filterStats st))) with (statsOf st).
    rewrite addOne_safe by lia. eexists.
    split; [reflexivity|]. rewrite statsOf_writeStats.
    split; [|split; [|reflexivity]].
    + now rewrite lookup_insert_eq.
    + intros x Hx. now rewrite lookup_insert_ne by congruence.
  - intros Hmax. unfold incrementFilterStat. rewrite Hdec. cbv zeta.
    rewrite current_default. unfold readStats.
    change (getFilterStats (Resolved (filterStats st))) with (statsOf st).
    rewrite Hmax. simpl default. rewrite addOne_limit. eexists.
    split; [reflexivity|]. rewrite statsOf_writeStats.
    split; [|reflexivity]. now apply insert_id.
  - unfold incrementFilterStat. rewrite Hdec. cbv zeta.
    rewrite current_default. unfold readStats.
    change (getFilterStats Rejected) with (∅ : gmap string Z).
    rewrite lookup_empty. simpl default. rewrite (addOne_safe 0) by lia.
    eexists. split; [reflexivity|]. rewrite statsOf_writeStats.
    apply insert_empty.
  - intros Hle readOk. unfold incrementFilterStat. rewrite Hdec. cbv zeta.
    rewrite current_default.
    assert (Hsome : is_Some (addOne (default 0
                       (getFilterStats (readStats readOk st) !! ext)))).
    { destruct readOk; unfold readStats.
      - change (getFilterStats (Resolved (filterStats st))) with (statsOf st).
        destruct (Z.eq_dec (default 0 (statsOf st !! ext)) (2 ^ 53)) as [->|Hne].
        + rewrite addOne_limit. eauto.
        + rewrite addOne_safe by lia. eauto.
      - change (getFilterStats Rejected) with (∅ : gmap string Z).
        rewrite lookup_empty. simpl default. rewrite (addOne_safe 0) by lia. eauto. }
    destruct Hsome as [next ->]. reflexivity.
  - clear Hext Hdec Hcur. revert st Hnn Hrun.
    induction ops as [|op ops IH]; intros st Hnn Hrun; simpl in Hrun.
    + now injection Hrun as <-.
    + destruct op as [r w x|r w sel freq].
      * destruct (incrementFilterStat r w x st) as [st1|] eqn:E.
        -- apply (IH st1); [|exact Hrun]. now apply (nonNegative_increment r w x st).
        -- exfalso. clear -Hrun. induction ops as [|o ops IH]; [discriminate|].
           now apply IH.
      * apply (IH _ (nonNegative_sessionEnd r w sel freq st Hnn) Hrun).
Qed.

Lemma X17_counters_witness :
  nonNegative (statsOf sampleOutcome)
  /\ exists st1, incrementFilterStat true true "py" sampleStats = Some st1
                 /\ statsOf st1 !! "py" = Some 4.
Proof.
  assert (H1 : "py" ∉ objectPrototypeNames)
    by (apply (bool_decide_eq_false_1 _); vm_compute; reflexivity).
  assert (H2 : nonNegative (statsOf sampleStats)).
  { intros ext v H. unfold statsOf, sampleStats in H. simpl in H.
    apply lookup_insert_Some in H as [[_ <-]|[_ H]]; [lia|].
    apply lookup_insert_Some in H as [[_ <-]|[_ H]]; [lia|].
    apply lookup_insert_Some in H as [[_ <-]|[_ H]]; [lia|].
    now rewrite lookup_empty in H. }
  assert (H3 : foldl applyOp (Some sampleStats) sampleOps = Some sampleOutcome)
    by (vm_compute; reflexivity).
  destruct (X17_counters "py" sampleStats sampleOps sampleOutcome H1 H2 H3)
    as (A & _ & _ & _ & B).
  split; [exact B|].
  assert (H4 : default 0 (statsOf sampleStats !! "py") < 2 ^ 53)
    by (vm_compute; reflexivity).
  destruct (A H4) as (st1 & E1 & E2 & _).
  exists st1. split; [exact E1|]. rewrite E2. vm_compute. reflexivity.
Defined.

(** *** The most frequent extensions *)

Lemma insertSorted_perm x l : insertSorted x l ≡ₚ x :: l.
Proof.
  induction l as [|y l IH]; [reflexivity|]. simpl.
  destruct (x.2 <? y.2); [|reflexivity]. rewrite IH. apply Permutation_swap.
Qed.

Lemma sortDescending_perm entries : sortDescending entries ≡ₚ entries.
Proof.
  induction entries as [|x l IH]; [reflexivity|]. simpl.
  now rewrite insertSorted_perm, IH.
Qed.

Lemma insertSorted_sorted x l :
  StronglySorted (fun a b : string * Z => b.2 <= a.2) l ->
  StronglySorted (fun a b : string * Z => b.2 <= a.2) (insertSorted x l).
Proof.
  induction 1 as [|y l Hs IH Hall]; simpl.
  - repeat constructor.
  - destruct (x.2 <? y.2) eqn:E.
    + constructor; [exact IH|]. rewrite insertSorted_perm.
      constructor; [lia | exact Hall].
    + constructor; [now constructor|]. constructor; [lia|].
      eapply Forall_impl; [exact Hall|]. intros z Hz. simpl in Hz. lia.
Qed.

Lemma sortDescending_sorted entries :
  StronglySorted (fun a b : string * Z => b.2 <= a.2) (sortDescending entries).
Proof.
  induction entries as [|x l IH]; [constructor|]. now apply insertSorted_sorted.
Qed.

Lemma keys_functional (entries : list (string * Z)) ext v v' :
  NoDup entries.*1 -> (ext, v) ∈ entries -> (ext, v') ∈ entries -> v = v'.
Proof.
  induction entries as [|[k x] l IH]; intros Hnd H1 H2;
    [now apply elem_of_nil in H1|].
  simpl in Hnd. apply NoDup_cons in Hnd as [Hk Hnd].
  apply elem_of_cons in H1 as [H1|H1]; apply elem_of_cons in H2 as [H2|H2].
  - congruence.
  - exfalso. apply Hk. injection H1 as -> ->.
    apply list_elem_of_fmap. now exists (k, v').
  - exfalso. apply Hk. injection H2 as -> ->.
    apply list_elem_of_fmap. now exists (k, v).
  - now apply IH.
Qed.

(** X23. The frequent extensions.  [renderFileTreeUI] marks at most three
    extensions as frequent, as many as there are counters if fewer; each is
    a counted extension, none is listed twice, and every frequent extension
    has a count at least as large as every counted extension that is not
    frequent. *)
Theorem X23_frequent_extensions (entries : list (string * Z)) :
  length (frequentExtensions entries) = Nat.min 3 (length entries)
  /\ (forall ext, ext ∈ frequentExtensions entries -> ext ∈ entries.*1)
  /\ (NoDup entries.*1 ->
      NoDup (frequentExtensions entries)
      /\ forall ext v ext' v',
           (ext, v) ∈ entries -> (ext', v') ∈ entries ->
           ext ∈ frequentExtensions entries ->
           ext' ∉ frequentExtensions entries ->
           v' <= v).
Proof.
  unfold frequentExtensions, TOP_N_FREQUENT.
  pose proof (sortDescending_perm entries) as Hp.
  pose proof (sortDescending_sorted entries) as Hs.
  set (sorted := sortDescending entries) in *.
  split; [|split].
  - rewrite length_fmap, length_take. now rewrite (Permutation_length Hp).
  - intros ext Hin. apply list_elem_of_fmap in Hin as ([k v] & -> & Hin).
    apply elem_of_take in Hin as (i & Hin & _).
    apply list_elem_of_fmap. exists (k, v). split; [reflexivity|].
    rewrite <- Hp. eapply list_elem_of_lookup_2, Hin.
  - intros Hnd.
    assert (Hnd' : NoDup sorted.*1) by now rewrite Hp.
    split.
    + rewrite fmap_take. eapply sublist_NoDup; [exact Hnd' | apply sublist_take].
    + intros ext v ext' v' He He' Hin Hout.
      apply list_elem_of_fmap in Hin as ([k v0] & Hk & Hin). simpl in Hk. subst k.
      assert (Hv : v0 = v).
      { apply (keys_functional entries ext); [exact Hnd| |exact He].
        rewrite <- Hp. apply elem_of_take in Hin as (i & Hin & _).
        eapply list_elem_of_lookup_2, Hin. }
      subst v0.
      assert (Hdrop : (ext', v') ∈ skipn 3 sorted).
      { rewrite <- Hp, <- (take_drop 3 sorted) in He'.
        apply elem_of_app in He' as [He'|He']; [|exact He'].
        exfalso. apply Hout. apply list_elem_of_fmap. now exists (ext', v'). }
      rewrite <- (take_drop 3 sorted) in Hs.
      exact (StronglySorted_app_1_elem_of _ _ _ _ _ Hs Hin Hdrop).
Qed.

(** *** Extensions of paths *)

Lemma split_shape (sep : ascii) (s : string) :
  exists h t, split sep s = h :: t
              /\ (hasChar sep s = false -> t = [] /\ h = s)
              /\ (hasChar sep s = true -> t <> []).
Proof.
  induction s as [|c r IH]; simpl.
  - exists EmptyString, []. repeat split; auto; discriminate.
  - destruct IH as (h & t & Hs & Hno & Hyes). rewrite Hs.
    destruct (Ascii.eqb c sep) eqn:E; simpl.
    + exists EmptyString, (h :: t). repeat split; try discriminate.
    + exists (String c h), t. split; [reflexivity|]. split.
      * intros Hf. destruct (Hno Hf) as [-> ->]. auto.
      * exact Hyes.
Qed.

Lemma lastSegment_cons (sep c : ascii) (r : string) :
  lastSegment sep (String c r)
  = if hasChar sep r then lastSegment sep r
    else if Ascii.eqb c sep then r else String c r.
Proof.
  unfold lastSegment. simpl.
  destruct (split_shape sep r) as (h & t & Hs & Hno & Hyes). rewrite Hs.
  destruct (hasChar sep r) eqn:Hr.
  - specialize (Hyes eq_refl). destruct t as [|x t]; [contradiction|].
    destruct (Ascii.eqb c sep); reflexivity.
  - destruct (Hno eq_refl) as [-> ->]. destruct (Ascii.eqb c sep); reflexivity.
Qed.

Lemma lastSegment_nosep (sep : ascii) (s : string) :
  hasChar sep s = false -> lastSegment sep s = s.
Proof.
  intros H. unfold lastSegment.
  destruct (split_shape sep s) as (h & t & Hs & Hno & _). rewrite Hs.
  now destruct (Hno H) as [-> ->].
Qed.

Lemma lastSegment_clean (sep : ascii) (s : string) :
  hasChar sep (lastSegment sep s) = false.
Proof.
  induction s as [|c r IH]; [reflexivity|]. rewrite lastSegment_cons.
  destruct (hasChar sep r) eqn:Hr; [exact IH|].
  destruct (Ascii.eqb c sep) eqn:E; [exact Hr|]. simpl. now rewrite E, Hr.
Qed.

Lemma lastSegment_suffix (sep : ascii) (s : string) :
  s = lastSegment sep s
  \/ exists pre, s = pre +:+ String sep (lastSegment sep s).
Proof.
  induction s as [|c r IH]; [now left|]. rewrite lastSegment_cons.
  destruct (hasChar sep r) eqn:Hr.
  - destruct IH as [IH|[pre IH]].
    + pose proof (lastSegment_clean sep r) as Hc. rewrite <- IH in Hc. congruence.
    + right. exists (String c pre). now rewrite append_cons, <- IH.
  - destruct (Ascii.eqb c sep) eqn:E; [|now left].
    apply Ascii.eqb_eq in E. subst. right. exists EmptyString.
    now rewrite append_nil_l.
Qed.

Lemma hasChar_app (a : ascii) (s t : string) :
  hasChar a (s +:+ t) = hasChar a s || hasChar a t.
Proof.
  induction s as [|c s IH]; [now rewrite append_nil_l|].
  rewrite append_cons. simpl. rewrite IH. now rewrite orb_assoc.
Qed.

Lemma hasChar_lastSegment (a sep : ascii) (s : string) :
  hasChar a (lastSegment sep s) = true -> hasChar a s = true.
Proof.
  intros H. destruct (lastSegment_suffix sep s) as [Hs|[pre Hs]]; rewrite Hs.
  - exact H.
  - rewrite hasChar_app. simpl. rewrite H. now rewrite !orb_true_r.
Qed.

(** X18. Two ways to the extension of a file.  [renderTree] gives a file
    item the part of its name (the last segment of the path) after the last
    dot, while [updateFilterStatsOnSessionEnd] takes the part of the whole
    path after the last dot.  Both contain no dot; they agree whenever the
    file name contains a dot, and for a path without any dot the second is
    the whole path; but for a file name without dot below a directory with
    a dot in its name, the second contains a slash and so differs from the
    extension of the tree item. *)
Theorem X18_extension_of_path (path : string) :
  hasChar "." (usedExtension path) = false
  /\ hasChar "." (itemExtension path) = false
  /\ hasChar "/" (itemExtension path) = false
  /\ (hasChar "." (lastSegment "/" path) = true ->
      usedExtension path = itemExtension path)
  /\ (hasChar "." path = false -> usedExtension path = path)
  /\ (hasChar "." (lastSegment "/" path) = false ->
      hasChar "." path = true ->
      hasChar "/" (usedExtension path) = true
      /\ usedExtension path <> itemExtension path).
Proof.
  unfold usedExtension, itemExtension.
  assert (Hslash : hasChar "/" (lastSegment "." (lastSegment "/" path)) = false).
  { destruct (hasChar "/" (lastSegment "." (lastSegment "/" path))) eqn:E;
      [|reflexivity].
    apply hasChar_lastSegment in E. now rewrite lastSegment_clean in E. }
  split; [apply lastSegment_clean|]. split; [apply lastSegment_clean|].
  split; [exact Hslash|]. split; [|split; [apply lastSegment_nosep|]].
  - clear Hslash. induction path as [|c r IH]; [reflexivity|].
    rewrite (lastSegment_cons "/"). destruct (hasChar "/" r) eqn:Hr.
    + intros H. rewrite <- (IH H). rewrite lastSegment_cons.
      now rewrite (hasChar_lastSegment _ _ _ H).
    + destruct (Ascii.eqb c "/") eqn:E; [|reflexivity].
      intros H. rewrite lastSegment_cons. now rewrite H.
  - intros Hname Hpath.
    assert (H : hasChar "/" (lastSegment "." path) = true).
    { clear Hslash. induction path as [|c r IH]; [discriminate|].
      rewrite (lastSegment_cons "/") in Hname. rewrite lastSegment_cons.
      simpl in Hpath. destruct (hasChar "." r) eqn:Hdot.
      - apply IH; [|reflexivity].
        destruct (hasChar "/" r) eqn:Hr; [exact Hname|].
        destruct (Ascii.eqb c "/"); [congruence|]. simpl in Hname.
        rewrite Hdot in Hname. now rewrite orb_true_r in Hname.
      - rewrite orb_false_r in Hpath. rewrite Hpath.
        apply Ascii.eqb_eq in Hpath. subst c.
        destruct (hasChar "/" r) eqn:Hr; [reflexivity|].
        simpl in Hname. discriminate. }
    split; [exact H|]. intros Heq. rewrite Heq in H. congruence.
Qed.

End FilterStatsFacts.

(** ** The file selector *)

Section SelectionFacts.
Import JsString Filters FilterStats Selection.

Lemma withChecked_same (cb : Checkbox) : withChecked (checked cb) cb = cb.
Proof. now destruct cb. Qed.

Lemma layout_insert (bs : list Checkbox) j cb v :
  bs !! j = Some cb -> layout (<[j := withChecked v cb]> bs) = layout bs.
Proof.
  intros H. unfold layout. rewrite list_fmap_insert. apply list_insert_id.
  now rewrite list_lookup_fmap, H.
Qed.

Lemma layout_lookup (bs bs' : list Checkbox) j cb' :
  layout bs' = layout bs -> bs' !! j = Some cb' ->
  exists cb, bs !! j = Some cb
             /\ dataPath cb = dataPath cb' /\ dataExt cb = dataExt cb'
             /\ span cb = span cb'.
Proof.
  intros Hl H. assert (Hj : layout bs' !! j = layout bs !! j) by now rewrite Hl.
  unfold layout in Hj. rewrite !list_lookup_fmap, H in Hj.
  destruct (bs !! j) as [cb|]; [|discriminate]. simpl in Hj.
  exists cb. split; [reflexivity|]. injection Hj as H1 H2 H3. auto.
Qed.

Lemma spanPositive_layout bs bs' :
  layout bs' = layout bs -> spanPositive bs -> spanPositive bs'.
Proof.
  intros Hl H j cb' Hj. destruct (layout_lookup bs bs' j cb' Hl Hj) as (cb & A & _ & _ & B).
  rewrite <- B. now apply (H j).
Qed.

Lemma filesAreLeaves_layout bs bs' :
  layout bs' = layout bs -> filesAreLeaves bs -> filesAreLeaves bs'.
Proof.
  intros Hl H j cb' Hj He.
  destruct (layout_lookup bs bs' j cb' Hl Hj) as (cb & A & _ & E & B).
  rewrite <- B. apply (H j cb A). now rewrite E.
Qed.

Lemma pathsDistinct_layout bs bs' :
  layout bs' = layout bs -> pathsDistinct bs -> pathsDistinct bs'.
Proof.
  intros Hl H i j a' b' Hi Hj Hp Hne.
  destruct (layout_lookup bs bs' i a' Hl Hi) as (a & A & Pa & _).
  destruct (layout_lookup bs bs' j b' Hl Hj) as (b & B & Pb & _).
  apply (H i j a b A B); congruence.
Qed.

Lemma updateChild_lookup v s j k :
  boxes (updateChild v s j) !! k
  = if decide (k = j) then withChecked v <$> boxes s !! k else boxes s !! k.
Proof.
  unfold updateChild. destruct (boxes s !! j) as [child|] eqn:Hj.
  - simpl. destruct (decide (k = j)) as [->|Hne].
    + rewrite Hj. simpl. case_bool_decide as E.
      * apply list_lookup_insert_eq. eapply lookup_lt_Some, Hj.
      * rewrite Hj. f_equal.
        assert (checked child = v) by (destruct (checked child), v; congruence).
        subst v. now rewrite withChecked_same.
    + case_bool_decide; [|reflexivity]. apply list_lookup_insert_ne. congruence.
  - destruct (decide (k = j)) as [->|Hne]; [now rewrite Hj | reflexivity].
Qed.

Lemma layout_ext (bs bs' : list Checkbox) :
  (forall k, withChecked false <$> bs' !! k = withChecked false <$> bs !! k) ->
  layout bs' = layout bs.
Proof.
  intros H. apply list_eq. intros k. unfold layout. now rewrite !list_lookup_fmap.
Qed.

Lemma updateChild_layout v s j :
  layout (boxes (updateChild v s j)) = layout (boxes s).
Proof.
  apply layout_ext. intros k. rewrite updateChild_lookup.
  destruct (decide (k = j)); [|reflexivity]. now destruct (boxes s !! k).
Qed.

Lemma updateChild_selected v s j p :
  p ∈ selectedFiles (updateChild v s j) <->
  match boxes s !! j with
  | Some child =>
      if bool_decide (dataPath child <> EmptyString)
      then (if v then p = dataPath child \/ p ∈ selectedFiles s
            else p ∈ selectedFiles s /\ p <> dataPath child)
      else p ∈ selectedFiles s
  | None => p ∈ selectedFiles s
  end.
Proof.
  unfold updateChild. destruct (boxes s !! j) as [child|]; [|reflexivity].
  simpl. case_bool_decide; [|reflexivity]. destruct v.
  - rewrite elem_of_union, elem_of_singleton. reflexivity.
  - rewrite elem_of_difference, elem_of_singleton. reflexivity.
Qed.

Lemma updateChild_consistent v s j :
  pathsDistinct (boxes s) ->
  consistentAt (updateChild v s j) j
  /\ (forall k, k <> j -> consistentAt s k -> consistentAt (updateChild v s j) k)
  /\ (accounted s -> accounted (updateChild v s j)).
Proof.
  intros Hd. split; [|split].
  - intros cb Hcb Hne. rewrite updateChild_lookup, decide_True in Hcb by reflexivity.
    rewrite updateChild_selected.
    destruct (boxes s !! j) as [child|]; [|discriminate]. simpl in Hcb.
    injection Hcb as <-. simpl in *. rewrite bool_decide_true by exact Hne.
    destruct v; [tauto|]. split; [intros [_ H]; congruence | discriminate].
  - intros k Hk Hc cb Hcb Hne.
    rewrite updateChild_lookup, decide_False in Hcb by exact Hk.
    rewrite updateChild_selected. specialize (Hc cb Hcb Hne).
    destruct (boxes s !! j) as [child|] eqn:Hj; [|exact Hc].
    case_bool_decide as Hp; [|exact Hc].
    assert (Hdiff : dataPath cb <> dataPath child).
    { intros Heq. apply Hk. now apply (Hd k j cb child). }
    destruct v; [|tauto]. rewrite <- Hc. tauto.
  - intros Ha p Hp. rewrite updateChild_selected in Hp.
    assert (Hold : p ∈ selectedFiles s ->
                   exists i cb, boxes (updateChild v s j) !! i = Some cb
                                /\ dataPath cb = p /\ p <> EmptyString).
    { intros Hin. destruct (Ha p Hin) as (i & cb & Hi & Hpath & Hne).
      rewrite <- Hpath in *. clear Hpath.
      destruct (decide (i = j)) as [->|Hij].
      - exists j, (withChecked v cb). split; [|auto].
        rewrite updateChild_lookup, decide_True by reflexivity. now rewrite Hi.
      - exists i, cb. split; [|auto].
        now rewrite updateChild_lookup, decide_False by exact Hij. }
    destruct (boxes s !! j) as [child|] eqn:Hj; [|now apply Hold].
    case_bool_decide as Hne; [|now apply Hold].
    destruct v; [|now apply Hold].
    destruct Hp as [->|Hp]; [|now apply Hold].
    exists j, (withChecked true child). split; [|auto].
    rewrite updateChild_lookup, decide_True by reflexivity. now rewrite Hj.
Qed.

Lemma fold_updateChild v (l : list nat) s :
  pathsDistinct (boxes s) ->
  layout (boxes (foldl (updateChild v) s l)) = layout (boxes s)
  /\ (forall k, boxes (foldl (updateChild v) s l) !! k
                = if decide (k ∈ l) then withChecked v <$> boxes s !! k
                  else boxes s !! k)
  /\ (forall k, k ∈ l \/ consistentAt s k -> consistentAt (foldl (updateChild v) s l) k)
  /\ (accounted s -> accounted (foldl (updateChild v) s l)).
Proof.
  revert s. induction l as [|j l IH]; intros s Hd; simpl.
  - split; [reflexivity|]. split; [reflexivity|]. split; [|auto].
    intros k [Hk|Hk]; [now apply elem_of_nil in Hk | exact Hk].
  - pose proof (updateChild_layout v s j) as Hl.
    destruct (IH (updateChild v s j) (pathsDistinct_layout _ _ Hl Hd))
      as (A & B & C & D).
    destruct (updateChild_consistent v s j Hd) as (E & F & G).
    split; [congruence|]. split; [|split].
    + intros k. rewrite B, updateChild_lookup.
      destruct (decide (k = j)) as [->|Hne].
      * rewrite (decide_True (P := j ∈ j :: l)) by apply list_elem_of_here.
        destruct (decide (j ∈ l)); [|reflexivity]. now destruct (boxes s !! j).
      * destruct (decide (k ∈ l)) as [Hin|Hin].
        -- now rewrite decide_True by now apply list_elem_of_further.
        -- rewrite decide_False; [reflexivity|].
           intros H. apply elem_of_cons in H as [?|?]; contradiction.
    + intros k Hk. apply C.
      destruct (decide (k = j)) as [->|Hne]; [now right|].
      destruct Hk as [Hk|Hk].
      * apply elem_of_cons in Hk as [?|?]; [contradiction | now left].
      * right. now apply F.
    + intros Ha. now apply D, G.
Qed.

Lemma onChange_spec i s cb :
  boxes s !! i = Some cb ->
  pathsDistinct (boxes s) ->
  layout (boxes (onChange i s)) = layout (boxes s)
  /\ (forall k, boxes (onChange i s) !! k
                = if decide (i <= k < i + span cb)%nat
                  then withChecked (checked cb) <$> boxes s !! k
                  else boxes s !! k)
  /\ (forall k, (i <= k < i + span cb)%nat \/ consistentAt s k ->
                consistentAt (onChange i s) k)
  /\ (accounted s -> accounted (onChange i s)).
Proof.
  intros Hi Hd. unfold onChange. rewrite Hi.
  destruct (fold_updateChild (checked cb) (seq i (span cb)) s Hd) as (A & B & C & D).
  split; [exact A|]. split; [|split; [|exact D]].
  - intros k. rewrite B.
    destruct (decide (k ∈ seq i (span cb))) as [Hin|Hin];
      destruct (decide (i <= k < i + span cb)%nat) as [Hr|Hr]; try reflexivity;
      exfalso; apply Hin || apply Hr; now apply elem_of_seq.
  - intros k [Hk|Hk]; apply C; [left; now apply elem_of_seq | now right].
Qed.

(** A check box is given the state [v], by the user or by a filter
    handler, and the [change] listener runs. *)
Lemma click_spec i v s cb :
  boxes s !! i = Some cb ->
  pathsDistinct (boxes s) ->
  spanPositive (boxes s) ->
  selectionExact s ->
  layout (boxes (onChange i (withBox i v cb s))) = layout (boxes s)
  /\ selectionExact (onChange i (withBox i v cb s))
  /\ (forall k, boxes (onChange i (withBox i v cb s)) !! k
                = if decide (i <= k < i + span cb)%nat
                  then withChecked v <$> boxes s !! k
                  else boxes s !! k).
Proof.
  intros Hi Hd Hsp [Hc Ha].
  assert (Hl0 : layout (boxes (withBox i v cb s)) = layout (boxes s))
    by now apply layout_insert.
  assert (Hi0 : boxes (withBox i v cb s) !! i = Some (withChecked v cb))
    by (simpl; apply list_lookup_insert_eq; eapply lookup_lt_Some, Hi).
  assert (Hk0 : forall k, k <> i -> boxes (withBox i v cb s) !! k = boxes s !! k)
    by (intros k Hk; simpl; apply list_lookup_insert_ne; congruence).
  destruct (onChange_spec i (withBox i v cb s) (withChecked v cb) Hi0
              (pathsDistinct_layout _ _ Hl0 Hd)) as (A & B & C & D).
  change (span (withChecked v cb)) with (span cb) in B, C.
  change (checked (withChecked v cb)) with v in B.
  pose proof (Hsp i cb Hi) as Hpos.
  split; [congruence|]. split; [split|].
  - intros k. apply C. destruct (decide (k = i)) as [->|Hne]; [left; lia|].
    right. intros cb' Hcb'. rewrite (Hk0 k Hne) in Hcb'. now apply (Hc k cb').
  - apply D. intros p Hp. destruct (Ha p Hp) as (j & cbj & Hj & Hpath & Hne).
    destruct (decide (j = i)) as [->|Hji].
    + exists i, (withChecked v cb). split; [exact Hi0|]. split; [|exact Hne].
      simpl. congruence.
    + exists j, cbj. now rewrite (Hk0 j Hji).
  - intros k. rewrite B.
    destruct (decide (i <= k < i + span cb)%nat) as [Hr|Hr].
    + destruct (decide (k = i)) as [->|Hne]; [now rewrite Hi0, Hi|].
      now rewrite (Hk0 k Hne).
    + apply Hk0. lia.
Qed.

Lemma toggleStep_spec v s j :
  pathsDistinct (boxes s) ->
  spanPositive (boxes s) ->
  selectionExact s ->
  layout (boxes (toggleStep v s j)) = layout (boxes s)
  /\ selectionExact (toggleStep v s j)
  /\ (forall cb, boxes s !! j = Some cb -> span cb = 1%nat ->
      forall k, boxes (toggleStep v s j) !! k
                = if decide (k = j) then withChecked v <$> boxes s !! k
                  else boxes s !! k).
Proof.
  intros Hd Hsp Hex. unfold toggleStep.
  destruct (boxes s !! j) as [cb|] eqn:Hj; [|split; [reflexivity|split; [exact Hex|]]].
  2:{ intros cb Hcb. discriminate. }
  case_bool_decide as E.
  - change (onChange j _) with (onChange j (withBox j v cb s)).
    destruct (click_spec j v s cb Hj Hd Hsp Hex) as (A & B & C).
    split; [exact A|]. split; [exact B|].
    intros cb' [= <-] Hspan k. rewrite (C k), Hspan.
    destruct (decide (j <= k < j + 1)%nat); destruct (decide (k = j));
      try reflexivity; lia.
  - split; [reflexivity|]. split; [exact Hex|].
    intros cb' [= <-] _ k. destruct (decide (k = j)) as [->|]; [|reflexivity].
    rewrite Hj. simpl. f_equal.
    assert (checked cb = v) by (destruct (checked cb), v; congruence).
    subst v. now rewrite withChecked_same.
Qed.

Lemma toggle_fold v (targets : list nat) s :
  pathsDistinct (boxes s) ->
  spanPositive (boxes s) ->
  selectionExact s ->
  layout (boxes (foldl (toggleStep v) s targets)) = layout (boxes s)
  /\ selectionExact (foldl (toggleStep v) s targets)
  /\ (filesAreLeaves (boxes s) ->
      (forall j, j ∈ targets ->
                 exists cb, boxes s !! j = Some cb /\ is_Some (dataExt cb)) ->
      forall k, boxes (foldl (toggleStep v) s targets) !! k
                = if decide (k ∈ targets) then withChecked v <$> boxes s !! k
                  else boxes s !! k).
Proof.
  revert s. induction targets as [|j l IH]; intros s Hd Hsp Hex; simpl.
  - split; [reflexivity|]. split; [exact Hex|]. reflexivity.
  - destruct (toggleStep_spec v s j Hd Hsp Hex) as (A & B & C).
    destruct (IH (toggleStep v s j) (pathsDistinct_layout _ _ A Hd)
                (spanPositive_layout _ _ A Hsp) B) as (A' & B' & C').
    split; [congruence|]. split; [exact B'|].
    intros Hleaf Hfiles k.
    destruct (Hfiles j (list_elem_of_here _ _)) as (cb & Hj & Hext).
    pose proof (C cb Hj (Hleaf j cb Hj Hext)) as Hstep.
    rewrite C'.
    + rewrite Hstep. destruct (decide (k = j)) as [->|Hne].
      * rewrite (decide_True (P := j ∈ j :: l)) by apply list_elem_of_here.
        destruct (decide (j ∈ l)); [|reflexivity]. now destruct (boxes s !! j).
      * destruct (decide (k ∈ l)) as [Hin|Hin].
        -- now rewrite decide_True by now apply list_elem_of_further.
        -- rewrite decide_False; [reflexivity|].
           intros H. apply elem_of_cons in H as [?|?]; contradiction.
    + now apply (filesAreLeaves_layout (boxes s)).
    + intros j' Hj'. destruct (Hfiles j' (list_elem_of_further _ _ _ Hj'))
        as (cb' & Hcb' & Hext').
      rewrite Hstep. destruct (decide (j' = j)) as [->|Hne].
      * rewrite Hj. simpl. eauto.
      * eauto.
Qed.

Lemma toggleTargets_spec (targets : list nat) s :
  pathsDistinct (boxes s) ->
  spanPositive (boxes s) ->
  selectionExact s ->
  layout (boxes (toggleTargets targets s)) = layout (boxes s)
  /\ selectionExact (toggleTargets targets s).
Proof.
  intros Hd Hsp Hex. unfold toggleTargets.
  destruct (toggle_fold (existsb (isUnchecked (boxes s)) targets) targets s Hd Hsp Hex)
    as (A & B & _).
  now split.
Qed.

Lemma step_spec toLowerCase e s :
  pathsDistinct (boxes s) ->
  spanPositive (boxes s) ->
  selectionExact s ->
  layout (boxes (Selection.step toLowerCase s e)) = layout (boxes s)
  /\ selectionExact (Selection.step toLowerCase s e).
Proof.
  intros Hd Hsp Hex. destruct e as [i|ext|key config]; simpl.
  - unfold userClick. destruct (boxes s !! i) as [cb|] eqn:Hi; [|now split].
    destruct (click_spec i (negb (checked cb)) s cb Hi Hd Hsp Hex) as (A & B & _).
    now split.
  - now apply toggleTargets_spec.
  - unfold handleUniversalFilterClick.
    destruct (universalTargets _ _ _ _) as [targets|]; [|now split].
    destruct (0 <? length targets)%nat; [now apply toggleTargets_spec | now split].
Qed.

Lemma rendered_exact bs : selectionExact (rendered bs).
Proof.
  split.
  - intros j cb Hcb _. simpl in *. rewrite list_lookup_fmap in Hcb.
    destruct (bs !! j); [|discriminate]. injection Hcb as <-. simpl.
    split; [intros H; now apply elem_of_empty in H | discriminate].
  - intros p Hp. now apply elem_of_empty in Hp.
Qed.

Lemma rendered_layout bs : layout (boxes (rendered bs)) = layout bs.
Proof.
  unfold rendered, layout. simpl. rewrite <- list_fmap_compose.
  apply list_fmap_ext. now intros i [].
Qed.

(** X19. [selectedFiles] is exactly the set of checked paths.  From the
    file selector as it is rendered (every box unchecked, nothing
    selected), after any sequence of clicks on check boxes, on extension
    buttons and on universal filter buttons: a non-empty path is in
    [selectedFiles] exactly if its check box is checked (directories
    included, since their boxes carry a path too), [selectedFiles] holds
    nothing else, and the tree itself (paths, extensions, nesting) is as it
    was rendered.  This needs the rendered paths to be distinct. *)
Theorem X19_selected_files_exact (toLowerCase : string -> string)
    (bs : list Checkbox) (evs : list Selection.Event) :
  pathsDistinct bs ->
  spanPositive bs ->
  let s := foldl (Selection.step toLowerCase) (rendered bs) evs in
  layout (boxes s) = layout bs
  /\ (forall j cb, boxes s !! j = Some cb -> dataPath cb <> EmptyString ->
                   (dataPath cb ∈ selectedFiles s <-> checked cb = true))
  /\ (forall p, p ∈ selectedFiles s ->
                exists j cb, boxes s !! j = Some cb /\ dataPath cb = p
                             /\ checked cb = true /\ p <> EmptyString).
Proof.
  intros Hd Hsp. cbv zeta.
  assert (H : layout (boxes (foldl (Selection.step toLowerCase) (rendered bs) evs))
              = layout bs
              /\ selectionExact (foldl (Selection.step toLowerCase) (rendered bs) evs)).
  { induction evs as [|e evs IH] using rev_ind.
    - split; [apply rendered_layout | apply rendered_exact].
    - rewrite foldl_snoc. destruct IH as [A B].
      destruct (step_spec toLowerCase e _ (pathsDistinct_layout _ _ A Hd)
                  (spanPositive_layout _ _ A Hsp) B) as [A' B'].
      split; [congruence | exact B']. }
  destruct H as [A [B C]]. split; [exact A|]. split; [exact B|].
  intros p Hp. destruct (C p Hp) as (j & cb & Hj & Hpath & Hne).
  exists j, cb. split; [exact Hj|]. split; [exact Hpath|]. split; [|exact Hne].
  apply (B j cb Hj); congruence.
Qed.

Lemma sampleBoxes_distinct : pathsDistinct sampleBoxes.
Proof.
  intros i j a b Hi Hj Hp Hne.
  destruct i as [|[|[|[|i]]]], j as [|[|[|[|j]]]]; simpl in *;
    try discriminate; try reflexivity;
    injection Hi as <-; injection Hj as <-; discriminate.
Qed.

Lemma sampleBoxes_positive : spanPositive sampleBoxes.
Proof.
  intros j cb Hj. destruct j as [|[|[|[|j]]]]; simpl in *; try discriminate;
    injection Hj as <-; simpl; lia.
Qed.

Lemma sampleBoxes_leaves : filesAreLeaves sampleBoxes.
Proof.
  intros j cb Hj [e He]. destruct j as [|[|[|[|j]]]]; simpl in *; try discriminate;
    injection Hj as <-; simpl in *; try reflexivity; discriminate.
Qed.

Lemma X19_selected_files_exact_witness :
  layout (boxes (foldl (Selection.step (fun x => x)) (rendered sampleBoxes) sampleClicks))
  = layout sampleBoxes.
Proof.
  exact (proj1 (X19_selected_files_exact (fun x => x) sampleBoxes sampleClicks
                  sampleBoxes_distinct sampleBoxes_positive)).
Defined.

Lemma elem_of_fileIndices (p : Checkbox -> bool) (bs : list Checkbox) k :
  k ∈ fileIndices p bs
  <-> exists cb, bs !! k = Some cb /\ is_Some (dataExt cb) /\ p cb = true.
Proof.
  unfold fileIndices. rewrite list_elem_of_filter, elem_of_seq. unfold isFileWith.
  split.
  - intros [H _]. destruct (bs !! k) as [cb|]; [|discriminate].
    exists cb. destruct (dataExt cb); [eauto | discriminate].
  - intros (cb & Hk & [e He] & Hp). rewrite Hk, He. split; [exact Hp|].
    apply lookup_lt_Some in Hk. lia.
Qed.

Lemma fileIndices_layout (p : Checkbox -> bool) (bs bs' : list Checkbox) :
  (forall cb v, p (withChecked v cb) = p cb) ->
  layout bs' = layout bs ->
  fileIndices p bs' = fileIndices p bs.
Proof.
  intros Hp Hl. unfold fileIndices.
  assert (Hlen : length bs' = length bs).
  { apply (f_equal length) in Hl. unfold layout in Hl.
    now rewrite !length_fmap in Hl. }
  rewrite Hlen. apply list_filter_iff. intros k.
  assert (Hk : isFileWith p bs' k = isFileWith p bs k); [|now rewrite Hk].
  unfold isFileWith.
  assert (Hj : layout bs' !! k = layout bs !! k) by now rewrite Hl.
  unfold layout in Hj. rewrite !list_lookup_fmap in Hj.
  destruct (bs' !! k) as [a|], (bs !! k) as [b|]; try discriminate; [|reflexivity].
  simpl in Hj. apply (inj Some) in Hj.
  assert (Ha : dataExt a = dataExt b)
    by (change (dataExt (withChecked false a) = dataExt (withChecked false b));
        now rewrite Hj).
  rewrite Ha. destruct (dataExt b); [|reflexivity].
  rewrite <- (Hp a false), <- (Hp b false). now rewrite Hj.
Qed.

Lemma existsb_const {A : Type} (f : A -> bool) (b : bool) (l : list A) :
  l <> [] -> (forall x, x ∈ l -> f x = b) -> existsb f l = b.
Proof.
  induction l as [|x l IH]; [contradiction|]. intros _ Hall. simpl.
  rewrite (Hall x) by apply list_elem_of_here.
  destruct l as [|y l]; [simpl; now rewrite orb_false_r|].
  rewrite IH; [now destruct b | discriminate|].
  intros z Hz. apply Hall. now apply list_elem_of_further.
Qed.

(** X20. A click on the button of an extension that is free of the
    characters special in a CSS string (quotation mark, backslash, line
    breaks, NUL), so that the selector built from it selects the file items
    of that extension.  The statistics get the increment whatever the state
    of the boxes.  With [v] true exactly if some file of that extension is
    unchecked, every file item of the extension ends up in state [v], every
    other box is as it was, and [selectedFiles] is again exactly the set of
    checked paths; so the first click selects all files of the extension
    unless all were selected, and a second click right after it deselects
    them all. *)
Theorem X20_extension_click (readOk writeOk : bool) (ext : string)
    (st : LocalStorage) (s : Crafter) :
  selectorPlain ext = true ->
  pathsDistinct (boxes s) ->
  spanPositive (boxes s) ->
  filesAreLeaves (boxes s) ->
  selectionExact s ->
  let targets := fileIndices (fun cb => bool_decide (dataExt cb = Some ext)) (boxes s) in
  let v := existsb (isUnchecked (boxes s)) targets in
  (handleExtensionFilterClick readOk writeOk ext st s).1
    = incrementFilterStat readOk writeOk ext st
  /\ exists s',
      (handleExtensionFilterClick readOk writeOk ext st s).2 = Some s'
      /\ (forall k, boxes s' !! k
                    = (fun cb => if bool_decide (dataExt cb = Some ext)
                                 then withChecked v cb else cb) <$> boxes s !! k)
      /\ selectionExact s'
      /\ (v = true <-> exists k cb, boxes s !! k = Some cb /\ dataExt cb = Some ext
                                    /\ checked cb = false)
      /\ (targets <> [] ->
          existsb (isUnchecked (boxes s'))
            (fileIndices (fun cb => bool_decide (dataExt cb = Some ext)) (boxes s'))
          = negb v).
Proof.
  intros Hplain Hd Hsp Hleaf Hex. cbv zeta. unfold handleExtensionFilterClick.
  cbn [fst snd]. rewrite Hplain.
  split; [reflexivity|]. eexists. split; [reflexivity|].
  set (p := fun cb : Checkbox => bool_decide (dataExt cb = Some ext)).
  set (targets := fileIndices p (boxes s)).
  set (v := existsb (isUnchecked (boxes s)) targets).
  assert (Hin : forall k, k ∈ targets <->
                          exists cb, boxes s !! k = Some cb /\ dataExt cb = Some ext).
  { intros k. subst targets. rewrite elem_of_fileIndices. split.
    - intros (cb & Hk & _ & Hp). exists cb. split; [exact Hk|].
      now apply bool_decide_eq_true in Hp.
    - intros (cb & Hk & He). exists cb. split; [exact Hk|].
      split; [rewrite He; eauto|]. now apply bool_decide_eq_true. }
  destruct (toggle_fold v targets s Hd Hsp Hex) as (A & B & C).
  assert (Hbox : forall k, boxes (toggleTargets targets s) !! k
                           = (fun cb => if p cb then withChecked v cb else cb)
                               <$> boxes s !! k).
  { intros k. unfold toggleTargets. fold v. rewrite C; [|exact Hleaf|].
    - destruct (decide (k ∈ targets)) as [Hk|Hk].
      + apply Hin in Hk as (cb & Hk & He). rewrite Hk. simpl. f_equal.
        unfold p. now rewrite bool_decide_true.
      + destruct (boxes s !! k) as [cb|] eqn:Hcb; [|reflexivity]. simpl. f_equal.
        unfold p. rewrite bool_decide_false; [reflexivity|].
        intros He. apply Hk, Hin. eauto.
    - intros j Hj. apply Hin in Hj as (cb & Hj & He). exists cb.
      split; [exact Hj|]. rewrite He. eauto. }
  split; [exact Hbox|]. split; [exact B|]. split.
  - subst v. rewrite existsb_exists. split.
    + intros (k & Hk & Hu). apply list_elem_of_In, Hin in Hk as (cb & Hk & He).
      exists k, cb. split; [exact Hk|]. split; [exact He|].
      unfold isUnchecked in Hu. rewrite Hk in Hu. now destruct (checked cb).
    + intros (k & cb & Hk & He & Hc). exists k. split.
      * apply list_elem_of_In, Hin. eauto.
      * unfold isUnchecked. now rewrite Hk, Hc.
  - intros Hne.
    rewrite (fileIndices_layout p (boxes s)); [|reflexivity|exact A].
    apply existsb_const; [exact Hne|].
    intros k Hk. apply Hin in Hk as (cb & Hk & He).
    unfold isUnchecked. rewrite Hbox, Hk. simpl. unfold p.
    now rewrite bool_decide_true.
Qed.

Lemma X20_extension_click_witness :
  selectorPlain "py" = true
  /\ exists s',
      (handleExtensionFilterClick true true "py"
         {| filterConfig := None; filterStats := None |} (rendered sampleBoxes)).2
      = Some s'
      /\ boxes s' !! 3%nat
         = Some {| dataPath := "c.py"; dataExt := Some "py"; checked := true;
                   span := 1 |}.
Proof.
  assert (Hp : selectorPlain "py" = true) by (vm_compute; reflexivity).
  assert (Hl : layout (boxes (rendered sampleBoxes)) = layout sampleBoxes)
    by apply rendered_layout.
  destruct (X20_extension_click true true "py"
              {| filterConfig := None; filterStats := None |} (rendered sampleBoxes)
              Hp
              (pathsDistinct_layout _ _ Hl sampleBoxes_distinct)
              (spanPositive_layout _ _ Hl sampleBoxes_positive)
              (filesAreLeaves_layout _ _ Hl sampleBoxes_leaves)
              (rendered_exact sampleBoxes)) as (_ & s' & E & H & _).
  split; [exact Hp|]. exists s'. split; [exact E|].
  rewrite (H 3%nat). reflexivity.
Defined.

(** X21. A click on a check box of the tree.  The box and every box
    inside its tree item (for a directory: all files and directories below
    it) take the new state of the clicked box, and their non-empty paths
    are added to or removed from [selectedFiles] accordingly; every box
    outside the item, its ancestors included, is as it was; and
    [selectedFiles] is again exactly the set of checked paths. *)
Theorem X21_tree_click (i : nat) (s : Crafter) (cb : Checkbox) :
  boxes s !! i = Some cb ->
  pathsDistinct (boxes s) ->
  spanPositive (boxes s) ->
  selectionExact s ->
  (forall k, boxes (userClick i s) !! k
             = if decide (i <= k < i + span cb)%nat
               then withChecked (negb (checked cb)) <$> boxes s !! k
               else boxes s !! k)
  /\ (forall k cbk, (i <= k < i + span cb)%nat -> boxes s !! k = Some cbk ->
                    dataPath cbk <> EmptyString ->
                    (dataPath cbk ∈ selectedFiles (userClick i s)
                     <-> checked cb = false))
  /\ selectionExact (userClick i s)
  /\ layout (boxes (userClick i s)) = layout (boxes s).
Proof.
  intros Hi Hd Hsp Hex. unfold userClick. rewrite Hi.
  change (onChange i _) with (onChange i (withBox i (negb (checked cb)) cb s)).
  destruct (click_spec i (negb (checked cb)) s cb Hi Hd Hsp Hex) as (A & B & C).
  split; [exact C|]. split; [|split; [exact B | exact A]].
  intros k cbk Hk Hcbk Hne. destruct B as [Hc _].
  specialize (Hc k (withChecked (negb (checked cb)) cbk)).
  rewrite C, decide_True, Hcbk in Hc by exact Hk. simpl in Hc.
  rewrite (Hc eq_refl Hne). now destruct (checked cb).
Qed.

Lemma X21_tree_click_witness :
  "src/b.js" ∈ selectedFiles (userClick 0 (rendered sampleBoxes)).
Proof.
  assert (Hl : layout (boxes (rendered sampleBoxes)) = layout sampleBoxes)
    by apply rendered_layout.
  destruct (X21_tree_click 0 (rendered sampleBoxes) _ eq_refl
              (pathsDistinct_layout _ _ Hl sampleBoxes_distinct)
              (spanPositive_layout _ _ Hl sampleBoxes_positive)
              (rendered_exact sampleBoxes)) as (_ & H & _).
  apply (H 2%nat (withChecked false
                    {| dataPath := "src/b.js"; dataExt := Some "js";
                       checked := false; span := 1 |}));
    [simpl; lia | reflexivity | discriminate | reflexivity].
Defined.

End SelectionFacts.

(** ** The throttle never loses a wake-up *)

Section ThrottleFacts.
Import JsString Shortener Wiring Throttling.
Context {browser : Browser}.




Lemma sound_weaken x w : scheduleSound None w -> scheduleSound x w.
Proof.
  intros (A & B & C). split; [exact A|]. split; [|exact C].
  intros c t _. now apply B.
Qed.













Lemma sound_throttledProcess x c w :
  scheduleSound x w -> scheduleSound x (throttledProcess c w).
Proof.
  intros (A & B & C). unfold throttledProcess.
  destruct (throttleTimeoutId w !! c) as [t0|] eqn:E; [now split|].
  simpl. split; [|split].
  - intros t cb. simpl. rewrite lookup_insert. case_decide.
    + intros _. subst. lia.
    + intros H'. apply A in H'. lia.
  - intros c' t Hx. simpl. rewrite !lookup_insert. case_decide as E1.
    + intros [= <-]. subst c'. now rewrite decide_True.
    + intros Hc'. pose proof (B c' t Hx Hc') as H'. case_decide as E2; [|exact H'].
      subst t. apply A in H'. lia.
  - intros c' t Hc'. simpl in *. destruct (C c' t Hc') as [C1 C2]. split; [lia|].
    intros c''. rewrite lookup_insert. case_decide; [subst; lia | apply C2].
Qed.

Lemma throttledProcess_scheduled c w :
  scheduleSound None w -> processingScheduled c (throttledProcess c w).
Proof.
  intros H. pose proof (sound_throttledProcess None c w H) as (_ & B & _).
  destruct (throttledProcess_isSome c w) as [t Ht].
  exists t. split; [exact Ht|]. now apply B.
Qed.


















End ThrottleFacts.

(** *** The statements above at the sample worlds *)

Section ThrottleFactsExamples.
Import JsString Shortener Wiring Throttling.
#[local] Existing Instance sampleBrowser.


End ThrottleFactsExamples.

(** ** The interval of the watcher *)

Section WatcherIntervalFacts.
Import WatcherInterval.

(** X24. The watcher is driven by at most one interval.  After any
    sequence of calls of [initializeWatcherSystem] and
    [dismantleWatcherSystem], the browser holds exactly the interval whose
    handle is in [watcherSystem.intervalId], and none when that is null; so
    repeated initialization does not make [watcherTick] run more often, and
    after a dismantle it does not run at all. *)
Theorem X24_one_watcher_interval (calls : list Call) :
  let w := foldl call initialWorld calls in
  intervals w = match intervalId w with Some h => {[ h ]} | None => ∅ end
  /\ intervals (dismantleWatcherSystem w) = ∅
  /\ (exists h, intervals (initializeWatcherSystem w) = {[ h ]}
                /\ intervalId (initializeWatcherSystem w) = Some h).
Proof.
  cbv zeta.
  assert (Hinit : forall w,
            intervals w = match intervalId w with Some h => {[ h ]} | None => ∅ end ->
            intervals (initializeWatcherSystem w) = {[ nextHandle w ]}
            /\ intervalId (initializeWatcherSystem w) = Some (nextHandle w)).
  { intros w Hw. unfold initializeWatcherSystem. cbv zeta.
    destruct (intervalId w) as [h|]; simpl; rewrite Hw.
    - now rewrite difference_diag_L, union_empty_r_L.
    - now rewrite union_empty_r_L. }
  assert (Hdis : forall w,
            intervals w = match intervalId w with Some h => {[ h ]} | None => ∅ end ->
            intervals (dismantleWatcherSystem w) = ∅
            /\ intervalId (dismantleWatcherSystem w) = None).
  { intros w Hw. unfold dismantleWatcherSystem.
    destruct (intervalId w) as [h|] eqn:E; simpl.
    - rewrite Hw. now rewrite difference_diag_L.
    - now rewrite E. }
  assert (Hinv : intervals (foldl call initialWorld calls)
                 = match intervalId (foldl call initialWorld calls) with
                   | Some h => {[ h ]} | None => ∅ end).
  { induction calls as [|c calls IH] using rev_ind; [reflexivity|].
    rewrite foldl_snoc. set (w0 := foldl call initialWorld calls) in *.
    destruct c; unfold call.
    - destruct (Hinit _ IH) as [-> ->]. reflexivity.
    - destruct (Hdis _ IH) as [-> ->]. reflexivity. }
  split; [exact Hinv|]. split; [apply Hdis, Hinv|].
  eexists. apply Hinit, Hinv.
Qed.

End WatcherIntervalFacts.

(** ** The rendered file tree *)

Section RenderTreeFacts.
Import JsString Filters FilterStats Selection.

Lemma Tree_induction (P : Tree -> Prop) :
  P (Node []) ->
  (forall key sub rest, P sub -> P (Node rest) -> P (Node ((key, sub) :: rest))) ->
  forall t, P t.
Proof.
  intros H0 Hc.
  exact (fix F (t : Tree) : P t :=
           match t with
           | Node es =>
               (fix G (es : list (string * Tree)) : P (Node es) :=
                  match es with
                  | [] => H0
                  | (k, sub) :: rest => Hc k sub rest (F sub) (G rest)
                  end) es
           end).
Qed.

Lemma renderTree_nil path : renderTree (Node []) path = Some [].
Proof. reflexivity. Qed.

Lemma renderTree_cons key sub rest path :
  renderTree (Node ((key, sub) :: rest)) path
  = if markupPlain (joinPath path [key]) then
      match renderTree sub (joinPath path [key]), renderTree (Node rest) path with
      | Some below, Some others =>
          Some ({| dataPath := joinPath path [key];
                   dataExt := if isDirNode sub then None
                              else Some (lastSegment "." key);
                   checked := false;
                   span := S (length below) |} :: below ++ others)
      | _, _ => None
      end
    else None.
Proof.
  destruct sub as [[|e es]]; reflexivity.
Qed.

(** What [renderTree] returns for a list of entries, when it returns. *)
Lemma renderTree_cons_Some key sub rest path bs :
  renderTree (Node ((key, sub) :: rest)) path = Some bs ->
  exists below others,
    renderTree sub (joinPath path [key]) = Some below
    /\ renderTree (Node rest) path = Some others
    /\ markupPlain (joinPath path [key]) = true
    /\ bs = {| dataPath := joinPath path [key];
               dataExt := if isDirNode sub then None
                          else Some (lastSegment "." key);
               checked := false;
               span := S (length below) |} :: below ++ others.
Proof.
  rewrite renderTree_cons.
  destruct (markupPlain (joinPath path [key])); [|discriminate].
  destruct (renderTree sub (joinPath path [key])) as [below|]; [|discriminate].
  destruct (renderTree (Node rest) path) as [others|]; [|discriminate].
  intros [= <-]. now exists below, others.
Qed.

Lemma keyPaths_cons key sub rest :
  keyPaths (Node ((key, sub) :: rest))
  = [key] :: (cons key <$> keyPaths sub) ++ keyPaths (Node rest).
Proof. reflexivity. Qed.

Lemma wellKeyed_cons key sub rest :
  wellKeyed (Node ((key, sub) :: rest))
  <-> key <> EmptyString /\ hasChar "/" key = false /\ (key ∉ rest.*1)
      /\ wellKeyed sub /\ wellKeyed (Node rest).
Proof. reflexivity. Qed.

Lemma plainNames_cons key sub rest :
  plainNames (Node ((key, sub) :: rest))
  <-> markupPlain key = true /\ plainNames sub /\ plainNames (Node rest).
Proof. reflexivity. Qed.

Lemma renderTree_file sub path :
  isDirNode sub = false -> renderTree sub path = Some [].
Proof. destruct sub as [[|e es]]; [reflexivity | discriminate]. Qed.

(** *** Shape *)

Lemma covered_cons (cb : Checkbox) (below rest : list Checkbox) :
  span cb = S (length below) -> covered below -> covered rest ->
  covered (cb :: below ++ rest).
Proof.
  intros Hs Hb Hr j x Hj. simpl. rewrite length_app.
  destruct j as [|j]; simpl in Hj.
  - injection Hj as <-. lia.
  - destruct (decide (j < length below)%nat) as [Hlt|Hge].
    + rewrite lookup_app_l in Hj by exact Hlt. apply Hb in Hj. lia.
    + rewrite lookup_app_r in Hj by lia. apply Hr in Hj. lia.
Qed.

Lemma render_shape (t : Tree) :
  forall path bs,
    renderTree t path = Some bs ->
    Forall (fun cb => (1 <= span cb)%nat /\ checked cb = false
                      /\ (is_Some (dataExt cb) -> span cb = 1%nat)) bs
    /\ covered bs.
Proof.
  induction t as [|key sub rest IHsub IHrest] using Tree_induction; intros path bs.
  - intros [= <-]. split; [constructor|]. intros j cb Hj. discriminate.
  - intros (below & others & Hb & Ho & _ & ->)%renderTree_cons_Some.
    destruct (IHsub _ _ Hb) as [A1 B1].
    destruct (IHrest _ _ Ho) as [A2 B2]. split.
    + constructor; [|now apply Forall_app].
      simpl. split; [lia|]. split; [reflexivity|].
      destruct (isDirNode sub) eqn:E; [intros [? ?]; discriminate|].
      intros _. rewrite renderTree_file in Hb by exact E. now injection Hb as <-.
    + now apply covered_cons.
Qed.

(** *** Paths *)

Lemma joinPath_snoc path keys key :
  joinPath path (keys ++ [key]) = joinPath (joinPath path keys) [key].
Proof. unfold joinPath. now rewrite foldl_app. Qed.

Lemma joinPath_cons path key keys :
  joinPath path (key :: keys) = joinPath (joinPath path [key]) keys.
Proof. reflexivity. Qed.

Lemma render_paths (t : Tree) :
  forall path bs,
    renderTree t path = Some bs ->
    length bs = length (keyPaths t)
    /\ forall j cb keys,
         bs !! j = Some cb -> keyPaths t !! j = Some keys ->
         dataPath cb = joinPath path keys
         /\ forall e, dataExt cb = Some e ->
                      e = lastSegment "." (default EmptyString (last keys)).
Proof.
  induction t as [|key sub rest IHsub IHrest] using Tree_induction; intros path bs.
  - intros [= <-]. split; [reflexivity|]. intros j cb keys Hj. discriminate.
  - intros (below & others & Hb & Ho & _ & ->)%renderTree_cons_Some.
    rewrite keyPaths_cons.
    destruct (IHsub _ _ Hb) as [A1 B1].
    destruct (IHrest _ _ Ho) as [A2 B2]. split.
    + cbn [length]. now rewrite !length_app, length_fmap, A1, A2.
    + intros j cb keys Hj Hk. rewrite lookup_cons in Hj. rewrite lookup_cons in Hk.
      destruct j as [|j]; cbv iota in Hj, Hk.
      * injection Hj as <-. injection Hk as <-. simpl. split; [reflexivity|].
        intros e He. destruct (isDirNode sub); [discriminate|]. congruence.
      * destruct (decide (j < length below)%nat) as [Hlt|Hge].
        -- rewrite lookup_app_l in Hj by exact Hlt.
           rewrite lookup_app_l in Hk by (rewrite length_fmap; lia).
           rewrite list_lookup_fmap in Hk.
           destruct (keyPaths sub !! j) as [ks|] eqn:Eks; [|discriminate].
           injection Hk as <-. destruct (B1 j cb ks Hj Eks) as [P1 P2].
           split; [now rewrite joinPath_cons|].
           intros e He. rewrite (P2 e He).
           destruct ks as [|k0 ks]; [|reflexivity].
           exfalso. clear -Eks.
           revert j Eks. induction sub as [|k s r _ IHr] using Tree_induction;
             intros j Eks; [discriminate|].
           rewrite keyPaths_cons in Eks. destruct j as [|j]; [discriminate|].
           simpl in Eks. apply lookup_app_Some in Eks as [Eks|[_ Eks]].
           ++ rewrite list_lookup_fmap in Eks.
              destruct (keyPaths s !! j); discriminate.
           ++ now apply IHr in Eks.
        -- rewrite lookup_app_r in Hj by lia.
           rewrite lookup_app_r in Hk by (rewrite length_fmap; lia).
           rewrite length_fmap, <- A1 in Hk. exact (B2 _ cb keys Hj Hk).
Qed.

Lemma anyChar_app (p : ascii -> bool) (s t : string) :
  anyChar p (s +:+ t) = anyChar p s || anyChar p t.
Proof.
  induction s as [|c s IH]; [now rewrite append_nil_l|].
  rewrite append_cons. simpl. rewrite IH. now rewrite orb_assoc.
Qed.

Lemma markupPlain_joinPath (path key : string) :
  markupPlain path = true -> markupPlain key = true ->
  markupPlain (joinPath path [key]) = true.
Proof.
  unfold markupPlain. intros Hp Hk. destruct path as [|c path]; [exact Hk|].
  change (joinPath (String c path) [key])
    with (String c path +:+ "/" +:+ key).
  rewrite !anyChar_app. apply negb_true_iff in Hp, Hk. rewrite Hp, Hk.
  reflexivity.
Qed.

(** With plain names below a plain path, [renderTree] returns. *)
Lemma render_plain (t : Tree) :
  forall path, markupPlain path = true -> plainNames t ->
               is_Some (renderTree t path).
Proof.
  induction t as [|key sub rest IHsub IHrest] using Tree_induction; intros path Hp.
  - intros _. now exists [].
  - rewrite plainNames_cons. intros (Hk & Hsub & Hrest).
    rewrite renderTree_cons.
    pose proof (markupPlain_joinPath path key Hp Hk) as Hj. rewrite Hj.
    destruct (IHsub _ Hj Hsub) as [below ->].
    destruct (IHrest _ Hp Hrest) as [others ->]. eauto.
Qed.

Lemma keyPaths_heads (es : list (string * Tree)) (ks : list string) :
  ks ∈ keyPaths (Node es) -> exists k tl, ks = k :: tl /\ k ∈ es.*1.
Proof.
  induction es as [|[key sub] rest IH]; [intros H; now apply elem_of_nil in H|].
  rewrite keyPaths_cons. intros H. apply elem_of_cons in H as [->|H].
  - exists key, []. split; [reflexivity|]. apply list_elem_of_here.
  - apply elem_of_app in H as [H|H].
    + apply list_elem_of_fmap in H as (tl & -> & _).
      exists key, tl. split; [reflexivity|]. apply list_elem_of_here.
    + destruct (IH H) as (k & tl & -> & Hk). exists k, tl.
      split; [reflexivity|]. now apply list_elem_of_further.
Qed.

Lemma keyPaths_good (t : Tree) :
  wellKeyed t ->
  NoDup (keyPaths t)
  /\ Forall (fun ks => ks <> []
                       /\ Forall (fun k => k <> EmptyString /\ hasChar "/" k = false) ks)
            (keyPaths t).
Proof.
  induction t as [|key sub rest IHsub IHrest] using Tree_induction.
  - intros _. split; constructor.
  - rewrite wellKeyed_cons, keyPaths_cons. intros (Hne & Hsl & Hnin & Hsub & Hrest).
    destruct (IHsub Hsub) as [N1 F1]. destruct (IHrest Hrest) as [N2 F2]. split.
    + apply NoDup_cons. split.
      * intros H. apply elem_of_app in H as [H|H].
        -- apply list_elem_of_fmap in H as (tl & Heq & Hin). injection Heq as <-.
           rewrite Forall_forall in F1. now destruct (F1 _ Hin).
        -- apply keyPaths_heads in H as (k & tl & Heq & Hk). injection Heq as <- _.
           contradiction.
      * apply NoDup_app. split; [|split; [|exact N2]].
        -- apply NoDup_fmap_2; [|exact N1]. intros a b [= ->]. reflexivity.
        -- intros ks H1 H2. apply list_elem_of_fmap in H1 as (tl & -> & _).
           apply keyPaths_heads in H2 as (k & tl' & Heq & Hk). injection Heq as <- _.
           contradiction.
    + constructor; [split; [discriminate|]; repeat constructor; assumption|].
      apply Forall_app. split; [|exact F2].
      apply Forall_fmap. eapply Forall_impl; [exact F1|].
      intros ks [_ Hks]. simpl. split; [discriminate|]. now constructor.
Qed.

Lemma split_append_key (p k : string) :
  hasChar "/" k = false ->
  split "/" (p +:+ String "/" k) = split "/" p ++ [k].
Proof.
  intros Hk. induction p as [|c p IH].
  - rewrite append_nil_l. simpl.
    destruct (split_shape "/" k) as (h & t & Hs & Hno & _). rewrite Hs.
    now destruct (Hno Hk) as [-> ->].
  - rewrite append_cons. simpl. rewrite IH.
    destruct (Ascii.eqb c "/"); [reflexivity|].
    destruct (split_shape "/" p) as (h & t & Hs & _). now rewrite Hs.
Qed.

Lemma joinPath_single_nonempty (p k : string) :
  k <> EmptyString -> joinPath p [k] <> EmptyString.
Proof.
  intros Hk. unfold joinPath. simpl. destruct p as [|c p]; [exact Hk|].
  rewrite append_cons. discriminate.
Qed.

Lemma joinPath_single (p k : string) :
  p <> EmptyString -> joinPath p [k] = p +:+ String "/" k.
Proof. intros Hp. destruct p as [|c p]; [contradiction | reflexivity]. Qed.

Lemma split_joinPath (keys : list string) :
  keys <> [] ->
  Forall (fun k => k <> EmptyString /\ hasChar "/" k = false) keys ->
  split "/" (joinPath EmptyString keys) = keys
  /\ joinPath EmptyString keys <> EmptyString.
Proof.
  induction keys as [|k keys IH] using rev_ind; [contradiction|].
  intros _ Hall. apply Forall_app in Hall as [Hall Hk].
  apply Forall_singleton in Hk as [Hne Hsl]. rewrite joinPath_snoc.
  destruct keys as [|k0 keys].
  - simpl. split; [|exact Hne].
    destruct (split_shape "/" k) as (h & t & Hs & Hno & _). rewrite Hs.
    now destruct (Hno Hsl) as [-> ->].
  - destruct (IH ltac:(discriminate) Hall) as [IH1 IH2].
    split; [|now apply joinPath_single_nonempty].
    rewrite (joinPath_single _ k IH2), split_append_key by exact Hsl.
    now rewrite IH1.
Qed.

(** X25. The check boxes [renderTree] builds.  For a tree whose names are
    free of the characters that the HTML parser does not take as they are
    (quotation mark, ampersand, less-than sign, carriage return, NUL), the
    tree is rendered.  Whenever it is: every box is unchecked and its tree
    item holds at least its own box; the item of a file holds exactly one
    box; no item reaches beyond the end of the list; and if the names are
    non-empty, contain no slash and are distinct within each directory,
    then, rendered from the root, the paths of the boxes are pairwise
    distinct and non-empty, and the [data-ext] of a file item is the part of
    the file's name after its last dot. *)
Theorem X25_render_tree (t : Tree) :
  (plainNames t -> is_Some (renderTree t EmptyString))
  /\ forall bs, renderTree t EmptyString = Some bs ->
       spanPositive bs
       /\ filesAreLeaves bs
       /\ covered bs
       /\ (forall j cb, bs !! j = Some cb -> checked cb = false)
       /\ (wellKeyed t ->
           pathsDistinct bs
           /\ forall j cb, bs !! j = Some cb ->
                dataPath cb <> EmptyString
                /\ forall e, dataExt cb = Some e -> e = itemExtension (dataPath cb)).
Proof.
  split; [now apply render_plain|]. intros bs Hbs.
  destruct (render_shape t EmptyString bs Hbs) as [Hshape Hcov].
  rewrite Forall_lookup in Hshape.
  split; [|split; [|split; [exact Hcov|split]]].
  - intros j cb Hj. now destruct (Hshape j cb Hj).
  - intros j cb Hj. now destruct (Hshape j cb Hj) as (_ & _ & H).
  - intros j cb Hj. now destruct (Hshape j cb Hj) as (_ & H & _).
  - intros Hwk. destruct (keyPaths_good t Hwk) as [Hnd Hgood].
    rewrite Forall_lookup in Hgood.
    destruct (render_paths t EmptyString bs Hbs) as [Hlen Hpaths].
    assert (Hkeys : forall j cb, bs !! j = Some cb ->
              exists keys, keyPaths t !! j = Some keys
                           /\ dataPath cb = joinPath EmptyString keys
                           /\ split "/" (dataPath cb) = keys
                           /\ dataPath cb <> EmptyString
                           /\ forall e, dataExt cb = Some e ->
                                        e = lastSegment "." (default EmptyString (last keys))).
    { intros j cb Hj.
      destruct (lookup_lt_is_Some_2 (keyPaths t) j) as [keys Hk].
      { rewrite <- Hlen. eapply lookup_lt_Some, Hj. }
      exists keys. destruct (Hpaths j cb keys Hj Hk) as [P1 P2].
      destruct (Hgood j keys Hk) as [G1 G2].
      destruct (split_joinPath keys G1 G2) as [S1 S2].
      rewrite P1. auto. }
    split.
    + intros i j a b Hi Hj Hp _.
      destruct (Hkeys i a Hi) as (ka & Ka & _ & Sa & _).
      destruct (Hkeys j b Hj) as (kb & Kb & _ & Sb & _).
      assert (Hab : ka = kb) by congruence. rewrite <- Hab in Kb.
      exact (NoDup_lookup _ _ _ _ Hnd Ka Kb).
    + intros j cb Hj. destruct (Hkeys j cb Hj) as (keys & _ & _ & S & Hne & He).
      split; [exact Hne|]. intros e Hext. rewrite (He e Hext).
      unfold itemExtension. f_equal. unfold lastSegment. now rewrite S.
Qed.

Lemma X25_render_tree_witness :
  renderTree sampleTree EmptyString = Some sampleBoxes
  /\ pathsDistinct sampleBoxes.
Proof.
  assert (Hwk : wellKeyed sampleTree).
  { simpl. repeat split; try discriminate;
      try (intros H; repeat (apply elem_of_cons in H as [H|H]; [discriminate|]);
           now apply elem_of_nil in H). }
  assert (Hr : renderTree sampleTree EmptyString = Some sampleBoxes)
    by (vm_compute; reflexivity).
  split; [exact Hr|].
  exact (proj1 (proj2 (proj2 (proj2 (proj2
           (proj2 (X25_render_tree sampleTree) sampleBoxes Hr)))) Hwk)).
Defined.

End RenderTreeFacts.
